(* ===== verification/_CoqProject ===== *)
-Q . S2P
Prelude.v
GoStrings.v
StringFacts.v
Utf8Facts.v
Sha256.v
Schema.v
WellFormed.v
Bundle.v
Descriptor.v
Compiler.v
Examples.v
CompilerFacts.v
HistoryFacts.v
Evolution.v
CompiledTrees.v
Termination.v
CompileSpec.v
CompileBundle.v
BundleSpec.v
Json.v
JsonParse.v
JsonSpec.v
Render.v
Sqlite.v
SqliteSpec.v
Postgres.v
PostgresSpec.v
Iceberg.v
IcebergSpec.v
Arrow.v
ArrowSpec.v
Parquet.v
ClickHouse.v
ClickHouseFacts.v
ClickHouseSpec.v
Projection.v
ProjectionSpec.v
ParsedDescriptor.v
ParsedSpec.v
JsonSchema.v
Reachable.v
ReachableSpec.v
Server.v
ServerSpec.v
RegistrationSpec.v
Base64.v
Metadata.v
MetadataSpec.v
Url.v
Connect.v
ConnectSpec.v
HttpRequest.v
HttpRequestSpec.v
HttpClient.v
HttpClientSpec.v
HttpConnect.v
Stream.v
HttpHandler.v
HttpHandlerSpec.v
RawJson.v
Errors.v
Mcp.v
McpSpec.v
McpParseSpec.v
Reflection.v
Cli.v
CliSpec.v
Validation.v
OpenApiModel.v
OpenApiSchema.v
OpenApiImport.v
OpenApiRender.v
OpenApiSchemaSpec.v
OpenApiNames.v
OpenApiSpec.v
OpenApiTheorems.v
Tool.v
SchemaTool.v
ToolSpec.v
Serve.v
