(* ===== verification/Prelude.v ===== *)
(** * Invariant Protocol: a model of the Go implementation

    The program (src/go) turns a set of protobuf descriptors into two things.  The
    data compiler (src/go/data) turns annotated messages into versioned logical
    schemas whose stable ids survive every revision, and renders them for SQLite,
    PostgreSQL, Iceberg, Arrow, Parquet and ClickHouse.  The server (the other files
    of src/go) turns services into tools and projects them over gRPC, Connect/HTTP,
    MCP and a command line.

    ** Conventions

    A Go function that returns an error is a function into [Outcome]: a value, an
    error with its text, a panic, or an exhausted recursion bound.  Machine integers
    are [Z] and are wrapped where the source converts them;
    strings are byte strings, decoded into runes where the source ranges over them
    (GoStrings, Utf8Facts).  Go maps are [gmap]s; where the source iterates over one,
    either it sorts the keys and so does the model, or the theorem holds for every
    order.  A struct that is mutated is passed as a state.  Code outside the
    repository is a class: its operations are methods, and what the program relies
    on are laws in a second class, each with an instance that shows they can hold.

    - [Protoreflect], [DescriptorRuntime] (Descriptor.v, CompileBundle.v): protobuf
      descriptors, the decoder and the linker;
    - [BundleRuntime] (Bundle.v): the wire format of a schema bundle;
    - [IcebergRuntime], [ArrowRuntime], [ParquetRuntime]: iceberg-go, arrow-go and
      pqarrow;
    - [World] (Server.v): the environment, the linked registry and the generated
      descriptors a server is built on;
    - [CodeNames] (Connect.v): the enum names of google.rpc.Code;
    - [MetadataLib] (Metadata.v): metadata.Join;
    - [UnicodeTables], [UnicodeLaws] (OpenApiModel.v): the Unicode classes and case
      mappings, and how they are on ASCII;
    - [GoLib] (OpenApiSchema.v): float32 and regexp.Compile;
    - [ToolRuntime] (SchemaTool.v): the text the tools print of Arrow, Parquet and
      Iceberg schemas.

    ** Files

    Shared: Prelude (outcomes, integers, lists, automation), GoStrings, StringFacts,
    Utf8Facts (strings, strconv, strings, unicode/utf8), Sha256, Json, Base64.

    Data compiler.  Schema and WellFormed: the generated model of
    gen/invariant/data/v1 and its invariant.  Bundle: data/bundle.go.  Descriptor,
    Compiler, CompileBundle: data/compiler.go; the struct [datasetCompiler] is the
    state that compilation threads.  CompilerFacts, HistoryFacts, Evolution,
    CompiledTrees, Termination, CompileSpec, BundleSpec: what it guarantees.  A
    dataset never gives one stable id to two identities, its ledger only grows,
    retired ids and names are never reused, the shape of a field never changes, the
    result is well formed, and compilation ends on every registry; a bundle of the
    previous version is migrated exactly when nothing in it would be lost.  Examples
    holds concrete registries on which the theorems are applied.

    Renderers.  Render (the shared diagnostics), Sqlite, Postgres, Iceberg, Arrow,
    Parquet, ClickHouse and Projection, each with a Spec file: every well-formed
    dataset is rendered, with one diagnostic per logical field and its stable id;
    names, comments and literals cannot leave their tokens; identifiers fit the
    target's bounds; optimised or bridged forms equal their reference definitions.

    Server.  ParsedDescriptor (descriptor.go), JsonSchema (schema.go), Reachable
    (the descriptor comparison of registration.go), Server (server.go and
    registration.go), Reflection (grpc_server.go), Validation (validation.go).
    Their Spec files, or the second part of
    the same file, show that the parser indexes exactly the declarations of a
    descriptor set, that schema generation ends on recursive messages, that two
    services agree exactly when the files they reach do, that every sequence of
    calls keeps the registry consistent, what a registration leaves in each of its
    outcomes, that a frozen server never changes, that reflection shows exactly what is registered with its
    comments, and that an invalid request reaches no handler.

    Projections.  JsonParse, RawJson, Errors (encoding/json and errors.go), Metadata
    (http_metadata.go), Connect, HttpHandler (http.go), Stream (stream.go), Url,
    HttpRequest, HttpClient, HttpConnect (http_client.go and http_transcoding.go),
    Mcp (mcp.go), Cli (cli.go).  A streaming request is exactly one bounded
    envelope, and its response is one frame per message and one end frame whatever
    the handler does; unary responses stay within their limit; reserved metadata
    never reaches a handler; a client's request conserves every field, a call ends
    after its retries, and what a client makes of each error a server sends; the MCP
    dispatcher answers every request with an identifier, a session of it answers every
    line once in any interleaving, and a cancelled call is not answered, except that
    an error with a detail whose JSON is null panics; the tools the command
    line lists are the ones it calls.

    OpenAPI importer (internal/openapiimport).  OpenApiModel (model.go, and the module
    OpenApiDoc of what the importer reads of libopenapi's model), OpenApiSchema
    (schema.go), OpenApiImport (operation.go, importer.go) and OpenApiRender
    (render.go, Convert) are the code; the struct [converter] is the state of a small
    monad.  OpenApiSchemaSpec, OpenApiNames and OpenApiSpec hold the invariant and its
    preservation, and OpenApiTheorems the results: an imported file is well formed and renders, the
    importer ends on every document, objects keep exactly their properties and
    integer rules exactly their range.

    Command-line tools.  Tool has the files and the flags they use: a world of files,
    what of them is on the disk, and system calls each of which may fail.  SchemaTool
    is cmd/invariant-schema and cmd/invariant-openapi whole.  ToolSpec: a write
    replaces its file at once or not at all, and over any series of compiler runs, which
    may fail, be killed or lose power at any moment, the history in a bundle is never
    lost.

    Serving.  Serve: ServeProjections, the end of serveHTTP, the loop of an MCP session
    with its scanner, and the proxies of server.go and grpc_client.go.
    ServeProjections returns the first result and only when all has stopped; an MCP
    session returns only when its calls have been answered, and does return.

    ** Bounds

    Recursion that is not structural takes fuel.  The compiler needs one more than
    the number of messages of the registry, because it refuses a message that is
    already open ([compile_terminates]); the schema generator needs [schemaFuel],
    one more than the number of messages ([schema_total]); the descriptor search
    needs the size of the graph ([service_agreement]); the HTTP client one attempt
    more than its retries ([call_terminates]); the importer the depth of a schema and
    of every component, because a component that is being built is not built again
    ([import_total]).  Those theorems prove the result is returned, not only that it
    is right when it is.  JSON nests at most 10000 deep, as in encoding/json.

    ** Not modelled

    Sockets, the gRPC runtime and net/http: building, serving and stopping a
    grpc.Server are calls of the library, and a listener is a parameter that says how
    it ended.  Locks: each locked section is one step.  Panics of the application where
    nothing recovers them: a tool returns a value or an error.  The protobuf runtime beyond
    the classes above, and generated code other than the data types the program reads.
    Links and permissions in the file system, beyond the mode of a file.
    scripts/generate_cdc_v2_fixtures.go, which writes the fixtures of the tests. *)
From stdpp Require Export base strings gmap list sorting numbers.
From Stdlib Require Export Ascii Lia ZifyBool ZifyN.
From Stdlib Require Import DecimalString.

Declare Scope go_scope.
Delimit Scope go_scope with go.

(** ** Outcomes of Go functions

    A Go function that returns [(T, error)] is modelled by [Outcome T]:
    [Err msg] carries the text [err.Error()] yields, [Panic] a run-time panic
    (a nil dereference) and [NoFuel] the exhaustion of the recursion bound of a
    fuelled definition, which the termination theorems show is not reached. *)
Inductive Outcome (A : Type) : Type :=
  | Ok (a : A)
  | Err (msg : string)
  | Panic (msg : string)
  | NoFuel.
Arguments Ok {A} a.
Arguments Err {A} msg.
Arguments Panic {A} msg.
Arguments NoFuel {A}.

#[export] Instance outcome_ret : MRet Outcome := fun A a => Ok a.
#[export] Instance outcome_bind : MBind Outcome := fun A B f m =>
  match m with
  | Ok a => f a
  | Err e => Err e
  | Panic e => Panic e
  | NoFuel => NoFuel
  end.

(** [fmt.Errorf(prefix + "%w", err)]: the prefix is put before the text of an
    error that is already there. *)
Definition wrapErr {A} (prefix : string) (m : Outcome A) : Outcome A :=
  match m with
  | Err e => Err (prefix +:+ e)
  | _ => m
  end.

(** [if cond { return err }]. *)
Definition failIf (cond : bool) (msg : string) : Outcome unit :=
  if cond then Err msg else Ok tt.

Definition isOk {A} (m : Outcome A) : bool :=
  match m with Ok _ => true | _ => false end.

(** A [for] loop that stops at the first error, over a list. *)
Definition forEach {A} (f : A -> Outcome unit) : list A -> Outcome unit :=
  fix go l :=
  match l with
  | [] => Ok tt
  | x :: l => _ ← f x; go l
  end.

(** A loop that collects one result per element. *)
Definition mapOutcome {A B} (f : A -> Outcome B) : list A -> Outcome (list B) :=
  fix go l :=
  match l with
  | [] => Ok []
  | x :: l => y ← f x; ys ← go l; Ok (y :: ys)
  end.

(** A loop that threads a state. *)
Definition foldOutcome {A S} (f : S -> A -> Outcome S) : list A -> S -> Outcome S :=
  fix go l s :=
  match l with
  | [] => Ok s
  | x :: l => s ← f s x; go l s
  end.

(** ** Lemmas on outcomes *)

Create HintDb outcome discriminated.

Lemma Ok_inj {A} (a b : A) : Ok a = Ok b -> a = b.
Proof. congruence. Qed.

Lemma bind_Ok {A B} (m : Outcome A) (f : A -> Outcome B) b :
  m ≫= f = Ok b <-> exists a, m = Ok a /\ f a = Ok b.
Proof.
  destruct m; simpl; naive_solver.
Qed.

Lemma bind_NoFuel {A B} (m : Outcome A) (f : A -> Outcome B) :
  m ≫= f = NoFuel <-> m = NoFuel \/ exists a, m = Ok a /\ f a = NoFuel.
Proof.
  destruct m; simpl; split; try naive_solver.
Qed.

Lemma wrapErr_Ok {A} p (m : Outcome A) a : wrapErr p m = Ok a <-> m = Ok a.
Proof. destruct m; simpl; split; congruence. Qed.

Lemma wrapErr_NoFuel {A} p (m : Outcome A) : wrapErr p m = NoFuel <-> m = NoFuel.
Proof. destruct m; simpl; split; congruence. Qed.

Lemma failIf_Ok b msg u : failIf b msg = Ok u <-> b = false.
Proof. destruct b, u; simpl; split; congruence. Qed.

Lemma failIf_NoFuel b msg : failIf b msg <> NoFuel.
Proof. by destruct b. Qed.

(** *** Loops that thread a state *)

Lemma foldOutcome_inv {A S} (P : S -> Prop) (f : S -> A -> Outcome S) l s s' :
  (forall s a s', P s -> f s a = Ok s' -> P s') -> P s -> foldOutcome f l s = Ok s' -> P s'.
Proof.
  intros Hf. revert s. induction l as [|a l IH]; intros s Hs; cbn [foldOutcome]; [by intros [= <-]|].
  intros (s1&H1&H2)%bind_Ok. eapply IH; [|exact H2]. by eapply Hf.
Qed.
Lemma foldOutcome_app {A S} (f : S -> A -> Outcome S) l l' s : foldOutcome f (l ++ l') s = s1 ← foldOutcome f l s; foldOutcome f l' s1.
Proof. revert s. induction l as [|a l IH]; intros s; [done|]. cbn [app foldOutcome]. destruct (f s a); [apply IH|done..]. Qed.
(** A run that does not return fails in one of its steps. *)
Definition failure {A} (o : Outcome A) : option (option string * option string) :=
  match o with Ok _ => None | Err e => Some (Some e, None) | Panic e => Some (None, Some e) | NoFuel => Some (None, None) end.
Lemma foldOutcome_failure {A S} (f : S -> A -> Outcome S) l s x :
  failure (foldOutcome f l s) = Some x -> exists before a after s', l = before ++ a :: after /\ foldOutcome f before s = Ok s' /\ failure (f s' a) = Some x.
Proof.
  revert s. induction l as [|a l IH]; intros s; [done|]. cbn [foldOutcome]. destruct (f s a) as [s1| | |] eqn:E; cbn [mbind outcome_bind].
  { intros (before&a'&after&s'&->&Hs&Hx)%IH. exists (a :: before), a', after, s'. cbn [foldOutcome]. by rewrite E. }
  all: intros Hx; exists [], a, l, s; by rewrite E.
Qed.

(** Case analysis on every step of a computation known to succeed. *)
Ltac outcome_step H :=
  first
    [ apply bind_Ok in H;
      let a := fresh "v" in let Ha := fresh "Hv" in
      destruct H as [a [Ha H]]; try outcome_step Ha
    | apply wrapErr_Ok in H; try outcome_step H
    | apply failIf_Ok in H ].

Ltac outcome_inv H := repeat outcome_step H; simplify_eq.

Lemma forEach_Ok {A} (f : A -> Outcome unit) l u :
  forEach f l = Ok u <-> Forall (fun x => f x = Ok tt) l.
Proof.
  destruct u. induction l as [|x l IH]; simpl.
  - split; [constructor|done].
  - rewrite bind_Ok. split.
    + intros [[] [Hx Hl]]. constructor; [done|]. by apply IH.
    + intros H. inversion H; subst. exists tt. split; [done|]. by apply IH.
Qed.

Lemma mapOutcome_Ok {A B} (f : A -> Outcome B) l ys :
  mapOutcome f l = Ok ys <-> Forall2 (fun x y => f x = Ok y) l ys.
Proof.
  revert ys. induction l as [|x l IH]; intros ys; simpl.
  - split.
    + intros [= <-]. constructor.
    + intros H. by inversion H.
  - rewrite bind_Ok. split.
    + intros [y [Hy H]]. apply bind_Ok in H as [ys' [Hys [= <-]]].
      constructor; [done|]. by apply IH.
    + intros H. inversion H as [|? y ? ys' Hy Hys]; subst.
      exists y. split; [done|]. apply IH in Hys. simpl. by rewrite Hys.
Qed.

Lemma mapOutcome_length {A B} (f : A -> Outcome B) l ys :
  mapOutcome f l = Ok ys -> length ys = length l.
Proof. intros H%mapOutcome_Ok. by apply Forall2_length in H. Qed.

(** A decidable proposition on concrete data. *)
Ltac by_computation := apply (bool_decide_unpack _); vm_compute; exact I.
