(* ===== verification/GoStrings.v ===== *)
(** * The Go standard library functions the sources use on text

    Go strings are byte strings: a [string] here is a list of bytes ([ascii] is
    eight bits wide).  This file models the functions of [strings], [strconv],
    [unicode], [unicode/utf8], [slices] and [fmt] the modelled packages call,
    under the names they have there.  Case classification ([unicode.IsUpper] and
    the like) is the ASCII restriction of Go's tables: the sources apply it to
    protobuf names, which are ASCII identifiers. *)
From S2P Require Import Prelude.
From Stdlib Require Import DecimalString DecimalN DecimalZ.

(** ** Bytes *)

Definition byteN (c : ascii) : N := N_of_ascii c.
Definition inRange (lo hi : N) (c : ascii) : bool :=
  (lo <=? byteN c)%N && (byteN c <=? hi)%N.

Definition isLower (c : ascii) : bool := inRange 97 122 c.
Definition isUpper (c : ascii) : bool := inRange 65 90 c.
Definition isDigit (c : ascii) : bool := inRange 48 57 c.
Definition toLowerByte (c : ascii) : ascii :=
  if isUpper c then ascii_of_N (byteN c + 32) else c.

Definition NUL : ascii := "000"%char.
Definition LF : ascii := "010"%char.
Definition CR : ascii := "013"%char.
Definition TAB : ascii := "009"%char.
Definition DQUOTE : ascii := "034"%char.
Definition SQUOTE : ascii := "039"%char.
Definition BACKSLASH : ascii := "092"%char.
Definition BACKTICK : ascii := "096"%char.
Definition USCORE : ascii := "095"%char.
Definition SLASH : ascii := "047"%char.

(** A one-byte string. *)
Definition str1 (c : ascii) : string := String c EmptyString.

(** ** Byte-wise traversals *)

Fixpoint mapBytes (f : ascii -> string) (s : string) : string :=
  match s with
  | EmptyString => EmptyString
  | String c s => f c +:+ mapBytes f s
  end.

Fixpoint allBytes (p : ascii -> bool) (s : string) : bool :=
  match s with
  | EmptyString => true
  | String c s => p c && allBytes p s
  end.

Definition containsByte (c : ascii) (s : string) : bool :=
  negb (allBytes (fun d => negb (Ascii.eqb c d)) s).

(** [strings.ToLower] on ASCII text. *)
Definition ToLower (s : string) : string := mapBytes (fun c => str1 (toLowerByte c)) s.

(** ** Prefixes, suffixes and cuts *)

Fixpoint HasPrefix (s p : string) : bool :=
  match p, s with
  | EmptyString, _ => true
  | String a p, String b s => Ascii.eqb a b && HasPrefix s p
  | String _ _, EmptyString => false
  end.

Fixpoint dropBytes (n : nat) (s : string) : string :=
  match n, s with
  | S n, String _ s => dropBytes n s
  | _, _ => s
  end.

Definition TrimPrefix (s p : string) : string :=
  if HasPrefix s p then dropBytes (String.length p) s else s.

Fixpoint revAppend (s acc : string) : string :=
  match s with
  | EmptyString => acc
  | String c s => revAppend s (String c acc)
  end.
Definition revString (s : string) : string := revAppend s EmptyString.

Definition HasSuffix (s p : string) : bool := HasPrefix (revString s) (revString p).
Definition TrimSuffix (s p : string) : string :=
  revString (TrimPrefix (revString s) (revString p)).

(** [strings.Split(s, string(sep))] for a one-byte separator. *)
Fixpoint Split (s : string) (sep : ascii) : list string :=
  match s with
  | EmptyString => [EmptyString]
  | String c s =>
      if Ascii.eqb c sep then EmptyString :: Split s sep
      else match Split s sep with
           | [] => [str1 c]
           | x :: xs => String c x :: xs
           end
  end.

(** [strings.Join]. *)
Fixpoint Join (l : list string) (sep : string) : string :=
  match l with
  | [] => EmptyString
  | [x] => x
  | x :: l => x +:+ sep +:+ Join l sep
  end.

(** [strings.CutLast(s, string(sep))]: the text around the last separator. *)
Fixpoint CutLast (s : string) (sep : ascii) : option (string * string) :=
  match s with
  | EmptyString => None
  | String c s =>
      match CutLast s sep with
      | Some (before, after) => Some (String c before, after)
      | None => if Ascii.eqb c sep then Some (EmptyString, s) else None
      end
  end.

(** [strings.ReplaceAll(s, old, new)] for a non-empty [old]: matches are taken
    from the left and do not overlap.  [skip] counts the bytes of a match that
    are still to be dropped. *)
Fixpoint replaceFrom (skip : nat) (old new s : string) : string :=
  match s with
  | EmptyString => EmptyString
  | String c s' =>
      match skip with
      | S skip => replaceFrom skip old new s'
      | O => if HasPrefix s old
             then new +:+ replaceFrom (Nat.pred (String.length old)) old new s'
             else String c (replaceFrom 0 old new s')
      end
  end.
Definition ReplaceAll (s old new : string) : string := replaceFrom 0 old new s.

(** [strings.Repeat]. *)
Fixpoint Repeat (s : string) (n : nat) : string :=
  match n with
  | O => EmptyString
  | S n => s +:+ Repeat s n
  end.

Fixpoint trimLeftByte (c : ascii) (s : string) : string :=
  match s with
  | EmptyString => EmptyString
  | String d s' => if Ascii.eqb c d then trimLeftByte c s' else s
  end.

(** [strings.Trim(s, string(c))] for a one-byte cutset. *)
Definition TrimByte (c : ascii) (s : string) : string :=
  revString (trimLeftByte c (revString (trimLeftByte c s))).

(** ** [strings.TrimSpace]

    The encodings of the runes [unicode.IsSpace] accepts. *)
Definition byte (n : N) : ascii := ascii_of_N n.
Definition bytes (l : list N) : string :=
  fold_right (fun n s => String (byte n) s) EmptyString l.

Definition spaceEncodings : list string :=
  map bytes
    ([[9]; [10]; [11]; [12]; [13]; [32]; [194; 133]; [194; 160];
      [225; 154; 128]; [226; 128; 128]; [226; 128; 129]; [226; 128; 130];
      [226; 128; 131]; [226; 128; 132]; [226; 128; 133]; [226; 128; 134];
      [226; 128; 135]; [226; 128; 136]; [226; 128; 137]; [226; 128; 138];
      [226; 128; 168]; [226; 128; 169]; [226; 128; 175]; [226; 129; 159];
      [227; 128; 128]]%N).

Fixpoint stripAll (fuel : nat) (pats : list string) (s : string) : string :=
  match fuel with
  | O => s
  | S fuel =>
      match List.find (HasPrefix s) pats with
      | Some p => stripAll fuel pats (dropBytes (String.length p) s)
      | None => s
      end
  end.

Definition trimSpaceLeft (pats : list string) (s : string) : string :=
  stripAll (String.length s) pats s.

Definition TrimSpace (s : string) : string :=
  revString (trimSpaceLeft (map revString spaceEncodings)
    (revString (trimSpaceLeft spaceEncodings s))).

(** ** [unicode/utf8]

    [runes s] is the decoding of a valid UTF-8 string, each rune with its
    bytes, and [None] when some byte is not part of a valid encoding (overlong
    forms and surrogates included). *)
Definition cont (c : ascii) : bool := inRange 128 191 c.

Fixpoint runes (s : string) : option (list (N * string)) :=
  match s with
  | EmptyString => Some []
  | String b0 r0 =>
      if inRange 0 127 b0 then cons (byteN b0, str1 b0) <$> runes r0
      else match r0 with
      | EmptyString => None
      | String b1 r1 =>
          if inRange 194 223 b0 then
            if cont b1
            then cons (((byteN b0 - 192) * 64 + (byteN b1 - 128))%N, String b0 (str1 b1)) <$> runes r1
            else None
          else match r1 with
          | EmptyString => None
          | String b2 r2 =>
              let ok3 :=
                if inRange 224 224 b0 then inRange 160 191 b1
                else if inRange 237 237 b0 then inRange 128 159 b1
                else inRange 225 239 b0 && cont b1 in
              if ok3 && cont b2
              then cons (((byteN b0 - 224) * 4096 + (byteN b1 - 128) * 64 + (byteN b2 - 128))%N,
                         String b0 (String b1 (str1 b2))) <$> runes r2
              else match r2 with
              | EmptyString => None
              | String b3 r3 =>
                  let ok4 :=
                    if inRange 240 240 b0 then inRange 144 191 b1
                    else if inRange 244 244 b0 then inRange 128 143 b1
                    else inRange 241 243 b0 && cont b1 in
                  if ok4 && cont b2 && cont b3
                  then cons (((byteN b0 - 240) * 262144 + (byteN b1 - 128) * 4096
                              + (byteN b2 - 128) * 64 + (byteN b3 - 128))%N,
                             String b0 (String b1 (String b2 (str1 b3)))) <$> runes r3
                  else None
              end
          end
      end
  end.

Definition ValidString (s : string) : bool :=
  match runes s with Some _ => true | None => false end.

(** [unicode.IsControl]: the C0 and C1 control characters. *)
Definition IsControl (r : N) : bool :=
  (r <=? 31)%N || ((127 <=? r)%N && (r <=? 159)%N).

(** ** [strconv] *)

(** [strconv.FormatInt(n, 10)], [strconv.FormatUint(n, 10)], [strconv.Itoa]. *)
Definition FormatInt (z : Z) : string := NilZero.string_of_int (Z.to_int z).
Definition FormatUint (n : N) : string := NilZero.string_of_uint (N.to_uint n).
Definition FormatBool (b : bool) : string := if b then "true" else "false".

Definition maxInt32 : Z := 2147483647.
Definition minInt32 : Z := -2147483648.

(** [strconv.ParseInt(s, 10, 32)], [None] on a syntax or range error. *)
Definition ParseInt32 (s : string) : option Z :=
  let magnitude d := Z.of_N <$> (N.of_uint <$> NilZero.uint_of_string d) in
  z ← match s with
      | String "-" d => Z.opp <$> magnitude d
      | String "+" d => magnitude d
      | _ => magnitude s
      end;
  if (minInt32 <=? z)%Z && (z <=? maxInt32)%Z then Some z else None.

Definition hexDigit (n : N) : ascii :=
  if (n <? 10)%N then ascii_of_N (48 + n) else ascii_of_N (87 + n).
Definition hexByte (c : ascii) : string :=
  String (hexDigit (byteN c / 16)) (str1 (hexDigit (byteN c mod 16))).

(** [hex.EncodeToString]. *)
Definition EncodeToString (s : string) : string := mapBytes hexByte s.

(** [strconv.Quote], the [%q] verb: exact on ASCII text, and on text whose
    other runes are printable. *)
Definition quoteByte (c : ascii) : string :=
  if Ascii.eqb c DQUOTE then String BACKSLASH (str1 DQUOTE)
  else if Ascii.eqb c BACKSLASH then String BACKSLASH (str1 BACKSLASH)
  else if Ascii.eqb c "007" then String BACKSLASH "a"
  else if Ascii.eqb c "008" then String BACKSLASH "b"
  else if Ascii.eqb c "012" then String BACKSLASH "f"
  else if Ascii.eqb c LF then String BACKSLASH "n"
  else if Ascii.eqb c CR then String BACKSLASH "r"
  else if Ascii.eqb c TAB then String BACKSLASH "t"
  else if Ascii.eqb c "011" then String BACKSLASH "v"
  else if inRange 0 31 c || inRange 127 127 c then String BACKSLASH (String "x" (hexByte c))
  else str1 c.
Definition Quote (s : string) : string :=
  String DQUOTE (mapBytes quoteByte s +:+ str1 DQUOTE).

(** [fmt.Sprintf("%v", []uint32{...})]. *)
Definition FormatUints (l : list N) : string :=
  "[" +:+ Join (map FormatUint l) " " +:+ "]".

(** ** Ordering: [cmp.Compare] on strings is byte-wise lexicographic. *)
Definition string_le (s t : string) : Prop := String.leb s t = true.
#[export] Instance string_le_dec s t : Decision (string_le s t).
Proof. unfold string_le. apply _. Defined.
Definition sortStrings (l : list string) : list string := merge_sort string_le l.

(** A [switch] on a string: the first case that matches. *)
Fixpoint assoc {A} (key : string) (cases : list (string * A)) : option A :=
  match cases with
  | [] => None
  | (k, v) :: cases => if decide (key = k) then Some v else assoc key cases
  end.
