(* ===== verification/StringFacts.v ===== *)
(** * Lemmas on the text functions

    Algebra of [append], prefixes and separators, decimal printing and parsing,
    and byte predicates: the facts the components share. *)
From S2P Require Import Prelude GoStrings.
From Stdlib Require Import DecimalString DecimalN DecimalZ DecimalPos.

Create HintDb text discriminated.

(** ** Append *)

Lemma append_cons c s t : String c s +:+ t = String c (s +:+ t).
Proof. done. Qed.
Lemma append_nil_l s : "" +:+ s = s.
Proof. done. Qed.
Lemma append_nil_r s : s +:+ "" = s.
Proof. induction s as [|c s IH]; [done|]. by rewrite append_cons, IH. Qed.
Lemma append_assoc s t u : (s +:+ t) +:+ u = s +:+ (t +:+ u).
Proof. induction s as [|c s IH]; [done|]. by rewrite !append_cons, IH. Qed.
Lemma length_append s t : String.length (s +:+ t) = String.length s + String.length t.
Proof. induction s as [|c s IH]; [done|]. rewrite append_cons. simpl. by rewrite IH. Qed.
Lemma append_inv_head s t u : s +:+ t = s +:+ u -> t = u.
Proof. induction s as [|c s IH]; [done|]. rewrite !append_cons. intros [=]. auto. Qed.
Lemma append_eq_nil s t : s +:+ t = "" <-> s = "" /\ t = "".
Proof. destruct s; [naive_solver|]. rewrite append_cons. naive_solver. Qed.

(** ** Byte predicates *)

Lemma allBytes_append p s t : allBytes p (s +:+ t) = allBytes p s && allBytes p t.
Proof.
  induction s as [|c s IH]; [done|]. rewrite append_cons. simpl. by rewrite IH, andb_assoc.
Qed.

Lemma allBytes_impl (p q : ascii -> bool) s :
  (forall c, p c = true -> q c = true) -> allBytes p s = true -> allBytes q s = true.
Proof.
  intros Hpq. induction s as [|c s IH]; [done|]. simpl.
  rewrite !andb_true_iff. naive_solver.
Qed.

Lemma mapBytes_append f s t : mapBytes f (s +:+ t) = mapBytes f s +:+ mapBytes f t.
Proof.
  induction s as [|c s IH]; [done|]. rewrite append_cons. simpl. by rewrite IH, append_assoc.
Qed.

Lemma allBytes_mapBytes p f s :
  (forall c, allBytes p (f c) = true) -> allBytes p (mapBytes f s) = true.
Proof.
  intros Hf. induction s as [|c s IH]; [done|]. simpl. by rewrite allBytes_append, Hf, IH.
Qed.

(** A byte does not occur. *)
Definition noByte (c : ascii) (s : string) : bool := allBytes (fun d => negb (Ascii.eqb d c)) s.

Lemma noByte_cons c d s : noByte c (String d s) = true <-> d <> c /\ noByte c s = true.
Proof.
  unfold noByte. simpl. rewrite andb_true_iff, negb_true_iff, Ascii.eqb_neq. done.
Qed.

Lemma noByte_append c s t : noByte c (s +:+ t) = noByte c s && noByte c t.
Proof. apply allBytes_append. Qed.

(** ** Prefixes *)

Lemma HasPrefix_append p s : HasPrefix (p +:+ s) p = true.
Proof.
  induction p as [|c p IH]; [by destruct s|]. rewrite append_cons. simpl.
  by rewrite Ascii.eqb_refl, IH.
Qed.

Lemma HasPrefix_spec p s : HasPrefix s p = true <-> exists t, s = p +:+ t.
Proof.
  split; [|intros [t ->]; apply HasPrefix_append].
  revert s. induction p as [|c p IH]; intros s Hp; [by exists s|].
  destruct s as [|d s]; [done|]. simpl in Hp.
  apply andb_true_iff in Hp as [->%Ascii.eqb_eq Hp].
  apply IH in Hp as [t ->]. by exists t.
Qed.

Lemma dropBytes_append p s : dropBytes (String.length p) (p +:+ s) = s.
Proof. induction p as [|c p IH]; [by destruct s|]. rewrite append_cons. done. Qed.

Lemma TrimPrefix_append p s : TrimPrefix (p +:+ s) p = s.
Proof. unfold TrimPrefix. by rewrite HasPrefix_append, dropBytes_append. Qed.

(** ** Separators *)

Lemma CutLast_None s c : noByte c s = true -> CutLast s c = None.
Proof.
  induction s as [|d s IH]; [done|]. intros [Hd Hs]%noByte_cons. simpl.
  by rewrite IH, (proj2 (Ascii.eqb_neq d c)).
Qed.

Lemma CutLast_append p c s :
  noByte c s = true -> CutLast (p +:+ String c s) c = Some (p, s).
Proof.
  intros Hs. induction p as [|d p IH].
  - rewrite append_nil_l. simpl. by rewrite CutLast_None, Ascii.eqb_refl.
  - rewrite append_cons. simpl. by rewrite IH.
Qed.

Lemma Split_noByte s c : noByte c s = true -> Split s c = [s].
Proof.
  induction s as [|d s IH]; [done|]. intros [Hd Hs]%noByte_cons. simpl.
  by rewrite (proj2 (Ascii.eqb_neq d c)), IH.
Qed.

Lemma Split_nonnil s c : Split s c <> [].
Proof. destruct s as [|d s]; [done|]. simpl. destruct (Ascii.eqb d c); [done|]. by destruct (Split s c). Qed.

Lemma Split_append p c s :
  Split (p +:+ String c s) c = Split p c ++ Split s c.
Proof.
  induction p as [|d p IH].
  - rewrite append_nil_l. simpl. by rewrite Ascii.eqb_refl.
  - rewrite append_cons. simpl. rewrite IH.
    destruct (Ascii.eqb d c); [done|].
    destruct (Split p c) as [|x xs] eqn:E; [by apply Split_nonnil in E|done].
Qed.

(** A separator replaced by itself and a prefix puts the prefix before every
    line but the first. *)
Definition prefixLines (sep : ascii) (p s : string) : string :=
  mapBytes (fun c => if Ascii.eqb c sep then String sep p else str1 c) s.

Lemma Split_prefixLines sep p s a :
  noByte sep p = true -> noByte sep a = true ->
  Split (a +:+ prefixLines sep p s) sep =
  match Split s sep with
  | [] => []
  | x :: xs => (a +:+ x) :: map (fun l => p +:+ l) xs
  end.
Proof.
  intros Hp. unfold prefixLines. revert a. induction s as [|c s IH]; intros a Ha; simpl.
  - by rewrite append_nil_r, Split_noByte.
  - destruct (Ascii.eqb_spec c sep) as [->|Hne].
    + rewrite append_cons, Split_append, Split_noByte, IH by done. rewrite append_nil_r.
      destruct (Split s sep) eqn:E; [by apply Split_nonnil in E|done].
    + unfold str1. rewrite append_cons, append_nil_l.
      replace (a +:+ String c _) with ((a +:+ str1 c) +:+ prefixLines sep p s)
        by (by rewrite append_assoc).
      unfold prefixLines. rewrite IH.
      * destruct (Split s sep) eqn:E; [by apply Split_nonnil in E|]. by rewrite append_assoc.
      * rewrite noByte_append, Ha. by apply noByte_cons.
Qed.

Lemma containsByte_noByte c s : containsByte c s = false -> noByte c s = true.
Proof.
  unfold containsByte, noByte. intros H%negb_false_iff. revert H. apply allBytes_impl.
  intros d. by rewrite Ascii.eqb_sym.
Qed.

(** ** Decimal text *)

Lemma string_of_uint_digits d : allBytes isDigit (NilEmpty.string_of_uint d) = true.
Proof. induction d; simpl; auto. Qed.

Lemma NilZero_digits d : allBytes isDigit (NilZero.string_of_uint d) = true.
Proof. destruct d; [done|..]; apply (string_of_uint_digits (_ d)). Qed.

Lemma Nto_uint_nonnil n : N.to_uint n <> Decimal.Nil.
Proof. destruct n; simpl; [done|]. apply Unsigned.to_uint_nonnil. Qed.

Lemma FormatUint_inj : Inj (=) (=) FormatUint.
Proof.
  intros n m Heq. unfold FormatUint in Heq.
  apply (f_equal NilZero.uint_of_string) in Heq.
  rewrite !NilZero.usu in Heq by apply Nto_uint_nonnil.
  injection Heq as Heq. by rewrite <- (DecimalN.Unsigned.of_to n), Heq, DecimalN.Unsigned.of_to.
Qed.

Lemma FormatInt_inj : Inj (=) (=) FormatInt.
Proof.
  assert (forall z, Z.to_int z <> Decimal.Pos Decimal.Nil /\ Z.to_int z <> Decimal.Neg Decimal.Nil)
    as Hnn.
  { intros [|p|p]; simpl; split; try done; intros [=]; by eapply Unsigned.to_uint_nonnil. }
  intros n m Heq. unfold FormatInt in Heq.
  apply (f_equal NilZero.int_of_string) in Heq.
  rewrite !NilZero.isi in Heq by apply Hnn.
  injection Heq as Heq. by rewrite <- (DecimalZ.of_to n), Heq, DecimalZ.of_to.
Qed.

Lemma FormatInt_nonneg n : (0 <= n)%Z -> FormatInt n = FormatUint (Z.to_N n).
Proof. destruct n; simpl; done. Qed.

Lemma FormatUint_digits n : allBytes isDigit (FormatUint n) = true.
Proof. apply NilZero_digits. Qed.

Lemma ParseInt32_FormatInt n : (0 <= n <= maxInt32)%Z -> ParseInt32 (FormatInt n) = Some n.
Proof.
  intros Hn. rewrite FormatInt_nonneg by lia. unfold ParseInt32.
  pose proof (FormatUint_digits (Z.to_N n)) as Hd.
  assert (NilZero.uint_of_string (FormatUint (Z.to_N n)) = Some (N.to_uint (Z.to_N n))) as Hp.
  { apply NilZero.usu, Nto_uint_nonnil. }
  destruct (FormatUint (Z.to_N n)) as [|a s] eqn:E; [done|].
  assert (a <> "-"%char /\ a <> "+"%char) as [H1 H2].
  { simpl in Hd. apply andb_true_iff in Hd as [Hd _]. split; by intros ->. }
  destruct a as [[] [] [] [] [] [] [] []]; try done;
    rewrite Hp; simpl; rewrite DecimalN.Unsigned.of_to, Z2N.id by lia;
    unfold minInt32, maxInt32 in *;
    (rewrite (proj2 (Z.leb_le _ _)), (proj2 (Z.leb_le _ _)) by lia); done.
Qed.

Lemma digit_not c : isDigit c = false -> forall s, allBytes isDigit s = true -> noByte c s = true.
Proof.
  intros Hc s. apply allBytes_impl. intros d Hd. apply negb_true_iff, Ascii.eqb_neq. congruence.
Qed.

Lemma FormatInt_nonempty z : FormatInt z <> "".
Proof.
  unfold FormatInt. destruct (Z.to_int z) as [d|d]; simpl; [|done].
  destruct d; simpl; done.
Qed.

(** Neither a digit nor a sign. *)
Lemma FormatInt_noByte c z : isDigit c = false -> c <> "-"%char -> noByte c (FormatInt z) = true.
Proof.
  intros Hc Hm. unfold FormatInt. destruct (Z.to_int z) as [d|d]; cbn [NilZero.string_of_int].
  - apply digit_not; [done|apply NilZero_digits].
  - apply noByte_cons. split; [done|]. apply digit_not; [done|apply NilZero_digits].
Qed.

(** A list of separator-free parts is read back from its joined form. *)
Lemma Split_Join c l : Forall (fun s => noByte c s = true) l -> l <> [] -> Split (Join l (str1 c)) c = l.
Proof.
  induction 1 as [|s l Hs Hl IH]; intros Hne; [done|]. destruct l as [|t l]; [by apply Split_noByte|].
  change (Join (s :: t :: l) (str1 c)) with (s +:+ (str1 c +:+ Join (t :: l) (str1 c))). unfold str1 at 1.
  rewrite append_cons, append_nil_l, Split_append, (Split_noByte s) by done. by rewrite IH.
Qed.

(** A key that no case has. *)
Lemma assoc_None {A} k (l : list (string * A)) : assoc k l = None <-> k ∉ map fst l.
Proof.
  induction l as [|[j w] l IH]; cbn; [set_solver|]. rewrite not_elem_of_cons. destruct (decide (k = j)); [naive_solver|].
  rewrite IH. naive_solver.
Qed.
