(* ===== verification/Utf8Facts.v ===== *)
(** * UTF-8 facts

    The decoder [runes] composes: a valid text followed by another decodes to
    both, and a text cut at rune boundaries stays valid. *)
From S2P Require Import Prelude GoStrings StringFacts.

Lemma runes_unfold_cons b0 r0 :
  runes (String b0 r0) =
  if inRange 0 127 b0 then cons (byteN b0, str1 b0) <$> runes r0
  else match r0 with
  | EmptyString => None
  | String b1 r1 =>
      if inRange 194 223 b0 then
        if cont b1
        then cons (((byteN b0 - 192) * 64 + (byteN b1 - 128))%N, String b0 (str1 b1)) <$> runes r1
        else None
      else match r1 with
      | EmptyString => None
      | String b2 r2 =>
          let ok3 :=
            if inRange 224 224 b0 then inRange 160 191 b1
            else if inRange 237 237 b0 then inRange 128 159 b1
            else inRange 225 239 b0 && cont b1 in
          if ok3 && cont b2
          then cons (((byteN b0 - 224) * 4096 + (byteN b1 - 128) * 64 + (byteN b2 - 128))%N,
                     String b0 (String b1 (str1 b2))) <$> runes r2
          else match r2 with
          | EmptyString => None
          | String b3 r3 =>
              let ok4 :=
                if inRange 240 240 b0 then inRange 144 191 b1
                else if inRange 244 244 b0 then inRange 128 143 b1
                else inRange 241 243 b0 && cont b1 in
              if ok4 && cont b2 && cont b3
              then cons (((byteN b0 - 240) * 262144 + (byteN b1 - 128) * 4096
                          + (byteN b2 - 128) * 64 + (byteN b3 - 128))%N,
                         String b0 (String b1 (String b2 (str1 b3)))) <$> runes r3
              else None
          end
      end
  end.
Proof. done. Qed.

(** One decoded rune: [RuneStep s r rest] when [s] starts with the encoding of
    [r] and decodes to it and the runes of [rest]. *)
Lemma runes_step s rs :
  runes s = Some rs ->
  s = "" /\ rs = [] \/
  exists c enc rest rs', s = enc +:+ rest /\ rs = (c, enc) :: rs' /\ runes rest = Some rs' /\
    enc <> "" /\ (forall t, runes (enc +:+ t) = cons (c, enc) <$> runes t) /\
    String.length rest < String.length s.
Proof.
  destruct s as [|b0 r0]; [intros [= <-]; by left|]. intros Hs. right.
  rewrite runes_unfold_cons in Hs.
  destruct (inRange 0 127 b0) eqn:E0.
  { apply fmap_Some in Hs as (rs'&Hr&->). eexists _, (str1 b0), r0, rs'.
    split_and!; [done|done|done|done| |simpl; lia].
    intros t. unfold str1. rewrite append_cons, append_nil_l, runes_unfold_cons, E0. done. }
  destruct r0 as [|b1 r1]; [done|]. destruct (inRange 194 223 b0) eqn:E1.
  { destruct (cont b1) eqn:C1; [|done]. apply fmap_Some in Hs as (rs'&Hr&->).
    eexists _, (String b0 (str1 b1)), r1, rs'. split_and!; [done|done|done|done| |simpl; lia].
    intros t. unfold str1. rewrite !append_cons, append_nil_l, runes_unfold_cons, E0, E1, C1. done. }
  destruct r1 as [|b2 r2]; [done|]. cbv zeta in Hs.
  destruct (_ && cont b2)%bool eqn:E2.
  { apply fmap_Some in Hs as (rs'&Hr&->).
    eexists _, (String b0 (String b1 (str1 b2))), r2, rs'. split_and!; [done|done|done|done| |simpl; lia].
    intros t. unfold str1. rewrite !append_cons, append_nil_l, runes_unfold_cons, E0, E1. cbv zeta.
    by rewrite E2. }
  destruct r2 as [|b3 r3]; [done|]. destruct (_ && cont b2 && cont b3)%bool eqn:E3; [|done].
  apply fmap_Some in Hs as (rs'&Hr&->).
  eexists _, (String b0 (String b1 (String b2 (str1 b3)))), r3, rs'.
  split_and!; [done|done|done|done| |simpl; lia].
  intros t. unfold str1. rewrite !append_cons, append_nil_l, runes_unfold_cons, E0, E1. cbv zeta.
  by rewrite E2, E3.
Qed.

Lemma runes_app s rs t : runes s = Some rs -> runes (s +:+ t) = app rs <$> runes t.
Proof.
  remember (String.length s) as n eqn:Hn. revert s rs Hn.
  induction (lt_wf n) as [n _ IH]. intros s rs Hn Hs.
  apply runes_step in Hs as [[-> ->]|(c&enc&rest&rs'&->&->&Hr&_&Henc&Hlt)].
  - rewrite append_nil_l. by destruct (runes t).
  - rewrite append_assoc, Henc. rewrite (IH (String.length rest)) with (rs := rs'); [|lia|done|done].
    by destruct (runes t).
Qed.

Lemma ValidString_append s t : ValidString s = true -> ValidString t = true -> ValidString (s +:+ t) = true.
Proof.
  unfold ValidString. destruct (runes s) as [rs|] eqn:Es; [|done]. rewrite (runes_app s rs t Es).
  by destruct (runes t).
Qed.

(** The runes of a text are its encodings, each valid. *)
Lemma runes_encodings s rs :
  runes s = Some rs -> Forall (fun r => ValidString r.2 = true /\ r.2 <> "") rs /\
                       s = foldr (fun r acc => r.2 +:+ acc) "" rs.
Proof.
  remember (String.length s) as n eqn:Hn. revert s rs Hn.
  induction (lt_wf n) as [n _ IH]. intros s rs Hn Hs.
  apply runes_step in Hs as [[-> ->]|(c&enc&rest&rs'&->&->&Hr&Hne&Henc&Hlt)].
  - by split.
  - destruct (IH (String.length rest) ltac:(lia) rest rs' eq_refl Hr) as [Hall Heq]. split.
    + constructor; [|done]. split; [|done]. simpl. unfold ValidString.
      rewrite <- (append_nil_r enc), Henc. done.
    + simpl. by rewrite <- Heq.
Qed.

(** ASCII text is valid. *)
Lemma ValidString_ascii s : allBytes (inRange 0 127) s = true -> ValidString s = true.
Proof.
  unfold ValidString. induction s as [|c s IH]; [done|]. simpl. intros [Hc Hs]%andb_true_iff.
  rewrite Hc. specialize (IH Hs). by destruct (runes s).
Qed.

(** An ASCII byte of a valid text is one of its runes. *)
Lemma high_byte lo hi c b : inRange lo hi c = true -> (128 <= lo)%N -> (byteN b < 128)%N -> c <> b.
Proof. unfold inRange. intros [Hlo _]%andb_true_iff Hl Hb ->. apply N.leb_le in Hlo. lia. Qed.

Lemma lead_bytes b0 b1 b2 (ok3 : bool) :
  ok3 = (if inRange 224 224 b0 then inRange 160 191 b1
         else if inRange 237 237 b0 then inRange 128 159 b1
         else inRange 225 239 b0 && cont b1) ->
  ok3 && cont b2 = true ->
  (exists lo hi, inRange lo hi b0 = true /\ (128 <= lo)%N) /\
  (exists lo hi, inRange lo hi b1 = true /\ (128 <= lo)%N) /\ cont b2 = true.
Proof.
  intros -> [H Hb2]%andb_true_iff. split_and!; [..|done].
  - destruct (inRange 224 224 b0) eqn:E; [by exists 224%N, 224%N|].
    destruct (inRange 237 237 b0) eqn:E'; [by exists 237%N, 237%N|].
    apply andb_true_iff in H as [H _]. by exists 225%N, 239%N.
  - destruct (inRange 224 224 b0) eqn:E; [by exists 160%N, 191%N|].
    destruct (inRange 237 237 b0) eqn:E'; [by exists 128%N, 159%N|].
    apply andb_true_iff in H as [_ H]. by exists 128%N, 191%N.
Qed.

Lemma lead_bytes4 b0 b1 b2 b3 (ok4 : bool) :
  ok4 = (if inRange 240 240 b0 then inRange 144 191 b1
         else if inRange 244 244 b0 then inRange 128 143 b1
         else inRange 241 243 b0 && cont b1) ->
  ok4 && cont b2 && cont b3 = true ->
  (exists lo hi, inRange lo hi b0 = true /\ (128 <= lo)%N) /\
  (exists lo hi, inRange lo hi b1 = true /\ (128 <= lo)%N) /\ cont b2 = true /\ cont b3 = true.
Proof.
  intros -> [[H Hb2]%andb_true_iff Hb3]%andb_true_iff. split_and!; [..|done|done].
  - destruct (inRange 240 240 b0) eqn:E; [by exists 240%N, 240%N|].
    destruct (inRange 244 244 b0) eqn:E'; [by exists 244%N, 244%N|].
    apply andb_true_iff in H as [H _]. by exists 241%N, 243%N.
  - destruct (inRange 240 240 b0) eqn:E; [by exists 144%N, 191%N|].
    destruct (inRange 244 244 b0) eqn:E'; [by exists 128%N, 143%N|].
    apply andb_true_iff in H as [_ H]. by exists 128%N, 191%N.
Qed.

Lemma runes_low_byte s rs b :
  runes s = Some rs -> (byteN b < 128)%N -> Forall (fun r => r.1 <> byteN b) rs -> noByte b s = true.
Proof.
  intros Hs Hb. remember (String.length s) as n eqn:Hn. revert s rs Hn Hs.
  induction (lt_wf n) as [n _ IH]. intros s rs Hn Hs Hrs.
  destruct s as [|b0 r0]; [done|]. rewrite runes_unfold_cons in Hs. simpl in Hn.
  destruct (inRange 0 127 b0) eqn:E0.
  { apply fmap_Some in Hs as (rs'&Hr&->). apply Forall_cons_1 in Hrs as [Hne Hrs].
    apply noByte_cons. split; [by intros ->|]. apply (IH (String.length r0)) with rs'; [lia|done..]. }
  destruct r0 as [|b1 r1]; [done|]. destruct (inRange 194 223 b0) eqn:E1.
  { destruct (cont b1) eqn:C1; [|done]. apply fmap_Some in Hs as (rs'&Hr&->). apply Forall_cons_1 in Hrs as [_ Hrs].
    rewrite !noByte_cons. split_and!; [eapply high_byte; [exact E1|lia|done]|eapply high_byte; [exact C1|lia|done]|].
    apply (IH (String.length r1)) with rs'; [simpl in Hn; lia|done..]. }
  destruct r1 as [|b2 r2]; [done|]. cbv zeta in Hs.
  destruct (_ && cont b2)%bool eqn:E2.
  { apply fmap_Some in Hs as (rs'&Hr&->). apply Forall_cons_1 in Hrs as [_ Hrs].
    destruct (lead_bytes _ _ _ _ eq_refl E2) as ((l0&h0&H0&L0)&(l1&h1&H1&L1)&H2). rewrite !noByte_cons.
    split_and!; [by eapply high_byte|by eapply high_byte|eapply high_byte; [exact H2|lia|done]|].
    apply (IH (String.length r2)) with rs'; [simpl in Hn; lia|done..]. }
  destruct r2 as [|b3 r3]; [done|]. destruct (_ && cont b2 && cont b3)%bool eqn:E3; [|done].
  apply fmap_Some in Hs as (rs'&Hr&->). apply Forall_cons_1 in Hrs as [_ Hrs].
  destruct (lead_bytes4 _ _ _ _ _ eq_refl E3) as ((l0&h0&H0&L0)&(l1&h1&H1&L1)&H2&H3). rewrite !noByte_cons.
  split_and!; [by eapply high_byte|by eapply high_byte|eapply high_byte; [exact H2|lia|done]
              |eapply high_byte; [exact H3|lia|done]|].
  apply (IH (String.length r3)) with rs'; [simpl in Hn; lia|done..].
Qed.
