(* ===== verification/Sha256.v ===== *)
(** * crypto/sha256

    [sha256.Sum256] of the Go standard library (FIPS 180-4), which the compiler
    uses for the digest of the source descriptor.  Words are [N] below 2^32. *)
From S2P Require Import Prelude GoStrings StringFacts.

Local Open Scope N_scope.

Definition w32 (x : N) : N := x mod 4294967296.
Definition rotr (n x : N) : N := w32 (N.lor (N.shiftr x n) (N.shiftl x (32 - n))).
Definition Ch (x y z : N) : N := N.lxor (N.land x y) (N.land (N.lxor x 4294967295) z).
Definition Maj (x y z : N) : N := N.lxor (N.lxor (N.land x y) (N.land x z)) (N.land y z).
Definition bigSigma0 (x : N) : N := N.lxor (N.lxor (rotr 2 x) (rotr 13 x)) (rotr 22 x).
Definition bigSigma1 (x : N) : N := N.lxor (N.lxor (rotr 6 x) (rotr 11 x)) (rotr 25 x).
Definition smallSigma0 (x : N) : N := N.lxor (N.lxor (rotr 7 x) (rotr 18 x)) (N.shiftr x 3).
Definition smallSigma1 (x : N) : N := N.lxor (N.lxor (rotr 17 x) (rotr 19 x)) (N.shiftr x 10).

Definition K : list N := [
  1116352408; 1899447441; 3049323471; 3921009573; 961987163; 1508970993; 2453635748; 2870763221;
  3624381080; 310598401; 607225278; 1426881987; 1925078388; 2162078206; 2614888103; 3248222580;
  3835390401; 4022224774; 264347078; 604807628; 770255983; 1249150122; 1555081692; 1996064986;
  2554220882; 2821834349; 2952996808; 3210313671; 3336571891; 3584528711; 113926993; 338241895;
  666307205; 773529912; 1294757372; 1396182291; 1695183700; 1986661051; 2177026350; 2456956037;
  2730485921; 2820302411; 3259730800; 3345764771; 3516065817; 3600352804; 4094571909; 275423344;
  430227734; 506948616; 659060556; 883997877; 958139571; 1322822218; 1537002063; 1747873779;
  1955562222; 2024104815; 2227730452; 2361852424; 2428436474; 2756734187; 3204031479; 3329325298].

Record digest : Type := mkDigest { hA : N; hB : N; hC : N; hD : N; hE : N; hF : N; hG : N; hH : N }.
Definition initial : digest :=
  mkDigest 1779033703 3144134277 1013904242 2773480762 1359893119 2600822924 528734635 1541459225.

(** One round, and the rounds of a block with the schedule as a sliding window
    of the last sixteen words. *)
Definition sha_round (d : digest) (k w : N) : digest :=
  let t1 := w32 (hH d + bigSigma1 (hE d) + Ch (hE d) (hF d) (hG d) + k + w) in
  let t2 := w32 (bigSigma0 (hA d) + Maj (hA d) (hB d) (hC d)) in
  mkDigest (w32 (t1 + t2)) (hA d) (hB d) (hC d) (w32 (hD d + t1)) (hE d) (hF d) (hG d).

Definition nextWord (window : list N) : N :=
  w32 (smallSigma1 (nth 14 window 0) + nth 9 window 0 + smallSigma0 (nth 1 window 0) + nth 0 window 0).

Fixpoint rounds (ks window : list N) (d : digest) : digest :=
  match ks with
  | [] => d
  | k :: ks =>
      rounds ks (tl window ++ [nextWord window]) (sha_round d k (nth 0 window 0))
  end.

Definition block (d : digest) (words : list N) : digest :=
  let e := rounds K words d in
  mkDigest (w32 (hA d + hA e)) (w32 (hB d + hB e)) (w32 (hC d + hC e)) (w32 (hD d + hD e))
           (w32 (hE d + hE e)) (w32 (hF d + hF e)) (w32 (hG d + hG e)) (w32 (hH d + hH e)).

(** The padded message as big-endian words. *)
Fixpoint bytesOf (s : string) : list N :=
  match s with
  | EmptyString => []
  | String c s => byteN c :: bytesOf s
  end.
Definition bigEndian (width : nat) (x : N) : list N :=
  map (fun i => (N.shiftr x (8 * N.of_nat i)) mod 256) (rev (seq 0 width)).
Definition pad (msg : list N) : list N :=
  let len := length msg in
  let zeros := Nat.modulo (119 - Nat.modulo len 64) 64 in
  msg ++ [128] ++ repeat 0 zeros ++ bigEndian 8 (8 * N.of_nat len).
Fixpoint words (l : list N) : list N :=
  match l with
  | a :: b :: c :: d :: l => (((a * 256 + b) * 256 + c) * 256 + d) :: words l
  | _ => []
  end.
Fixpoint blocks (fuel : nat) (ws : list N) (d : digest) : digest :=
  match fuel, ws with
  | S fuel, _ :: _ => blocks fuel (drop 16 ws) (block d (take 16 ws))
  | _, _ => d
  end.

Definition digestBytes (d : digest) : list N :=
  concat (map (bigEndian 4) [hA d; hB d; hC d; hD d; hE d; hF d; hG d; hH d]).
Definition Sum256 (data : string) : string :=
  let ws := words (pad (bytesOf data)) in
  bytes (digestBytes (blocks (length ws) ws initial)).

(** The test vectors of the standard. *)
Example Sum256_abc :
  EncodeToString (Sum256 "abc") = "ba7816bf8f01cfea414140de5dae2223b00361a396177a9cb410ff61f20015ad".
Proof. vm_compute. reflexivity. Qed.
Example Sum256_empty :
  EncodeToString (Sum256 "") = "e3b0c44298fc1c149afbf4c8996fb92427ae41e4649b934ca495991b7852b855".
Proof. vm_compute. reflexivity. Qed.
Example Sum256_two_blocks :
  EncodeToString (Sum256 "abcdbcdecdefdefgefghfghighijhijkijkljklmklmnlmnomnopnopq") =
  "248d6a61d20638b8e5c026930c3e6039a33ce45964ff2167f6ecedd419db06c1".
Proof. vm_compute. reflexivity. Qed.

Lemma Sum256_length data : String.length (Sum256 data) = 32%nat.
Proof.
  unfold Sum256, digestBytes. generalize (blocks (length (words (pad (bytesOf data))))
    (words (pad (bytesOf data))) initial). intros d. reflexivity.
Qed.
