(* ===== verification/Schema.v ===== *)
(** * The SchemaBundle data model (package [datav1])

    The messages of [proto/invariant/data/v1/schema.proto] as the Go sources
    see them: a message pointer that a function may find nil is an [option], a
    repeated message field is a [list (option _)], and the getters return the
    zero value on nil.  Enumerations are open, as generated Go enums are int32
    values: each has a constructor for a number the schema does not name. *)
From S2P Require Import Prelude GoStrings.

(** ** Enumerations *)

Inductive Presence : Type :=
  | PRESENCE_UNSPECIFIED
  | PRESENCE_IMPLICIT
  | PRESENCE_EXPLICIT
  | PRESENCE_REQUIRED
  | PRESENCE_ONEOF
  | PRESENCE_REPEATED
  | PRESENCE_MAP
  | PRESENCE_NOT_APPLICABLE
  | PRESENCE_other (n : Z).

Inductive SyntheticRole : Type :=
  | SYNTHETIC_ROLE_UNSPECIFIED
  | SYNTHETIC_ROLE_PROTO_FIELD
  | SYNTHETIC_ROLE_LIST_ELEMENT
  | SYNTHETIC_ROLE_MAP_KEY
  | SYNTHETIC_ROLE_MAP_VALUE
  | SYNTHETIC_ROLE_other (n : Z).

Inductive PrimitiveKind : Type :=
  | PRIMITIVE_KIND_UNSPECIFIED
  | PRIMITIVE_KIND_DOUBLE
  | PRIMITIVE_KIND_FLOAT
  | PRIMITIVE_KIND_INT64
  | PRIMITIVE_KIND_UINT64
  | PRIMITIVE_KIND_INT32
  | PRIMITIVE_KIND_FIXED64
  | PRIMITIVE_KIND_FIXED32
  | PRIMITIVE_KIND_BOOL
  | PRIMITIVE_KIND_STRING
  | PRIMITIVE_KIND_BYTES
  | PRIMITIVE_KIND_UINT32
  | PRIMITIVE_KIND_SFIXED32
  | PRIMITIVE_KIND_SFIXED64
  | PRIMITIVE_KIND_SINT32
  | PRIMITIVE_KIND_SINT64
  | PRIMITIVE_KIND_other (n : Z).

Inductive TimeUnit : Type :=
  | TIME_UNIT_UNSPECIFIED
  | TIME_UNIT_NANOSECOND
  | TIME_UNIT_other (n : Z).

Inductive JsonKind : Type :=
  | JSON_KIND_UNSPECIFIED
  | JSON_KIND_ANY
  | JSON_KIND_STRUCT
  | JSON_KIND_VALUE
  | JSON_KIND_LIST_VALUE
  | JSON_KIND_other (n : Z).

Inductive MappingCompatibility : Type :=
  | LOSSLESS
  | RANGE_WIDENED
  | PRECISION_REDUCED
  | REPRESENTATION_CHANGED
  | UNSUPPORTED
  | RANGE_REDUCED.

#[export] Instance Presence_eq_dec : EqDecision Presence.
Proof. solve_decision. Defined.
#[export] Instance SyntheticRole_eq_dec : EqDecision SyntheticRole.
Proof. solve_decision. Defined.
#[export] Instance PrimitiveKind_eq_dec : EqDecision PrimitiveKind.
Proof. solve_decision. Defined.
#[export] Instance TimeUnit_eq_dec : EqDecision TimeUnit.
Proof. solve_decision. Defined.
#[export] Instance JsonKind_eq_dec : EqDecision JsonKind.
Proof. solve_decision. Defined.
#[export] Instance MappingCompatibility_eq_dec : EqDecision MappingCompatibility.
Proof. solve_decision. Defined.

(** The generated [String] methods: the declared name, or the number. *)
Definition Presence_String (p : Presence) : string :=
  match p with
  | PRESENCE_UNSPECIFIED => "PRESENCE_UNSPECIFIED"
  | PRESENCE_IMPLICIT => "PRESENCE_IMPLICIT"
  | PRESENCE_EXPLICIT => "PRESENCE_EXPLICIT"
  | PRESENCE_REQUIRED => "PRESENCE_REQUIRED"
  | PRESENCE_ONEOF => "PRESENCE_ONEOF"
  | PRESENCE_REPEATED => "PRESENCE_REPEATED"
  | PRESENCE_MAP => "PRESENCE_MAP"
  | PRESENCE_NOT_APPLICABLE => "PRESENCE_NOT_APPLICABLE"
  | PRESENCE_other n => FormatInt n
  end.

Definition SyntheticRole_String (r : SyntheticRole) : string :=
  match r with
  | SYNTHETIC_ROLE_UNSPECIFIED => "SYNTHETIC_ROLE_UNSPECIFIED"
  | SYNTHETIC_ROLE_PROTO_FIELD => "SYNTHETIC_ROLE_PROTO_FIELD"
  | SYNTHETIC_ROLE_LIST_ELEMENT => "SYNTHETIC_ROLE_LIST_ELEMENT"
  | SYNTHETIC_ROLE_MAP_KEY => "SYNTHETIC_ROLE_MAP_KEY"
  | SYNTHETIC_ROLE_MAP_VALUE => "SYNTHETIC_ROLE_MAP_VALUE"
  | SYNTHETIC_ROLE_other n => FormatInt n
  end.

Definition PrimitiveKind_String (k : PrimitiveKind) : string :=
  match k with
  | PRIMITIVE_KIND_UNSPECIFIED => "PRIMITIVE_KIND_UNSPECIFIED"
  | PRIMITIVE_KIND_DOUBLE => "PRIMITIVE_KIND_DOUBLE"
  | PRIMITIVE_KIND_FLOAT => "PRIMITIVE_KIND_FLOAT"
  | PRIMITIVE_KIND_INT64 => "PRIMITIVE_KIND_INT64"
  | PRIMITIVE_KIND_UINT64 => "PRIMITIVE_KIND_UINT64"
  | PRIMITIVE_KIND_INT32 => "PRIMITIVE_KIND_INT32"
  | PRIMITIVE_KIND_FIXED64 => "PRIMITIVE_KIND_FIXED64"
  | PRIMITIVE_KIND_FIXED32 => "PRIMITIVE_KIND_FIXED32"
  | PRIMITIVE_KIND_BOOL => "PRIMITIVE_KIND_BOOL"
  | PRIMITIVE_KIND_STRING => "PRIMITIVE_KIND_STRING"
  | PRIMITIVE_KIND_BYTES => "PRIMITIVE_KIND_BYTES"
  | PRIMITIVE_KIND_UINT32 => "PRIMITIVE_KIND_UINT32"
  | PRIMITIVE_KIND_SFIXED32 => "PRIMITIVE_KIND_SFIXED32"
  | PRIMITIVE_KIND_SFIXED64 => "PRIMITIVE_KIND_SFIXED64"
  | PRIMITIVE_KIND_SINT32 => "PRIMITIVE_KIND_SINT32"
  | PRIMITIVE_KIND_SINT64 => "PRIMITIVE_KIND_SINT64"
  | PRIMITIVE_KIND_other n => FormatInt n
  end.

Definition JsonKind_String (k : JsonKind) : string :=
  match k with
  | JSON_KIND_UNSPECIFIED => "JSON_KIND_UNSPECIFIED"
  | JSON_KIND_ANY => "JSON_KIND_ANY"
  | JSON_KIND_STRUCT => "JSON_KIND_STRUCT"
  | JSON_KIND_VALUE => "JSON_KIND_VALUE"
  | JSON_KIND_LIST_VALUE => "JSON_KIND_LIST_VALUE"
  | JSON_KIND_other n => FormatInt n
  end.

(** ** Leaf messages *)

Record EnumValue : Type := mkEnumValue {
  ev_name : string;
  ev_number : Z;
  ev_description : string
}.

Record EnumType : Type := mkEnumType {
  et_full_name : string;
  et_values : list (option EnumValue);
  et_closed : bool
}.

Record TimestampType : Type := mkTimestampType {
  ts_unit : TimeUnit;
  ts_timezone : string
}.

Record DecimalType : Type := mkDecimalType {
  dec_precision : N;
  dec_scale : N
}.

(** The scalar part of [Field]: everything but its type. *)
Record FieldMeta : Type := mkFieldMeta {
  proto_full_name : string;
  proto_number_path : list N;
  name : string;
  stable_id : Z;
  presence : Presence;
  nullable : bool;
  oneof : string;
  description : string;
  synthetic_role : SyntheticRole;
  has_default : bool;
  protobuf_default : string;
  json_name : string;
  storage_name_source : string
}.

(** ** The logical tree

    [DataType_List] holds the element and the fixed length, [DataType_Map] the
    key and the value; the argument of a kind is [None] when the oneof wrapper
    holds a nil message. *)
Inductive DataType : Type :=
  | mkDataType (protobuf_type : string) (kind : DataTypeKind)
with DataTypeKind : Type :=
  | DataType_None
  | DataType_Primitive (p : option PrimitiveKind)
  | DataType_Enum (e : option EnumType)
  | DataType_Struct (s : option (list (option Field)))
  | DataType_List (l : option (option Field * N))
  | DataType_Map (m : option (option Field * option Field))
  | DataType_Timestamp (t : option TimestampType)
  | DataType_Duration (d : option TimeUnit)
  | DataType_Json (j : option JsonKind)
  | DataType_Decimal (d : option DecimalType)
  | DataType_Uuid (u : option unit)
  | DataType_FixedBytes (f : option N)
with Field : Type :=
  | mkField (meta : FieldMeta) (typ : option DataType).

Record RetiredField : Type := mkRetiredField {
  rf_identity : string;
  rf_stable_id : Z;
  rf_proto_full_name : string;
  rf_name : string;
  rf_storage_name_source : string
}.

Record DatasetSchema : Type := mkDatasetSchema {
  source_message : string;
  ds_name : string;
  ds_description : string;
  ds_fields : list (option Field);
  last_field_id : Z;
  retired_fields : list (option RetiredField)
}.

Record SchemaBundle : Type := mkSchemaBundle {
  ir_version : N;
  mapping_version : N;
  source_descriptor_sha256 : string;
  datasets : list (option DatasetSchema)
}.

Record MappingDiagnostic : Type := mkDiagnostic {
  field_path : string;
  compatibility : MappingCompatibility;
  message : string
}.

(** ** Getters *)

Definition meta (f : Field) : FieldMeta := match f with mkField m _ => m end.
Definition typ (f : Field) : option DataType := match f with mkField _ t => t end.
Definition kindOf (t : DataType) : DataTypeKind := match t with mkDataType _ k => k end.
Definition protobufTypeOf (t : DataType) : string := match t with mkDataType p _ => p end.

(** The zero value a getter reads through a nil [*Field]. *)
Definition zeroMeta : FieldMeta :=
  mkFieldMeta "" [] "" 0 PRESENCE_UNSPECIFIED false "" "" SYNTHETIC_ROLE_UNSPECIFIED
    false "" "" "".
Definition metaOf (f : option Field) : FieldMeta :=
  match f with Some f => meta f | None => zeroMeta end.
Definition GetType (f : option Field) : option DataType :=
  match f with Some f => typ f | None => None end.
Definition GetKind (t : option DataType) : DataTypeKind :=
  match t with Some t => kindOf t | None => DataType_None end.
Definition GetProtobufType (t : option DataType) : string :=
  match t with Some t => protobufTypeOf t | None => "" end.

Definition GetPrimitiveKind (p : option PrimitiveKind) : PrimitiveKind :=
  default PRIMITIVE_KIND_UNSPECIFIED p.
Definition GetEnumValues (e : option EnumType) : list (option EnumValue) :=
  match e with Some e => et_values e | None => [] end.
Definition GetEnumClosed (e : option EnumType) : bool :=
  match e with Some e => et_closed e | None => false end.
Definition GetStructFields (s : option (list (option Field))) : list (option Field) :=
  default [] s.
Definition GetListElement (l : option (option Field * N)) : option Field :=
  match l with Some (e, _) => e | None => None end.
Definition GetFixedLength (l : option (option Field * N)) : N :=
  match l with Some (_, n) => n | None => 0%N end.
Definition GetMapKey (m : option (option Field * option Field)) : option Field :=
  match m with Some (k, _) => k | None => None end.
Definition GetMapValue (m : option (option Field * option Field)) : option Field :=
  match m with Some (_, v) => v | None => None end.
Definition GetTimestampUnit (t : option TimestampType) : TimeUnit :=
  match t with Some t => ts_unit t | None => TIME_UNIT_UNSPECIFIED end.
Definition GetTimezone (t : option TimestampType) : string :=
  match t with Some t => ts_timezone t | None => "" end.
Definition GetDurationUnit (d : option TimeUnit) : TimeUnit :=
  default TIME_UNIT_UNSPECIFIED d.
Definition GetJsonKind (j : option JsonKind) : JsonKind :=
  default JSON_KIND_UNSPECIFIED j.
Definition GetPrecision (d : option DecimalType) : N :=
  match d with Some d => dec_precision d | None => 0%N end.
Definition GetScale (d : option DecimalType) : N :=
  match d with Some d => dec_scale d | None => 0%N end.
Definition GetByteLength (f : option N) : N := default 0%N f.

Definition zeroEnumValue : EnumValue := mkEnumValue "" 0 "".
Definition enumValueOf (v : option EnumValue) : EnumValue := default zeroEnumValue v.

(** [DataType.GetPrimitive] and its siblings: the payload when the oneof holds
    that case, nil otherwise. *)
Definition GetEnum (t : option DataType) : option EnumType :=
  match GetKind t with DataType_Enum e => e | _ => None end.
Definition GetPrimitive (t : option DataType) : option PrimitiveKind :=
  match GetKind t with DataType_Primitive p => p | _ => None end.
Definition GetStruct (t : option DataType) : option (list (option Field)) :=
  match GetKind t with DataType_Struct s => s | _ => None end.
Definition GetList (t : option DataType) : option (option Field * N) :=
  match GetKind t with DataType_List l => l | _ => None end.
Definition GetMap (t : option DataType) : option (option Field * option Field) :=
  match GetKind t with DataType_Map m => m | _ => None end.
Definition GetDecimal (t : option DataType) : option DecimalType :=
  match GetKind t with DataType_Decimal d => d | _ => None end.
Definition GetUuid (t : option DataType) : option unit :=
  match GetKind t with DataType_Uuid u => u | _ => None end.
Definition GetFixedBytes (t : option DataType) : option N :=
  match GetKind t with DataType_FixedBytes f => f | _ => None end.

Definition isNil {A} (o : option A) : bool :=
  match o with None => true | Some _ => false end.

(** ** Children and paths of the logical tree *)

(** The child fields of a type in source order. *)
Definition childrenOf (k : DataTypeKind) : list (option Field) :=
  match k with
  | DataType_Struct s => GetStructFields s
  | DataType_List l => [GetListElement l]
  | DataType_Map m => [GetMapKey m; GetMapValue m]
  | _ => []
  end.

(** Every renderer package has this helper. *)
Definition joinPath (parent child : string) : string :=
  if decide (parent = "") then child else parent +:+ "." +:+ child.

(** ** Induction on the logical tree *)
Section FieldInd.
Variable P : Field -> Prop.
Variable Q : option Field -> Prop.
Hypothesis HQnil : Q None.
Hypothesis HQsome : forall f, P f -> Q (Some f).
Hypothesis Hfield : forall m t,
  Forall Q (childrenOf (GetKind t)) -> P (mkField m t).

Fixpoint Field_tree_ind (f : Field) : P f :=
  let opt (o : option Field) : Q o :=
    match o with
    | None => HQnil
    | Some f => HQsome f (Field_tree_ind f)
    end in
  match f with
  | mkField m t =>
      Hfield m t
        (match t as t0 return Forall Q (childrenOf (GetKind t0)) with
         | None => Forall_nil _
         | Some (mkDataType p k) =>
             match k as k0 return Forall Q (childrenOf (GetKind (Some (mkDataType p k0)))) with
             | DataType_Struct (Some l) =>
                 (fix go (l : list (option Field)) : Forall Q l :=
                    match l with
                    | [] => Forall_nil _
                    | x :: l => Forall_cons _ _ _ (opt x) (go l)
                    end) l
             | DataType_List (Some (e, n)) => Forall_cons _ _ _ (opt e) (Forall_nil _)
             | DataType_List None => Forall_cons _ _ _ HQnil (Forall_nil _)
             | DataType_Map (Some (a, b)) =>
                 Forall_cons _ _ _ (opt a) (Forall_cons _ _ _ (opt b) (Forall_nil _))
             | DataType_Map None =>
                 Forall_cons _ _ _ HQnil (Forall_cons _ _ _ HQnil (Forall_nil _))
             | _ => Forall_nil _
             end
         end)
  end.
End FieldInd.
