(* ===== verification/WellFormed.v ===== *)
(** * Well-formed schemas: the contract between the compiler and the renderers

    [wfNode] states what the schema compiler promises of every field of the tree
    it produces: a known type with a valid payload, a role and a presence that
    agree with it, and children whose names are distinct and non-empty.  The
    compiler establishes it ([CompileSpec]) and the renderers rely on it. *)
From S2P Require Import Prelude GoStrings Schema.

(** ** The fields of a tree, in preorder *)

Definition concatOpt {A B} (f : A -> list B) : list (option A) -> list B :=
  fix go l :=
  match l with
  | [] => []
  | Some x :: l => f x ++ go l
  | None :: l => go l
  end.

Fixpoint subFields (f : Field) {struct f} : list Field :=
  match f with
  | mkField m t =>
      f ::
      match t with
      | None => []
      | Some (mkDataType _ k) =>
          match k with
          | DataType_Struct (Some fs) => concatOpt subFields fs
          | DataType_List (Some (Some e, _)) => subFields e
          | DataType_Map (Some (key, value)) =>
              match key with Some x => subFields x | None => [] end ++
              match value with Some x => subFields x | None => [] end
          | _ => []
          end
      end
  end.

Definition childSubFields (l : list (option Field)) : list Field := concatOpt subFields l.
Arguments childSubFields : simpl never.

Lemma subFields_unfold m t :
  subFields (mkField m t) = mkField m t :: childSubFields (childrenOf (GetKind t)).
Proof.
  unfold childSubFields.
  destruct t as [[p [| | |[]|[[[]]|]|[[[] []]|]| | | | | |]]|]; simpl; rewrite ?app_nil_r; done.
Qed.

Lemma childSubFields_cons f l : childSubFields (Some f :: l) = subFields f ++ childSubFields l.
Proof. done. Qed.

(** ** One node *)

Definition knownPrimitive (k : PrimitiveKind) : bool :=
  match k with PRIMITIVE_KIND_UNSPECIFIED | PRIMITIVE_KIND_other _ => false | _ => true end.
Definition knownJson (k : JsonKind) : bool :=
  match k with JSON_KIND_UNSPECIFIED | JSON_KIND_other _ => false | _ => true end.

Definition fieldName (f : Field) : string := name (meta f).
Definition hasRole (r : SyntheticRole) (o : option Field) : Prop :=
  exists f, o = Some f /\ synthetic_role (meta f) = r.

(** The children of a message: real fields with distinct, non-empty names. *)
Definition wfScope (l : list (option Field)) : Prop :=
  exists fs, l = map Some fs /\ NoDup (map fieldName fs) /\
    Forall (fun f => fieldName f <> "" /\ synthetic_role (meta f) = SYNTHETIC_ROLE_PROTO_FIELD) fs.

(** The key of a map is a scalar. *)
Definition isPrimitiveKind (k : DataTypeKind) : bool :=
  match k with DataType_Primitive _ => true | _ => false end.
Definition primitiveKey (o : option Field) : Prop := isPrimitiveKind (GetKind (GetType o)) = true.

Definition wfKind (k : DataTypeKind) : Prop :=
  match k with
  | DataType_Primitive (Some p) => knownPrimitive p = true
  | DataType_Enum (Some e) => et_values e <> [] /\ Forall (fun v => is_Some v) (et_values e)
  | DataType_Struct (Some fs) => wfScope fs
  | DataType_List (Some (e, n)) => hasRole SYNTHETIC_ROLE_LIST_ELEMENT e /\ (n <= 2147483647)%N
  | DataType_Map (Some (k, v)) =>
      hasRole SYNTHETIC_ROLE_MAP_KEY k /\ hasRole SYNTHETIC_ROLE_MAP_VALUE v /\ primitiveKey k
  | DataType_Timestamp (Some t) => ts_unit t = TIME_UNIT_NANOSECOND /\ ts_timezone t = "UTC"
  | DataType_Duration (Some u) => u = TIME_UNIT_NANOSECOND
  | DataType_Json (Some j) => knownJson j = true
  | DataType_Decimal (Some d) =>
      (1 <= dec_precision d <= 38)%N /\ (dec_scale d <= dec_precision d)%N
  | DataType_Uuid (Some _) => True
  | DataType_FixedBytes (Some n) => (1 <= n <= 2147483647)%N
  | _ => False
  end.

(** A refined type exists on fields with presence, or inside a collection. *)
Definition refined (k : DataTypeKind) : bool :=
  match k with
  | DataType_Decimal _ | DataType_Uuid _ | DataType_FixedBytes _ => true
  | _ => false
  end.
Definition scalarKind (k : DataTypeKind) : bool :=
  match k with DataType_Primitive _ | DataType_Enum _ => true | _ => false end.
Definition isListKind (k : DataTypeKind) : bool :=
  match k with DataType_List _ => true | _ => false end.
Definition isMapKind (k : DataTypeKind) : bool :=
  match k with DataType_Map _ => true | _ => false end.

(** Presence, nullability and oneof agree with the type and the role. *)
Definition wfPresence (m : FieldMeta) (k : DataTypeKind) : Prop :=
  match presence m with
  | PRESENCE_IMPLICIT =>
      nullable m = false /\ oneof m = "" /\ synthetic_role m = SYNTHETIC_ROLE_PROTO_FIELD /\
      scalarKind k = true
  | PRESENCE_EXPLICIT =>
      nullable m = true /\ oneof m = "" /\ synthetic_role m = SYNTHETIC_ROLE_PROTO_FIELD /\
      isListKind k = false /\ isMapKind k = false
  | PRESENCE_REQUIRED =>
      nullable m = false /\ oneof m = "" /\ synthetic_role m = SYNTHETIC_ROLE_PROTO_FIELD /\
      refined k = false /\ isListKind k = false /\ isMapKind k = false
  | PRESENCE_ONEOF =>
      nullable m = true /\ synthetic_role m = SYNTHETIC_ROLE_PROTO_FIELD /\
      isListKind k = false /\ isMapKind k = false
  | PRESENCE_REPEATED =>
      nullable m = false /\ oneof m = "" /\ synthetic_role m = SYNTHETIC_ROLE_PROTO_FIELD /\
      isListKind k = true
  | PRESENCE_MAP =>
      nullable m = false /\ oneof m = "" /\ synthetic_role m = SYNTHETIC_ROLE_PROTO_FIELD /\
      isMapKind k = true
  | PRESENCE_NOT_APPLICABLE =>
      nullable m = false /\ oneof m = "" /\ synthetic_role m <> SYNTHETIC_ROLE_PROTO_FIELD /\
      isListKind k = false /\ isMapKind k = false
  | _ => False
  end.

Definition wfNode (f : Field) : Prop :=
  is_Some (typ f) /\ wfKind (GetKind (typ f)) /\ wfPresence (meta f) (GetKind (typ f)).

(** ** Trees and datasets *)

Definition wfTree (f : Field) : Prop := Forall wfNode (subFields f).
Definition wfTreeOpt (o : option Field) : Prop := exists f, o = Some f /\ wfTree f.

Definition wfDataset (d : DatasetSchema) : Prop :=
  wfScope (ds_fields d) /\ Forall wfNode (childSubFields (ds_fields d)).

Lemma wfTree_node m t : wfTree (mkField m t) -> wfNode (mkField m t).
Proof. unfold wfTree. rewrite subFields_unfold. by intros [? _]%Forall_cons_1. Qed.

Lemma Forall_childSubFields (P : Field -> Prop) l :
  Forall P (childSubFields l) <-> forall f, Some f ∈ l -> Forall P (subFields f).
Proof.
  induction l as [|[f|] l IH].
  - split; [set_solver|constructor].
  - rewrite childSubFields_cons, Forall_app, IH. set_solver.
  - change (childSubFields (None :: l)) with (childSubFields l). rewrite IH. set_solver.
Qed.

(** The children of a well-formed field are there and well formed. *)
Lemma wfTree_children m t :
  wfTree (mkField m t) -> Forall wfTreeOpt (childrenOf (GetKind t)).
Proof.
  intros Hwf. pose proof (wfTree_node _ _ Hwf) as [[d Hd] [Hk _]]. simpl in *. subst t.
  unfold wfTree in Hwf. rewrite subFields_unfold in Hwf. apply Forall_cons_1 in Hwf as [_ Hc].
  simpl in *. rewrite Forall_childSubFields in Hc. apply list.Forall_forall. intros o Ho.
  assert (is_Some o) as [f ->]; [|exists f; split; [done|]; unfold wfTree; auto].
  destruct (kindOf d) as [| | |[fs|]|[[e n]|]|[[k v]|]| | | | | |]; simpl in *; try done;
    try (by apply not_elem_of_nil in Ho).
  - destruct Hk as (gs&->&_). apply list_elem_of_fmap in Ho as [g [-> _]]. eauto.
  - destruct Hk as [(g&->&_) _]. apply list_elem_of_singleton in Ho as ->. eauto.
  - destruct Hk as ((g&->&_)&(h&->&_)&_). set_solver.
Qed.

Lemma wfDataset_fields d : wfDataset d -> Forall wfTreeOpt (ds_fields d).
Proof.
  intros [(fs&Hfs&_) Hn]. rewrite Forall_childSubFields in Hn.
  apply list.Forall_forall. intros o Ho. rewrite Hfs in Ho.
  apply list_elem_of_fmap in Ho as [g [-> Hg]]. exists g. split; [done|]. apply Hn.
  rewrite Hfs. by apply list_elem_of_fmap_2.
Qed.

(** Induction on well-formed trees: every child is there and satisfies [P]. *)
Lemma wfTree_ind (P : Field -> Prop) :
  (forall m t, wfNode (mkField m t) -> Forall wfTreeOpt (childrenOf (GetKind t)) ->
     Forall (fun o => exists f, o = Some f /\ P f) (childrenOf (GetKind t)) -> P (mkField m t)) ->
  forall f, wfTree f -> P f.
Proof.
  intros Hstep f.
  apply (Field_tree_ind (fun f => wfTree f -> P f)
           (fun o => forall f, o = Some f -> wfTree f -> P f)); [done| |].
  - by intros g IH g' [= ->].
  - intros m t IH Hwf. pose proof (wfTree_children _ _ Hwf) as Hch.
    apply Hstep; [by apply wfTree_node|done|].
    rewrite list.Forall_forall in IH, Hch. apply list.Forall_forall. intros o Ho.
    destruct (Hch o Ho) as (g&->&Hg). exists g. split; [done|]. by eapply (IH (Some g)).
Qed.
