(* ===== verification/Bundle.v ===== *)
(** * Schema bundles (src/go/data/bundle.go)

    Version checks, the in-memory migration of the previous version pair, the
    refusal of unknown fields and the dataset lookup.  The protobuf runtime
    (wire codec and reflection) is a parameter: the class [BundleRuntime]. *)
From S2P Require Import Prelude GoStrings Schema WellFormed.

Definition IRVersion : N := 4.
Definition MappingVersion : N := 3.

(** ** Reflection

    What [rejectUnknownFields] observes of a [protoreflect.Message]: its unknown
    bytes and, in [Range] order, its populated fields.  The payload is [None]
    when the field (or map value) is not of message kind. *)
Inductive Message : Type :=
  | mkMessage (unknown : string) (populated : list RangeEntry)
with RangeEntry : Type :=
  | MapEntry (fname : string) (items : option (list (string * Message)))
  | ListEntry (fname : string) (items : option (list Message))
  | SingularEntry (fname : string) (item : option Message).

Class BundleRuntime : Type := {
  Bundle_Unmarshal : string -> string + SchemaBundle;
  Bundle_Marshal : SchemaBundle -> string + string;
  Bundle_ProtoReflect : SchemaBundle -> Message
}.

(** Bundles without a nil element in a repeated field and without a nil message in a
    oneof, which the wire format cannot express. *)
Definition wholeKind (k : DataTypeKind) : Prop :=
  match k with
  | DataType_None => True
  | DataType_Primitive p => is_Some p
  | DataType_Enum e => exists x, e = Some x /\ Forall is_Some (et_values x)
  | DataType_Struct s => exists fs, s = Some fs /\ Forall is_Some fs
  | DataType_List l => is_Some l
  | DataType_Map m => is_Some m
  | DataType_Timestamp t => is_Some t
  | DataType_Duration d => is_Some d
  | DataType_Json j => is_Some j
  | DataType_Decimal d => is_Some d
  | DataType_Uuid u => is_Some u
  | DataType_FixedBytes f => is_Some f
  end.
Definition wholeDataset (d : DatasetSchema) : Prop :=
  Forall is_Some (ds_fields d) /\ Forall is_Some (retired_fields d) /\
  Forall (fun f => wholeKind (GetKind (typ f))) (childSubFields (ds_fields d)).
Definition wholeBundle (b : SchemaBundle) : Prop :=
  Forall (fun o => exists d, o = Some d /\ wholeDataset d) (datasets b).

(** What the wire codec promises: such a bundle, when it marshals, is read back. *)
Class BundleRuntimeLaws `{BundleRuntime} : Prop := {
  Bundle_Marshal_Unmarshal : forall b encoded, wholeBundle b ->
    Bundle_Marshal b = inr encoded -> Bundle_Unmarshal encoded = inr b
}.

(** A loop over an indexed slice. *)
Definition forEachIndexed {A} (f : nat -> A -> Outcome unit) : nat -> list A -> Outcome unit :=
  fix go i l :=
  match l with
  | [] => Ok tt
  | x :: l => _ ← f i x; go (S i) l
  end.

Fixpoint rejectUnknownFields (message : Message) (path unsupported : string) {struct message}
  : Outcome unit :=
  match message with
  | mkMessage unknown populated =>
      if negb (String.length unknown =? 0)%nat
      then Err (path +:+ " contains fields " +:+ unsupported)
      else
        forEach (fun entry =>
          match entry with
          | MapEntry _ None => Ok tt
          | MapEntry fname (Some items) =>
              forEach (fun item =>
                match item with
                | (key, m) => rejectUnknownFields m
                    (path +:+ "." +:+ fname +:+ "[" +:+ key +:+ "]") unsupported
                end) items
          | ListEntry _ None => Ok tt
          | ListEntry fname (Some items) =>
              forEachIndexed (fun index m => rejectUnknownFields m
                (path +:+ "." +:+ fname +:+ "[" +:+ FormatUint (N.of_nat index) +:+ "]")
                unsupported) 0 items
          | SingularEntry _ None => Ok tt
          | SingularEntry fname (Some m) =>
              rejectUnknownFields m (path +:+ "." +:+ fname) unsupported
          end) populated
  end.

Fixpoint validateLegacyListShape (field : Field) (path : string) {struct field} : Outcome unit :=
  match field with
  | mkField _ None => Ok tt
  | mkField _ (Some (mkDataType _ kind)) =>
      match kind with
      | DataType_Struct (Some fields) =>
          forEach (fun child =>
            match child with
            | None => Ok tt
            | Some c => validateLegacyListShape c (path +:+ "." +:+ name (meta c))
            end) fields
      | DataType_List (Some (element, fixed_length)) =>
          if negb (fixed_length =? 0)%N
          then Err ("SchemaBundle mapping_version 2 field " +:+ Quote path +:+
                    " contains fixed_length " +:+ FormatUint fixed_length +:+
                    ", which was introduced in mapping_version " +:+ FormatUint MappingVersion)
          else match element with
               | None => Ok tt
               | Some e => validateLegacyListShape e (path +:+ "[]")
               end
      | DataType_Map (Some (key, value)) =>
          _ ← match key with
              | None => Ok tt
              | Some k => validateLegacyListShape k (path +:+ ".key")
              end;
          match value with
          | None => Ok tt
          | Some v => validateLegacyListShape v (path +:+ ".value")
          end
      | _ => Ok tt
      end
  end.

Definition validateLegacyListShapeOpt (field : option Field) (path : string) : Outcome unit :=
  match field with
  | None => Ok tt
  | Some f => validateLegacyListShape f path
  end.

Section WithRuntime.
Context `{BundleRuntime}.

Definition MigrateSchemaBundle (bundle : option SchemaBundle) : Outcome SchemaBundle :=
  match bundle with
  | None => Err "SchemaBundle is nil"
  | Some b =>
      if (ir_version b =? IRVersion)%N && (mapping_version b =? MappingVersion)%N then Ok b
      else if (ir_version b =? 3)%N && (mapping_version b =? 2)%N then
        _ ← wrapErr "migrate SchemaBundle: "
              (rejectUnknownFields (Bundle_ProtoReflect b) "SchemaBundle" "unknown to this migrator");
        _ ← forEach (fun dataset =>
              match dataset with
              | None => Ok tt
              | Some ds =>
                  forEach (fun field =>
                    validateLegacyListShapeOpt field (name (metaOf field))) (ds_fields ds)
              end) (datasets b);
        Ok (mkSchemaBundle IRVersion MappingVersion (source_descriptor_sha256 b) (datasets b))
      else
        Err ("unsupported SchemaBundle version pair ir_version=" +:+ FormatUint (ir_version b) +:+
             " mapping_version=" +:+ FormatUint (mapping_version b) +:+
             "; expected 3/2 or " +:+ FormatUint IRVersion +:+ "/" +:+ FormatUint MappingVersion)
  end.

Definition ParseSchemaBundle (encoded : string) : Outcome SchemaBundle :=
  match Bundle_Unmarshal encoded with
  | inl e => Err ("decode SchemaBundle: " +:+ e)
  | inr bundle => MigrateSchemaBundle (Some bundle)
  end.

Definition ValidateSchemaBundle (bundle : option SchemaBundle) : Outcome unit :=
  match bundle with
  | None => Err "SchemaBundle is nil"
  | Some b =>
      _ ← failIf (negb (ir_version b =? IRVersion)%N)
            ("unsupported SchemaBundle ir_version " +:+ FormatUint (ir_version b) +:+
             "; expected " +:+ FormatUint IRVersion);
      failIf (negb (mapping_version b =? MappingVersion)%N)
            ("unsupported SchemaBundle mapping_version " +:+ FormatUint (mapping_version b) +:+
             "; expected " +:+ FormatUint MappingVersion)
  end.

Definition MarshalSchemaBundle (bundle : option SchemaBundle) : Outcome string :=
  _ ← ValidateSchemaBundle bundle;
  match bundle with
  | None => Ok ""
  | Some b =>
      match Bundle_Marshal b with
      | inl e => Err ("encode SchemaBundle: " +:+ e)
      | inr encoded => Ok encoded
      end
  end.
End WithRuntime.

(** [FindDataset]: the first dataset compiled from the message, nil otherwise. *)
Definition FindDataset (bundle : option SchemaBundle) (sourceMessage : string)
  : option DatasetSchema :=
  match bundle with
  | None => None
  | Some b =>
      (fix go (l : list (option DatasetSchema)) :=
         match l with
         | [] => None
         | Some ds :: l => if decide (source_message ds = sourceMessage) then Some ds else go l
         | None :: l => go l
         end) (datasets b)
  end.
