(* ===== verification/Descriptor.v ===== *)
(** * Protobuf descriptors (package protoreflect, outside the repository)

    The compiler reads descriptors through the accessors of [protoreflect]; a
    descriptor is a record of what those accessors return.  Message descriptors
    refer to each other (a message may contain itself), so a field names its
    message and a [Registry] resolves the name.  The functions of the package on
    names are the class [Protoreflect], with the laws its documentation gives. *)
From S2P Require Import Prelude GoStrings Schema Bundle.

(** [protoreflect.Kind]; [Kind_other] is a number the package does not name. *)
Inductive Kind : Type :=
  | BoolKind | EnumKind | Int32Kind | Sint32Kind | Uint32Kind | Int64Kind
  | Sint64Kind | Uint64Kind | Sfixed32Kind | Fixed32Kind | FloatKind
  | Sfixed64Kind | Fixed64Kind | DoubleKind | StringKind | BytesKind
  | MessageKind | GroupKind | Kind_other (n : Z).
#[export] Instance Kind_eq_dec : EqDecision Kind.
Proof. solve_decision. Defined.

Inductive Cardinality : Type := Optional | Required | Repeated.
#[export] Instance Cardinality_eq_dec : EqDecision Cardinality.
Proof. solve_decision. Defined.

(** [proto.HasExtension] and [proto.GetExtension] on the options of a
    descriptor: absent, present with an unexpected Go type (whose [%T] text is
    kept), or present with its value and reflection view. *)
Inductive Extension (A : Type) : Type :=
  | NoExtension
  | BadExtension (goType : string)
  | HasExtension (value : A) (reflected : Message).
Arguments NoExtension {A}.
Arguments BadExtension {A} goType.
Arguments HasExtension {A} value reflected.

(** [datav1.FieldOptions]: the semantic-type oneof and the fixed-list length. *)
Inductive SemanticType : Type :=
  | FieldOptions_Decimal (d : option DecimalType)
  | FieldOptions_Uuid (u : option unit)
  | FieldOptions_FixedBytes (byte_length : option N).

Record FieldOptions : Type := mkFieldOptions {
  semantic_type : option SemanticType;
  fixed_list : option N
}.

Record SourceLocation : Type := mkSourceLocation {
  LeadingComments : string;
  TrailingComments : string
}.

Record EnumValueDescriptor : Type := mkEnumValueDescriptor {
  evd_Name : string;
  evd_Number : Z;
  evd_location : SourceLocation
}.

Record EnumDescriptor : Type := mkEnumDescriptor {
  ed_FullName : string;
  ed_Values : list EnumValueDescriptor;
  ed_IsClosed : bool
}.

Record OneofDescriptor : Type := mkOneofDescriptor {
  od_Name : string;
  od_IsSynthetic : bool
}.

(** [protoreflect.FieldDescriptor]; [fd_Message] is the full name of the
    message a message or group field refers to, [fd_ContainingMessage] that of
    its parent, and [fd_ReservedNames] the parent's reserved names. *)
Inductive FieldDescriptor : Type := mkFieldDescriptor {
  fd_FullName : string;
  fd_Name : string;
  fd_Number : Z;
  fd_JSONName : string;
  fd_Kind : Kind;
  fd_Cardinality : Cardinality;
  fd_IsMap : bool;
  fd_IsList : bool;
  fd_HasPresence : bool;
  fd_HasDefault : bool;
  fd_DefaultValue : string;
  fd_ContainingOneof : option OneofDescriptor;
  fd_ContainingMessage : string;
  fd_ReservedNames : list string;
  fd_Message : option string;
  fd_Enum : option EnumDescriptor;
  fd_MapKey : option FieldDescriptor;
  fd_MapValue : option FieldDescriptor;
  fd_location : SourceLocation;
  fd_extension : Extension FieldOptions
}.

Record MessageDescriptor : Type := mkMessageDescriptor {
  md_FullName : string;
  md_IsMapEntry : bool;
  md_Fields : list FieldDescriptor;
  md_ReservedNames : list string;
  md_ReservedRanges : list (Z * Z);
  md_ExtensionRanges : nat;
  md_location : SourceLocation;
  md_extension : Extension unit
}.

(** The messages a descriptor pool resolves, by full name. *)
Definition Registry : Type := gmap string MessageDescriptor.

(** [ReservedRanges().Has]: ranges are half-open. *)
Definition RangesHas (ranges : list (Z * Z)) (n : Z) : bool :=
  existsb (fun r => match r with (lo, hi) => (lo <=? n)%Z && (n <? hi)%Z end) ranges.

(** [ReservedNames().Has]. *)
Definition NamesHas (names : list string) (n : string) : bool :=
  existsb (String.eqb n) names.

Class Protoreflect : Type := {
  Name_IsValid : string -> bool;
  FullName_IsValid : string -> bool;
  FullName_Name : string -> string;
  FullName_Append : string -> string -> string;
  Kind_String : Kind -> string
}.

(** Documented behaviour of the name functions: a name appended to a valid full
    name is valid and is its last component. *)
Class ProtoreflectLaws `{Protoreflect} : Prop := {
  Append_valid : forall p n,
    FullName_IsValid p = true -> Name_IsValid n = true ->
    FullName_IsValid (FullName_Append p n) = true;
  Append_Name : forall p n,
    FullName_IsValid p = true -> Name_IsValid n = true ->
    FullName_Name (FullName_Append p n) = n;
  Name_nonempty : Name_IsValid "" = false;
  FullName_nonempty : FullName_IsValid "" = false
}.

(** ** A reference implementation of the name functions *)

Definition isLetter (c : ascii) : bool := isLower c || isUpper c || Ascii.eqb c USCORE.
Definition refName_IsValid (s : string) : bool :=
  match s with
  | EmptyString => false
  | String c s => isLetter c && allBytes (fun d => isLetter d || isDigit d) s
  end.
Definition DOT : ascii := "046"%char.
Definition refFullName_IsValid (s : string) : bool :=
  forallb refName_IsValid (Split s DOT).
Definition refFullName_Name (s : string) : string :=
  match CutLast s DOT with
  | Some (_, n) => n
  | None => s
  end.
Definition refFullName_Append (p n : string) : string :=
  if decide (p = "") then n else p +:+ "." +:+ n.
Definition refKind_String (k : Kind) : string :=
  match k with
  | BoolKind => "bool" | EnumKind => "enum" | Int32Kind => "int32" | Sint32Kind => "sint32"
  | Uint32Kind => "uint32" | Int64Kind => "int64" | Sint64Kind => "sint64"
  | Uint64Kind => "uint64" | Sfixed32Kind => "sfixed32" | Fixed32Kind => "fixed32"
  | FloatKind => "float" | Sfixed64Kind => "sfixed64" | Fixed64Kind => "fixed64"
  | DoubleKind => "double" | StringKind => "string" | BytesKind => "bytes"
  | MessageKind => "message" | GroupKind => "group"
  | Kind_other n => "<unknown:" +:+ FormatInt n +:+ ">"
  end.

Definition refProtoreflect : Protoreflect := {|
  Name_IsValid := refName_IsValid;
  FullName_IsValid := refFullName_IsValid;
  FullName_Name := refFullName_Name;
  FullName_Append := refFullName_Append;
  Kind_String := refKind_String
|}.
