(* ===== verification/Compiler.v ===== *)
(** * The dataset compiler (src/go/data/compiler.go)

    [CompileMessage] turns a protobuf message descriptor and the last committed
    schema of the same message into the next schema.  The compiler object of the
    source, [datasetCompiler], is a record threaded through a state monad; the
    recursion through nested messages is fuelled, and open recursion keeps the
    methods of the source separate: each takes the method that compiles a
    message-typed value as its first argument. *)
From S2P Require Import Prelude GoStrings Schema Bundle Descriptor.

Definition maxStableID : Z := 2147483447.
Definition maxFixedBytesLength : N := 2147483647.
Definition maxFixedListLength : N := 2147483647.

(** ** Machine integers *)

Definition uint32 (z : Z) : N := Z.to_N (z mod 4294967296).
Definition int32 (z : Z) : Z :=
  let m := (z mod 4294967296)%Z in
  if (m <? 2147483648)%Z then m else (m - 4294967296)%Z.

(** ** Names and identities *)

(** The body of the loop of [storageName]: [prev] is the previous rune, [b] the
    builder. *)
Fixpoint storageNameLoop (prev : option ascii) (rest b : string) : string :=
  match rest with
  | EmptyString => b
  | String r rest' =>
      if Ascii.eqb r DOT || Ascii.eqb r "-" then
        storageNameLoop (Some r) rest'
          (if negb (String.length b =? 0)%nat && negb (HasSuffix b "_") then b +:+ "_" else b)
      else if isUpper r then
        let previousIsLowerOrDigit :=
          match prev with Some p => isLower p || isDigit p | None => false end in
        let nextIsLower :=
          match rest' with String n _ => isLower n | EmptyString => false end in
        let previousIsUpper := match prev with Some p => isUpper p | None => false end in
        let b1 :=
          if negb (String.length b =? 0)%nat
             && (previousIsLowerOrDigit || (previousIsUpper && nextIsLower))
             && negb (HasSuffix b "_")
          then b +:+ "_" else b in
        storageNameLoop (Some r) rest' (b1 +:+ str1 (toLowerByte r))
      else storageNameLoop (Some r) rest' (b +:+ str1 (toLowerByte r))
  end.
Definition storageName (nm : string) : string := TrimByte USCORE (storageNameLoop None nm "").

Definition validateStableID (id : Z) : Outcome unit :=
  failIf ((id <? 1)%Z || (maxStableID <? id)%Z)
    ("stable_id " +:+ FormatInt id +:+ " is outside 1.." +:+ FormatInt maxStableID).

Definition fieldIdentitySegment (number : Z) : string := "field:" +:+ FormatInt number.

Definition appendIdentity (parent segment : string) : string :=
  if decide (parent = "") then segment else parent +:+ "/" +:+ segment.

Definition appendNumber (path : list N) (number : N) : list N := path ++ [number].

Definition equalNumberPath (left right : list N) : bool := bool_decide (left = right).

Definition parentCompilerIdentity (identity : string) : string :=
  match CutLast identity SLASH with
  | Some (parent, _) => parent
  | None => ""
  end.

Definition listElementSegment : string := "list:element".
Definition mapKeySegment : string := "map:key".
Definition mapValueSegment : string := "map:value".

(** The role one identity segment denotes, [None] when it is malformed. *)
Definition segmentRole (segment : string) : option SyntheticRole :=
  if decide (segment = listElementSegment) then Some SYNTHETIC_ROLE_LIST_ELEMENT
  else if decide (segment = mapKeySegment) then Some SYNTHETIC_ROLE_MAP_KEY
  else if decide (segment = mapValueSegment) then Some SYNTHETIC_ROLE_MAP_VALUE
  else
    match ParseInt32 (TrimPrefix segment "field:") with
    | Some number =>
        if negb (HasPrefix segment "field:") || (number <? 1)%Z || (2 ^ 29 - 1 <? number)%Z
           || negb (String.eqb (fieldIdentitySegment number) segment)
        then None
        else Some SYNTHETIC_ROLE_PROTO_FIELD
    | None => None
    end.

Definition isProtoField (r : SyntheticRole) : bool :=
  bool_decide (r = SYNTHETIC_ROLE_PROTO_FIELD).

(** The loop of [compilerIdentityRole]; [first] is [index == 0]. *)
Fixpoint identityRoleLoop (identity : string) (first : bool) (previous : SyntheticRole)
    (segments : list string) : Outcome SyntheticRole :=
  match segments with
  | [] => Ok previous
  | segment :: segments =>
      match segmentRole segment with
      | None => Err ("compiler identity " +:+ Quote identity +:+ " has invalid segment " +:+
                     Quote segment)
      | Some role =>
          _ ← failIf (first && negb (isProtoField role))
                ("compiler identity " +:+ Quote identity +:+
                 " must begin with a protobuf field segment");
          _ ← failIf (negb (isProtoField role) && negb (isProtoField previous))
                ("compiler identity " +:+ Quote identity +:+
                 " has a synthetic segment outside a protobuf collection field");
          _ ← failIf (bool_decide (previous = SYNTHETIC_ROLE_MAP_KEY))
                ("compiler identity " +:+ Quote identity +:+ " descends through a protobuf map key");
          identityRoleLoop identity false role segments
      end
  end.
Definition compilerIdentityRole (identity : string) : Outcome SyntheticRole :=
  identityRoleLoop identity true SYNTHETIC_ROLE_UNSPECIFIED (Split identity SLASH).

(** ** Descriptor helpers *)

Definition descriptorComment (location : SourceLocation) : string :=
  let comment := TrimSpace (LeadingComments location) in
  if decide (comment = "") then TrimSpace (TrailingComments location) else comment.

(** [slices.SortFunc] by field number. *)
Definition fieldNumber_le (left right : FieldDescriptor) : Prop :=
  (fd_Number left <= fd_Number right)%Z.
#[export] Instance fieldNumber_le_dec left right : Decision (fieldNumber_le left right).
Proof. unfold fieldNumber_le. apply _. Defined.
Definition sortedFields (fields : list FieldDescriptor) : list FieldDescriptor :=
  merge_sort fieldNumber_le fields.

Definition rejectExtensionRanges (md : MessageDescriptor) : Outcome unit :=
  failIf (negb (md_ExtensionRanges md =? 0)%nat)
    ("protobuf message " +:+ Quote (md_FullName md) +:+
     " declares extension ranges; proto2 extensions cannot be represented in a finite data schema").

Definition hasDatasetOption (md : MessageDescriptor) : Outcome bool :=
  match md_extension md with
  | NoExtension => Ok false
  | BadExtension goType => Err ("dataset option has unexpected type " +:+ goType)
  | HasExtension _ reflected =>
      _ ← rejectUnknownFields reflected "dataset option" "unsupported by this compiler";
      Ok true
  end.

Definition dataFieldOptions (fd : FieldDescriptor) : Outcome (option FieldOptions) :=
  match fd_extension fd with
  | NoExtension => Ok None
  | BadExtension goType => Err ("field option has unexpected type " +:+ goType)
  | HasExtension value reflected =>
      _ ← rejectUnknownFields reflected "field option" "unsupported by this compiler";
      Ok (Some value)
  end.

Definition fieldPresence (fd : FieldDescriptor) : Presence * bool * string :=
  if fd_IsMap fd then (PRESENCE_MAP, false, "")
  else if fd_IsList fd then (PRESENCE_REPEATED, false, "")
  else if decide (fd_Cardinality fd = Required) then (PRESENCE_REQUIRED, false, "")
  else
    let explicit_or_implicit :=
      if fd_HasPresence fd then (PRESENCE_EXPLICIT, true, "")
      else (PRESENCE_IMPLICIT, false, "") in
    match fd_ContainingOneof fd with
    | Some od =>
        if negb (od_IsSynthetic od) then (PRESENCE_ONEOF, true, od_Name od)
        else explicit_or_implicit
    | None => explicit_or_implicit
    end.

Definition primitiveKind (kind : Kind) : option PrimitiveKind :=
  match kind with
  | DoubleKind => Some PRIMITIVE_KIND_DOUBLE
  | FloatKind => Some PRIMITIVE_KIND_FLOAT
  | Int64Kind => Some PRIMITIVE_KIND_INT64
  | Uint64Kind => Some PRIMITIVE_KIND_UINT64
  | Int32Kind => Some PRIMITIVE_KIND_INT32
  | Fixed64Kind => Some PRIMITIVE_KIND_FIXED64
  | Fixed32Kind => Some PRIMITIVE_KIND_FIXED32
  | BoolKind => Some PRIMITIVE_KIND_BOOL
  | StringKind => Some PRIMITIVE_KIND_STRING
  | BytesKind => Some PRIMITIVE_KIND_BYTES
  | Uint32Kind => Some PRIMITIVE_KIND_UINT32
  | Sfixed32Kind => Some PRIMITIVE_KIND_SFIXED32
  | Sfixed64Kind => Some PRIMITIVE_KIND_SFIXED64
  | Sint32Kind => Some PRIMITIVE_KIND_SINT32
  | Sint64Kind => Some PRIMITIVE_KIND_SINT64
  | _ => None
  end.

Definition primitiveType (kind : PrimitiveKind) : DataType :=
  mkDataType "" (DataType_Primitive (Some kind)).
Definition wrapperType (nm : string) (kind : PrimitiveKind) : DataType :=
  mkDataType nm (DataType_Primitive (Some kind)).
Definition jsonType (nm : string) (kind : JsonKind) : DataType :=
  mkDataType nm (DataType_Json (Some kind)).

Definition wellKnownType (nm : string) : option DataType :=
  assoc nm [
    ("google.protobuf.DoubleValue", wrapperType nm PRIMITIVE_KIND_DOUBLE);
    ("google.protobuf.FloatValue", wrapperType nm PRIMITIVE_KIND_FLOAT);
    ("google.protobuf.Int64Value", wrapperType nm PRIMITIVE_KIND_INT64);
    ("google.protobuf.UInt64Value", wrapperType nm PRIMITIVE_KIND_UINT64);
    ("google.protobuf.Int32Value", wrapperType nm PRIMITIVE_KIND_INT32);
    ("google.protobuf.UInt32Value", wrapperType nm PRIMITIVE_KIND_UINT32);
    ("google.protobuf.BoolValue", wrapperType nm PRIMITIVE_KIND_BOOL);
    ("google.protobuf.StringValue", wrapperType nm PRIMITIVE_KIND_STRING);
    ("google.protobuf.BytesValue", wrapperType nm PRIMITIVE_KIND_BYTES);
    ("google.protobuf.Timestamp", mkDataType nm (DataType_Timestamp (Some (mkTimestampType TIME_UNIT_NANOSECOND "UTC"))));
    ("google.protobuf.Duration", mkDataType nm (DataType_Duration (Some TIME_UNIT_NANOSECOND)));
    ("google.protobuf.Any", jsonType nm JSON_KIND_ANY);
    ("google.protobuf.Struct", jsonType nm JSON_KIND_STRUCT);
    ("google.protobuf.Value", jsonType nm JSON_KIND_VALUE);
    ("google.protobuf.ListValue", jsonType nm JSON_KIND_LIST_VALUE)
  ].

(** ** Evolution of a field that keeps its identity *)

Definition enumValueIdentity (v : option EnumValue) : string * Z :=
  (ev_name (enumValueOf v), ev_number (enumValueOf v)).

Definition compatibleEnumEvolution (previous current : option EnumType) : bool :=
  match previous, current with
  | None, None => true
  | None, Some _ | Some _, None => false
  | Some p, Some c =>
      if negb (String.eqb (et_full_name p) (et_full_name c))
         || negb (Bool.eqb (et_closed p) (et_closed c))
      then false
      else forallb (fun value =>
             bool_decide (enumValueIdentity value ∈ map enumValueIdentity (et_values c)))
             (et_values p)
  end.

Definition sameLogicalShape (previous current : option DataType) : bool :=
  match previous, current with
  | None, None => true
  | None, Some _ | Some _, None => false
  | Some p, Some c =>
      let sameProto := String.eqb (protobufTypeOf p) (protobufTypeOf c) in
      match kindOf p, kindOf c with
      | DataType_Primitive pk, DataType_Primitive ck =>
          sameProto && bool_decide (GetPrimitiveKind pk = GetPrimitiveKind ck)
      | DataType_Enum pe, DataType_Enum ce => compatibleEnumEvolution pe ce
      | DataType_Struct _, DataType_Struct _ => sameProto
      | DataType_List pl, DataType_List cl =>
          negb (isNil pl) && negb (isNil cl) && (GetFixedLength pl =? GetFixedLength cl)%N
      | DataType_Map _, DataType_Map _ => true
      | DataType_Timestamp pt, DataType_Timestamp ct =>
          sameProto && bool_decide (GetTimestampUnit pt = GetTimestampUnit ct)
          && String.eqb (GetTimezone pt) (GetTimezone ct)
      | DataType_Duration pd, DataType_Duration cd =>
          sameProto && bool_decide (GetDurationUnit pd = GetDurationUnit cd)
      | DataType_Json pj, DataType_Json cj =>
          sameProto && bool_decide (GetJsonKind pj = GetJsonKind cj)
      | DataType_Decimal pd, DataType_Decimal cd =>
          negb (isNil pd) && negb (isNil cd)
          && (GetPrecision pd =? GetPrecision cd)%N && (GetScale pd =? GetScale cd)%N
      | DataType_Uuid pu, DataType_Uuid cu => negb (isNil pu) && negb (isNil cu)
      | DataType_FixedBytes pf, DataType_FixedBytes cf =>
          negb (isNil pf) && negb (isNil cf) && (GetByteLength pf =? GetByteLength cf)%N
      | _, _ => false
      end
  end.

(** [validateStorageNameCollisions]: the loop keeps the owner of each name. *)
Definition storageNameStep (scope : string) (owners : gmap string string) (field : Field)
  : Outcome (gmap string string) :=
  let nm := name (meta field) in
  _ ← failIf (bool_decide (nm = ""))
        ("protobuf field " +:+ Quote (proto_full_name (meta field)) +:+
         " normalizes to an empty storage name within protobuf message " +:+ Quote scope);
  match owners !! nm with
  | Some owner =>
      Err ("storage name " +:+ Quote nm +:+ " collides within protobuf message " +:+ Quote scope +:+
           " for fields " +:+ Quote owner +:+ " and " +:+ Quote (proto_full_name (meta field)))
  | None => Ok (<[nm := proto_full_name (meta field)]> owners)
  end.
Definition validateStorageNameCollisions (scope : string) (fields : list Field) : Outcome unit :=
  _ ← foldOutcome (storageNameStep scope) fields ∅;
  Ok tt.

(** ** The compiler object *)

Record datasetCompiler : Type := mkCompiler {
  previousActive : gmap string Z;
  previousFields : gmap string Field;
  retired : gmap string RetiredField;
  currentActive : gmap string Z;
  currentContainers : gmap string MessageDescriptor;
  historicalNames : gmap string (gmap string string);
  reservedIDs : gmap Z string;
  firstTopLevelIDs : gmap string Z;
  lastID : Z
}.

Definition setCurrentActive (m : gmap string Z) (c : datasetCompiler) : datasetCompiler :=
  mkCompiler (previousActive c) (previousFields c) (retired c) m (currentContainers c)
    (historicalNames c) (reservedIDs c) (firstTopLevelIDs c) (lastID c).
Definition setCurrentContainers (m : gmap string MessageDescriptor) (c : datasetCompiler)
  : datasetCompiler :=
  mkCompiler (previousActive c) (previousFields c) (retired c) (currentActive c) m
    (historicalNames c) (reservedIDs c) (firstTopLevelIDs c) (lastID c).
Definition setAllocation (reserved : gmap Z string) (last : Z) (c : datasetCompiler)
  : datasetCompiler :=
  mkCompiler (previousActive c) (previousFields c) (retired c) (currentActive c)
    (currentContainers c) (historicalNames c) reserved (firstTopLevelIDs c) last.
Definition setHistoricalNames (m : gmap string (gmap string string)) (c : datasetCompiler)
  : datasetCompiler :=
  mkCompiler (previousActive c) (previousFields c) (retired c) (currentActive c)
    (currentContainers c) m (reservedIDs c) (firstTopLevelIDs c) (lastID c).

(** The state and error monad of the compiler's methods. *)
Definition M (A : Type) : Type := datasetCompiler -> Outcome (A * datasetCompiler).
#[export] Instance M_ret : MRet M := fun A a c => Ok (a, c).
#[export] Instance M_bind : MBind M := fun A B f m c =>
  match m c with
  | Ok (a, c') => f a c'
  | Err e => Err e
  | Panic e => Panic e
  | NoFuel => NoFuel
  end.
Definition lift {A} (m : Outcome A) : M A := fun c => a ← m; Ok (a, c).
Definition getM : M datasetCompiler := fun c => Ok (c, c).
Definition modifyM (f : datasetCompiler -> datasetCompiler) : M unit := fun c => Ok (tt, f c).
Definition wrapM {A} (prefix : string) (m : M A) : M A := fun c => wrapErr prefix (m c).
Definition mapM_ {A B} (f : A -> M B) : list A -> M (list B) :=
  fix go l :=
  match l with
  | [] => mret []
  | x :: l => y ← f x; ys ← go l; mret (y :: ys)
  end.

Definition allocate (identity : string) : M Z := fun c =>
  match currentActive c !! identity with
  | Some _ => Err ("compiler identity " +:+ Quote identity +:+ " occurs more than once")
  | None =>
  match retired c !! identity with
  | Some r => Err ("compiler identity " +:+ Quote identity +:+ " reuses retired stable_id " +:+
                   FormatInt (rf_stable_id r))
  | None =>
  match previousActive c !! identity with
  | Some id => Ok (id, setCurrentActive (<[identity := id]> (currentActive c)) c)
  | None =>
  match firstTopLevelIDs c !! identity with
  | Some id => Ok (id, setCurrentActive (<[identity := id]> (currentActive c)) c)
  | None =>
      if (lastID c =? maxStableID)%Z
      then Err ("cannot allocate stable_id beyond " +:+ FormatInt maxStableID)
      else
        let id := (lastID c + 1)%Z in
        match reservedIDs c !! id with
        | Some owner => Err ("stable_id " +:+ FormatInt id +:+ " is already reserved by " +:+ Quote owner)
        | None =>
            Ok (id, setCurrentActive (<[identity := id]> (currentActive c))
                      (setAllocation (<[id := identity]> (reservedIDs c)) id c))
        end
  end end end end.

Definition registerHistoricalName (identity nm : string) : M unit := fun c =>
  let scope := parentCompilerIdentity identity in
  let owners := default ∅ (historicalNames c !! scope) in
  let commit := Ok (tt, setHistoricalNames (<[scope := <[nm := identity]> owners]> (historicalNames c)) c) in
  match owners !! nm with
  | Some owner =>
      if decide (owner = identity) then commit
      else Err ("previous storage name " +:+ Quote nm +:+ " in logical scope " +:+ Quote scope +:+
                " is shared by compiler identities " +:+ Quote owner +:+ " and " +:+ Quote identity)
  | None => commit
  end.

Definition historicalNameOwner (c : datasetCompiler) (scope nm : string) : string :=
  default "" (default ∅ (historicalNames c !! scope) !! nm).

Section WithProtoreflect.
Context `{Protoreflect}.

Definition exactProtoFieldName (fullName : string) : Outcome string :=
  if negb (FullName_IsValid fullName) || negb (Name_IsValid (FullName_Name fullName))
  then Err ("proto_full_name " +:+ Quote fullName +:+
            " is not a valid fully-qualified protobuf field name")
  else Ok (FullName_Name fullName).

Definition validateCompilerOwnedName (identity protoFullName nm storageSource : string)
  : Outcome unit :=
  role ← compilerIdentityRole identity;
  _ ← failIf (bool_decide (protoFullName = "")) "proto_full_name must not be empty";
  _ ← failIf (bool_decide (nm = "")) "storage name must not be empty";
  match role with
  | SYNTHETIC_ROLE_PROTO_FIELD =>
      _ ← exactProtoFieldName protoFullName;
      _ ← failIf (bool_decide (storageSource = "") || negb (Name_IsValid storageSource))
            ("storage_name_source " +:+ Quote storageSource +:+ " is not an exact protobuf field name");
      failIf (negb (String.eqb nm (storageName storageSource)))
        ("storage name " +:+ Quote nm +:+ " is not the canonical name " +:+
         Quote (storageName storageSource) +:+ " derived from storage_name_source " +:+
         Quote storageSource +:+ "; generated SchemaBundle names are compiler-owned")
  | SYNTHETIC_ROLE_LIST_ELEMENT =>
      failIf (negb (String.eqb nm "element") || negb (String.eqb storageSource ""))
        ("synthetic list element must use storage name " +:+ Quote "element" +:+
         " and an empty storage_name_source")
  | SYNTHETIC_ROLE_MAP_KEY =>
      failIf (negb (String.eqb nm "key") || negb (String.eqb storageSource ""))
        ("synthetic map key must use storage name " +:+ Quote "key" +:+
         " and an empty storage_name_source")
  | SYNTHETIC_ROLE_MAP_VALUE =>
      failIf (negb (String.eqb nm "value") || negb (String.eqb storageSource ""))
        ("synthetic map value must use storage name " +:+ Quote "value" +:+
         " and an empty storage_name_source")
  | _ => Err ("compiler identity " +:+ Quote identity +:+ " has an invalid field role")
  end.

(** ** Indexing the previous schema *)

(** The identity an indexed field gets from its role and number path. *)
Definition indexedIdentity (expectedRole : SyntheticRole) (protoFullName : string)
    (path parentPath : list N) (parentIdentity : string) : Outcome string :=
  match expectedRole with
  | SYNTHETIC_ROLE_PROTO_FIELD =>
      if negb (length path =? length parentPath + 1)%nat
         || negb (equalNumberPath (take (length parentPath) path) parentPath)
      then Err ("previous field " +:+ Quote protoFullName +:+
                " has invalid protobuf number path " +:+ FormatUints path)
      else Ok (appendIdentity parentIdentity
                 (fieldIdentitySegment (int32 (Z.of_N (List.last path 0%N)))))
  | SYNTHETIC_ROLE_LIST_ELEMENT =>
      if negb (equalNumberPath path parentPath)
      then Err ("previous list element " +:+ Quote protoFullName +:+
                " has invalid protobuf number path " +:+ FormatUints path)
      else Ok (appendIdentity parentIdentity listElementSegment)
  | SYNTHETIC_ROLE_MAP_KEY =>
      if negb (equalNumberPath path parentPath)
      then Err ("previous map key " +:+ Quote protoFullName +:+
                " has invalid protobuf number path " +:+ FormatUints path)
      else Ok (appendIdentity parentIdentity mapKeySegment)
  | SYNTHETIC_ROLE_MAP_VALUE =>
      if negb (equalNumberPath path parentPath)
      then Err ("previous map value " +:+ Quote protoFullName +:+
                " has invalid protobuf number path " +:+ FormatUints path)
      else Ok (appendIdentity parentIdentity mapValueSegment)
  | _ => Err ("previous field " +:+ Quote protoFullName +:+ " has an invalid synthetic role")
  end.

(** The checks and the registration of one field, without its children. *)
Definition indexNode (field : Field) (parentPath : list N) (parentIdentity : string)
    (expectedRole : SyntheticRole) : M string := fun c =>
  let m := meta field in
  _ ← failIf (negb (bool_decide (synthetic_role m = expectedRole)))
        ("previous field " +:+ Quote (proto_full_name m) +:+ " has role " +:+
         SyntheticRole_String (synthetic_role m) +:+ ", expected " +:+ SyntheticRole_String expectedRole);
  identity ← indexedIdentity expectedRole (proto_full_name m) (proto_number_path m)
               parentPath parentIdentity;
  _ ← wrapErr ("previous field " +:+ Quote (proto_full_name m) +:+ ": ")
        (validateStableID (stable_id m));
  _ ← failIf (negb (isNil (retired c !! identity)))
        ("previous identity " +:+ Quote identity +:+ " is both active and retired");
  _ ← failIf (negb (isNil (previousActive c !! identity)))
        ("previous active identity " +:+ Quote identity +:+ " is duplicated");
  match reservedIDs c !! stable_id m with
  | Some owner =>
      Err ("previous stable_id " +:+ FormatInt (stable_id m) +:+ " is shared by " +:+ Quote owner +:+
           " and " +:+ Quote identity)
  | None =>
      _ ← wrapErr ("previous field " +:+ Quote (proto_full_name m) +:+ ": ")
            (validateCompilerOwnedName identity (proto_full_name m) (name m) (storage_name_source m));
      r ← registerHistoricalName identity (name m) c;
      let c := snd r in
      Ok (identity,
          mkCompiler (<[identity := stable_id m]> (previousActive c))
            (<[identity := field]> (previousFields c)) (retired c) (currentActive c)
            (currentContainers c) (historicalNames c)
            (<[stable_id m := identity]> (reservedIDs c)) (firstTopLevelIDs c) (lastID c))
  end.

Fixpoint indexPreviousField (field : Field) (parentPath : list N) (parentIdentity : string)
    (expectedRole : SyntheticRole) {struct field} : M unit :=
  identity ← indexNode field parentPath parentIdentity expectedRole;
  let nilField : M unit := lift (Err "previous schema contains a nil field") in
  match field with
  | mkField m None =>
      lift (Err ("previous field " +:+ Quote (proto_full_name m) +:+ " has no logical type"))
  | mkField m (Some (mkDataType _ kind)) =>
      let path := proto_number_path m in
      match kind with
      | DataType_Struct (Some fields) =>
          _ ← mapM_ (fun child =>
                match child with
                | None => nilField
                | Some f => indexPreviousField f path identity SYNTHETIC_ROLE_PROTO_FIELD
                end) fields;
          mret tt
      | DataType_List (Some (element, _)) =>
          match element with
          | None => lift (Err ("previous list field " +:+ Quote (proto_full_name m) +:+ " has no element"))
          | Some e => indexPreviousField e path identity SYNTHETIC_ROLE_LIST_ELEMENT
          end
      | DataType_Map (Some (key, value)) =>
          match key, value with
          | Some k, Some v =>
              _ ← indexPreviousField k path identity SYNTHETIC_ROLE_MAP_KEY;
              indexPreviousField v path identity SYNTHETIC_ROLE_MAP_VALUE
          | _, _ => lift (Err ("previous map field " +:+ Quote (proto_full_name m) +:+
                               " must have a key and value"))
          end
      | _ => mret tt
      end
  end.

Definition indexPreviousRetired (r : option RetiredField) : M unit := fun c =>
  match r with
  | None => Err "previous schema contains a nil retired field"
  | Some r =>
      let identity := rf_identity r in
      _ ← failIf (bool_decide (identity = "")) "previous retired field has an empty identity";
      _ ← wrapErr ("previous retired field " +:+ Quote identity +:+ ": ")
            (validateStableID (rf_stable_id r));
      _ ← failIf (negb (isNil (retired c !! identity)))
            ("previous retired identity " +:+ Quote identity +:+ " is duplicated");
      match reservedIDs c !! rf_stable_id r with
      | Some owner =>
          Err ("previous stable_id " +:+ FormatInt (rf_stable_id r) +:+ " is shared by " +:+
               Quote owner +:+ " and " +:+ Quote identity)
      | None =>
          _ ← wrapErr ("previous retired field " +:+ Quote identity +:+ ": ")
                (validateCompilerOwnedName identity (rf_proto_full_name r) (rf_name r)
                   (rf_storage_name_source r));
          s ← registerHistoricalName identity (rf_name r) c;
          let c := snd s in
          Ok (tt, mkCompiler (previousActive c) (previousFields c)
                    (<[identity := r]> (retired c)) (currentActive c) (currentContainers c)
                    (historicalNames c) (<[rf_stable_id r := identity]> (reservedIDs c))
                    (firstTopLevelIDs c) (lastID c))
      end
  end.

(** The highest key of [reservedIDs], 0 when it is empty. *)
Definition highestID (reserved : gmap Z string) : Z :=
  foldr Z.max 0%Z (map fst (map_to_list reserved)).

Definition emptyCompiler (md : MessageDescriptor) : datasetCompiler :=
  mkCompiler ∅ ∅ ∅ ∅ {[ "" := md ]} ∅ ∅ ∅ 0.

Definition newDatasetCompiler (md : MessageDescriptor) (previous : option DatasetSchema)
  : Outcome datasetCompiler :=
  match previous with
  | None => Ok (emptyCompiler md)
  | Some p =>
      _ ← failIf (negb (String.eqb (source_message p) (md_FullName md)))
            ("previous schema is for " +:+ Quote (source_message p) +:+ ", not " +:+
             Quote (md_FullName md));
      let canonicalDatasetName := storageName (source_message p) in
      _ ← failIf (negb (String.eqb (ds_name p) canonicalDatasetName))
            ("previous dataset storage name " +:+ Quote (ds_name p) +:+ " is not the canonical name " +:+
             Quote canonicalDatasetName +:+ " derived from source_message " +:+
             Quote (source_message p) +:+ "; generated SchemaBundle names are compiler-owned");
      _ ← failIf ((last_field_id p <? 0)%Z || (maxStableID <? last_field_id p)%Z)
            ("previous last_field_id " +:+ FormatInt (last_field_id p) +:+ " is outside 0.." +:+
             FormatInt maxStableID);
      let c := setAllocation ∅ (last_field_id p) (emptyCompiler md) in
      s ← mapM_ indexPreviousRetired (retired_fields p) c;
      s ← mapM_ (fun field =>
            match field with
            | None => lift (Err "previous schema contains a nil field")
            | Some f => indexPreviousField f [] "" SYNTHETIC_ROLE_PROTO_FIELD
            end) (ds_fields p) (snd s);
      let c := snd s in
      _ ← failIf (negb (lastID c =? highestID (reservedIDs c))%Z)
            ("previous last_field_id is " +:+ FormatInt (lastID c) +:+
             ", but highest allocated stable_id is " +:+ FormatInt (highestID (reservedIDs c)));
      Ok c
  end.

(** ** Compiling one field *)

Definition storageFieldName (identity parentIdentity : string) (fd : FieldDescriptor)
    (c : datasetCompiler) : Outcome (string * string) :=
  storageSource ←
    match previousFields c !! identity with
    | None => Ok (fd_Name fd)
    | Some previous =>
        let m := meta previous in
        previousSource ← wrapErr "previous proto_full_name: " (exactProtoFieldName (proto_full_name m));
        _ ← failIf (negb (String.eqb (proto_full_name m)
                     (FullName_Append (fd_ContainingMessage fd) previousSource)))
              ("previous proto_full_name " +:+ Quote (proto_full_name m) +:+
               " is not a field of current containing message " +:+ Quote (fd_ContainingMessage fd));
        _ ← failIf (negb (String.eqb previousSource (fd_Name fd))
                    && negb (NamesHas (fd_ReservedNames fd) previousSource))
              ("same-number rename from " +:+ Quote previousSource +:+ " to " +:+ Quote (fd_Name fd) +:+
               " must reserve the exact previous protobuf field name " +:+ Quote previousSource);
        let storageSource := storage_name_source m in
        _ ← failIf (negb (String.eqb storageSource (fd_Name fd))
                    && negb (NamesHas (fd_ReservedNames fd) storageSource))
              ("original storage-name source " +:+ Quote storageSource +:+
               " must remain an exact reserved protobuf field name");
        Ok storageSource
    end;
  let nm := storageName storageSource in
  let owner := historicalNameOwner c parentIdentity nm in
  _ ← failIf (negb (String.eqb owner "") && negb (String.eqb owner identity))
        ("storage name " +:+ Quote nm +:+
         " in this logical scope is permanently owned by compiler identity " +:+ Quote owner +:+
         ", not new identity " +:+ Quote identity);
  Ok (nm, storageSource).

Definition validateEvolution (identity : string) (current : Field) (c : datasetCompiler)
  : Outcome unit :=
  match previousFields c !! identity with
  | None => Ok tt
  | Some previous =>
      let p := meta previous in
      let m := meta current in
      let changed (what : string) : string :=
        "protobuf " +:+ what +:+ " changed for stable_id " +:+ FormatInt (stable_id m) +:+
        "; use a new protobuf field number" in
      _ ← failIf (negb (bool_decide (presence p = presence m))
                  || negb (Bool.eqb (nullable p) (nullable m))) (changed "presence");
      _ ← failIf (negb (String.eqb (oneof p) (oneof m))) (changed "oneof");
      _ ← failIf (negb (Bool.eqb (has_default p) (has_default m))
                  || negb (String.eqb (protobuf_default p) (protobuf_default m))) (changed "default");
      failIf (negb (sameLogicalShape (typ previous) (typ current))) (changed "logical shape")
  end.

(** The checks of [compileProtoField] on the fixed-list refinement. *)
Definition validateFixedList (fd : FieldDescriptor) (options : option FieldOptions) : Outcome unit :=
  match options with
  | Some o =>
      match fixed_list o with
      | Some len =>
          let fieldErr (msg : string) : string := "field " +:+ Quote (fd_FullName fd) +:+ ": " +:+ msg in
          _ ← failIf (fd_IsMap fd || negb (fd_IsList fd))
                (fieldErr "fixed_list refinement requires a non-map repeated field");
          _ ← failIf (negb (isNil (semantic_type o)))
                (fieldErr "fixed_list cannot be combined with a semantic type refinement");
          _ ← failIf (negb (bool_decide (fd_Kind fd = FloatKind))
                      && negb (bool_decide (fd_Kind fd = DoubleKind)))
                (fieldErr ("fixed_list refinement requires a protobuf float or double carrier, got "
                           +:+ Kind_String (fd_Kind fd)));
          _ ← failIf (len =? 0)%N (fieldErr "fixed_list length must be greater than zero");
          failIf (maxFixedListLength <? len)%N
            (fieldErr ("fixed_list length must not exceed " +:+ FormatUint maxFixedListLength +:+
                       ", got " +:+ FormatUint len))
      | None => Ok tt
      end
  | None => Ok tt
  end.

(** Its checks on a refined singular field. *)
Definition validateRefinedSingular (fd : FieldDescriptor) (options : option FieldOptions)
    (fieldpresence : Presence) : Outcome unit :=
  if negb (isNil options) && negb (fd_IsList fd) && negb (fd_IsMap fd) then
    _ ← failIf (negb (bool_decide (fieldpresence = PRESENCE_EXPLICIT))
                && negb (bool_decide (fieldpresence = PRESENCE_ONEOF)))
          ("field " +:+ Quote (fd_FullName fd) +:+
           ": a refined singular field must have explicit or oneof presence, got " +:+
           Presence_String fieldpresence);
    failIf (fd_HasDefault fd)
      ("field " +:+ Quote (fd_FullName fd) +:+
       ": a refined singular field must not declare a protobuf default")
  else Ok tt.

Section OpenRecursion.
(** The method that compiles the value type of a field (see [compileValueType]
    below); [stack] is the set of messages being expanded. *)
Variable valueType : FieldDescriptor -> list N -> string -> gset string -> M DataType.

Definition compileRefinedValueType (fd : FieldDescriptor) (path : list N) (identity : string)
    (stack : gset string) (options : option FieldOptions) : M DataType :=
  match options with
  | None => valueType fd path identity stack
  | Some o =>
      match semantic_type o with
      | Some (FieldOptions_Decimal decimal) =>
          _ ← lift (failIf (negb (bool_decide (fd_Kind fd = StringKind)))
                ("decimal refinement requires a protobuf string carrier, got " +:+ Kind_String (fd_Kind fd)));
          match decimal with
          | None => lift (Err "decimal refinement is missing its value")
          | Some d =>
              _ ← lift (failIf ((dec_precision d <? 1)%N || (38 <? dec_precision d)%N)
                    ("decimal precision must be between 1 and 38, got " +:+ FormatUint (dec_precision d)));
              _ ← lift (failIf (dec_precision d <? dec_scale d)%N
                    ("decimal scale " +:+ FormatUint (dec_scale d) +:+ " exceeds precision " +:+
                     FormatUint (dec_precision d)));
              mret (mkDataType "" (DataType_Decimal (Some (mkDecimalType (dec_precision d) (dec_scale d)))))
          end
      | Some (FieldOptions_Uuid uuid) =>
          _ ← lift (failIf (negb (bool_decide (fd_Kind fd = StringKind)))
                ("uuid refinement requires a protobuf string carrier, got " +:+ Kind_String (fd_Kind fd)));
          match uuid with
          | None => lift (Err "uuid refinement is missing its value")
          | Some _ => mret (mkDataType "" (DataType_Uuid (Some tt)))
          end
      | Some (FieldOptions_FixedBytes fixedBytes) =>
          _ ← lift (failIf (negb (bool_decide (fd_Kind fd = BytesKind)))
                ("fixed_bytes refinement requires a protobuf bytes carrier, got " +:+ Kind_String (fd_Kind fd)));
          match fixedBytes with
          | None => lift (Err "fixed_bytes refinement is missing its value")
          | Some len =>
              _ ← lift (failIf (len =? 0)%N "fixed_bytes byte_length must be greater than zero");
              _ ← lift (failIf (maxFixedBytesLength <? len)%N
                    ("fixed_bytes byte_length must not exceed " +:+ FormatUint maxFixedBytesLength +:+
                     ", got " +:+ FormatUint len));
              mret (mkDataType "" (DataType_FixedBytes (Some len)))
          end
      | None => lift (Err "field option must select exactly one semantic type")
      end
  end.

Definition compileSyntheticField (fd : FieldDescriptor) (nm protoFullName : string) (path : list N)
    (identity : string) (role : SyntheticRole) (stack : gset string)
    (options : option FieldOptions) : M Field :=
  id ← allocate identity;
  t ← compileRefinedValueType fd path identity stack options;
  let field := mkField
    (mkFieldMeta protoFullName path nm id PRESENCE_NOT_APPLICABLE false "" "" role false "" "" "")
    (Some t) in
  c ← getM;
  _ ← lift (validateEvolution identity field c);
  mret field.

Definition compileListType (fd : FieldDescriptor) (path : list N) (identity : string)
    (stack : gset string) (options : option FieldOptions) : M DataType :=
  let '(fixedLength, elementOptions) :=
    match options with
    | Some o =>
        match fixed_list o with
        | Some len => (len, None)
        | None => (0%N, options)
        end
    | None => (0%N, options)
    end in
  let elementIdentity := appendIdentity identity listElementSegment in
  element ← wrapM "list element: "
    (compileSyntheticField fd "element" (fd_FullName fd +:+ "[]") path elementIdentity
       SYNTHETIC_ROLE_LIST_ELEMENT stack elementOptions);
  mret (mkDataType "" (DataType_List (Some (Some element, fixedLength)))).

Definition compileMapType (fd : FieldDescriptor) (path : list N) (identity : string)
    (stack : gset string) : M DataType :=
  match fd_MapKey fd, fd_MapValue fd with
  | Some keyDescriptor, Some valueDescriptor =>
      key ← wrapM "map key: "
        (compileSyntheticField keyDescriptor "key" (fd_FullName fd +:+ ".key") path
           (appendIdentity identity mapKeySegment) SYNTHETIC_ROLE_MAP_KEY stack None);
      value ← wrapM "map value: "
        (compileSyntheticField valueDescriptor "value" (fd_FullName fd +:+ ".value") path
           (appendIdentity identity mapValueSegment) SYNTHETIC_ROLE_MAP_VALUE stack None);
      mret (mkDataType "" (DataType_Map (Some (Some key, Some value))))
  | _, _ => lift (Panic "nil map entry descriptor")
  end.

Definition compileProtoField (parentPath : list N) (parentIdentity : string) (stack : gset string)
    (fd : FieldDescriptor) : M Field :=
  let fieldErr := "field " +:+ Quote (fd_FullName fd) +:+ ": " in
  let path := appendNumber parentPath (uint32 (fd_Number fd)) in
  let identity := appendIdentity parentIdentity (fieldIdentitySegment (fd_Number fd)) in
  id ← wrapM fieldErr (allocate identity);
  c ← getM;
  names ← lift (wrapErr fieldErr (storageFieldName identity parentIdentity fd c));
  let '(fieldName, storageNameSource) := names in
  let '(fieldpresence, fieldnullable, fieldoneof) := fieldPresence fd in
  let m := mkFieldMeta (fd_FullName fd) path fieldName id fieldpresence fieldnullable fieldoneof
             (descriptorComment (fd_location fd)) SYNTHETIC_ROLE_PROTO_FIELD
             (fd_HasDefault fd) (if fd_HasDefault fd then fd_DefaultValue fd else "")
             (fd_JSONName fd) storageNameSource in
  options ← lift (wrapErr fieldErr (dataFieldOptions fd));
  _ ← lift (validateFixedList fd options);
  _ ← lift (validateRefinedSingular fd options fieldpresence);
  t ← (if fd_IsMap fd then
         _ ← lift (failIf (negb (isNil options))
               (fieldErr +:+ "semantic type refinements are not supported on protobuf maps"));
         wrapM fieldErr (compileMapType fd path identity stack)
       else if fd_IsList fd then wrapM fieldErr (compileListType fd path identity stack options)
       else wrapM fieldErr (compileRefinedValueType fd path identity stack options));
  let field := mkField m (Some t) in
  c ← getM;
  _ ← lift (wrapErr fieldErr (validateEvolution identity field c));
  mret field.
End OpenRecursion.

(** [compileValueType]: [fuel] bounds the nesting of messages; [stack] holds
    the messages under expansion, so [1 + size reg] is always enough. *)
Fixpoint compileValueType (reg : Registry) (fuel : nat) (fd : FieldDescriptor) (path : list N)
    (identity : string) (stack : gset string) {struct fuel} : M DataType :=
  match primitiveKind (fd_Kind fd) with
  | Some primitive => mret (primitiveType primitive)
  | None =>
  match fd_Kind fd with
  | EnumKind =>
      match fd_Enum fd with
      | None => lift (Panic "nil enum descriptor")
      | Some ed =>
          let values := map (fun v =>
            Some (mkEnumValue (evd_Name v) (evd_Number v) (descriptorComment (evd_location v))))
            (ed_Values ed) in
          mret (mkDataType (ed_FullName ed)
                  (DataType_Enum (Some (mkEnumType (ed_FullName ed) values (ed_IsClosed ed)))))
      end
  | MessageKind | GroupKind =>
      match fd_Message fd ≫= (fun nm => reg !! nm) with
      | None => lift (Err "message descriptor is missing")
      | Some md =>
          _ ← lift (rejectExtensionRanges md);
          match wellKnownType (md_FullName md) with
          | Some t => mret t
          | None =>
              _ ← modifyM (fun c =>
                    setCurrentContainers (<[identity := md]> (currentContainers c)) c);
              if decide (md_FullName md ∈ stack) then
                lift (Err ("recursive protobuf message " +:+ Quote (md_FullName md) +:+
                           " is not a finite row schema"))
              else
                match fuel with
                | O => lift NoFuel
                | S fuel =>
                    children ← mapM_ (compileProtoField (compileValueType reg fuel) path identity
                                        ({[ md_FullName md ]} ∪ stack))
                                 (sortedFields (md_Fields md));
                    _ ← lift (validateStorageNameCollisions (md_FullName md) children);
                    mret (mkDataType (md_FullName md) (DataType_Struct (Some (map Some children))))
                end
          end
      end
  | k => lift (Err ("protobuf kind " +:+ Kind_String k +:+ " is unsupported"))
  end end.

(** ** Compiling a message *)

Definition validateRetiredReservation (c : datasetCompiler) (identity : string)
    (field : RetiredField) : Outcome unit :=
  let retiredErr := "retired field " +:+ Quote identity +:+ ": " in
  role ← wrapErr retiredErr (compilerIdentityRole identity);
  if negb (isProtoField role) then Ok tt else
  match currentContainers c !! parentCompilerIdentity identity with
  | None => Ok tt
  | Some container =>
      let fullName := rf_proto_full_name field in
      previousName ← wrapErr retiredErr (exactProtoFieldName fullName);
      _ ← failIf (negb (String.eqb fullName (FullName_Append (md_FullName container) previousName)))
            ("retired field " +:+ Quote identity +:+ " has proto_full_name " +:+ Quote fullName +:+
             " outside current containing message " +:+ Quote (md_FullName container));
      let segment :=
        match CutLast identity SLASH with Some (_, after) => after | None => identity end in
      let fieldNumber := default 0%Z (ParseInt32 (TrimPrefix segment "field:")) in
      let whileReachable :=
        " must remain reserved while containing message " +:+ Quote (md_FullName container) +:+
        " remains reachable" in
      _ ← failIf (negb (RangesHas (md_ReservedRanges container) fieldNumber))
            ("removed protobuf field " +:+ Quote fullName +:+ " number " +:+ FormatInt fieldNumber +:+
             whileReachable);
      _ ← failIf (negb (NamesHas (md_ReservedNames container) previousName))
            ("removed protobuf field " +:+ Quote fullName +:+ " exact name " +:+ Quote previousName +:+
             whileReachable);
      let storageSource := rf_storage_name_source field in
      failIf (negb (String.eqb storageSource previousName)
              && negb (NamesHas (md_ReservedNames container) storageSource))
        ("removed protobuf field " +:+ Quote fullName +:+ " original storage-name source " +:+
         Quote storageSource +:+ whileReachable)
  end.

(** On the first compilation the top-level field numbers are reserved. *)
Definition reserveTopLevel (fields : list FieldDescriptor) : datasetCompiler -> Outcome datasetCompiler :=
  foldOutcome (fun c fd =>
    let id := fd_Number fd in
    _ ← wrapErr ("field " +:+ Quote (fd_FullName fd) +:+ ": ") (validateStableID id);
    let identity := appendIdentity "" (fieldIdentitySegment id) in
    Ok (mkCompiler (previousActive c) (previousFields c) (retired c) (currentActive c)
          (currentContainers c) (historicalNames c) (<[id := identity]> (reservedIDs c))
          (<[identity := id]> (firstTopLevelIDs c))
          (if (lastID c <? id)%Z then id else lastID c))) fields.

(** The tombstone of an identity that is no longer active. *)
Definition retire (c : datasetCompiler) (identity : string) : RetiredField :=
  let m := metaOf (previousFields c !! identity) in
  mkRetiredField identity (stable_id m) (proto_full_name m) (name m) (storage_name_source m).

Definition retiredMap (c : datasetCompiler) : gmap string RetiredField :=
  map_imap (fun identity (_ : Z) =>
    match currentActive c !! identity with
    | Some _ => None
    | None => Some (retire c identity)
    end) (previousActive c)
  ∪ retired c.

Definition retired_le (left right : RetiredField) : Prop :=
  (rf_stable_id left < rf_stable_id right)%Z
  \/ (rf_stable_id left = rf_stable_id right /\ string_le (rf_identity left) (rf_identity right)).
#[export] Instance retired_le_dec left right : Decision (retired_le left right).
Proof. unfold retired_le. apply _. Defined.
Definition sortRetired (l : list RetiredField) : list RetiredField := merge_sort retired_le l.

Definition CompileMessage (reg : Registry) (fuel : nat) (md : option MessageDescriptor)
    (previous : option DatasetSchema) : Outcome DatasetSchema :=
  match md with
  | None => Err "compile message: descriptor is nil"
  | Some md =>
      let fullName := md_FullName md in
      let compileErr := "compile message " +:+ Quote fullName +:+ ": " in
      _ ← failIf (md_IsMapEntry md) (compileErr +:+ "synthetic map entries are not datasets");
      let datasetName := storageName fullName in
      _ ← failIf (bool_decide (datasetName = ""))
            (compileErr +:+ "protobuf message name normalizes to an empty storage name");
      _ ← wrapErr compileErr (rejectExtensionRanges md);
      c ← wrapErr compileErr (newDatasetCompiler md previous);
      let fields := sortedFields (md_Fields md) in
      c ← match previous with
          | None => wrapErr compileErr (reserveTopLevel fields c)
          | Some _ => Ok c
          end;
      r ← wrapErr compileErr
            (mapM_ (compileProtoField (compileValueType reg fuel) [] "" {[ fullName ]}) fields c);
      let '(compiled, c) := r in
      _ ← wrapErr compileErr (validateStorageNameCollisions fullName compiled);
      let retiredFields := sortRetired (map snd (map_to_list (retiredMap c))) in
      _ ← wrapErr compileErr
            (forEach (fun field => validateRetiredReservation c (rf_identity field) field)
               retiredFields);
      Ok (mkDatasetSchema fullName datasetName (descriptorComment (md_location md))
            (map Some compiled) (lastID c) (map Some retiredFields))
  end.
End WithProtoreflect.
