(* ===== verification/Examples.v ===== *)
(** * A concrete schema and its next version

    The inputs the witnesses evaluate: a message with an enumeration, a oneof, a
    nested message, a refined decimal, a repeated field, a fixed-length vector
    and a map, and the next version of the same message, which removes two
    fields (and reserves them), renames one and adds another. *)
From S2P Require Import Prelude GoStrings Schema WellFormed Bundle Descriptor Compiler.

#[export] Existing Instance refProtoreflect.

Definition noLocation : SourceLocation := mkSourceLocation "" "".
Definition noUnknown : Message := mkMessage "" [].

Definition scalarField (msg nm : string) (number : Z) (kind : Kind) : FieldDescriptor :=
  mkFieldDescriptor (msg +:+ "." +:+ nm) nm number nm kind Optional false false false false ""
    None msg [] None None None None noLocation NoExtension.

(** An [optional string] field refined to a decimal. *)
Definition decimalField (msg nm : string) (number : Z) (precision scale : N) : FieldDescriptor :=
  mkFieldDescriptor (msg +:+ "." +:+ nm) nm number nm StringKind Optional false false true false ""
    (Some (mkOneofDescriptor ("_" +:+ nm) true)) msg [] None None None None noLocation
    (HasExtension (mkFieldOptions (Some (FieldOptions_Decimal (Some (mkDecimalType precision scale))))
       None) noUnknown).

Definition messageField (msg nm : string) (number : Z) (target : string) : FieldDescriptor :=
  mkFieldDescriptor (msg +:+ "." +:+ nm) nm number nm MessageKind Optional false false true false ""
    None msg [] (Some target) None None None noLocation NoExtension.

Definition oneofField (msg nm : string) (number : Z) (kind : Kind) (oo : string) : FieldDescriptor :=
  mkFieldDescriptor (msg +:+ "." +:+ nm) nm number nm kind Optional false false true false ""
    (Some (mkOneofDescriptor oo false)) msg [] None None None None noLocation NoExtension.

Definition enumField (msg nm : string) (number : Z) (ed : EnumDescriptor) : FieldDescriptor :=
  mkFieldDescriptor (msg +:+ "." +:+ nm) nm number nm EnumKind Optional false false false false ""
    None msg [] None (Some ed) None None noLocation NoExtension.

Definition repeatedField (msg nm : string) (number : Z) (kind : Kind) (vector : option N)
  : FieldDescriptor :=
  mkFieldDescriptor (msg +:+ "." +:+ nm) nm number nm kind Repeated false true false false ""
    None msg [] None None None None noLocation
    (match vector with
     | None => NoExtension
     | Some n => HasExtension (mkFieldOptions None (Some n)) noUnknown
     end).

Definition mapField (msg nm : string) (number : Z) (key value : Kind) : FieldDescriptor :=
  let entry := msg +:+ "." +:+ nm +:+ "Entry" in
  mkFieldDescriptor (msg +:+ "." +:+ nm) nm number nm MessageKind Repeated true false false false ""
    None msg [] (Some entry) None (Some (scalarField entry "key" 1 key))
    (Some (scalarField entry "value" 2 value)) noLocation NoExtension.

Definition plainMessage (nm : string) (fields : list FieldDescriptor) : MessageDescriptor :=
  mkMessageDescriptor nm false fields [] [] 0 noLocation NoExtension.

(** ** The first version *)

Definition SIDE : EnumDescriptor :=
  mkEnumDescriptor "shop.v1.Side"
    [mkEnumValueDescriptor "SIDE_UNSPECIFIED" 0 noLocation;
     mkEnumValueDescriptor "SIDE_BUY" 1 noLocation] false.

Definition Item : MessageDescriptor :=
  plainMessage "shop.v1.Item"
    [scalarField "shop.v1.Item" "sku" 1 StringKind;
     scalarField "shop.v1.Item" "itemCount" 2 Uint32Kind].

Definition Order : MessageDescriptor :=
  plainMessage "shop.v1.Order"
    [messageField "shop.v1.Order" "item" 7 "shop.v1.Item";
     scalarField "shop.v1.Order" "order_id" 1 Int64Kind;
     enumField "shop.v1.Order" "side" 2 SIDE;
     decimalField "shop.v1.Order" "price" 3 18 4;
     oneofField "shop.v1.Order" "email" 4 StringKind "contact";
     repeatedField "shop.v1.Order" "tags" 5 StringKind None;
     repeatedField "shop.v1.Order" "embedding" 8 FloatKind (Some 3%N);
     mapField "shop.v1.Order" "labels" 6 StringKind Int32Kind;
     messageField "shop.v1.Order" "createdAt" 9 "google.protobuf.Timestamp"].

Definition Timestamp : MessageDescriptor := plainMessage "google.protobuf.Timestamp" [].

Definition shop : Registry :=
  {[ "shop.v1.Item" := Item; "shop.v1.Order" := Order;
     "google.protobuf.Timestamp" := Timestamp ]}.

(** The schema the compiler commits first. *)
Definition orderV1 : DatasetSchema :=
  Eval vm_compute in
  match CompileMessage shop 4 (Some Order) None with
  | Ok ds => ds
  | _ => mkDatasetSchema "" "" "" [] 0 []
  end.

(** ** The next version

    [email] and [labels] are removed, [order_id] is renamed to [id] and [note]
    is new; the containing message reserves what it drops. *)
Definition reservingNames : list string := ["email"; "labels"; "order_id"].
Definition withReserved (fd : FieldDescriptor) : FieldDescriptor :=
  mkFieldDescriptor (fd_FullName fd) (fd_Name fd) (fd_Number fd) (fd_JSONName fd) (fd_Kind fd)
    (fd_Cardinality fd) (fd_IsMap fd) (fd_IsList fd) (fd_HasPresence fd) (fd_HasDefault fd)
    (fd_DefaultValue fd) (fd_ContainingOneof fd) (fd_ContainingMessage fd) reservingNames
    (fd_Message fd) (fd_Enum fd) (fd_MapKey fd) (fd_MapValue fd) (fd_location fd) (fd_extension fd).

Definition Order2 : MessageDescriptor :=
  mkMessageDescriptor "shop.v1.Order" false
    (map withReserved
      [scalarField "shop.v1.Order" "id" 1 Int64Kind;
       enumField "shop.v1.Order" "side" 2 SIDE;
       decimalField "shop.v1.Order" "price" 3 18 4;
       repeatedField "shop.v1.Order" "tags" 5 StringKind None;
       messageField "shop.v1.Order" "item" 7 "shop.v1.Item";
       repeatedField "shop.v1.Order" "embedding" 8 FloatKind (Some 3%N);
       messageField "shop.v1.Order" "createdAt" 9 "google.protobuf.Timestamp";
       scalarField "shop.v1.Order" "note" 10 StringKind])
    reservingNames [(4, 5); (6, 7)]%Z 0 noLocation NoExtension.

Definition shop2 : Registry := <["shop.v1.Order" := Order2]> shop.

Definition orderV2 : DatasetSchema :=
  Eval vm_compute in
  match CompileMessage shop2 4 (Some Order2) (Some orderV1) with
  | Ok ds => ds
  | _ => mkDatasetSchema "" "" "" [] 0 []
  end.

Example orderV1_compiles : CompileMessage shop 4 (Some Order) None = Ok orderV1.
Proof. vm_compute. reflexivity. Qed.
Example orderV2_compiles : CompileMessage shop2 4 (Some Order2) (Some orderV1) = Ok orderV2.
Proof. vm_compute. reflexivity. Qed.
