(* ===== verification/CompilerFacts.v ===== *)
(** * Identities and allocation: the invariant of the dataset compiler

    A compiled tree is read as its list of entries, the pairs of a compiler
    identity and a stable id in preorder.  [Allocs] is the step relation of the
    allocator: a run of the compiler allocates exactly the entries of the tree
    it returns, and the invariant [Inv] of the compiler object is proved by rule
    induction on such runs. *)
From S2P Require Import Prelude GoStrings Schema WellFormed Bundle Descriptor Compiler.

(** ** The monad *)

Lemma M_bind_Ok {A B} (m : M A) (f : A -> M B) c b c' :
  (m ≫= f) c = Ok (b, c') <-> exists a c1, m c = Ok (a, c1) /\ f a c1 = Ok (b, c').
Proof.
  unfold mbind, M_bind. destruct (m c) as [[a c1]| | |] eqn:E; naive_solver.
Qed.

Lemma lift_Ok {A} (m : Outcome A) c a c' : lift m c = Ok (a, c') <-> m = Ok a /\ c' = c.
Proof. unfold lift. rewrite bind_Ok. naive_solver. Qed.

Lemma wrapM_Ok {A} p (m : M A) c r : wrapM p m c = Ok r <-> m c = Ok r.
Proof. apply wrapErr_Ok. Qed.

Lemma mret_Ok {A} (a b : A) (c c' : datasetCompiler) :
  (mret a : M A) c = Ok (b, c') <-> a = b /\ c = c'.
Proof. unfold mret, M_ret. naive_solver. Qed.

(** Case analysis on every step of a compiler method known to succeed. *)
Ltac M_step H :=
  lazymatch type of H with
  | @mbind M M_bind _ _ _ _ _ = Ok (_, _) =>
      apply M_bind_Ok in H;
      let a := fresh "v" in let c1 := fresh "c" in let Ha := fresh "H" in
      destruct H as [a [c1 [Ha H]]]; M_step Ha
  | lift _ _ = Ok _ => apply lift_Ok in H; let H1 := fresh "H" in
      destruct H as [H1 H]; try M_step H1
  | wrapM _ _ _ = Ok _ => apply wrapM_Ok in H; M_step H
  | @mret M M_ret _ _ _ = Ok _ => apply mret_Ok in H; destruct H
  | getM _ = Ok _ => unfold getM in H
  | modifyM _ _ = Ok _ => unfold modifyM in H
  | @mbind Outcome outcome_bind _ _ _ _ = Ok _ =>
      apply bind_Ok in H; let a := fresh "v" in let Ha := fresh "H" in
      destruct H as [a [Ha H]]; M_step Ha
  | wrapErr _ _ = Ok _ => apply wrapErr_Ok in H; M_step H
  | failIf _ _ = Ok _ => apply failIf_Ok in H
  | Ok _ = Ok _ => injection H as H
  | (match ?p with pair _ _ => _ end) _ = Ok _ => destruct p as [? ?] eqn:?
  | (match ?p with pair _ _ => _ end) = Ok _ => destruct p as [? ?] eqn:?
  | _ => idtac
  end.
Ltac M_inv H := repeat (progress M_step H; try (simpl in H); simplify_eq).

(** ** Entries of a tree *)

Definition nodeIdentity (parent : string) (m : FieldMeta) : string :=
  match synthetic_role m with
  | SYNTHETIC_ROLE_PROTO_FIELD =>
      appendIdentity parent
        (fieldIdentitySegment (int32 (Z.of_N (List.last (proto_number_path m) 0%N))))
  | SYNTHETIC_ROLE_LIST_ELEMENT => appendIdentity parent listElementSegment
  | SYNTHETIC_ROLE_MAP_KEY => appendIdentity parent mapKeySegment
  | SYNTHETIC_ROLE_MAP_VALUE => appendIdentity parent mapValueSegment
  | _ => ""
  end.


(** The nodes of a tree in preorder, each under its identity. *)
Fixpoint fieldNodes (parent : string) (f : Field) {struct f} : list (string * Field) :=
  match f with
  | mkField m t =>
      let i := nodeIdentity parent m in
      (i, f) ::
      match t with
      | None => []
      | Some (mkDataType _ k) =>
          match k with
          | DataType_Struct (Some fs) => concatOpt (fieldNodes i) fs
          | DataType_List (Some (Some e, _)) => fieldNodes i e
          | DataType_Map (Some (key, value)) =>
              match key with Some x => fieldNodes i x | None => [] end ++
              match value with Some x => fieldNodes i x | None => [] end
          | _ => []
          end
      end
  end.

Definition childNodes (i : string) (l : list (option Field)) : list (string * Field) :=
  concatOpt (fieldNodes i) l.
Arguments childNodes : simpl never.
Definition typeNodes (i : string) (t : option DataType) : list (string * Field) :=
  childNodes i (childrenOf (GetKind t)).

(** An entry is the stable id of a node. *)
Definition nodeEntry (n : string * Field) : string * Z := (fst n, stable_id (meta (snd n))).
Definition fieldEntries (parent : string) (f : Field) : list (string * Z) :=
  map nodeEntry (fieldNodes parent f).
Definition childEntries (i : string) (l : list (option Field)) : list (string * Z) :=
  map nodeEntry (childNodes i l).
Definition typeEntries (i : string) (t : option DataType) : list (string * Z) :=
  map nodeEntry (typeNodes i t).

Lemma fieldNodes_unfold parent m t :
  fieldNodes parent (mkField m t) =
  (nodeIdentity parent m, mkField m t) :: typeNodes (nodeIdentity parent m) t.
Proof.
  unfold typeNodes, childNodes.
  destruct t as [[p [| | |[]|[[[]]|]|[[[] []]|]| | | | | |]]|]; simpl; rewrite ?app_nil_r; done.
Qed.

Lemma fieldEntries_unfold parent m t :
  fieldEntries parent (mkField m t) =
  (nodeIdentity parent m, stable_id m) :: typeEntries (nodeIdentity parent m) t.
Proof. unfold fieldEntries. by rewrite fieldNodes_unfold. Qed.

Lemma childNodes_cons i f l : childNodes i (Some f :: l) = fieldNodes i f ++ childNodes i l.
Proof. done. Qed.

Lemma childEntries_cons i f l :
  childEntries i (Some f :: l) = fieldEntries i f ++ childEntries i l.
Proof. unfold childEntries. by rewrite childNodes_cons, map_app. Qed.

Lemma elem_of_childNodes i l n :
  n ∈ childNodes i l <-> exists f, Some f ∈ l /\ n ∈ fieldNodes i f.
Proof.
  induction l as [|[f|] l IH].
  - set_solver.
  - rewrite childNodes_cons, elem_of_app, IH. set_solver.
  - change (childNodes i (None :: l)) with (childNodes i l). rewrite IH. set_solver.
Qed.

(** The nodes and entries of a dataset. *)
Definition dsNodes (d : DatasetSchema) : list (string * Field) := childNodes "" (ds_fields d).
Definition dsEntries (d : DatasetSchema) : list (string * Z) := childEntries "" (ds_fields d).

(** ** Runs of the allocator *)

Inductive Allocs : datasetCompiler -> list (string * Z) -> datasetCompiler -> Prop :=
  | Allocs_nil c : Allocs c [] c
  | Allocs_container c m es c' :
      Allocs (setCurrentContainers m c) es c' -> Allocs c es c'
  | Allocs_cons c i id c1 es c' :
      allocate i c = Ok (id, c1) -> Allocs c1 es c' -> Allocs c ((i, id) :: es) c'.

Lemma Allocs_app c es1 c1 es2 c2 :
  Allocs c es1 c1 -> Allocs c1 es2 c2 -> Allocs c (es1 ++ es2) c2.
Proof. induction 1; simpl; eauto using Allocs. Qed.

Lemma Allocs_mapM {A} (f : A -> M Field) parent l c fs c' :
  Forall (fun x => forall c y c', f x c = Ok (y, c') -> Allocs c (fieldEntries parent y) c') l ->
  mapM_ f l c = Ok (fs, c') -> Allocs c (childEntries parent (map Some fs)) c'.
Proof.
  intros Hf. revert c fs c'. induction Hf as [|x l Hx Hl IH]; intros c fs c' H; simpl in H.
  - M_inv H. constructor.
  - M_inv H. simpl map. rewrite childEntries_cons. eapply Allocs_app; [by apply Hx|].
    eapply IH. done.
Qed.

Lemma int32_uint32 n : (1 <= n <= 2 ^ 29 - 1)%Z -> int32 (Z.of_N (uint32 n)) = n.
Proof.
  intros Hn. unfold int32, uint32. rewrite Z2N.id by (apply Z.mod_pos_bound; lia).
  rewrite (Z.mod_small n) by lia. rewrite (Z.mod_small n) by lia.
  destruct (Z.ltb_spec n 2147483648); lia.
Qed.

Lemma last_appendNumber path n : List.last (appendNumber path n) 0%N = n.
Proof. apply List.last_last. Qed.

Lemma sortedFields_Forall (P : FieldDescriptor -> Prop) fs :
  Forall P fs -> Forall P (sortedFields fs).
Proof. intros Hfs. unfold sortedFields. by rewrite merge_sort_Permutation. Qed.

Lemma wellKnownType_entries nm t i : wellKnownType nm = Some t -> typeEntries i (Some t) = [].
Proof.
  unfold wellKnownType. simpl. intros H.
  repeat (case_decide; [by simplify_eq|]). done.
Qed.

Section WithProtoreflect.
Context `{Protoreflect}.

(** ** Well-formed descriptors

    What protobuf guarantees of a descriptor pool: a message is found under its
    own name, field numbers are between 1 and 2^29 - 1, names are valid and
    qualified by the containing message, map keys are scalars, an enumeration has
    a value and a singular message field has presence. *)
Definition scalarKey (fd : FieldDescriptor) : bool :=
  match fd_MapKey fd with
  | Some key => negb (isNil (primitiveKind (fd_Kind key)))
  | None => true
  end.
Definition enumNonEmpty (fd : FieldDescriptor) : bool :=
  match fd_Enum fd with
  | Some ed => negb (length (ed_Values ed) =? 0)%nat
  | None => true
  end.
Definition isMessageKind (k : Kind) : bool :=
  match k with MessageKind | GroupKind => true | _ => false end.
Definition messagePresence (fd : FieldDescriptor) : bool :=
  negb (isMessageKind (fd_Kind fd)) || fd_IsMap fd || fd_IsList fd || fd_HasPresence fd.
Definition wfField (fd : FieldDescriptor) : Prop :=
  (1 <= fd_Number fd <= 2 ^ 29 - 1)%Z /\
  (Name_IsValid (fd_Name fd) = true /\ fd_Name fd <> "") /\
  (FullName_IsValid (fd_FullName fd) = true /\ fd_FullName fd <> "" /\
   FullName_Name (fd_FullName fd) = fd_Name fd) /\
  fd_FullName fd = FullName_Append (fd_ContainingMessage fd) (fd_Name fd) /\
  scalarKey fd = true /\
  (enumNonEmpty fd = true /\ (from_option enumNonEmpty true (fd_MapValue fd) = true)) /\
  messagePresence fd = true.
Definition wfMessage (md : MessageDescriptor) : Prop := Forall wfField (md_Fields md).
Definition wfRegistry (reg : Registry) : Prop :=
  map_Forall (fun nm md => md_FullName md = nm /\ wfMessage md) reg.

#[export] Instance wfField_dec fd : Decision (wfField fd).
Proof. unfold wfField. apply _. Defined.
#[export] Instance wfMessage_dec md : Decision (wfMessage md).
Proof. unfold wfMessage. apply _. Defined.
#[export] Instance wfRegistry_dec reg : Decision (wfRegistry reg).
Proof. unfold wfRegistry. apply _. Defined.

Lemma wfField_number fd : wfField fd -> (1 <= fd_Number fd <= 2 ^ 29 - 1)%Z.
Proof. by intros [? _]. Qed.
Lemma wfField_full_name fd : wfField fd -> fd_FullName fd <> "".
Proof. by intros (_&_&(_&?&_)&_). Qed.
Lemma wfField_key fd key :
  wfField fd -> fd_MapKey fd = Some key -> exists p, primitiveKind (fd_Kind key) = Some p.
Proof.
  intros (_&_&_&_&Hk&_) Hf. unfold scalarKey in Hk. rewrite Hf in Hk.
  destruct (primitiveKind (fd_Kind key)); [eauto|done].
Qed.

Lemma wfField_enum fd : wfField fd -> enumNonEmpty fd = true.
Proof. by intros (_&_&_&_&_&[? _]&_). Qed.
Lemma wfField_value_enum fd v : wfField fd -> fd_MapValue fd = Some v -> enumNonEmpty v = true.
Proof. intros (_&_&_&_&_&[_ Hv]&_) Heq. by rewrite Heq in Hv. Qed.
Lemma wfField_presence fd : wfField fd -> messagePresence fd = true.
Proof. by intros (_&_&_&_&_&_&?). Qed.

(** What [compileProtoField] needs of the method for value types. *)
Definition valueTypeAllocs
    (valueType : FieldDescriptor -> list N -> string -> gset string -> M DataType) : Prop :=
  forall fd path i stack c t c',
    valueType fd path i stack c = Ok (t, c') -> Allocs c (typeEntries i (Some t)) c'.

Section Open.
Variable valueType : FieldDescriptor -> list N -> string -> gset string -> M DataType.
Hypothesis HvalueType : valueTypeAllocs valueType.

Lemma compileRefinedValueType_Allocs fd path i stack o c t c' :
  compileRefinedValueType valueType fd path i stack o c = Ok (t, c') ->
  Allocs c (typeEntries i (Some t)) c'.
Proof.
  unfold compileRefinedValueType. intros Hc.
  destruct o as [o|]; [|by eapply HvalueType].
  destruct (semantic_type o) as [[[d|]|[u|]|[n|]]|]; M_inv Hc; apply Allocs_nil.
Qed.

Lemma compileSyntheticField_Allocs fd nm pfn path i role stack o c f c' parent :
  compileSyntheticField valueType fd nm pfn path i role stack o c = Ok (f, c') ->
  nodeIdentity parent (mkFieldMeta pfn path nm 0 PRESENCE_NOT_APPLICABLE false "" "" role
                         false "" "" "") = i ->
  Allocs c (fieldEntries parent f) c'.
Proof.
  intros Hc Hi. unfold compileSyntheticField in Hc. M_inv Hc.
  rewrite fieldEntries_unfold. unfold nodeIdentity in *. simpl in *.
  eapply Allocs_cons; [done|]. by eapply compileRefinedValueType_Allocs.
Qed.

Lemma compileListType_Allocs fd path i stack o c t c' :
  compileListType valueType fd path i stack o c = Ok (t, c') ->
  Allocs c (typeEntries i (Some t)) c'.
Proof.
  unfold compileListType. intros Hc.
  set (p := match o with Some o0 => _ | None => _ end) in Hc.
  destruct p as [len eo]. M_inv Hc.
  unfold typeEntries, typeNodes. simpl. rewrite childNodes_cons, app_nil_r.
  by eapply compileSyntheticField_Allocs; [eassumption|].
Qed.

Lemma compileMapType_Allocs fd path i stack c t c' :
  compileMapType valueType fd path i stack c = Ok (t, c') ->
  Allocs c (typeEntries i (Some t)) c'.
Proof.
  unfold compileMapType. intros Hc.
  destruct (fd_MapKey fd), (fd_MapValue fd); M_inv Hc.
  unfold typeEntries, typeNodes. simpl. rewrite !childNodes_cons, app_nil_r, map_app.
  eapply Allocs_app; by eapply compileSyntheticField_Allocs; [eassumption|].
Qed.

Lemma compileProtoField_Allocs parentPath parent stack fd c f c' :
  wfField fd ->
  compileProtoField valueType parentPath parent stack fd c = Ok (f, c') ->
  Allocs c (fieldEntries parent f) c'.
Proof.
  intros Hwf Hc. unfold compileProtoField in Hc.
  M_inv Hc. destruct (fieldPresence fd) as [[pres nul] oo]. M_inv Hc.
  rewrite fieldEntries_unfold. unfold nodeIdentity. simpl.
  rewrite last_appendNumber, int32_uint32 by (by apply wfField_number).
  eapply Allocs_cons; [done|].
  match goal with Ht : (if fd_IsMap fd then _ else _) _ = _ |- _ =>
    destruct (fd_IsMap fd); [|destruct (fd_IsList fd)]; M_inv Ht end;
    eauto using compileMapType_Allocs, compileListType_Allocs, compileRefinedValueType_Allocs.
Qed.
End Open.

Lemma compileValueType_Allocs reg fuel :
  wfRegistry reg -> valueTypeAllocs (compileValueType reg fuel).
Proof.
  intros Hreg. induction fuel as [|fuel IH]; intros fd path i stack c t c' Hc;
    simpl in Hc; (destruct (primitiveKind (fd_Kind fd)); [M_inv Hc; apply Allocs_nil|]);
    (destruct (fd_Kind fd); try by M_inv Hc);
    try (destruct (fd_Enum fd); M_inv Hc; apply Allocs_nil);
    (destruct (fd_Message fd ≫= _) as [md|] eqn:Hmd; [|by M_inv Hc]);
    M_inv Hc;
    (destruct (wellKnownType (md_FullName md)) eqn:Hw;
      [M_inv Hc; erewrite wellKnownType_entries by done; apply Allocs_nil|]);
    M_inv Hc; (case_decide; [by M_inv Hc|]); M_inv Hc;
    (eapply Allocs_container; eapply Allocs_mapM; [|eassumption]);
    apply bind_Some in Hmd as [nm [_ Hnm]]; destruct (Hreg _ _ Hnm) as [_ Hwf];
    (eapply Forall_impl; [|apply sortedFields_Forall; exact Hwf]);
    intros fd' Hfd' c0 y c0'; apply compileProtoField_Allocs; auto.
Qed.

Lemma compileFields_Allocs reg fuel parentPath parent stack fds c fs c' :
  wfRegistry reg -> Forall wfField fds ->
  mapM_ (compileProtoField (compileValueType reg fuel) parentPath parent stack) fds c = Ok (fs, c') ->
  Allocs c (childEntries parent (map Some fs)) c'.
Proof.
  intros Hreg Hfds. apply Allocs_mapM. eapply Forall_impl; [|done].
  intros fd Hfd c0 y c0'. apply compileProtoField_Allocs; [|done].
  by apply compileValueType_Allocs.
Qed.
End WithProtoreflect.

(** ** The invariant of the compiler object *)

Record Inv (c : datasetCompiler) : Prop := mkInv {
  inv_active i id : currentActive c !! i = Some id -> reservedIDs c !! id = Some i;
  inv_previous i id : previousActive c !! i = Some id -> reservedIDs c !! id = Some i;
  inv_first i id : firstTopLevelIDs c !! i = Some id -> reservedIDs c !! id = Some i;
  inv_retired i r : retired c !! i = Some r ->
    rf_identity r = i /\ reservedIDs c !! rf_stable_id r = Some i;
  inv_fields i : previousActive c !! i = (fun f => stable_id (meta f)) <$> previousFields c !! i;
  inv_retired_previous i : is_Some (retired c !! i) -> previousActive c !! i = None;
  inv_retired_active i : is_Some (retired c !! i) -> currentActive c !! i = None;
  inv_range id i : reservedIDs c !! id = Some i -> (1 <= id <= lastID c)%Z;
  inv_last : (0 <= lastID c <= maxStableID)%Z;
  inv_highest : lastID c = 0%Z \/ is_Some (reservedIDs c !! lastID c)
}.

(** What an allocation leaves alone. *)
Record SameHistory (c c' : datasetCompiler) : Prop := mkSameHistory {
  same_previous : previousActive c' = previousActive c;
  same_fields : previousFields c' = previousFields c;
  same_retired : retired c' = retired c;
  same_names : historicalNames c' = historicalNames c;
  same_first : firstTopLevelIDs c' = firstTopLevelIDs c
}.

#[export] Instance SameHistory_preorder : PreOrder SameHistory.
Proof.
  split; [by intros c; constructor|].
  intros c1 c2 c3 [] []. constructor; congruence.
Qed.

(** What one successful allocation does. *)
Lemma allocate_spec i c id c' :
  allocate i c = Ok (id, c') ->
  SameHistory c c' /\ currentContainers c' = currentContainers c /\
  currentActive c !! i = None /\ retired c !! i = None /\
  currentActive c' = <[i := id]> (currentActive c) /\
  ( (reservedIDs c' = reservedIDs c /\ lastID c' = lastID c /\
     (previousActive c !! i = Some id \/
      previousActive c !! i = None /\ firstTopLevelIDs c !! i = Some id))
  \/ (previousActive c !! i = None /\ firstTopLevelIDs c !! i = None /\
      lastID c <> maxStableID /\ id = (lastID c + 1)%Z /\ reservedIDs c !! id = None /\
      reservedIDs c' = <[id := i]> (reservedIDs c) /\ lastID c' = id)).
Proof.
  unfold allocate. intros Hc.
  destruct (currentActive c !! i) eqn:Ha; [done|].
  destruct (retired c !! i) eqn:Hr; [done|].
  destruct (previousActive c !! i) eqn:Hp; [|destruct (firstTopLevelIDs c !! i) eqn:Hf].
  1-2: injection Hc as <- <-; repeat split; eauto 6.
  destruct (Z.eqb_spec (lastID c) maxStableID); [done|].
  destruct (reservedIDs c !! _) eqn:Hres; [done|].
  injection Hc as <- <-. repeat split; eauto 12.
Qed.

(** *** Preservation *)

Lemma allocate_reserved_mono i c id c' j k :
  allocate i c = Ok (id, c') -> reservedIDs c !! k = Some j -> reservedIDs c' !! k = Some j.
Proof.
  intros Ha Hk. apply allocate_spec in Ha as (_&_&_&_&_&[(->&_)|(_&_&_&->&Hn&->&_)]); [done|].
  rewrite lookup_insert_ne; [done|]. intros Heq. rewrite Heq in Hn. congruence.
Qed.

Lemma allocate_Inv i c id c' : Inv c -> allocate i c = Ok (id, c') -> Inv c'.
Proof.
  intros Hinv Ha. pose proof (fun j k => allocate_reserved_mono i c id c' j k Ha) as Hmono.
  apply allocate_spec in Ha as ([Hp Hf Hr _ Hft]&_&Hcur&Hret&Hact&Hcase).
  destruct Hinv as [Ia Ip If Ir Ifl Irp Ira Irange Ilast Ihigh].
  assert (reservedIDs c' !! id = Some i) as Hid.
  { destruct Hcase as [(->&_&[?|[_ ?]])|(_&_&_&->&_&->&_)]; auto.
    by rewrite lookup_insert_eq. }
  constructor; rewrite ?Hp, ?Hf, ?Hr, ?Hft; auto.
  - intros j k. rewrite Hact, lookup_insert. case_decide; intros; simplify_eq; auto.
  - intros j r Hj. apply Ir in Hj as [? ?]. auto.
  - intros j [r Hj]. rewrite Hact, lookup_insert_ne; [apply Ira; eauto|].
    intros ->. congruence.
  - intros k j. destruct Hcase as [(->&->&_)|(_&_&?&->&_&->&->)]; [apply Irange|].
    rewrite lookup_insert. case_decide; intros Hk; simplify_eq; [lia|].
    apply Irange in Hk. lia.
  - destruct Hcase as [(_&->&_)|(_&_&?&->&_&_&->)]; lia.
  - destruct Hcase as [(->&->&_)|(_&_&?&->&_&->&->)]; [done|].
    right. rewrite lookup_insert_eq. eauto.
Qed.

Lemma setCurrentContainers_Inv m c : Inv c -> Inv (setCurrentContainers m c).
Proof. intros []. constructor; auto. Qed.

Lemma Allocs_Inv c es c' : Allocs c es c' -> Inv c -> Inv c'.
Proof. induction 1; eauto using allocate_Inv, setCurrentContainers_Inv. Qed.

Lemma Allocs_SameHistory c es c' : Allocs c es c' -> SameHistory c c'.
Proof.
  induction 1 as [c|c m es c' _ IH|c i id c1 es c' Ha _ IH]; [done| |].
  - etrans; [|exact IH]. by constructor.
  - apply allocate_spec in Ha as [? _]. by etrans.
Qed.

Lemma Allocs_last c es c' : Allocs c es c' -> (lastID c <= lastID c')%Z.
Proof.
  induction 1 as [c|c m es c' _ IH|c i id c1 es c' Ha _ IH]; [lia|done|].
  apply allocate_spec in Ha as (_&_&_&_&_&[(_&?&_)|(_&_&_&?&_&_&?)]); lia.
Qed.

Lemma Allocs_reserved_mono c es c' k j :
  Allocs c es c' -> reservedIDs c !! k = Some j -> reservedIDs c' !! k = Some j.
Proof. induction 1; eauto using allocate_reserved_mono. Qed.

(** The active identities after a run: the ones before and the entries. *)
Lemma Allocs_active c es c' i id :
  Allocs c es c' ->
  currentActive c' !! i = Some id <-> (i, id) ∈ es \/ currentActive c !! i = Some id.
Proof.
  induction 1 as [c|c m es c' _ IH|c j k c1 es c' Ha _ IH]; [set_solver|done|].
  apply allocate_spec in Ha as (_&_&Hn&_&Hact&_).
  rewrite IH, Hact, lookup_insert, elem_of_cons.
  case_decide; naive_solver.
Qed.

Lemma Allocs_fresh_identities c es c' :
  Allocs c es c' -> NoDup es.*1 /\ forall i, i ∈ es.*1 -> currentActive c !! i = None.
Proof.
  induction 1 as [c|c m es c' _ IH|c j k c1 es c' Ha _ [IHd IHn]];
    [split; [constructor|set_solver]|done|].
  apply allocate_spec in Ha as (_&_&Hn&_&Hact&_). simpl. split.
  - constructor; [|done]. intros Hj%IHn. rewrite Hact, lookup_insert_eq in Hj. done.
  - intros i [->|Hi]%elem_of_cons; [done|].
    apply IHn in Hi. rewrite Hact, lookup_insert_None in Hi. by destruct Hi.
Qed.

Lemma Allocs_not_retired c es c' i : Allocs c es c' -> i ∈ es.*1 -> retired c !! i = None.
Proof.
  induction 1 as [c|c m es c' _ IH|c j k c1 es c' Ha _ IH]; [set_solver|done|].
  apply allocate_spec in Ha as ([_ _ Hr _ _]&_&_&Hret&_). simpl.
  intros [->|Hi]%elem_of_cons; [done|]. rewrite <- Hr. auto.
Qed.

(** An entry keeps the id of the previous schema, or (first compilation) has the
    protobuf number, or has an id above every id allocated before. *)
Lemma Allocs_origin c es c' i id :
  Allocs c es c' -> (i, id) ∈ es ->
  previousActive c !! i = Some id
  \/ previousActive c !! i = None /\ firstTopLevelIDs c !! i = Some id
  \/ previousActive c !! i = None /\ firstTopLevelIDs c !! i = None /\ (lastID c < id)%Z.
Proof.
  induction 1 as [c|c m es c' _ IH|c j k c1 es c' Ha _ IH]; [set_solver|done|].
  apply allocate_spec in Ha as ([Hp _ _ _ Hf]&_&_&_&_&Hcase).
  intros [[= -> ->]|Hi]%elem_of_cons.
  - destruct Hcase as [(_&_&?)|(?&?&_&?&_)]; [naive_solver|].
    right. right. repeat split; auto; lia.
  - apply IH in Hi. rewrite Hp, Hf in Hi.
    destruct Hi as [?|[?|(?&?&?)]]; [tauto..|]. right. right. repeat split; [done..|].
    destruct Hcase as [(_&?&_)|(_&_&_&?&_&_&?)]; lia.
Qed.

Lemma Inv_ids_unique c i j id :
  Inv c -> currentActive c !! i = Some id -> currentActive c !! j = Some id -> i = j.
Proof. intros Hinv Hi%Hinv Hj%Hinv. congruence. Qed.
