(* ===== verification/HistoryFacts.v ===== *)
(** * The history a compilation starts from

    [newDatasetCompiler] indexes the previous schema.  A successful indexing is a
    run of [Indexes] steps over the nodes of the previous tree; by rule induction
    it establishes the invariant [Inv] and records every identity, id and storage
    name of the previous schema. *)
From S2P Require Import Prelude GoStrings Schema WellFormed Bundle Descriptor Compiler CompilerFacts.

(** The identity that owns a storage name in a scope. *)
Definition nameOwner (c : datasetCompiler) (scope nm : string) : option string :=
  historicalNames c !! scope ≫= (fun owners => owners !! nm).

Lemma historicalNameOwner_eq c scope nm :
  historicalNameOwner c scope nm = default "" (nameOwner c scope nm).
Proof.
  unfold historicalNameOwner, nameOwner.
  destruct (historicalNames c !! scope); simpl; [done|]. by rewrite lookup_empty.
Qed.

Definition sameButNames (c c' : datasetCompiler) : Prop :=
  c' = setHistoricalNames (historicalNames c') c.

Lemma registerHistoricalName_spec i nm c u c' :
  registerHistoricalName i nm c = Ok (u, c') ->
  sameButNames c c' /\
  (nameOwner c (parentCompilerIdentity i) nm = None
   \/ nameOwner c (parentCompilerIdentity i) nm = Some i) /\
  nameOwner c' (parentCompilerIdentity i) nm = Some i /\
  forall scope n, (scope, n) <> (parentCompilerIdentity i, nm) ->
    nameOwner c' scope n = nameOwner c scope n.
Proof.
  set (scope := parentCompilerIdentity i).
  assert (forall h, h = <[scope := <[nm := i]> (default ∅ (historicalNames c !! scope))]>
                          (historicalNames c) ->
    nameOwner (setHistoricalNames h c) scope nm = Some i /\
    forall s n, (s, n) <> (scope, nm) ->
      nameOwner (setHistoricalNames h c) s n = nameOwner c s n) as Hset.
  { intros h ->. unfold nameOwner. simpl. split.
    - rewrite lookup_insert_eq. simpl. by rewrite lookup_insert_eq.
    - intros s n Hne. rewrite lookup_insert. case_decide; [subst s|done]. simpl.
      rewrite lookup_insert_ne by congruence.
      destruct (historicalNames c !! scope); simpl; [done|]. by rewrite lookup_empty. }
  unfold registerHistoricalName. fold scope. intros Hr.
  assert (nameOwner c scope nm = default ∅ (historicalNames c !! scope) !! nm) as Ho.
  { unfold nameOwner. destruct (historicalNames c !! scope); simpl; [done|]. by rewrite lookup_empty. }
  rewrite Ho. destruct (default ∅ (historicalNames c !! scope) !! nm) as [o|] eqn:Hl;
    [case_decide; [subst o|done]|]; injection Hr as <- <-;
    (split; [done|]); (split; [tauto|]); by apply Hset.
Qed.

Section WithProtoreflect.
Context `{Protoreflect}.

(** One indexed node. *)
Record IndexStep (i : string) (f : Field) (c c' : datasetCompiler) : Prop := mkIndexStep {
  is_previous : previousActive c' = <[i := stable_id (meta f)]> (previousActive c);
  is_fields : previousFields c' = <[i := f]> (previousFields c);
  is_ids : reservedIDs c' = <[stable_id (meta f) := i]> (reservedIDs c);
  is_tombstones : retired c' = retired c;
  is_current : currentActive c' = currentActive c;
  is_containers : currentContainers c' = currentContainers c;
  is_first : firstTopLevelIDs c' = firstTopLevelIDs c;
  is_last : lastID c' = lastID c;
  is_retired : retired c !! i = None;
  is_active : previousActive c !! i = None;
  is_reserved : reservedIDs c !! stable_id (meta f) = None;
  is_range : (1 <= stable_id (meta f) <= maxStableID)%Z;
  is_owned : validateCompilerOwnedName i (proto_full_name (meta f)) (name (meta f))
               (storage_name_source (meta f)) = Ok tt;
  is_free : nameOwner c (parentCompilerIdentity i) (name (meta f)) = None
            \/ nameOwner c (parentCompilerIdentity i) (name (meta f)) = Some i;
  is_owner : nameOwner c' (parentCompilerIdentity i) (name (meta f)) = Some i;
  is_others scope n : (scope, n) <> (parentCompilerIdentity i, name (meta f)) ->
    nameOwner c' scope n = nameOwner c scope n
}.

Inductive Indexes : datasetCompiler -> list (string * Field) -> datasetCompiler -> Prop :=
  | Indexes_nil c : Indexes c [] c
  | Indexes_cons c i f c1 ns c' :
      IndexStep i f c c1 -> Indexes c1 ns c' -> Indexes c ((i, f) :: ns) c'.

Lemma Indexes_app c ns1 c1 ns2 c2 :
  Indexes c ns1 c1 -> Indexes c1 ns2 c2 -> Indexes c (ns1 ++ ns2) c2.
Proof. induction 1; simpl; eauto using Indexes. Qed.

Lemma indexedIdentity_Ok role pfn path pp parent i m :
  synthetic_role m = role -> proto_number_path m = path ->
  indexedIdentity role pfn path pp parent = Ok i -> i = nodeIdentity parent m.
Proof.
  intros Hr Hp Hi. unfold nodeIdentity. rewrite Hr, Hp. unfold indexedIdentity in Hi.
  destruct role; try discriminate; case_match; congruence.
Qed.

Lemma validateStableID_Ok id u : validateStableID id = Ok u -> (1 <= id <= maxStableID)%Z.
Proof.
  unfold validateStableID. intros H1%failIf_Ok. apply orb_false_iff in H1 as [??]. lia.
Qed.

Lemma isNil_lookup {A} (o : option A) : negb (isNil o) = false -> o = None.
Proof. by destruct o. Qed.

Lemma indexNode_spec f pp parent role c i c' :
  indexNode f pp parent role c = Ok (i, c') ->
  i = nodeIdentity parent (meta f) /\ synthetic_role (meta f) = role /\ IndexStep i f c c'.
Proof.
  unfold indexNode. intros Hn. M_inv Hn.
  destruct (reservedIDs c !! stable_id (meta f)) eqn:Hres; [done|]. M_inv Hn.
  match goal with Hb : negb (bool_decide _) = false |- _ =>
    apply negb_false_iff, bool_decide_eq_true in Hb end.
  match goal with Hv : validateStableID _ = _ |- _ => apply validateStableID_Ok in Hv end.
  repeat match goal with Hl : negb (isNil _) = false |- _ => apply isNil_lookup in Hl end.
  match goal with Hr : registerHistoricalName _ _ _ = Ok ?p |- _ =>
    destruct p as [u c1]; apply registerHistoricalName_spec in Hr as (Hc1&?&?&?) end.
  match goal with Hv : validateCompilerOwnedName _ _ _ _ = Ok ?u |- _ => destruct u end.
  split; [by eapply indexedIdentity_Ok|]. split; [done|].
  rewrite Hc1. by constructor.
Qed.

Lemma indexPreviousField_Indexes f pp parent role c u c' :
  indexPreviousField f pp parent role c = Ok (u, c') -> Indexes c (fieldNodes parent f) c'.
Proof.
  revert f pp parent role c u c'.
  apply (Field_tree_ind (fun f => forall pp parent role c u c',
           indexPreviousField f pp parent role c = Ok (u, c') -> Indexes c (fieldNodes parent f) c')
         (fun o => forall f, o = Some f -> forall pp parent role c u c',
           indexPreviousField f pp parent role c = Ok (u, c') -> Indexes c (fieldNodes parent f) c')).
  { done. }
  { intros f IH g [= ->]. apply IH. }
  intros m t IH pp parent role c u c' Hi. rewrite fieldNodes_unfold.
  destruct t as [[p k]|]; simpl in Hi.
  2:{ M_inv Hi. }
  apply M_bind_Ok in Hi as (i&c1&Hnode&Hi).
  apply indexNode_spec in Hnode as (->&_&Hstep). simpl in *.
  eapply Indexes_cons; [done|]. clear Hstep. unfold typeNodes. simpl.
  set (i := nodeIdentity parent m) in *. simpl in IH.
  destruct k as [| | |[fs|]|[[[e|] n]|]|[[[k|] [v|]]|]| | | | | |]; simpl in *;
    try (by M_inv Hi; repeat constructor).
  - apply M_bind_Ok in Hi as (l&c2&Hi&Hu). M_inv Hu.
    revert c1 l Hi. induction IH as [|o fs Ho IHfs IH']; intros c1 l Hi; simpl in Hi.
    + M_inv Hi. constructor.
    + destruct o as [f|]; M_inv Hi. rewrite childNodes_cons. eapply Indexes_app; [|by eapply IH'].
      by eapply Ho.
  - rewrite childNodes_cons, app_nil_r. apply Forall_cons_1 in IH as [IH _]. by eapply IH.
  - M_inv Hi. rewrite !childNodes_cons, app_nil_r.
    apply Forall_cons_1 in IH as [IHk [IHv _]%Forall_cons_1].
    eapply Indexes_app; [by eapply IHk|by eapply IHv].
Qed.

(** One indexed tombstone. *)
Record RetiredStep (r : RetiredField) (c c' : datasetCompiler) : Prop := mkRetiredStep {
  rs_previous : previousActive c' = previousActive c;
  rs_fields : previousFields c' = previousFields c;
  rs_ids : reservedIDs c' = <[rf_stable_id r := rf_identity r]> (reservedIDs c);
  rs_tombstones : retired c' = <[rf_identity r := r]> (retired c);
  rs_current : currentActive c' = currentActive c;
  rs_containers : currentContainers c' = currentContainers c;
  rs_first : firstTopLevelIDs c' = firstTopLevelIDs c;
  rs_last : lastID c' = lastID c;
  rs_retired : retired c !! rf_identity r = None;
  rs_reserved : reservedIDs c !! rf_stable_id r = None;
  rs_range : (1 <= rf_stable_id r <= maxStableID)%Z;
  rs_owned : validateCompilerOwnedName (rf_identity r) (rf_proto_full_name r) (rf_name r)
               (rf_storage_name_source r) = Ok tt;
  rs_free : nameOwner c (parentCompilerIdentity (rf_identity r)) (rf_name r) = None
            \/ nameOwner c (parentCompilerIdentity (rf_identity r)) (rf_name r)
               = Some (rf_identity r);
  rs_owner : nameOwner c' (parentCompilerIdentity (rf_identity r)) (rf_name r)
             = Some (rf_identity r);
  rs_others scope n : (scope, n) <> (parentCompilerIdentity (rf_identity r), rf_name r) ->
    nameOwner c' scope n = nameOwner c scope n
}.

Lemma indexPreviousRetired_spec o c u c' :
  indexPreviousRetired o c = Ok (u, c') -> exists r, o = Some r /\ RetiredStep r c c'.
Proof.
  unfold indexPreviousRetired. intros Hn. destruct o as [r|]; [|done]. exists r. split; [done|].
  M_inv Hn. destruct (reservedIDs c !! rf_stable_id r) eqn:Hres; [done|]. M_inv Hn.
  match goal with Hv : validateStableID _ = _ |- _ => apply validateStableID_Ok in Hv end.
  repeat match goal with Hl : negb (isNil _) = false |- _ => apply isNil_lookup in Hl end.
  match goal with Hr : registerHistoricalName _ _ _ = Ok ?p |- _ =>
    destruct p as [u' c1]; apply registerHistoricalName_spec in Hr as (Hc1&?&?&?) end.
  match goal with Hv : validateCompilerOwnedName _ _ _ _ = Ok ?u |- _ => destruct u end.
  simpl. rewrite Hc1. by constructor.
Qed.

(** ** The invariant while the history is read *)

Record History (c : datasetCompiler) : Prop := mkHistory {
  h_previous i id : previousActive c !! i = Some id -> reservedIDs c !! id = Some i;
  h_retired i r : retired c !! i = Some r ->
    rf_identity r = i /\ reservedIDs c !! rf_stable_id r = Some i;
  h_fields i : previousActive c !! i = (fun f => stable_id (meta f)) <$> previousFields c !! i;
  h_disjoint i : is_Some (retired c !! i) -> previousActive c !! i = None;
  h_range id i : reservedIDs c !! id = Some i -> (1 <= id <= maxStableID)%Z;
  h_names_fields i f : previousFields c !! i = Some f ->
    nameOwner c (parentCompilerIdentity i) (name (meta f)) = Some i;
  h_names_retired i r : retired c !! i = Some r ->
    nameOwner c (parentCompilerIdentity i) (rf_name r) = Some i;
  h_owned_fields i f : previousFields c !! i = Some f ->
    validateCompilerOwnedName i (proto_full_name (meta f)) (name (meta f))
      (storage_name_source (meta f)) = Ok tt;
  h_owned_retired i r : retired c !! i = Some r ->
    validateCompilerOwnedName i (rf_proto_full_name r) (rf_name r) (rf_storage_name_source r) = Ok tt;
  h_current : currentActive c = ∅;
  h_first : firstTopLevelIDs c = ∅
}.

(** Names recorded before a step stay recorded. *)
Lemma nameOwner_step (scope0 nm0 i : string) c c' scope nm o :
  nameOwner c scope0 nm0 = None \/ nameOwner c scope0 nm0 = Some i ->
  nameOwner c' scope0 nm0 = Some i ->
  (forall s n, (s, n) <> (scope0, nm0) -> nameOwner c' s n = nameOwner c s n) ->
  nameOwner c scope nm = Some o -> nameOwner c' scope nm = Some o.
Proof.
  intros Hfree Hown Hoth Ho. destruct (decide ((scope, nm) = (scope0, nm0))) as [[= -> ->]|Hne].
  - destruct Hfree; congruence.
  - by rewrite Hoth.
Qed.

Lemma IndexStep_History i f c c' : IndexStep i f c c' -> History c -> History c'.
Proof.
  intros Hs Hh.
  assert (forall s n o, nameOwner c s n = Some o -> nameOwner c' s n = Some o) as Hnames.
  { intros s n o. eapply nameOwner_step; apply Hs. }
  destruct Hs as [Ep Ef Ei Et Ec _ E1 _ Hret Hact Hres Hrange Howned Hfree Hown Hoth].
  destruct Hh as [Hp Hr Hf Hd Hrg Hnf Hnr Hof Hor Hcur Hfst].
  assert (forall id j, reservedIDs c !! id = Some j -> reservedIDs c' !! id = Some j) as Hmono.
  { intros id j Hid. rewrite Ei, lookup_insert_ne; [done|]. congruence. }
  constructor; rewrite ?Et, ?Ec, ?E1; eauto.
  - intros j id. rewrite Ep, Ei, !lookup_insert. case_decide; [by intros; simplify_eq; case_decide|].
    intros Hj%Hp. case_decide; [congruence|done].
  - intros j r Hj. apply Hr in Hj as [? ?]. auto.
  - intros j. rewrite Ep, Ef, !lookup_insert. case_decide; [done|]. apply Hf.
  - intros j Hj. rewrite Ep, lookup_insert_ne; [by apply Hd|].
    intros ->. destruct Hj. congruence.
  - intros id j. rewrite Ei, lookup_insert. case_decide; intros; simplify_eq; eauto.
  - intros j g. rewrite Ef, lookup_insert. case_decide; intros; simplify_eq; eauto.
  - intros j g. rewrite Ef, lookup_insert. case_decide; intros; simplify_eq; eauto.
Qed.

Lemma RetiredStep_History r c c' :
  RetiredStep r c c' -> previousActive c = ∅ -> History c -> History c'.
Proof.
  intros Hs Hempty Hh.
  assert (forall s n o, nameOwner c s n = Some o -> nameOwner c' s n = Some o) as Hnames.
  { intros s n o. eapply nameOwner_step; apply Hs. }
  destruct Hs as [Ep Ef Ei Et Ec _ E1 _ Hret Hres Hrange Howned Hfree Hown Hoth].
  destruct Hh as [Hp Hr Hf Hd Hrg Hnf Hnr Hof Hor Hcur Hfst].
  assert (forall id j, reservedIDs c !! id = Some j -> reservedIDs c' !! id = Some j) as Hmono.
  { intros id j Hid. rewrite Ei, lookup_insert_ne; [done|]. congruence. }
  constructor; rewrite ?Ep, ?Ef, ?Ec, ?E1; eauto.
  - intros j r'. rewrite Et, lookup_insert. case_decide as Hd'; intros Hj; simplify_eq.
    + by rewrite Ei, lookup_insert_eq.
    + apply Hr in Hj as [? ?]. auto.
  - intros j _. by rewrite Hempty, lookup_empty.
  - intros id j. rewrite Ei, lookup_insert. case_decide; intros; simplify_eq; eauto.
  - intros j r'. rewrite Et, lookup_insert. case_decide; intros; simplify_eq; eauto.
  - intros j r'. rewrite Et, lookup_insert. case_decide; intros; simplify_eq; eauto.
Qed.

Lemma Indexes_History c ns c' : Indexes c ns c' -> History c -> History c'.
Proof. induction 1; eauto using IndexStep_History. Qed.

(** What a run of index steps records, and what it leaves alone. *)
Lemma Indexes_fields c ns c' :
  Indexes c ns c' -> History c ->
  NoDup ns.*1 /\ (forall i, i ∈ ns.*1 -> previousFields c !! i = None) /\
  forall i f, previousFields c' !! i = Some f <-> (i, f) ∈ ns \/ previousFields c !! i = Some f.
Proof.
  induction 1 as [c|c i f c1 ns c' Hs _ IH]; intros Hh.
  { split; [constructor|]. split; set_solver. }
  destruct IH as (Hnd&Hfresh&Hiff); [by eapply IndexStep_History|].
  pose proof (is_fields _ _ _ _ Hs) as Ef. pose proof (is_active _ _ _ _ Hs) as Hact.
  rewrite (h_fields c Hh), fmap_None in Hact. simpl. split; [|split].
  - constructor; [|done]. intros Hin%Hfresh. by rewrite Ef, lookup_insert_eq in Hin.
  - intros j [->|Hj]%elem_of_cons; [done|]. apply Hfresh in Hj.
    rewrite Ef, lookup_insert_None in Hj. by destruct Hj.
  - intros j g. rewrite Hiff, Ef, lookup_insert, elem_of_cons. case_decide; naive_solver.
Qed.

Lemma Indexes_same c ns c' :
  Indexes c ns c' ->
  retired c' = retired c /\ currentContainers c' = currentContainers c /\ lastID c' = lastID c.
Proof.
  induction 1 as [c|c i f c1 ns c' [] _ (?&?&?)]; [done|].
  repeat split; congruence.
Qed.

Lemma indexFields_Indexes (l : list (option Field)) c us c' :
  mapM_ (fun field =>
    match field with
    | None => lift (Err "previous schema contains a nil field")
    | Some f => indexPreviousField f [] "" SYNTHETIC_ROLE_PROTO_FIELD
    end) l c = Ok (us, c') ->
  Indexes c (childNodes "" l) c' /\ Forall (fun o => is_Some o) l.
Proof.
  revert c us. induction l as [|[f|] l IH]; intros c us Hi; simpl in Hi.
  - M_inv Hi. repeat constructor.
  - M_inv Hi. match goal with Hl : mapM_ _ l _ = _ |- _ => apply IH in Hl as [? ?] end.
    rewrite childNodes_cons. split; [|constructor; [done|]; eauto].
    eapply Indexes_app; [|done]. by eapply indexPreviousField_Indexes.
  - M_inv Hi.
Qed.

Lemma indexRetired_History (l : list (option RetiredField)) c us c' :
  mapM_ indexPreviousRetired l c = Ok (us, c') ->
  History c -> previousActive c = ∅ ->
  History c' /\ previousActive c' = ∅ /\ previousFields c' = previousFields c /\
  currentContainers c' = currentContainers c /\ lastID c' = lastID c /\
  Forall (fun o => is_Some o) l /\
  (forall i r, retired c' !! i = Some r <->
     (Some r ∈ l /\ rf_identity r = i) \/ retired c !! i = Some r).
Proof.
  revert c us. induction l as [|o l IH]; intros c us Hi Hh He; simpl in Hi.
  - M_inv Hi. split_and!; try done. set_solver.
  - M_inv Hi. match goal with Hs : indexPreviousRetired _ _ = _ |- _ =>
      apply indexPreviousRetired_spec in Hs as (r&->&Hst) end.
    match goal with Hl : mapM_ _ l _ = _ |- _ => apply IH in Hl as (?&?&?&?&?&?&Hiff) end.
    2: by eapply RetiredStep_History. 2: by rewrite (rs_previous _ _ _ Hst).
    destruct Hst as [Ep Ef Ei Et Ec Ecc E1 El Hret].
    split_and!; try congruence; [by constructor|].
    intros i r'. rewrite Hiff, Et, lookup_insert, elem_of_cons. case_decide; naive_solver.
Qed.

Lemma highestID_le m id (i : string) : m !! id = Some i -> (id <= highestID m)%Z.
Proof.
  unfold highestID. intros Hid%elem_of_map_to_list%(list_elem_of_fmap_2 fst). simpl in Hid.
  change (map fst (map_to_list m)) with (fst <$> map_to_list m).
  induction (fst <$> map_to_list m) as [|x l IH]; [by apply not_elem_of_nil in Hid|].
  simpl. apply elem_of_cons in Hid as [->|Hid]; [lia|]. apply IH in Hid. lia.
Qed.

Lemma highestID_in (m : gmap Z string) :
  highestID m = 0%Z \/ is_Some (m !! highestID m).
Proof.
  assert (forall l : list Z, foldr Z.max 0%Z l = 0%Z \/ foldr Z.max 0%Z l ∈ l) as Hl.
  { induction l as [|x l [IH|IH]]; [by left| |]; simpl.
    - rewrite IH. destruct (Z.max_spec x 0) as [[_ ->]|[_ ->]]; [by left|]. right. by left.
    - destruct (Z.max_spec x (foldr Z.max 0%Z l)) as [[_ ->]|[_ ->]]; right; [by right|by left]. }
  destruct (Hl (map fst (map_to_list m))) as [?|Hin]; [by left|right].
  fold (highestID m) in Hin. apply list_elem_of_fmap in Hin as [[k v] [Heq Hk]]. simpl in Heq.
  rewrite Heq. apply elem_of_map_to_list in Hk. eauto.
Qed.

(** ** The compiler object a compilation starts from *)

Record Starts (md : MessageDescriptor) (p : DatasetSchema) (c : datasetCompiler) : Prop := mkStarts {
  st_history : History c;
  st_inv : Inv c;
  st_source : source_message p = md_FullName md;
  st_name : ds_name p = storageName (source_message p);
  st_last : lastID c = last_field_id p;
  st_containers : currentContainers c = {[ "" := md ]};
  st_nodes_nodup : NoDup (dsNodes p).*1;
  st_nodes i f : previousFields c !! i = Some f <-> (i, f) ∈ dsNodes p;
  st_retired i r : retired c !! i = Some r <-> Some r ∈ retired_fields p /\ rf_identity r = i;
  st_some_fields : Forall (fun o => is_Some o) (ds_fields p);
  st_some_retired : Forall (fun o => is_Some o) (retired_fields p)
}.

Lemma emptyCompiler_History md last : History (setAllocation ∅ last (emptyCompiler md)).
Proof. constructor; simpl; intros *; rewrite ?lookup_empty; done. Qed.

Lemma newDatasetCompiler_Starts md p c :
  newDatasetCompiler md (Some p) = Ok c -> Starts md p c.
Proof.
  unfold newDatasetCompiler. intros Hn. M_inv Hn.
  repeat match goal with Hb : negb (String.eqb _ _) = false |- _ =>
    apply negb_false_iff, String.eqb_eq in Hb end.
  match goal with Hb : (_ || _)%bool = false |- _ => apply orb_false_iff in Hb as [??] end.
  match goal with Hb : negb (_ =? _)%Z = false |- _ =>
    apply negb_false_iff, Z.eqb_eq in Hb; rename Hb into Hhigh end.
  repeat match goal with Hm : mapM_ _ _ _ = Ok ?s |- _ =>
    is_var s; destruct s; simpl in * end.
  match goal with Hr : mapM_ indexPreviousRetired _ _ = _ |- _ =>
    apply indexRetired_History in Hr as (Hh1&Hpe&Hfe&Hce&Hle&Hsr&Hrt);
    [|apply emptyCompiler_History|done] end.
  match goal with Hf : mapM_ _ (ds_fields p) _ = _ |- _ =>
    apply indexFields_Indexes in Hf as [Hidx Hsf] end.
  pose proof (Indexes_History _ _ _ Hidx Hh1) as Hh.
  destruct (Indexes_fields _ _ _ Hidx Hh1) as (Hnd&_&Hnodes).
  destruct (Indexes_same _ _ _ Hidx) as (Ert&Ecc&Ela).
  simpl in Hce, Hle, Hfe.
  pose proof Hh as [Hp Hr Hf Hd Hrg Hnf Hnr Hof Hor Hcur Hfst].
  constructor; try done.
  - constructor; try (rewrite ?Hcur, ?Hfst; intros *; rewrite ?lookup_empty; done); auto.
    + intros id i Hid. split; [by eapply Hrg|]. rewrite Hhigh. by eapply highestID_le.
    + rewrite Ela, Hle. lia.
    + rewrite Hhigh. apply highestID_in.
  - congruence.
  - congruence.
  - intros i f. rewrite Hnodes, Hfe. simpl. rewrite lookup_empty. naive_solver.
  - intros i r. rewrite Ert, Hrt. simpl. rewrite lookup_empty. naive_solver.
Qed.
End WithProtoreflect.
