(* ===== verification/Evolution.v ===== *)
(** * Schema evolution: what a successful compilation guarantees

    Theorems on [CompileMessage]: stable ids are unique and bounded, identities
    keep their ids for ever, removed identities are retired and never reused,
    storage names are owned permanently, and fields that keep an identity keep
    their shape. *)
From S2P Require Import Prelude GoStrings StringFacts Schema WellFormed Bundle Descriptor Compiler.
From S2P Require Import CompilerFacts HistoryFacts.

(** ** Identities *)

Lemma fieldIdentitySegment_inj n m : fieldIdentitySegment n = fieldIdentitySegment m -> n = m.
Proof. intros Heq%append_inv_head. by apply FormatInt_inj. Qed.

Lemma fieldIdentitySegment_noSlash n :
  (0 <= n)%Z -> noByte SLASH (fieldIdentitySegment n) = true.
Proof.
  intros Hn. unfold fieldIdentitySegment. rewrite noByte_append, FormatInt_nonneg by done.
  rewrite (digit_not SLASH eq_refl (FormatUint _)) by apply FormatUint_digits. done.
Qed.

Lemma parent_appendIdentity parent segment :
  noByte SLASH segment = true ->
  parentCompilerIdentity (appendIdentity parent segment) = parent.
Proof.
  intros Hs. unfold parentCompilerIdentity, appendIdentity.
  case_decide as Hp; [subst; by rewrite CutLast_None|].
  change ("/" +:+ segment) with (String SLASH segment). by rewrite CutLast_append.
Qed.

(** ** The starting point of a compilation *)

(** The compiler object before any field is compiled. *)
Record Initial (md : MessageDescriptor) (previous : option DatasetSchema) (c : datasetCompiler)
  : Prop := mkInitial {
  in_inv : Inv c;
  in_current : currentActive c = ∅;
  in_containers : currentContainers c = {[ "" := md ]};
  in_first i id : firstTopLevelIDs c !! i = Some id ->
    previous = None /\ i = fieldIdentitySegment id /\ (1 <= id)%Z;
  in_first_all fd : previous = None -> fd ∈ md_Fields md ->
    firstTopLevelIDs c !! fieldIdentitySegment (fd_Number fd) = Some (fd_Number fd);
  in_previous_none : previous = None ->
    previousActive c = ∅ /\ previousFields c = ∅ /\ retired c = ∅ /\ historicalNames c = ∅
}.

Definition reserved (l : list FieldDescriptor) (c : datasetCompiler) : Prop :=
  (forall id i, reservedIDs c !! id = Some i ->
     i = fieldIdentitySegment id /\ (1 <= id <= lastID c)%Z) /\
  (forall i id, firstTopLevelIDs c !! i = Some id -> reservedIDs c !! id = Some i) /\
  (forall fd, fd ∈ l ->
     firstTopLevelIDs c !! fieldIdentitySegment (fd_Number fd) = Some (fd_Number fd)) /\
  (0 <= lastID c <= maxStableID)%Z /\
  (lastID c = 0%Z \/ is_Some (reservedIDs c !! lastID c)).

(** Reserving one more field number. *)
Lemma reserved_step dn fd c0 c :
  reserved dn c0 -> (1 <= fd_Number fd <= maxStableID)%Z ->
  lastID c = (if (lastID c0 <? fd_Number fd)%Z then fd_Number fd else lastID c0) ->
  reservedIDs c = <[fd_Number fd := fieldIdentitySegment (fd_Number fd)]> (reservedIDs c0) ->
  firstTopLevelIDs c = <[fieldIdentitySegment (fd_Number fd) := fd_Number fd]> (firstTopLevelIDs c0) ->
  reserved (dn ++ [fd]) c.
Proof.
  intros (Hres&Hfst&Hall&Hlast&Hhigh) Hid Hl Hr Hf.
  assert (lastID c0 <= lastID c)%Z as Hle by (rewrite Hl; case_match; lia).
  assert (fd_Number fd <= lastID c)%Z as Hle' by (rewrite Hl; case_match; lia).
  unfold reserved. rewrite Hr, Hf. split_and!.
  - intros id i. rewrite lookup_insert. case_decide; intros Hi; simplify_eq; [split; [done|lia]|].
    apply Hres in Hi as [??]. split; [done|lia].
  - intros i id. rewrite !lookup_insert. case_decide as Hd.
    + intros [= <-]. subst i. by rewrite decide_True.
    + intros Hi%Hfst. case_decide; [|done]. subst id. apply Hres in Hi as [-> _]. done.
  - intros fd'. rewrite elem_of_app, list_elem_of_singleton, lookup_insert.
    intros [Hin| ->]; [|by rewrite decide_True].
    case_decide as Hd; [|by apply Hall]. apply fieldIdentitySegment_inj in Hd. by rewrite Hd.
  - lia.
  - rewrite Hl. case_match; lia.
  - right. rewrite Hl. case_match.
    + rewrite lookup_insert_eq. eauto.
    + destruct Hhigh as [?|[j Hj]]; [lia|]. rewrite lookup_insert. case_decide; eauto.
Qed.

Lemma reserveTopLevel_reserved fds dn c0 c :
  reserved dn c0 -> reserveTopLevel fds c0 = Ok c ->
  reserved (dn ++ fds) c /\
  c = mkCompiler (previousActive c0) (previousFields c0) (retired c0) (currentActive c0)
        (currentContainers c0) (historicalNames c0) (reservedIDs c) (firstTopLevelIDs c) (lastID c).
Proof.
  unfold reserveTopLevel. revert dn c0. induction fds as [|fd fds IH]; intros dn c0 Hr Hc; simpl in Hc.
  - injection Hc as <-. rewrite app_nil_r. split; [done|]. by destruct c0.
  - M_inv Hc.
    match goal with Hv : validateStableID _ = _ |- _ => apply validateStableID_Ok in Hv as Hid end.
    apply (IH (dn ++ [fd])) in Hc as [Hr' Hc'].
    + rewrite <- (assoc_L (++)) in Hr'. by split.
    + by eapply reserved_step.
Qed.

Lemma reserveTopLevel_spec fds md c :
  reserveTopLevel fds (emptyCompiler md) = Ok c ->
  reserved fds c /\
  c = mkCompiler ∅ ∅ ∅ ∅ {[ "" := md ]} ∅ (reservedIDs c) (firstTopLevelIDs c) (lastID c).
Proof.
  intros Hc. apply (reserveTopLevel_reserved fds []) in Hc; [done|].
  unfold reserved. simpl. split_and!; try lia; try done; intros *; rewrite ?lookup_empty; try done.
  by intros ?%not_elem_of_nil.
Qed.

Section WithProtoreflect.
Context `{Protoreflect}.

Lemma reserved_Initial md fds c :
  reserved fds c -> fds ≡ₚ md_Fields md ->
  c = mkCompiler ∅ ∅ ∅ ∅ {[ "" := md ]} ∅ (reservedIDs c) (firstTopLevelIDs c) (lastID c) ->
  Initial md None c.
Proof.
  intros (Hres&Hfst&Hall&Hlast&Hhigh) Hperm Hc.
  assert (previousActive c = ∅ /\ previousFields c = ∅ /\ retired c = ∅ /\ currentActive c = ∅ /\
  historicalNames c = ∅) as (Hp&Hf&Hr&Ha&Hn) by (by rewrite Hc).
  constructor; try done.
  - constructor; rewrite ?Hp, ?Hf, ?Hr, ?Ha; auto;
      try (intros *; rewrite ?lookup_empty; done).
    intros id i Hi. by apply Hres in Hi as [_ ?].
  - by rewrite Hc.
  - intros i id Hi. apply Hfst, Hres in Hi as [-> ?]. split_and!; [done..|lia].
  - intros fd _ Hin. apply Hall. by rewrite Hperm.
Qed.

Lemma Starts_Initial md p c : Starts md p c -> Initial md (Some p) c.
Proof.
  intros [[] Hi]. constructor; try done. intros i id Hf.
  rewrite h_first, lookup_empty in Hf. done.
Qed.

(** ** The run of a compilation *)

Record Run (reg : Registry) (fuel : nat) (md : MessageDescriptor) (previous : option DatasetSchema)
    (ds : DatasetSchema) (c0 c : datasetCompiler) (compiled : list Field) : Prop := mkRun {
  run_initial : Initial md previous c0;
  run_starts p : previous = Some p -> Starts md p c0;
  run_fields : mapM_ (compileProtoField (compileValueType reg fuel) [] "" {[ md_FullName md ]})
                 (sortedFields (md_Fields md)) c0 = Ok (compiled, c);
  run_collisions : validateStorageNameCollisions (md_FullName md) compiled = Ok tt;
  run_reservations : Forall (fun r => validateRetiredReservation c (rf_identity r) r = Ok tt)
                       (sortRetired (map snd (map_to_list (retiredMap c))));
  run_dataset : ds = mkDatasetSchema (md_FullName md) (storageName (md_FullName md))
    (descriptorComment (md_location md)) (map Some compiled) (lastID c)
    (map Some (sortRetired (map snd (map_to_list (retiredMap c)))))
}.

Lemma CompileMessage_Run reg fuel md previous ds :
  CompileMessage reg fuel (Some md) previous = Ok ds ->
  exists c0 c compiled, Run reg fuel md previous ds c0 c compiled.
Proof.
  unfold CompileMessage. intros Hc. M_inv Hc.
  repeat match goal with u : unit |- _ => destruct u end.
  match goal with Hf : forEach _ _ = _ |- _ => apply forEach_Ok in Hf end.
  match goal with Hn : newDatasetCompiler _ _ = Ok ?c |- _ => rename Hn into Hnew; rename c into cn end.
  match goal with Hm : mapM_ _ _ ?c0 = Ok (?fs, ?c) |- _ => exists c0, c, fs end.
  destruct previous as [p|].
  - match goal with He : Ok _ = Ok _ |- _ => injection He as -> end.
    apply newDatasetCompiler_Starts in Hnew. constructor; try done; [by apply Starts_Initial|].
    by intros ? [= <-].
  - match goal with He : wrapErr _ _ = Ok _ |- _ => apply wrapErr_Ok in He; rename He into Hres end.
    injection Hnew as <-. apply reserveTopLevel_spec in Hres as [Hr Hshape].
    constructor; try done. eapply reserved_Initial; [done| |done].
    apply merge_sort_Permutation.
Qed.

Lemma Run_Allocs reg fuel md previous ds c0 c compiled :
  wfRegistry reg -> wfMessage md ->
  Run reg fuel md previous ds c0 c compiled -> Allocs c0 (dsEntries ds) c.
Proof.
  intros Hreg Hmd [_ _ Hf _ _ ->]. unfold dsEntries. simpl.
  eapply compileFields_Allocs; [done| |done]. by apply sortedFields_Forall.
Qed.

(** ** The ledger of a dataset

    Every identity the dataset ever allocated, with its stable id: the entries
    of the tree and the tombstones. *)
Definition retiredOf (ds : DatasetSchema) : list RetiredField := omap id (retired_fields ds).
Definition retiredEntry (r : RetiredField) : string * Z := (rf_identity r, rf_stable_id r).
Definition ledger (ds : DatasetSchema) : list (string * Z) :=
  dsEntries ds ++ map retiredEntry (retiredOf ds).

Lemma omap_id_Some {A} (l : list A) : omap id (map Some l) = l.
Proof. induction l as [|x l IH]; [done|]. simpl. f_equal. exact IH. Qed.

Lemma elem_of_retiredOf ds r : r ∈ retiredOf ds <-> Some r ∈ retired_fields ds.
Proof.
  unfold retiredOf. rewrite list_elem_of_omap. split.
  - intros (o&Ho&Heq). simpl in Heq. by subst o.
  - intros Hr. by exists (Some r).
Qed.

Lemma retiredMap_lookup c i :
  retiredMap c !! i =
  match previousActive c !! i, currentActive c !! i with
  | Some _, None => Some (retire c i)
  | _, _ => retired c !! i
  end.
Proof.
  unfold retiredMap. rewrite lookup_union, map_lookup_imap.
  destruct (previousActive c !! i), (currentActive c !! i), (retired c !! i); done.
Qed.

Lemma elem_of_sortRetired c r :
  r ∈ sortRetired (map snd (map_to_list (retiredMap c))) <-> exists i, retiredMap c !! i = Some r.
Proof.
  unfold sortRetired. rewrite merge_sort_Permutation.
  setoid_rewrite list_elem_of_fmap. split.
  - intros ([i r']&->&Hin%elem_of_map_to_list). eauto.
  - intros [i Hi]. exists (i, r). split; [done|]. by apply elem_of_map_to_list.
Qed.

(** A tombstone of the final state: from the history, or a new one. *)
Lemma retiredMap_identity c i r :
  Inv c -> retiredMap c !! i = Some r ->
  rf_identity r = i /\ reservedIDs c !! rf_stable_id r = Some i /\ currentActive c !! i = None.
Proof.
  intros Hinv. rewrite retiredMap_lookup. intros Hr.
  assert (forall r', retired c !! i = Some r' -> r' = r -> rf_identity r = i /\
    reservedIDs c !! rf_stable_id r = Some i /\ currentActive c !! i = None) as Hold.
  { intros r' Hr' <-. destruct (inv_retired c Hinv i r' Hr') as [? ?].
    split_and!; [done..|]. apply (inv_retired_active c Hinv). eauto. }
  destruct (previousActive c !! i) as [id|] eqn:Hp; [|by eauto].
  destruct (currentActive c !! i) eqn:Ha.
  { assert (previousActive c !! i = None) by (apply (inv_retired_previous c Hinv); eauto).
    congruence. }
  injection Hr as <-. pose proof Hp as Hid. rewrite (inv_fields c Hinv) in Hid.
  apply fmap_Some in Hid as (f&Hf&->). unfold retire. simpl. rewrite Hf. simpl.
  split_and!; [done| |done]. by apply (inv_previous c Hinv).
Qed.

Section OneRun.
Context {reg : Registry} {fuel : nat} {md : MessageDescriptor} {previous : option DatasetSchema}.
Context {ds : DatasetSchema} {c0 c : datasetCompiler} {compiled : list Field}.
Hypothesis Hreg : wfRegistry reg.
Hypothesis Hmd : wfMessage md.
Hypothesis Hrun : Run reg fuel md previous ds c0 c compiled.

Lemma Run_Inv : Inv c.
Proof. eapply Allocs_Inv; [by eapply Run_Allocs|]. apply (run_initial _ _ _ _ _ _ _ _ Hrun). Qed.

Lemma Run_same : SameHistory c0 c.
Proof. eapply Allocs_SameHistory. by eapply Run_Allocs. Qed.

Lemma Run_last : last_field_id ds = lastID c.
Proof. by rewrite (run_dataset _ _ _ _ _ _ _ _ Hrun). Qed.

Lemma Run_retiredOf : retiredOf ds = sortRetired (map snd (map_to_list (retiredMap c))).
Proof. rewrite (run_dataset _ _ _ _ _ _ _ _ Hrun). unfold retiredOf. simpl. apply omap_id_Some. Qed.

Lemma Run_active i id : currentActive c !! i = Some id <-> (i, id) ∈ dsEntries ds.
Proof.
  rewrite (Allocs_active c0 (dsEntries ds) c) by (by eapply Run_Allocs).
  rewrite (in_current _ _ _ (run_initial _ _ _ _ _ _ _ _ Hrun)), lookup_empty. naive_solver.
Qed.

Lemma Run_retired r :
  r ∈ retiredOf ds <-> retiredMap c !! rf_identity r = Some r.
Proof.
  rewrite Run_retiredOf, elem_of_sortRetired. split; [|by eauto].
  intros [i Hi]. by destruct (retiredMap_identity c i r Run_Inv Hi) as [-> _].
Qed.

Lemma Run_reserved i id : (i, id) ∈ ledger ds -> reservedIDs c !! id = Some i.
Proof.
  unfold ledger. rewrite elem_of_app. intros [Hin|Hin].
  - apply (inv_active c Run_Inv). by apply Run_active.
  - apply list_elem_of_fmap in Hin as (r&[= -> ->]&Hr). apply Run_retired in Hr.
    by destruct (retiredMap_identity c _ r Run_Inv Hr) as (_&?&_).
Qed.

Lemma Run_retired_nodup : NoDup (map rf_identity (retiredOf ds)).
Proof.
  rewrite Run_retiredOf. unfold sortRetired. rewrite merge_sort_Permutation.
  assert (map rf_identity (map snd (map_to_list (retiredMap c))) = (map_to_list (retiredMap c)).*1)
    as ->; [|apply NoDup_fst_map_to_list].
  rewrite map_map. apply map_ext_in. intros [i r] Hin%list_elem_of_In.
  apply elem_of_map_to_list in Hin. by destruct (retiredMap_identity c i r Run_Inv Hin).
Qed.

Lemma Run_identities_nodup : NoDup (ledger ds).*1.
Proof.
  unfold ledger. rewrite fmap_app. apply list.NoDup_app. split_and!.
  - eapply Allocs_fresh_identities. by eapply Run_Allocs.
  - intros i ([? id]&->&Hi)%list_elem_of_fmap ([? id']&Heq&Hi')%list_elem_of_fmap.
    simpl in *. subst.
    apply Run_active in Hi. apply list_elem_of_fmap in Hi' as (r&[= -> ->]&Hr).
    apply Run_retired in Hr. destruct (retiredMap_identity c _ r Run_Inv Hr) as (_&_&?). congruence.
  - pose proof Run_retired_nodup as Hnd. by rewrite <- list_fmap_compose.
Qed.

(** *** Against the previous schema *)

Lemma Run_ids_nodup : NoDup (ledger ds).*2.
Proof.
  pose proof Run_identities_nodup as Hnd. pose proof (Run_reserved) as Hres.
  induction (ledger ds) as [|[i id] l IH]; [constructor|]. simpl in *.
  apply list.NoDup_cons in Hnd as [Hi Hnd]. apply list.NoDup_cons. split.
  - intros ([j id']&Heq&Hj)%list_elem_of_fmap. simpl in Heq. subst id'. apply Hi.
    assert (i = j) as ->; [|by apply (list_elem_of_fmap_2 fst) in Hj].
    apply (inj Some). rewrite <- (Hres i id), <- (Hres j id); set_solver.
  - apply IH; [done|]. set_solver.
Qed.

Lemma Run_origin i id :
  (i, id) ∈ dsEntries ds ->
  previousActive c !! i = Some id
  \/ previousActive c !! i = None /\ firstTopLevelIDs c !! i = Some id
  \/ previousActive c !! i = None /\ firstTopLevelIDs c !! i = None /\ (lastID c0 < id)%Z.
Proof.
  intros Hin. destruct Run_same as [-> _ _ _ ->]. eapply Allocs_origin; [|done]. by eapply Run_Allocs.
Qed.

Section Previous.
Context {p : DatasetSchema}.
Hypothesis Hp : previous = Some p.

Lemma Run_Starts : Starts md p c0.
Proof. by apply (run_starts _ _ _ _ _ _ _ _ Hrun). Qed.

Lemma Run_node i f : previousFields c !! i = Some f <-> (i, f) ∈ dsNodes p.
Proof. destruct Run_same as [_ -> _ _ _]. apply (st_nodes _ _ _ Run_Starts). Qed.

Lemma Run_previous i id : previousActive c !! i = Some id <-> (i, id) ∈ dsEntries p.
Proof.
  rewrite (inv_fields c Run_Inv), fmap_Some. unfold dsEntries, childEntries.
  fold (dsNodes p). setoid_rewrite list_elem_of_fmap. split.
  - intros (f&Hf&->). apply Run_node in Hf. by exists (i, f).
  - intros ([j f]&[= -> ->]&Hf). exists f. split; [by apply Run_node|done].
Qed.

Lemma Run_tombstone i r : retired c !! i = Some r <-> r ∈ retiredOf p /\ rf_identity r = i.
Proof.
  destruct Run_same as [_ _ -> _ _]. rewrite (st_retired _ _ _ Run_Starts).
  by rewrite elem_of_retiredOf.
Qed.

Lemma Run_no_first i : firstTopLevelIDs c !! i = None.
Proof.
  destruct Run_same as [_ _ _ _ ->]. destruct (firstTopLevelIDs c0 !! i) eqn:Hf; [|done].
  destruct (in_first _ _ _ (run_initial _ _ _ _ _ _ _ _ Hrun) _ _ Hf). congruence.
Qed.

Lemma Run_kept i id : (i, id) ∈ dsEntries p ->
  (i, id) ∈ dsEntries ds \/ i ∉ (dsEntries ds).*1.
Proof.
  intros Hpr%Run_previous. destruct (currentActive c !! i) as [id'|] eqn:Ha.
  - left. apply Run_active in Ha as Hin. apply Run_origin in Hin as Ho.
    assert (id' = id) as -> by (destruct Ho as [?|[[??]|(?&?&?)]]; congruence). by apply Run_active.
  - right. intros ([j id']&->&Hj)%list_elem_of_fmap. apply Run_active in Hj. simpl in *. congruence.
Qed.

(** The tombstone of a node that is no longer there. *)
Definition tombstone (i : string) (f : Field) : RetiredField :=
  mkRetiredField i (stable_id (meta f)) (proto_full_name (meta f)) (name (meta f))
    (storage_name_source (meta f)).

Lemma Run_retired_exact r :
  r ∈ retiredOf ds <->
  r ∈ retiredOf p \/
  exists i f, (i, f) ∈ dsNodes p /\ i ∉ (dsEntries ds).*1 /\ r = tombstone i f.
Proof.
  rewrite (Run_retired r), retiredMap_lookup. split.
  - intros Hr. destruct (previousActive c !! rf_identity r) eqn:Hpr;
      [destruct (currentActive c !! rf_identity r) eqn:Ha|];
      try (by apply Run_tombstone in Hr as [? _]; left).
    right. apply Run_previous in Hpr as Hin.
    destruct (Run_kept _ _ Hin) as [Hk%Run_active|Hk]; [congruence|].
    rewrite (inv_fields c Run_Inv) in Hpr. apply fmap_Some in Hpr as (f&Hf&_).
    exists (rf_identity r), f. split_and!; [by apply Run_node|done|].
    injection Hr as Hr. unfold retire in Hr. rewrite Hf in Hr. by rewrite <- Hr at 1.
  - intros [Hr|(i&f&Hf%Run_node&Hi&->)]; simpl.
    + assert (retired c !! rf_identity r = Some r) as Hr' by (by apply Run_tombstone).
      by rewrite (inv_retired_previous c Run_Inv) by eauto.
    + rewrite (inv_fields c Run_Inv), Hf. simpl. destruct (currentActive c !! i) eqn:Ha.
      * apply Run_active, (list_elem_of_fmap_2 fst) in Ha. done.
      * f_equal. unfold retire. by rewrite Hf.
Qed.

Lemma Run_ledger_mono e : e ∈ ledger p -> e ∈ ledger ds.
Proof.
  destruct e as [i id]. unfold ledger. rewrite !elem_of_app. intros [Hin|Hin].
  - destruct (Run_kept _ _ Hin) as [?|Hgone]; [by left|right].
    unfold dsEntries, childEntries in Hin. apply list_elem_of_fmap in Hin as ([j f]&[= -> ->]&Hf).
    apply (list_elem_of_fmap_2' retiredEntry _ (tombstone j f)); [|done].
    apply Run_retired_exact. right. by exists j, f.
  - right. apply list_elem_of_fmap in Hin as (r&->&Hr).
    apply (list_elem_of_fmap_2 retiredEntry). apply Run_retired_exact. by left.
Qed.

Lemma Run_last_mono : (last_field_id p <= last_field_id ds)%Z.
Proof.
  rewrite Run_last, <- (st_last _ _ _ Run_Starts). eapply Allocs_last. by eapply Run_Allocs.
Qed.

Lemma Run_fresh i id :
  (i, id) ∈ ledger ds -> (i, id) ∈ ledger p \/ (last_field_id p < id)%Z.
Proof.
  unfold ledger at 1. rewrite elem_of_app. intros [Hin|Hin].
  - apply Run_origin in Hin as [Hin%Run_previous|[[_ Hf]|(_&_&Hlt)]].
    + left. unfold ledger. rewrite elem_of_app. by left.
    + by rewrite Run_no_first in Hf.
    + right. by rewrite <- (st_last _ _ _ Run_Starts).
  - left. apply list_elem_of_fmap in Hin as (r&->&Hr). unfold ledger. rewrite elem_of_app.
    apply Run_retired_exact in Hr as [Hr|(j&f&Hf&_&->)].
    + right. by apply (list_elem_of_fmap_2 retiredEntry).
    + left. by apply (list_elem_of_fmap_2 nodeEntry) in Hf.
Qed.
End Previous.
End OneRun.
End WithProtoreflect.
