(* ===== verification/CompiledTrees.v ===== *)
(** * The trees the compiler returns

    [TreeOk] describes every node of a compiled tree: it is well formed, it comes
    from a field descriptor, its storage name is the one the history allows and
    it passed the evolution check.  A successful run of any method of the
    compiler returns such a tree; the proof follows the open recursion of the
    model, one lemma per method. *)
From S2P Require Import Prelude GoStrings StringFacts Schema WellFormed Bundle Descriptor Compiler.
From S2P Require Import CompilerFacts HistoryFacts Evolution.

(** ** Storage names of one scope *)

Lemma storageNameStep_Ok scope owners f owners' :
  storageNameStep scope owners f = Ok owners' ->
  name (meta f) <> "" /\ owners !! name (meta f) = None /\
  owners' = <[name (meta f) := proto_full_name (meta f)]> owners.
Proof.
  unfold storageNameStep. intros Hs. apply bind_Ok in Hs as (u&Hne&Hs).
  apply failIf_Ok, bool_decide_eq_false in Hne. case_match; [done|]. by injection Hs as <-.
Qed.

Lemma storageNames_Ok scope fs owners owners' :
  foldOutcome (storageNameStep scope) fs owners = Ok owners' ->
  NoDup (map fieldName fs) /\ Forall (fun f => fieldName f <> "") fs /\
  Forall (fun f => owners !! fieldName f = None) fs.
Proof.
  revert owners. induction fs as [|f fs IH]; intros owners Hs; simpl in Hs.
  - split_and!; constructor.
  - apply bind_Ok in Hs as (o1&Hf&Hs). apply storageNameStep_Ok in Hf as (Hne&Hfree&->).
    apply IH in Hs as (Hnd&Hall&Hfresh). simpl. split_and!.
    + apply list.NoDup_cons. split; [|done]. intros (g&Heq&Hg)%list_elem_of_fmap.
      rewrite list.Forall_forall in Hfresh. specialize (Hfresh g Hg). rewrite <- Heq in Hfresh.
      unfold fieldName in Hfresh. by rewrite lookup_insert_eq in Hfresh.
    + by constructor.
    + constructor; [done|]. eapply list.Forall_impl; [done|]. intros g Hg. simpl in Hg.
      by apply lookup_insert_None in Hg as [? _].
Qed.

Lemma validateStorageNameCollisions_Ok scope fs u :
  validateStorageNameCollisions scope fs = Ok u ->
  NoDup (map fieldName fs) /\ Forall (fun f => fieldName f <> "") fs.
Proof.
  unfold validateStorageNameCollisions. intros Hv. apply bind_Ok in Hv as (o&Hv&_).
  apply storageNames_Ok in Hv. tauto.
Qed.

(** ** Types without children *)

Definition plainKind (k : DataTypeKind) : Prop :=
  wfKind k /\ refined k = false /\ isListKind k = false /\ isMapKind k = false.

Lemma wellKnownType_plain nm t :
  wellKnownType nm = Some t -> plainKind (kindOf t) /\ childrenOf (kindOf t) = [].
Proof.
  unfold wellKnownType. simpl. intros Hw.
  repeat (case_decide; [simplify_eq; repeat split|]). done.
Qed.

Lemma primitiveKind_known k p : primitiveKind k = Some p -> knownPrimitive p = true.
Proof. destruct k; simpl; intros; simplify_eq; done. Qed.

Section WithProtoreflect.
Context `{Protoreflect}.

(** [c0] is the compiler object a compilation starts from. *)
Section Trees.
Variable c0 : datasetCompiler.

(** The storage name of a protobuf field: new fields take their own name, a
    field of the history keeps its source, and no name owned by another identity
    is taken. *)
Record Named (i parent : string) (fd : FieldDescriptor) (m : FieldMeta) : Prop := mkNamed {
  nm_canonical : name m = storageName (storage_name_source m);
  nm_new : previousFields c0 !! i = None -> storage_name_source m = fd_Name fd;
  nm_kept q : previousFields c0 !! i = Some q -> storage_name_source m = storage_name_source (meta q);
  nm_owner o : nameOwner c0 parent (name m) = Some o -> o <> "" -> o = i
}.

Record ProtoNode (pp : list N) (parent : string) (m : FieldMeta) (fd : FieldDescriptor) : Prop :=
  mkProtoNode {
  pn_descriptor : wfField fd;
  pn_full_name : proto_full_name m = fd_FullName fd;
  pn_path : proto_number_path m = appendNumber pp (uint32 (fd_Number fd));
  pn_presence : (presence m, nullable m, oneof m) = fieldPresence fd;
  pn_default : has_default m = fd_HasDefault fd;
  pn_named : Named (nodeIdentity parent m) parent fd m
}.

Definition syntheticName (r : SyntheticRole) : string :=
  match r with
  | SYNTHETIC_ROLE_LIST_ELEMENT => "element"
  | SYNTHETIC_ROLE_MAP_KEY => "key"
  | SYNTHETIC_ROLE_MAP_VALUE => "value"
  | _ => ""
  end.

Record SyntheticNode (pp : list N) (m : FieldMeta) : Prop := mkSyntheticNode {
  sn_name : name m = syntheticName (synthetic_role m);
  sn_nonempty : name m <> "";
  sn_source : storage_name_source m = "";
  sn_path : proto_number_path m = pp;
  sn_full_name : proto_full_name m <> ""
}.

Record NodeOk (pp : list N) (parent : string) (f : Field) : Prop := mkNodeOk {
  no_wf : wfNode f;
  no_evolves : validateEvolution (nodeIdentity parent (meta f)) f c0 = Ok tt;
  no_origin :
    (synthetic_role (meta f) = SYNTHETIC_ROLE_PROTO_FIELD /\
     exists fd, ProtoNode pp parent (meta f) fd)
    \/ SyntheticNode pp (meta f)
}.

Inductive TreeOk : list N -> string -> Field -> Prop :=
  | TreeOk_intro pp parent m t :
      NodeOk pp parent (mkField m t) ->
      Forall (childOk (proto_number_path m) (nodeIdentity parent m)) (childrenOf (GetKind t)) ->
      TreeOk pp parent (mkField m t)
with childOk : list N -> string -> option Field -> Prop :=
  | childOk_intro pp parent f : TreeOk pp parent f -> childOk pp parent (Some f).

(** What a method that returns a type establishes. *)
Definition typeOk (path : list N) (i : string) (t : DataType) : Prop :=
  wfKind (kindOf t) /\ Forall (childOk path i) (childrenOf (kindOf t)).

Lemma validateEvolution_same i f c : SameHistory c0 c -> validateEvolution i f c = validateEvolution i f c0.
Proof. intros [_ Hf _ _ _]. unfold validateEvolution. by rewrite Hf. Qed.

Lemma storageFieldName_Named i parent fd c nm src :
  SameHistory c0 c -> storageFieldName i parent fd c = Ok (nm, src) ->
  forall m, name m = nm -> storage_name_source m = src -> Named i parent fd m.
Proof.
  intros [_ Hf _ Hn _] Hs m <- <-. unfold storageFieldName in Hs. rewrite Hf in Hs.
  apply bind_Ok in Hs as (src&Hsrc&Hs). M_inv Hs.
  match goal with Hb : (_ && _)%bool = false |- _ => apply andb_false_iff in Hb; rename Hb into Hown end.
  rewrite historicalNameOwner_eq in Hown.
  assert (forall s n, nameOwner c s n = nameOwner c0 s n) as Heq by (intros; unfold nameOwner; by rewrite Hn).
  rewrite Heq in Hown. constructor.
  - congruence.
  - intros Hnone. rewrite Hnone in Hsrc. injection Hsrc as ->. congruence.
  - intros q Hq. rewrite Hq in Hsrc. M_inv Hsrc. congruence.
  - intros o Ho Hne. rewrite Hs, Ho in Hown. simpl in Hown. rewrite !negb_false_iff, !String.eqb_eq in Hown. tauto.
Qed.

(** ** The methods of the compiler *)

Definition valueTypeOk
    (valueType : FieldDescriptor -> list N -> string -> gset string -> M DataType) : Prop :=
  forall fd path i stack c t c',
    SameHistory c0 c -> enumNonEmpty fd = true \/ is_Some (primitiveKind (fd_Kind fd)) ->
    valueType fd path i stack c = Ok (t, c') ->
    (plainKind (kindOf t) /\ Forall (childOk path i) (childrenOf (kindOf t))) /\
    (isMessageKind (fd_Kind fd) = false -> scalarKind (kindOf t) = true) /\
    forall p, primitiveKind (fd_Kind fd) = Some p -> t = primitiveType p.

Section Open.
Variable valueType : FieldDescriptor -> list N -> string -> gset string -> M DataType.
Hypothesis HvalueType : valueTypeAllocs valueType.
Hypothesis Hok : valueTypeOk valueType.

Lemma compileRefinedValueType_Ok fd path i stack o c t c' :
  SameHistory c0 c -> enumNonEmpty fd = true \/ is_Some (primitiveKind (fd_Kind fd)) ->
  compileRefinedValueType valueType fd path i stack o c = Ok (t, c') ->
  typeOk path i t /\ isListKind (kindOf t) = false /\ isMapKind (kindOf t) = false /\
  (refined (kindOf t) = true -> is_Some o) /\
  (isMessageKind (fd_Kind fd) = false -> scalarKind (kindOf t) = true \/ refined (kindOf t) = true).
Proof.
  unfold compileRefinedValueType, typeOk. intros Hs He Hc. destruct o as [o|].
  2:{ apply Hok in Hc as [[(?&Hr&?&?) ?] [? _]]; [|done..]. rewrite Hr. split_and!; try done; auto. }
  destruct (semantic_type o) as [[[d|]|[u|]|[n|]]|]; M_inv Hc; simpl;
    (split_and!; try done; try constructor; eauto); unfold maxFixedBytesLength in *;
    repeat match goal with Hb : (_ || _)%bool = false |- _ => apply orb_false_iff in Hb as [??] end;
    lia.
Qed.

Lemma compileSyntheticField_Ok fd nm pfn path i parent role stack o c f c' :
  SameHistory c0 c -> enumNonEmpty fd = true \/ is_Some (primitiveKind (fd_Kind fd)) ->
  compileSyntheticField valueType fd nm pfn path i role stack o c = Ok (f, c') ->
  (forall m, synthetic_role m = role -> nodeIdentity parent m = i) ->
  nm = syntheticName role -> nm <> "" -> pfn <> "" ->
  childOk path parent (Some f) /\ synthetic_role (meta f) = role.
Proof.
  intros Hs He Hc Hi Hnm Hne Hpfn. unfold compileSyntheticField in Hc. M_inv Hc.
  lazymatch goal with Ha : allocate _ _ = Ok (_, ?c1), Ht : compileRefinedValueType _ _ _ _ _ _ ?c1 = Ok (?t, ?c2),
      Hv : validateEvolution _ _ _ = Ok ?u |- _ =>
    destruct u; apply allocate_spec in Ha as (Ha&_);
    assert (SameHistory c0 c2) as Hs2
      by (etrans; [exact Hs|]; etrans; [exact Ha|]; eapply Allocs_SameHistory;
          by eapply compileRefinedValueType_Allocs);
    rewrite (validateEvolution_same _ _ c2) in Hv by done;
    apply compileRefinedValueType_Ok in Ht as ([Hk Hch]&Hl&Hm&_); [|etrans; [exact Hs|done]|done] end.
  split; [|done]. constructor. constructor; simpl; [|by rewrite Hi].
  constructor; simpl.
  - split; [by eexists|]. split; [done|]. unfold wfPresence. simpl.
    split_and!; try done. intros ->. by destruct Hne.
  - by rewrite Hi.
  - right. by constructor.
Qed.

Lemma compileListType_Ok fd path i stack o c t c' :
  SameHistory c0 c -> validateFixedList fd o = Ok tt -> wfField fd ->
  compileListType valueType fd path i stack o c = Ok (t, c') ->
  typeOk path i t /\ isListKind (kindOf t) = true.
Proof.
  unfold compileListType. intros Hs Hv Hwf Hc. pose proof (wfField_full_name fd Hwf) as Hfn.
  pose proof (wfField_enum fd Hwf) as Hen.
  set (p := match o with Some o0 => _ | None => _ end) in Hc.
  assert (p.1 <= 2147483647)%N as Hlen.
  { unfold p, validateFixedList in *. destruct o as [o|]; [|simpl; lia].
    destruct (fixed_list o); [|simpl; lia]. simpl. M_inv Hv. unfold maxFixedListLength in *. lia. }
  destruct p as [len eo]. M_inv Hc. split; [|done].
  match goal with Hf : compileSyntheticField _ _ _ _ _ _ _ _ _ _ = _ |- _ =>
    eapply (compileSyntheticField_Ok _ _ _ _ _ i) in Hf as [Hch Hrole] end; try done; [|by left|..].
  - split; [split; [by eexists|done]|]. by constructor.
  - intros m Hr. unfold nodeIdentity. by rewrite Hr.
  - by intros [? _]%append_eq_nil.
Qed.

Lemma compileSyntheticField_primitive fd nm pfn path i role stack c f c' p :
  SameHistory c0 c ->
  compileSyntheticField valueType fd nm pfn path i role stack None c = Ok (f, c') ->
  primitiveKind (fd_Kind fd) = Some p -> typ f = Some (primitiveType p).
Proof.
  intros Hs Hc Hp. unfold compileSyntheticField in Hc. M_inv Hc.
  match goal with Ha : allocate _ _ = Ok _, Ht : valueType _ _ _ _ _ = Ok _ |- _ =>
    apply allocate_spec in Ha as (Ha'&_);
    apply Hok in Ht as [_ [_ Ht]]; [|etrans; [exact Hs|done]|right; eauto] end.
  simpl. f_equal. auto.
Qed.

Lemma compileMapType_Ok fd path i stack c t c' :
  SameHistory c0 c -> wfField fd ->
  compileMapType valueType fd path i stack c = Ok (t, c') ->
  typeOk path i t /\ isMapKind (kindOf t) = true.
Proof.
  unfold compileMapType. intros Hs Hwf Hc. pose proof (wfField_full_name fd Hwf) as Hfn.
  destruct (fd_MapKey fd) as [key|] eqn:Hkey; [|done].
  destruct (fd_MapValue fd) as [value|] eqn:Hvalue; [|done].
  pose proof (wfField_value_enum fd value Hwf Hvalue) as Hev.
  destruct (wfField_key fd key Hwf Hkey) as [prim Hprim]. M_inv Hc.
  split; [|done].
  match goal with Hf : compileSyntheticField _ key _ _ _ _ _ _ _ _ = Ok (?f, _) |- _ =>
    assert (typ f = Some (primitiveType prim)) as Hkt
      by (eapply compileSyntheticField_primitive; [|exact Hf|]; done) end.
  repeat match goal with Hf : compileSyntheticField _ _ _ _ _ _ _ _ _ ?c = Ok (?f, ?c1) |- _ =>
    let Hs1 := fresh "Hs" in
    assert (SameHistory c c1) as Hs1
      by (eapply Allocs_SameHistory; by eapply compileSyntheticField_Allocs; [|exact Hf|done]);
    eapply (compileSyntheticField_Ok _ _ _ _ _ i) in Hf as [? ?];
      [|first [done|etrans; [exact Hs|done]]|first [by left|right; by eauto]|intros m Hr; unfold nodeIdentity; by rewrite Hr|done|done|
       by intros [? _]%append_eq_nil] end.
  split; [split_and!; [by eexists..|]|].
  - unfold primitiveKey. simpl. by rewrite Hkt.
  - simpl. do 2 (apply list.Forall_cons; split; [done|]). constructor.
Qed.

Lemma fieldPresence_wf fd m k options :
  (presence m, nullable m, oneof m) = fieldPresence fd ->
  synthetic_role m = SYNTHETIC_ROLE_PROTO_FIELD ->
  validateRefinedSingular fd options (presence m) = Ok tt ->
  (refined k = true -> is_Some options) ->
  isMapKind k = fd_IsMap fd -> isListKind k = negb (fd_IsMap fd) && fd_IsList fd ->
  (fd_IsMap fd = true \/ fd_IsList fd = true -> refined k = false) ->
  (isMessageKind (fd_Kind fd) = false -> fd_IsMap fd = false -> fd_IsList fd = false ->
   scalarKind k = true \/ refined k = true) ->
  messagePresence fd = true -> wfPresence m k.
Proof.
  unfold fieldPresence, validateRefinedSingular, wfPresence. intros Hp -> Hv Hr Hm Hl Hc Hsc Hmp.
  rewrite Hm, Hl.
  assert (forall P, presence m = P -> P <> PRESENCE_EXPLICIT -> P <> PRESENCE_ONEOF ->
    fd_IsMap fd = false -> fd_IsList fd = false -> refined k = false) as Hunrefined.
  { intros P HP H1 H2 Hm' Hl'. destruct (refined k) eqn:E; [|done]. destruct (Hr eq_refl) as [o ->].
    rewrite Hm', Hl', HP in Hv. simpl in Hv. M_inv Hv.
    by rewrite !bool_decide_eq_false_2 in * by done. }
  destruct (fd_IsMap fd) eqn:Em; [by injection Hp as -> -> ->|].
  destruct (fd_IsList fd) eqn:El; [by injection Hp as -> -> ->|].
  simpl. case_decide; [injection Hp as HP -> ->; rewrite HP; split_and!; try done; by eapply Hunrefined|].
  destruct (fd_ContainingOneof fd) as [od|]; [destruct (od_IsSynthetic od); simpl in Hp|];
    try destruct (fd_HasPresence fd) eqn:Ehp; injection Hp as HP -> ?; rewrite HP;
    split_and!; try done.
  all: assert (isMessageKind (fd_Kind fd) = false) as Hmk
         by (unfold messagePresence in Hmp; rewrite Em, El, Ehp in Hmp;
             by destruct (isMessageKind (fd_Kind fd)));
       destruct (Hsc Hmk eq_refl eq_refl) as [|Href]; [done|];
       rewrite (Hunrefined _ HP) in Href by done; done.
Qed.

Lemma compileProtoField_Ok pp parent stack fd c f c' :
  wfField fd -> SameHistory c0 c ->
  compileProtoField valueType pp parent stack fd c = Ok (f, c') ->
  TreeOk pp parent f /\ synthetic_role (meta f) = SYNTHETIC_ROLE_PROTO_FIELD.
Proof.
  intros Hd Hs Hc. pose proof Hc as Hal. apply compileProtoField_Allocs in Hal; [|done|done].
  apply Allocs_SameHistory in Hal. unfold compileProtoField in Hc.
  destruct (fieldPresence fd) as [[pres nul] oo] eqn:Hpres. M_inv Hc. split; [|done].
  repeat match goal with u : unit |- _ => destruct u end.
  set (m := mkFieldMeta _ _ _ _ _ _ _ _ _ _ _ _ _) in *.
  assert (nodeIdentity parent m = appendIdentity parent (fieldIdentitySegment (fd_Number fd))) as Hi.
  { unfold nodeIdentity. simpl. by rewrite last_appendNumber, int32_uint32 by (by apply wfField_number). }
  match goal with Ha : allocate _ _ = Ok (_, ?c1) |- _ => apply allocate_spec in Ha as (Ha'&_) end.
  match goal with Hn : storageFieldName _ _ _ _ = Ok _ |- _ =>
    eapply (storageFieldName_Named _ _ _ _ _ _ ltac:(etrans; [exact Hs|exact Ha'])
      ) with (m := m) in Hn; [|done..]; rewrite <- Hi in Hn; rename Hn into Hnamed end.
  match goal with Hv : validateEvolution _ _ _ = _ |- _ =>
    rewrite <- Hi, (validateEvolution_same _ _ c') in Hv by (etrans; [exact Hs|exact Hal]);
    rename Hv into Hev end.
  rewrite <- Hi in *.
  match goal with Ht : (if fd_IsMap fd then _ else _) ?c1 = Ok (?t, _),
      Hf : validateFixedList _ ?o = _ |- _ =>
    assert (typeOk (proto_number_path m) (nodeIdentity parent m) t /\
      (refined (kindOf t) = true -> is_Some o) /\ isMapKind (kindOf t) = fd_IsMap fd /\
      isListKind (kindOf t) = negb (fd_IsMap fd) && fd_IsList fd /\
      (fd_IsMap fd = true \/ fd_IsList fd = true -> refined (kindOf t) = false) /\
      (isMessageKind (fd_Kind fd) = false -> fd_IsMap fd = false -> fd_IsList fd = false ->
       scalarKind (kindOf t) = true \/ refined (kindOf t) = true))
      as ([Hk Hch]&Hr1&Hr2&Hr3&Hr4&Hr5);
    [assert (SameHistory c0 c1) as Hs1 by (etrans; [exact Hs|exact Ha']);
     destruct (fd_IsMap fd) eqn:Em; [|destruct (fd_IsList fd) eqn:El]; M_inv Ht|clear Ht Hf] end.
  - match goal with Ht : compileMapType _ _ _ _ _ _ = _ |- _ =>
      apply compileMapType_Ok in Ht as [? Hm]; [|done..] end.
    split_and!; try done; destruct (kindOf _); done.
  - match goal with Ht : compileListType _ _ _ _ _ _ _ = _ |- _ =>
      apply compileListType_Ok in Ht as [? Hm]; [|done..] end.
    split_and!; try done; destruct (kindOf _); done.
  - match goal with Ht : compileRefinedValueType _ _ _ _ _ _ _ = _ |- _ =>
      apply compileRefinedValueType_Ok in Ht as (?&?&?&?&?); [|done|left; by apply wfField_enum] end.
    split_and!; try done; [by intros [?|?]|auto].
  - constructor; [|done]. constructor; [|done|left; split; [done|exists fd; by constructor]].
    split; [by eexists|]. split; [done|]. eapply fieldPresence_wf; try done. by apply wfField_presence.
Qed.
End Open.

Section Registry.
Variable reg : Registry.
Hypothesis Hreg : wfRegistry reg.

Lemma compileFields_Ok valueType pp parent stack fds c fs c' :
  valueTypeAllocs valueType -> valueTypeOk valueType -> Forall wfField fds -> SameHistory c0 c ->
  mapM_ (compileProtoField valueType pp parent stack) fds c = Ok (fs, c') ->
  Forall (fun f => TreeOk pp parent f /\ synthetic_role (meta f) = SYNTHETIC_ROLE_PROTO_FIELD) fs.
Proof.
  intros Hal Hok Hfds. revert c fs. induction Hfds as [|fd fds Hd Hfds IH]; intros c fs Hs Hc;
    simpl in Hc; M_inv Hc; [constructor|].
  match goal with Hf : compileProtoField _ _ _ _ _ _ = Ok (_, ?c1) |- _ =>
    assert (SameHistory c0 c1) by (etrans; [exact Hs|]; eapply Allocs_SameHistory;
      eapply compileProtoField_Allocs; [exact Hal|done|exact Hf]);
    apply compileProtoField_Ok in Hf; [|done..] end.
  constructor; [done|]. by eapply IH.
Qed.

Lemma children_scope fs pp i :
  NoDup (map fieldName fs) /\ Forall (fun f => fieldName f <> "") fs ->
  Forall (fun f => TreeOk pp i f /\ synthetic_role (meta f) = SYNTHETIC_ROLE_PROTO_FIELD) fs ->
  wfScope (map Some fs) /\ Forall (childOk pp i) (map Some fs).
Proof.
  intros [Hnd Hne] Hfs. split.
  - exists fs. split_and!; [done..|]. rewrite list.Forall_forall in *.
    intros f Hf. split; [by apply Hne|by apply Hfs].
  - apply list.Forall_fmap. eapply list.Forall_impl; [done|]. intros f [Hf _]. by constructor.
Qed.

Lemma enumType_Ok nm (values : list EnumValueDescriptor) closed path i fn :
  negb (length values =? 0)%nat = true ->
  let t := mkDataType nm (DataType_Enum (Some (mkEnumType fn
    (map (fun v => Some (mkEnumValue (evd_Name v) (evd_Number v) (descriptorComment (evd_location v))))
       values) closed))) in
  plainKind (kindOf t) /\ Forall (childOk path i) (childrenOf (kindOf t)).
Proof.
  intros Hne. split; [|constructor]. split; [|by repeat split]. simpl. split.
  - by destruct values.
  - apply list.Forall_fmap, Forall_true. by eexists.
Qed.

Lemma compileValueType_Ok fuel : valueTypeOk (compileValueType reg fuel).
Proof.
  induction fuel as [|fuel IH]; intros fd path i stack c t c' Hs He Hc; simpl in Hc;
    (destruct (primitiveKind (fd_Kind fd)) eqn:Hpk;
      [M_inv Hc; split; [split; [by repeat split; eapply primitiveKind_known|constructor]|];
       split; [done|]; by intros ? [= ->]|]);
    (destruct He as [He|[??]]; [|done]); unfold enumNonEmpty in He;
    (destruct (fd_Kind fd); try by M_inv Hc);
    try (destruct (fd_Enum fd) as [ed|]; M_inv Hc; split; [|done]; by apply enumType_Ok);
    (split; [|done]);
    (destruct (fd_Message fd ≫= _) as [md|] eqn:Hmd; [|by M_inv Hc]); M_inv Hc;
    (destruct (wellKnownType (md_FullName md)) eqn:Hw;
      [M_inv Hc; apply wellKnownType_plain in Hw as [? ->]; by split|]);
    M_inv Hc; (case_decide; [by M_inv Hc|]); M_inv Hc;
    apply bind_Some in Hmd as [nm [_ Hnm]].
  all: match goal with Hf : mapM_ _ _ _ = Ok _, Hv : validateStorageNameCollisions _ _ = _ |- _ =>
    apply compileFields_Ok in Hf;
      [|by apply compileValueType_Allocs|done|apply sortedFields_Forall; by eapply Hreg|
       etrans; [exact Hs|by constructor]];
    apply validateStorageNameCollisions_Ok in Hv;
    destruct (children_scope _ _ _ Hv Hf) end; by repeat split.
Qed.

Lemma compileMessageFields_Ok fuel stack fds c fs c' pp parent :
  Forall wfField fds -> SameHistory c0 c ->
  mapM_ (compileProtoField (compileValueType reg fuel) pp parent stack) fds c = Ok (fs, c') ->
  Forall (fun f => TreeOk pp parent f /\ synthetic_role (meta f) = SYNTHETIC_ROLE_PROTO_FIELD) fs.
Proof.
  intros Hfds Hs. apply compileFields_Ok; auto using compileValueType_Ok, compileValueType_Allocs.
Qed.
End Registry.

(** ** Reading a compiled tree *)

Lemma TreeOk_inv pp parent m t :
  TreeOk pp parent (mkField m t) ->
  NodeOk pp parent (mkField m t) /\
  Forall (childOk (proto_number_path m) (nodeIdentity parent m)) (childrenOf (GetKind t)).
Proof. intros Ht. by inversion Ht. Qed.

Lemma TreeOk_wf pp parent f : TreeOk pp parent f -> wfTree f.
Proof.
  revert f pp parent. apply (Field_tree_ind (fun f => forall pp parent, TreeOk pp parent f -> wfTree f)
    (fun o => forall f pp parent, o = Some f -> TreeOk pp parent f -> wfTree f)); [done| |].
  { intros f IH g pp parent [= ->]. apply IH. }
  intros m t IH pp parent [Hn Hch]%TreeOk_inv. unfold wfTree. rewrite subFields_unfold.
  constructor; [apply Hn|]. rewrite Forall_childSubFields. intros f Hf.
  rewrite list.Forall_forall in IH, Hch. specialize (Hch _ Hf). inversion Hch; subst.
  by eapply (IH (Some f)).
Qed.

(** Every node of the tree is [NodeOk] under its own parent, and its identity
    has the role of the node. *)
Definition segmentOf (m : FieldMeta) : string :=
  match synthetic_role m with
  | SYNTHETIC_ROLE_PROTO_FIELD =>
      fieldIdentitySegment (int32 (Z.of_N (List.last (proto_number_path m) 0%N)))
  | SYNTHETIC_ROLE_LIST_ELEMENT => listElementSegment
  | SYNTHETIC_ROLE_MAP_KEY => mapKeySegment
  | _ => mapValueSegment
  end.

Lemma NodeOk_number pp parent f fd :
  ProtoNode pp parent (meta f) fd ->
  int32 (Z.of_N (List.last (proto_number_path (meta f)) 0%N)) = fd_Number fd /\
  (1 <= fd_Number fd <= 2 ^ 29 - 1)%Z.
Proof.
  intros [Hwf _ Hp _ _ _]. apply wfField_number in Hwf as Hr.
  by rewrite Hp, last_appendNumber, int32_uint32.
Qed.

Lemma fieldIdentitySegment_role n :
  (1 <= n <= 2 ^ 29 - 1)%Z -> segmentRole (fieldIdentitySegment n) = Some SYNTHETIC_ROLE_PROTO_FIELD.
Proof.
  intros Hn. unfold segmentRole.
  rewrite !decide_False by (unfold fieldIdentitySegment; discriminate).
  unfold fieldIdentitySegment at 1 2. rewrite TrimPrefix_append, HasPrefix_append.
  rewrite ParseInt32_FormatInt by (unfold maxInt32; lia).
  rewrite String.eqb_refl.
  destruct (Z.ltb_spec n 1); [lia|]. destruct (Z.ltb_spec (2 ^ 29 - 1) n); [lia|done].
Qed.

Lemma NodeOk_segment pp parent f :
  NodeOk pp parent f ->
  nodeIdentity parent (meta f) = appendIdentity parent (segmentOf (meta f)) /\
  noByte SLASH (segmentOf (meta f)) = true /\ segmentOf (meta f) <> "" /\
  segmentRole (segmentOf (meta f)) = Some (synthetic_role (meta f)).
Proof.
  intros [Hwf _ [[Hr [fd Hfd]]|Hsyn]]; unfold nodeIdentity, segmentOf.
  - rewrite Hr. destruct (NodeOk_number pp parent f fd Hfd) as [-> Hn].
    split_and!; [done|apply fieldIdentitySegment_noSlash; lia|discriminate|].
    by apply fieldIdentitySegment_role.
  - destruct Hsyn as [Hnm Hne _ _ _]. rewrite Hnm in Hne.
    destruct (synthetic_role (meta f)); try (by destruct Hne); by vm_compute.
Qed.

Lemma NodeOk_scope pp parent f :
  NodeOk pp parent f -> parentCompilerIdentity (nodeIdentity parent (meta f)) = parent.
Proof. intros (->&?&_)%NodeOk_segment. by apply parent_appendIdentity. Qed.

Lemma NodeOk_identity pp parent f : NodeOk pp parent f -> nodeIdentity parent (meta f) <> "".
Proof.
  intros (->&_&Hs&_)%NodeOk_segment. unfold appendIdentity. case_decide; [done|].
  by intros [? _]%append_eq_nil.
Qed.

(** *** The role an identity denotes *)

Definition roleAt (parent : string) (prev : SyntheticRole) : Prop :=
  (parent = "" /\ prev = SYNTHETIC_ROLE_UNSPECIFIED)
  \/ (parent <> "" /\ compilerIdentityRole parent = Ok prev).

(** The roles a child of a node may have. *)
Definition admissible (role prev : SyntheticRole) : Prop :=
  (role = SYNTHETIC_ROLE_PROTO_FIELD /\ prev <> SYNTHETIC_ROLE_MAP_KEY)
  \/ (role <> SYNTHETIC_ROLE_PROTO_FIELD /\ prev = SYNTHETIC_ROLE_PROTO_FIELD).

Lemma identityRoleLoop_app id id' first prev l1 l2 r :
  identityRoleLoop id' first prev l1 = Ok r ->
  identityRoleLoop id first prev (l1 ++ l2) =
  identityRoleLoop id (first && match l1 with [] => true | _ => false end) r l2.
Proof.
  revert first prev. induction l1 as [|x l1 IH]; intros first prev Hl; simpl in *.
  - injection Hl as ->. by rewrite andb_true_r.
  - destruct (segmentRole x) as [role|]; [|done].
    apply bind_Ok in Hl as (?&Hb1%failIf_Ok&Hl). apply bind_Ok in Hl as (?&Hb2%failIf_Ok&Hl).
    apply bind_Ok in Hl as (?&Hb3%failIf_Ok&Hl). rewrite Hb1, Hb2, Hb3. simpl.
    rewrite (IH _ _ Hl), andb_false_r. done.
Qed.

Lemma compilerIdentityRole_append parent prev seg role :
  roleAt parent prev -> noByte SLASH seg = true -> segmentRole seg = Some role ->
  admissible role prev -> compilerIdentityRole (appendIdentity parent seg) = Ok role.
Proof.
  intros Hat Hs Hr Ha. unfold compilerIdentityRole, appendIdentity.
  assert (forall id first, (first = true -> role = SYNTHETIC_ROLE_PROTO_FIELD) ->
    identityRoleLoop id first prev [seg] = Ok role) as Hlast.
  { intros id first Hf. simpl. rewrite Hr. unfold isProtoField.
    destruct Ha as [[-> Hne]|[Hne ->]].
    - simpl. rewrite andb_false_r. simpl. by rewrite bool_decide_eq_false_2.
    - destruct first; [by rewrite Hf in Hne|]. by rewrite (bool_decide_eq_false_2 (role = SYNTHETIC_ROLE_PROTO_FIELD)) by done. }
  destruct Hat as [[-> ->]|[Hne Hp]].
  - rewrite decide_True by done. rewrite Split_noByte by done. apply Hlast.
    intros _. by destruct Ha as [[-> _]|[_ ?]].
  - rewrite decide_False by done. change ("/" +:+ seg) with (String SLASH seg).
    rewrite Split_append, (Split_noByte seg) by done.
    erewrite identityRoleLoop_app by exact Hp. apply Hlast.
    destruct (Split parent SLASH) eqn:E; [by apply Split_nonnil in E|done].
Qed.

Lemma NodeOk_role pp parent prev f :
  NodeOk pp parent f -> roleAt parent prev -> admissible (synthetic_role (meta f)) prev ->
  roleAt (nodeIdentity parent (meta f)) (synthetic_role (meta f)).
Proof.
  intros Hn Hat Ha. right. split; [by eapply NodeOk_identity|].
  apply NodeOk_segment in Hn as (->&?&_&?). by eapply compilerIdentityRole_append.
Qed.

(** What holds of every node of a compiled tree. *)
Definition compiledNode (n : string * Field) : Prop :=
  exists pp parent, NodeOk pp parent n.2 /\ n.1 = nodeIdentity parent (meta n.2) /\
    compilerIdentityRole n.1 = Ok (synthetic_role (meta n.2)).

(** A map key has no children. *)
Definition keyLeaf (f : Field) : Prop :=
  synthetic_role (meta f) = SYNTHETIC_ROLE_MAP_KEY -> childrenOf (GetKind (typ f)) = [].

Lemma wfNode_children f g :
  wfNode f -> keyLeaf f -> Some g ∈ childrenOf (GetKind (typ f)) ->
  admissible (synthetic_role (meta g)) (synthetic_role (meta f)) /\ keyLeaf g.
Proof.
  intros (_&Hk&Hp) Hkey Hg. unfold keyLeaf in *.
  assert (synthetic_role (meta f) <> SYNTHETIC_ROLE_MAP_KEY) as Hnk.
  { intros Hr. rewrite Hkey in Hg by done. by apply not_elem_of_nil in Hg. }
  assert (isListKind (GetKind (typ f)) = true \/ isMapKind (GetKind (typ f)) = true ->
    synthetic_role (meta f) = SYNTHETIC_ROLE_PROTO_FIELD) as Hcol.
  { unfold wfPresence in Hp. intros Hor. destruct (presence (meta f)); try done;
      destruct Hor; intuition congruence. }
  destruct (GetKind (typ f)) as [| | |[fs|]|[[e n]|]|[[k v]|]| | | | | |]; simpl in *; try done;
    try (by apply not_elem_of_nil in Hg).
  - destruct Hk as (gs&->&_&Hgs). apply list_elem_of_fmap in Hg as (h&[= <-]&Hin).
    rewrite list.Forall_forall in Hgs. destruct (Hgs _ Hin) as [_ Hrole]. rewrite Hrole.
    split; [by left|done].
  - destruct Hk as [(h&->&Hrole) _]. apply list_elem_of_singleton in Hg as [= ->]. rewrite Hrole.
    split; [right; auto|done].
  - destruct Hk as ((h&->&Hh)&(w&->&Hw)&Hprim). unfold primitiveKey in Hprim. simpl in Hprim.
    repeat (apply elem_of_cons in Hg as [[= ->]|Hg]); [| |by apply not_elem_of_nil in Hg].
    + rewrite Hh. split; [right; auto|]. intros _. by destruct (GetKind (typ h)).
    + rewrite Hw. split; [right; auto|done].
Qed.

Lemma TreeOk_nodes f pp parent prev :
  TreeOk pp parent f -> roleAt parent prev -> admissible (synthetic_role (meta f)) prev ->
  keyLeaf f -> Forall compiledNode (fieldNodes parent f).
Proof.
  revert f pp parent prev. apply (Field_tree_ind (fun f => forall pp parent prev,
    TreeOk pp parent f -> roleAt parent prev -> admissible (synthetic_role (meta f)) prev ->
    keyLeaf f -> Forall compiledNode (fieldNodes parent f))
    (fun o => forall f, o = Some f -> forall pp parent prev,
    TreeOk pp parent f -> roleAt parent prev -> admissible (synthetic_role (meta f)) prev ->
    keyLeaf f -> Forall compiledNode (fieldNodes parent f))); [done| |].
  { intros f IH g [= ->]. apply IH. }
  intros m t IH pp parent prev [Hn Hch]%TreeOk_inv Hat Ha Hkey. rewrite fieldNodes_unfold.
  pose proof (NodeOk_role _ _ _ _ Hn Hat Ha) as Hat'. simpl in Hat'.
  constructor.
  - exists pp, parent. split_and!; [done..|]. simpl.
    destruct Hat' as [[Hbad _]|[_ ?]]; [|done]. by apply NodeOk_identity in Hn.
  - rewrite list.Forall_forall in IH, Hch. apply list.Forall_forall. unfold typeNodes.
    intros n (g&Hg&Hin)%elem_of_childNodes.
    destruct (wfNode_children (mkField m t) g (no_wf _ _ _ Hn) Hkey Hg) as [Hadm Hkg].
    pose proof (Hch _ Hg) as Hcg. inversion Hcg; subst.
    specialize (IH _ Hg g eq_refl _ _ _ ltac:(eassumption) Hat' Hadm Hkg).
    rewrite list.Forall_forall in IH. by apply IH.
Qed.
End Trees.
End WithProtoreflect.
