(* ===== verification/Termination.v ===== *)
(** * The compiler terminates

    The recursion of [compileValueType] through nested messages is bounded by
    the number of messages of the pool: the stack grows at every level and a
    message on the stack is refused.  [total] computations never run out of
    fuel; they are closed under the combinators, so the proof is a search. *)
From S2P Require Import Prelude GoStrings Schema WellFormed Bundle Descriptor Compiler CompilerFacts.

Definition totalO {A} (m : Outcome A) : Prop := m <> NoFuel.
Definition total {A} (m : M A) : Prop := forall c, totalO (m c).

Create HintDb total discriminated.

Lemma totalO_bind {A B} (m : Outcome A) (f : A -> Outcome B) :
  totalO m -> (forall a, totalO (f a)) -> totalO (m ≫= f).
Proof. intros Hm Hf [Hn|(a&_&Hn)]%bind_NoFuel; [by apply Hm|by apply (Hf a)]. Qed.
Lemma totalO_Ok {A} (a : A) : totalO (Ok a).
Proof. discriminate. Qed.
Lemma totalO_Err {A} e : totalO (@Err A e).
Proof. discriminate. Qed.
Lemma totalO_Panic {A} e : totalO (@Panic A e).
Proof. discriminate. Qed.
Lemma totalO_failIf b e : totalO (failIf b e).
Proof. apply failIf_NoFuel. Qed.
Lemma totalO_wrapErr {A} p (m : Outcome A) : totalO m -> totalO (wrapErr p m).
Proof. intros Hm ?%wrapErr_NoFuel. by apply Hm. Qed.
Lemma totalO_forEach {A} (f : A -> Outcome unit) l : (forall x, totalO (f x)) -> totalO (forEach f l).
Proof. intros Hf. induction l; simpl; [apply totalO_Ok|by apply totalO_bind]. Qed.
Lemma totalO_foldOutcome {A S} (f : S -> A -> Outcome S) l s :
  (forall s x, totalO (f s x)) -> totalO (foldOutcome f l s).
Proof. intros Hf. revert s. induction l; intros s; simpl; [apply totalO_Ok|by apply totalO_bind]. Qed.

Lemma total_bind {A B} (m : M A) (f : A -> M B) :
  total m -> (forall a, total (f a)) -> total (m ≫= f).
Proof.
  intros Hm Hf c. unfold mbind, M_bind, totalO. specialize (Hm c).
  destruct (m c) as [[a c']| | |]; try done. apply Hf.
Qed.
Lemma total_mret {A} (a : A) : total (mret a).
Proof. intros c. apply totalO_Ok. Qed.
Lemma total_lift {A} (m : Outcome A) : totalO m -> total (lift m).
Proof. intros Hm c. apply totalO_bind; [done|]. intros a. apply totalO_Ok. Qed.
Lemma total_getM : total getM.
Proof. intros c. apply totalO_Ok. Qed.
Lemma total_modifyM f : total (modifyM f).
Proof. intros c. apply totalO_Ok. Qed.
Lemma total_wrapM {A} p (m : M A) : total m -> total (wrapM p m).
Proof. intros Hm c. by apply totalO_wrapErr. Qed.
Lemma total_mapM {A B} (f : A -> M B) l : Forall (fun x => total (f x)) l -> total (mapM_ f l).
Proof.
  induction 1; simpl; [apply total_mret|]. apply total_bind; [done|]. intros y.
  apply total_bind; [done|]. intros ys. apply total_mret.
Qed.

#[export] Hint Resolve totalO_bind totalO_Ok totalO_Err totalO_Panic totalO_failIf totalO_wrapErr
  totalO_forEach totalO_foldOutcome total_bind total_mret total_lift total_getM total_modifyM
  total_wrapM total_mapM : total.

(** One structural step: a combinator, or a case analysis. *)
Ltac total_step :=
  first
    [ match goal with |- forall _, _ => intro end
    | apply totalO_Ok | apply totalO_Err | apply totalO_Panic | apply totalO_failIf
    | apply totalO_bind | apply totalO_wrapErr | apply totalO_forEach | apply totalO_foldOutcome
    | apply total_bind | apply total_mret | apply total_lift | apply total_getM
    | apply total_modifyM | apply total_wrapM | case_decide | case_match ].
Ltac total_solve := repeat (total_step; eauto with total).

Lemma allocate_total i : total (allocate i).
Proof. intros c. unfold allocate. repeat case_match; discriminate. Qed.
Lemma registerHistoricalName_total i nm : total (registerHistoricalName i nm).
Proof. intros c. unfold registerHistoricalName. repeat case_match; discriminate. Qed.
Lemma identityRoleLoop_total identity first prev l : totalO (identityRoleLoop identity first prev l).
Proof. revert first prev. induction l; intros; simpl; total_solve. Qed.
Lemma compilerIdentityRole_total i : totalO (compilerIdentityRole i).
Proof. apply identityRoleLoop_total. Qed.
Lemma rejectExtensionRanges_total md : totalO (rejectExtensionRanges md).
Proof. apply totalO_failIf. Qed.
Lemma validateStableID_total id : totalO (validateStableID id).
Proof. apply totalO_failIf. Qed.
Lemma validateStorageNameCollisions_total scope fs : totalO (validateStorageNameCollisions scope fs).
Proof. unfold validateStorageNameCollisions, storageNameStep. total_solve. Qed.

(** [rejectUnknownFields] recurses on the structure of the message. *)
Lemma rejectUnknownFields_total : forall m path what, totalO (rejectUnknownFields m path what).
Proof.
  fix IH 1. intros [unknown populated] path what. simpl. case_match; [discriminate|].
  induction populated as [|e l IHl]; simpl; [discriminate|]. apply totalO_bind; [|intros; apply IHl].
  destruct e as [fname [items|]|fname [items|]|fname [m|]]; try discriminate.
  - induction items as [|[k m] items IHi]; simpl; [discriminate|].
    apply totalO_bind; [apply IH|intros; apply IHi].
  - generalize 0. induction items as [|m items IHi]; intros n; simpl; [discriminate|].
    apply totalO_bind; [apply IH|intros; apply IHi].
  - apply IH.
Qed.
#[export] Hint Resolve allocate_total registerHistoricalName_total compilerIdentityRole_total
  rejectExtensionRanges_total validateStableID_total validateStorageNameCollisions_total
  rejectUnknownFields_total : total.

Section WithProtoreflect.
Context `{Protoreflect}.

Lemma exactProtoFieldName_total s : totalO (exactProtoFieldName s).
Proof. unfold exactProtoFieldName. total_solve. Qed.
#[local] Hint Resolve exactProtoFieldName_total : total.
Lemma dataFieldOptions_total fd : totalO (dataFieldOptions fd).
Proof. unfold dataFieldOptions. total_solve. Qed.
Lemma validateCompilerOwnedName_total i p n s : totalO (validateCompilerOwnedName i p n s).
Proof. unfold validateCompilerOwnedName. total_solve. Qed.
Lemma indexedIdentity_total r p path pp i : totalO (indexedIdentity r p path pp i).
Proof. unfold indexedIdentity. total_solve. Qed.
Lemma storageFieldName_total i p fd c : totalO (storageFieldName i p fd c).
Proof. unfold storageFieldName. total_solve. Qed.
Lemma validateEvolution_total i f c : totalO (validateEvolution i f c).
Proof. unfold validateEvolution. total_solve. Qed.
Lemma validateFixedList_total fd o : totalO (validateFixedList fd o).
Proof. unfold validateFixedList. total_solve. Qed.
Lemma validateRefinedSingular_total fd o p : totalO (validateRefinedSingular fd o p).
Proof. unfold validateRefinedSingular. total_solve. Qed.
Lemma validateRetiredReservation_total c i r : totalO (validateRetiredReservation c i r).
Proof. unfold validateRetiredReservation. total_solve. Qed.
#[local] Hint Resolve dataFieldOptions_total validateCompilerOwnedName_total indexedIdentity_total
  storageFieldName_total validateEvolution_total validateFixedList_total
  validateRefinedSingular_total validateRetiredReservation_total : total.

Lemma indexNode_total f pp p r : total (indexNode f pp p r).
Proof. intros c. unfold indexNode. total_solve. apply registerHistoricalName_total. Qed.
#[local] Hint Resolve indexNode_total : total.

Lemma indexPreviousField_total f pp p r : total (indexPreviousField f pp p r).
Proof.
  revert f pp p r.
  apply (Field_tree_ind (fun f => forall pp p r, total (indexPreviousField f pp p r))
    (fun o => forall f, o = Some f -> forall pp p r, total (indexPreviousField f pp p r)));
    [done|by intros f IH g [= ->]|].
  intros m t IH pp p r. destruct t as [[pt k]|]; simpl; [|total_solve].
  apply total_bind; [apply indexNode_total|]. intros i. simpl in IH.
  destruct k as [| | |[fs|]|[[[e|] n]|]|[[[k|] [v|]]|]| | | | | |]; simpl in *;
    rewrite ?list.Forall_cons in IH; total_solve.
  - apply total_mapM. eapply list.Forall_impl; [exact IH|]. intros [f|] Hf; [by apply Hf|total_solve].
  - by apply IH.
  - by apply (proj1 IH k).
  - by apply (proj1 (proj2 IH) v).
Qed.

Lemma indexPreviousRetired_total r : total (indexPreviousRetired r).
Proof. intros c. unfold indexPreviousRetired. total_solve. apply registerHistoricalName_total. Qed.

Lemma newDatasetCompiler_total md p : totalO (newDatasetCompiler md p).
Proof.
  unfold newDatasetCompiler. total_solve.
  - apply total_mapM, Forall_true. apply indexPreviousRetired_total.
  - apply total_mapM, Forall_true. intros [f|]; total_solve. apply indexPreviousField_total.
Qed.

(** ** The recursion through messages *)

Section Open.
Variable valueType : FieldDescriptor -> list N -> string -> gset string -> M DataType.
Variable stack : gset string.
Hypothesis Hv : forall fd path i, total (valueType fd path i stack).

Lemma compileRefinedValueType_total fd path i o :
  total (compileRefinedValueType valueType fd path i stack o).
Proof. unfold compileRefinedValueType. total_solve. Qed.
#[local] Hint Resolve compileRefinedValueType_total : total.

Lemma compileSyntheticField_total fd nm pfn path i r o :
  total (compileSyntheticField valueType fd nm pfn path i r stack o).
Proof. unfold compileSyntheticField. total_solve. Qed.
#[local] Hint Resolve compileSyntheticField_total : total.

Lemma compileProtoField_total pp p fd : total (compileProtoField valueType pp p stack fd).
Proof. unfold compileProtoField, compileMapType, compileListType. total_solve. Qed.
End Open.

Lemma compileValueType_total reg fuel fd path i stack :
  wfRegistry reg -> size (dom reg ∖ stack) <= fuel ->
  total (compileValueType reg fuel fd path i stack).
Proof.
  intros Hreg. revert fd path i stack.
  induction fuel as [|fuel IH]; intros fd path i stack Hsize; simpl; total_solve.
  all: match goal with Hm : _ ≫= _ = Some ?md |- _ =>
         apply bind_Some in Hm as [nm [_ Hnm]]; destruct (Hreg _ _ Hnm) as [Hname _];
         apply elem_of_dom_2 in Hnm; rewrite <- Hname in Hnm;
         assert (md_FullName md ∈ dom reg ∖ stack) as Hin by set_solver end.
  1, 2: exfalso; assert (size (dom reg ∖ stack) <> 0); [|lia];
        intros ?%size_empty_inv; set_solver.
  all: apply total_mapM, Forall_true; intros fd'; apply compileProtoField_total; intros fd1 path1 i1;
       apply IH.
  all: match goal with |- size (_ ∖ ({[?x]} ∪ _)) <= _ =>
         replace (dom reg ∖ ({[x]} ∪ stack)) with (dom reg ∖ stack ∖ {[x]}) by set_solver;
         rewrite size_difference by set_solver; rewrite size_singleton; lia end.
Qed.

Lemma CompileMessage_total reg fuel md previous :
  wfRegistry reg -> size reg <= fuel -> totalO (CompileMessage reg fuel md previous).
Proof.
  intros Hreg Hfuel. unfold CompileMessage. destruct md as [md|]; [|discriminate]. total_solve.
  - apply newDatasetCompiler_total.
  - apply total_mapM, Forall_true. intros fd. apply compileProtoField_total. intros fd1 path1 i1.
    apply compileValueType_total; [done|]. etrans; [apply (subseteq_size _ (dom reg)); set_solver|]. 
    pose proof (size_dom (D:=gset string) reg) as Hd. apply Nat.eq_le_incl in Hd.
    etrans; [exact Hd|exact Hfuel].
Qed.
End WithProtoreflect.
