(* ===== verification/CompileSpec.v ===== *)
(** * The contract of CompileMessage

    The theorems a user of the schema compiler relies on: stable ids are unique,
    bounded and never reassigned; a removed identity leaves a tombstone; fields
    that keep their identity keep their shape and storage name; the output is a
    well-formed schema; and the compiler terminates on every input. *)
From S2P Require Import Prelude GoStrings StringFacts Schema WellFormed Bundle Descriptor Compiler.
From S2P Require Import Examples CompilerFacts HistoryFacts Evolution CompiledTrees Termination.

Section WithProtoreflect.
Context `{Protoreflect}.

Section OneRun.
Context {reg : Registry} {fuel : nat} {md : MessageDescriptor} {previous : option DatasetSchema}.
Context {ds : DatasetSchema} {c0 c : datasetCompiler} {compiled : list Field}.
Hypothesis Hreg : wfRegistry reg.
Hypothesis Hmd : wfMessage md.
Hypothesis Hrun : Run reg fuel md previous ds c0 c compiled.

Lemma Run_fields_Some : ds_fields ds = map Some compiled.
Proof. by rewrite (run_dataset _ _ _ _ _ _ _ _ Hrun). Qed.

Lemma Run_trees :
  Forall (fun f => TreeOk c0 [] "" f /\ synthetic_role (meta f) = SYNTHETIC_ROLE_PROTO_FIELD) compiled.
Proof.
  eapply compileMessageFields_Ok; [done| |done|apply (run_fields _ _ _ _ _ _ _ _ Hrun)].
  by apply sortedFields_Forall.
Qed.

Lemma Run_node_ok n : n ∈ dsNodes ds -> compiledNode c0 n.
Proof.
  unfold dsNodes. rewrite Run_fields_Some.
  intros (f&(g&[= <-]&Hg)%list_elem_of_fmap&Hin)%elem_of_childNodes.
  pose proof Run_trees as Ht. rewrite list.Forall_forall in Ht. destruct (Ht _ Hg) as [Htree Hrole].
  eapply TreeOk_nodes with (prev := SYNTHETIC_ROLE_UNSPECIFIED) in Htree.
  - rewrite list.Forall_forall in Htree. by apply Htree.
  - by left.
  - rewrite Hrole. by left.
  - intros Hk. congruence.
Qed.

Lemma Run_wfDataset : wfDataset ds.
Proof.
  pose proof (validateStorageNameCollisions_Ok _ _ _ (run_collisions _ _ _ _ _ _ _ _ Hrun)) as Hn.
  unfold wfDataset. rewrite Run_fields_Some. split.
  - eapply children_scope; [done|apply Run_trees].
  - rewrite Forall_childSubFields. intros f (g&[= <-]&Hg)%list_elem_of_fmap.
    pose proof Run_trees as Ht. rewrite list.Forall_forall in Ht. destruct (Ht _ Hg) as [Htree _].
    by eapply TreeOk_wf.
Qed.
End OneRun.

Lemma Run_wfDataset_of reg fuel md previous ds :
  wfRegistry reg -> wfMessage md -> CompileMessage reg fuel (Some md) previous = Ok ds -> wfDataset ds.
Proof. intros Hreg Hmd (c0&c&compiled&Hrun)%CompileMessage_Run. by eapply Run_wfDataset. Qed.

(** What the check of compiler-owned names establishes. *)
Lemma validateCompilerOwnedName_Ok i pfn nm src u r :
  validateCompilerOwnedName i pfn nm src = Ok u -> compilerIdentityRole i = Ok r ->
  nm <> "" /\
  (r = SYNTHETIC_ROLE_PROTO_FIELD -> nm = storageName src) /\
  (r <> SYNTHETIC_ROLE_PROTO_FIELD -> nm = syntheticName r /\ src = "").
Proof.
  unfold validateCompilerOwnedName. intros Hv Hr. rewrite Hr in Hv. simpl in Hv. M_inv Hv.
  repeat match goal with Hb : bool_decide _ = false |- _ => apply bool_decide_eq_false in Hb end.
  split; [done|].
  destruct r; M_inv Hv;
    repeat match goal with Hb : (_ || _)%bool = false |- _ => apply orb_false_iff in Hb as [??] end;
    repeat match goal with Hb : negb (String.eqb _ _) = false |- _ =>
      apply negb_false_iff, String.eqb_eq in Hb end; split; naive_solver.
Qed.

(** Two types of one shape: the same kind with the same parameters, under the same
    protobuf type where it names the carrier.  The fields of a struct, the element of a
    list and the parts of a map have identities of their own; an enum may gain values
    but keeps the names and numbers it had. *)
Inductive SameType : DataType -> DataType -> Prop :=
  | same_primitive t k : SameType (mkDataType t (DataType_Primitive (Some k))) (mkDataType t (DataType_Primitive (Some k)))
  | same_enum t t' full closed values values' :
      (forall v, Some v ∈ values -> exists v', Some v' ∈ values' /\ ev_name v' = ev_name v /\ ev_number v' = ev_number v) ->
      SameType (mkDataType t (DataType_Enum (Some (mkEnumType full values closed))))
        (mkDataType t' (DataType_Enum (Some (mkEnumType full values' closed))))
  | same_struct t s s' : SameType (mkDataType t (DataType_Struct s)) (mkDataType t (DataType_Struct s'))
  | same_list t t' e e' n : SameType (mkDataType t (DataType_List (Some (e, n)))) (mkDataType t' (DataType_List (Some (e', n))))
  | same_map t t' m m' : SameType (mkDataType t (DataType_Map m)) (mkDataType t' (DataType_Map m'))
  | same_timestamp t x : SameType (mkDataType t (DataType_Timestamp (Some x))) (mkDataType t (DataType_Timestamp (Some x)))
  | same_duration t u : SameType (mkDataType t (DataType_Duration (Some u))) (mkDataType t (DataType_Duration (Some u)))
  | same_json t j : SameType (mkDataType t (DataType_Json (Some j))) (mkDataType t (DataType_Json (Some j)))
  | same_decimal t t' d : SameType (mkDataType t (DataType_Decimal (Some d))) (mkDataType t' (DataType_Decimal (Some d)))
  | same_uuid t t' : SameType (mkDataType t (DataType_Uuid (Some tt))) (mkDataType t' (DataType_Uuid (Some tt)))
  | same_fixed t t' n : SameType (mkDataType t (DataType_FixedBytes (Some n))) (mkDataType t' (DataType_FixedBytes (Some n))).

(** The check against it, for the well-formed types the compiler makes. *)
Ltac check_inv :=
  repeat match goal with
  | H : (_ && _)%bool = true |- _ => apply andb_true_iff in H as [??]
  | H : (_ || _)%bool = false |- _ => apply orb_false_iff in H as [??]
  | H : negb _ = false |- _ => apply negb_false_iff in H
  | H : bool_decide _ = true |- _ => apply bool_decide_eq_true in H
  | H : Bool.eqb _ _ = true |- _ => apply eqb_prop in H
  | H : String.eqb _ _ = true |- _ => apply String.eqb_eq in H
  | H : (_ =? _)%N = true |- _ => apply N.eqb_eq in H
  end.
Lemma compatibleEnumEvolution_sound t t' p c : wfKind (DataType_Enum c) -> compatibleEnumEvolution p c = true ->
  SameType (mkDataType t (DataType_Enum p)) (mkDataType t' (DataType_Enum c)).
Proof.
  destruct c as [[full' values' closed']|]; [|done]. intros [_ Hsome]. destruct p as [[full values closed]|]; [|done]. simpl.
  destruct (_ || _)%bool eqn:Hb; [done|]. check_inv. subst. intros Hall. constructor. intros v Hv.
  rewrite forallb_forall in Hall. apply list_elem_of_In in Hv. specialize (Hall _ Hv). check_inv.
  apply list_elem_of_In, in_map_iff in Hall as (o&Heq&Ho%list_elem_of_In).
  rewrite list.Forall_forall in Hsome. destruct (Hsome _ Ho) as [v' ->]. injection Heq as ??. by exists v'.
Qed.
Lemma sameLogicalShape_sound p c : is_Some c -> wfKind (GetKind c) -> sameLogicalShape p c = true ->
  exists tp tc, p = Some tp /\ c = Some tc /\ SameType tp tc.
Proof.
  intros [[t' k'] ->] Hw. destruct p as [[t k]|]; [|done]. intros Hs. exists (mkDataType t k), (mkDataType t' k'). split_and!; [done..|].
  destruct k' as [|[]|[]|[]|[[]|]|[]|[[]|]|[]|[]|[[]|]|[[]|]|[]]; try done; destruct k as [|[]|[]|[]|[[]|]|[]|[[]|]|[]|[]|[[]|]|[[]|]|[]]; try done;
    cbn in Hw, Hs; try (by apply compatibleEnumEvolution_sound); check_inv; cbn in *; subst; try done; try (by constructor); naive_solver.
Qed.

(** What a field that stays keeps. *)
Record SameShape (f g : Field) : Prop := mkSameShape {
  ss_presence : presence (meta g) = presence (meta f);
  ss_nullable : nullable (meta g) = nullable (meta f);
  ss_oneof : oneof (meta g) = oneof (meta f);
  ss_has_default : has_default (meta g) = has_default (meta f);
  ss_default : protobuf_default (meta g) = protobuf_default (meta f);
  ss_shape : exists t t', typ f = Some t /\ typ g = Some t' /\ SameType t t'
}.

Lemma validateEvolution_Ok i f g c u :
  previousFields c !! i = Some f -> wfNode g -> validateEvolution i g c = Ok u -> SameShape f g.
Proof.
  unfold validateEvolution. intros -> (Ht&Hk&_) Hv. M_inv Hv. check_inv. constructor; try done. by apply sameLogicalShape_sound.
Qed.

(** ** Stable ids *)

(** C1: a compiled dataset never allocates an identity or a stable id twice, not
    even across its tree and its tombstones, and every id is between 1 and the
    recorded [last_field_id], which stays within the Iceberg-safe maximum. *)
Theorem compile_ids_unique reg fuel md previous ds :
  wfRegistry reg -> wfMessage md ->
  CompileMessage reg fuel (Some md) previous = Ok ds ->
  NoDup (ledger ds).*1 /\ NoDup (ledger ds).*2 /\
  Forall (fun e => (1 <= e.2 <= last_field_id ds)%Z) (ledger ds) /\
  (0 <= last_field_id ds <= maxStableID)%Z.
Proof.
  intros Hreg Hmd (c0&c&compiled&Hrun)%CompileMessage_Run.
  pose proof (Run_Inv Hreg Hmd Hrun) as Hinv. rewrite (Run_last Hrun).
  split_and!; try apply Hinv.
  - by eapply Run_identities_nodup.
  - by eapply Run_ids_nodup.
  - apply list.Forall_forall. intros [i id] Hin. eapply (inv_range c Hinv).
    by eapply Run_reserved.
Qed.

(** C2: compiling against a committed schema only appends to its ledger: every
    identity of the previous tree and every tombstone is still there with the
    stable id it had. *)
Theorem compile_ledger_append_only reg fuel md p ds e :
  wfRegistry reg -> wfMessage md ->
  CompileMessage reg fuel (Some md) (Some p) = Ok ds ->
  e ∈ ledger p -> e ∈ ledger ds.
Proof.
  intros Hreg Hmd (c0&c&compiled&Hrun)%CompileMessage_Run. by eapply Run_ledger_mono.
Qed.

(** C3: an identity that the committed schema does not know gets an id above
    every id that was ever allocated, so no consumer sees an id change meaning. *)
Theorem compile_new_ids_fresh reg fuel md p ds i id :
  wfRegistry reg -> wfMessage md ->
  CompileMessage reg fuel (Some md) (Some p) = Ok ds ->
  (i, id) ∈ ledger ds -> i ∉ (ledger p).*1 -> (last_field_id p < id <= last_field_id ds)%Z.
Proof.
  intros Hreg Hmd Hc Hin Hnew. apply CompileMessage_Run in Hc as (c0&c&compiled&Hrun).
  split.
  - edestruct (Run_fresh Hreg Hmd Hrun eq_refl) as [Hold|?]; [exact Hin| |done].
    by apply (list_elem_of_fmap_2 fst) in Hold.
  - rewrite (Run_last Hrun). eapply (inv_range c (Run_Inv Hreg Hmd Hrun)).
    by eapply Run_reserved.
Qed.

(** C4: the tombstones of the new schema are exactly those of the previous one
    and one for each identity the new tree no longer has, carrying the id, the
    protobuf name and the storage name of the removed field. *)
Theorem compile_retirement_exact reg fuel md p ds r :
  wfRegistry reg -> wfMessage md ->
  CompileMessage reg fuel (Some md) (Some p) = Ok ds ->
  r ∈ retiredOf ds <->
  r ∈ retiredOf p \/
  exists i f, (i, f) ∈ dsNodes p /\ i ∉ (dsEntries ds).*1 /\ r = tombstone i f.
Proof.
  intros Hreg Hmd (c0&c&compiled&Hrun)%CompileMessage_Run. by eapply Run_retired_exact.
Qed.

Lemma Run_first_id reg fuel md ds c0 c compiled n fd :
  wfRegistry reg -> wfMessage md -> Run reg fuel md None ds c0 c compiled ->
  n ∈ dsEntries ds -> fd ∈ md_Fields md -> n.1 = fieldIdentitySegment (fd_Number fd) ->
  n.2 = fd_Number fd.
Proof.
  intros Hreg Hmd Hrun Hn Hfd Hi. destruct n as [i id]. simpl in *. subst i.
  pose proof (run_initial _ _ _ _ _ _ _ _ Hrun) as Hinit.
  pose proof (in_first_all _ _ _ Hinit fd eq_refl Hfd) as Hf.
  destruct (in_previous_none _ _ _ Hinit eq_refl) as (Hp&_).
  eapply (Run_origin Hreg Hmd Hrun) in Hn. destruct (Run_same Hreg Hmd Hrun) as [Ep _ _ _ Ef].
  rewrite Ep, Ef, Hp, lookup_empty, Hf in Hn. naive_solver.
Qed.

(** On the first compilation a top-level field has its protobuf number as
    stable id and no identity is retired. *)
Theorem compile_first_ids reg fuel md ds fd i id :
  wfRegistry reg -> wfMessage md ->
  CompileMessage reg fuel (Some md) None = Ok ds ->
  retiredOf ds = [] /\
  (fd ∈ md_Fields md -> i = fieldIdentitySegment (fd_Number fd) -> (i, id) ∈ dsEntries ds ->
   id = fd_Number fd).
Proof.
  intros Hreg Hmd (c0&c&compiled&Hrun)%CompileMessage_Run. split.
  - destruct (retiredOf ds) as [|r l] eqn:E; [done|].
    assert (r ∈ retiredOf ds) as Hr by (rewrite E; by left).
    apply (Run_retired Hreg Hmd Hrun) in Hr. rewrite retiredMap_lookup in Hr.
    destruct (Run_same Hreg Hmd Hrun) as [Ep _ Er _ _].
    destruct (in_previous_none _ _ _ (run_initial _ _ _ _ _ _ _ _ Hrun) eq_refl) as (Hp&_&Hn&_).
    by rewrite Ep, Er, Hp, Hn, !lookup_empty in Hr.
  - intros Hfd Hi Hin. by eapply (Run_first_id _ _ _ _ _ _ _ (i, id)).
Qed.

(** ** Shapes and names *)

(** C5: a field that keeps its identity keeps its stable id, presence,
    nullability, oneof, default, logical shape and storage name. *)
Theorem compile_evolution_safe reg fuel md p ds i f g :
  wfRegistry reg -> wfMessage md ->
  CompileMessage reg fuel (Some md) (Some p) = Ok ds ->
  (i, f) ∈ dsNodes p -> (i, g) ∈ dsNodes ds ->
  stable_id (meta g) = stable_id (meta f) /\ SameShape f g /\
  name (meta g) = name (meta f) /\ storage_name_source (meta g) = storage_name_source (meta f).
Proof.
  intros Hreg Hmd Hc Hf Hg. apply CompileMessage_Run in Hc as (c0&c&compiled&Hrun).
  pose proof (Run_node_ok Hreg Hmd Hrun _ Hg) as (pp&parent&Hn&Hi&Hrole). simpl in *.
  pose proof (Run_Starts Hrun eq_refl) as Hst.
  assert (previousFields c0 !! i = Some f) as Hprev by (by apply (st_nodes _ _ _ Hst)).
  pose proof (h_owned_fields _ (st_history _ _ _ Hst) _ _ Hprev) as Hown.
  apply (validateCompilerOwnedName_Ok _ _ _ _ _ _ Hown) in Hrole as (_&Hpn&Hsn).
  split_and!.
  - apply (list_elem_of_fmap_2 nodeEntry) in Hf, Hg. unfold nodeEntry in Hf, Hg. simpl in *.
    destruct (Run_kept Hreg Hmd Hrun eq_refl _ _ Hf) as [Hk|Hk].
    + apply (Run_active Hreg Hmd Hrun) in Hk, Hg. congruence.
    + apply (list_elem_of_fmap_2 fst) in Hg. done.
  - eapply validateEvolution_Ok; [exact Hprev|apply Hn|]. rewrite Hi. apply Hn.
  - destruct (no_origin _ _ _ _ Hn) as [[Hr [fd Hfd]]|Hsy].
    + rewrite (nm_canonical _ _ _ _ _ (pn_named _ _ _ _ _ Hfd)).
      destruct Hfd as [_ _ _ _ _ [_ _ Hk _]]. rewrite <- Hi in Hk.
      rewrite (Hk _ Hprev). symmetry. by apply Hpn.
    + rewrite (sn_name _ _ Hsy). symmetry. apply Hsn. intros Hr.
      apply (sn_nonempty _ _ Hsy). by rewrite (sn_name _ _ Hsy), Hr.
  - destruct (no_origin _ _ _ _ Hn) as [[Hr [fd Hfd]]|Hsy].
    + destruct Hfd as [_ _ _ _ _ [_ _ Hk _]]. rewrite <- Hi in Hk. by apply Hk.
    + rewrite (sn_source _ _ Hsy). symmetry. apply Hsn. intros Hr.
      apply (sn_nonempty _ _ Hsy). by rewrite (sn_name _ _ Hsy), Hr.
Qed.

(** The storage names of a schema and its tombstones, with their owners. *)
Definition ownsName (ds : DatasetSchema) (i nm : string) : Prop :=
  (exists f, (i, f) ∈ dsNodes ds /\ name (meta f) = nm) \/
  (exists r, r ∈ retiredOf ds /\ rf_identity r = i /\ rf_name r = nm).

(** C7: a storage name belongs to one identity for ever: a protobuf field of the
    new schema never takes a name that another field of the same scope had,
    whether that field is still there or was removed. *)
Theorem compile_names_permanent reg fuel md p ds i j g :
  wfRegistry reg -> wfMessage md ->
  CompileMessage reg fuel (Some md) (Some p) = Ok ds ->
  ownsName p i (name (meta g)) -> i <> "" ->
  (j, g) ∈ dsNodes ds -> synthetic_role (meta g) = SYNTHETIC_ROLE_PROTO_FIELD ->
  parentCompilerIdentity j = parentCompilerIdentity i -> j = i.
Proof.
  intros Hreg Hmd Hc Hown Hne Hg Hrole Hscope. apply CompileMessage_Run in Hc as (c0&c&compiled&Hrun).
  pose proof (Run_Starts Hrun eq_refl) as Hst.
  pose proof (Run_node_ok Hreg Hmd Hrun _ Hg) as (pp&parent&Hn&Hi&_). simpl in *.
  assert (nameOwner c0 (parentCompilerIdentity i) (name (meta g)) = Some i) as Hnm.
  { destruct Hown as [(f&Hf&<-)|(r&Hr&<-&<-)].
    - apply (h_names_fields _ (st_history _ _ _ Hst)). by apply (st_nodes _ _ _ Hst).
    - apply (h_names_retired _ (st_history _ _ _ Hst)). apply (st_retired _ _ _ Hst).
      by rewrite <- elem_of_retiredOf. }
  rewrite <- Hscope, Hi, (NodeOk_scope _ _ _ _ Hn) in Hnm.
  destruct (no_origin _ _ _ _ Hn) as [[_ [fd Hfd]]|Hsy].
  - rewrite Hi. symmetry. by eapply (nm_owner _ _ _ _ _ (pn_named _ _ _ _ _ Hfd)).
  - exfalso. apply (sn_nonempty _ _ Hsy). by rewrite (sn_name _ _ Hsy), Hrole.
Qed.

(** C8: every schema the compiler returns is well formed: each node has a known
    type with a valid payload, a presence that agrees with its role and type,
    and within a message the storage names are distinct and not empty. *)
Theorem compile_wellformed reg fuel md previous ds :
  wfRegistry reg -> wfMessage md ->
  CompileMessage reg fuel (Some md) previous = Ok ds -> wfDataset ds.
Proof.
  apply Run_wfDataset_of.
Qed.

(** C9: compilation terminates: with a recursion bound of the number of messages
    in the pool it returns a schema or an error, recursive messages included. *)
Theorem compile_terminates reg fuel md previous :
  wfRegistry reg -> size reg <= fuel -> CompileMessage reg fuel md previous <> NoFuel.
Proof. apply CompileMessage_total. Qed.
End WithProtoreflect.

(** ** Witnesses: the shop schema and its next version *)

Lemma shop_wf : wfRegistry shop.
Proof. by_computation. Qed.
Lemma shop2_wf : wfRegistry shop2.
Proof. by_computation. Qed.
Lemma Order_wf : wfMessage Order.
Proof. by_computation. Qed.
Lemma Order2_wf : wfMessage Order2.
Proof. by_computation. Qed.

Lemma compile_ids_unique_witness :
  NoDup (ledger orderV2).*1 /\ NoDup (ledger orderV2).*2 /\
  Forall (fun e => (1 <= e.2 <= last_field_id orderV2)%Z) (ledger orderV2) /\
  (0 <= last_field_id orderV2 <= maxStableID)%Z.
Proof.
  apply (compile_ids_unique shop2 4 Order2 (Some orderV1) orderV2 shop2_wf Order2_wf).
  vm_compute. reflexivity.
Defined.

Lemma compile_ledger_append_only_witness : ("field:4", 4%Z) ∈ ledger orderV2.
Proof.
  apply (compile_ledger_append_only shop2 4 Order2 orderV1 orderV2 _ shop2_wf Order2_wf).
  - vm_compute. reflexivity.
  - by_computation.
Defined.

Lemma compile_new_ids_fresh_witness : (15 < 16 <= last_field_id orderV2)%Z.
Proof.
  apply (compile_new_ids_fresh shop2 4 Order2 orderV1 orderV2 "field:10" 16 shop2_wf Order2_wf).
  - vm_compute. reflexivity.
  - by_computation.
  - by_computation.
Defined.

Lemma compile_retirement_exact_witness :
  mkRetiredField "field:4" 4 "shop.v1.Order.email" "email" "email" ∈ retiredOf orderV1 \/
  exists i f, (i, f) ∈ dsNodes orderV1 /\ i ∉ (dsEntries orderV2).*1 /\
    mkRetiredField "field:4" 4 "shop.v1.Order.email" "email" "email" = tombstone i f.
Proof.
  apply (compile_retirement_exact shop2 4 Order2 orderV1 orderV2 _ shop2_wf Order2_wf).
  - vm_compute. reflexivity.
  - vm_compute. left.
Defined.

Lemma compile_first_ids_witness : 7%Z = fd_Number (messageField "shop.v1.Order" "item" 7 "shop.v1.Item").
Proof.
  eapply (compile_first_ids shop 4 Order orderV1
            (messageField "shop.v1.Order" "item" 7 "shop.v1.Item") "field:7" 7 shop_wf Order_wf).
  - vm_compute. reflexivity.
  - left.
  - reflexivity.
  - by_computation.
Defined.

(** The node of an identity in a schema, for the witnesses. *)
Definition nodeAt (ds : DatasetSchema) (i : string) : Field :=
  match List.find (fun n => String.eqb n.1 i) (dsNodes ds) with
  | Some n => n.2
  | None => mkField zeroMeta None
  end.
Lemma nodeAt_in ds i :
  existsb (fun n => String.eqb n.1 i) (dsNodes ds) = true -> (i, nodeAt ds i) ∈ dsNodes ds.
Proof.
  unfold nodeAt. induction (dsNodes ds) as [|[j f] l IH]; [done|]. simpl.
  destruct (String.eqb_spec j i) as [->|]; [left|]. intros Hl. right. by apply IH.
Qed.

Lemma compile_evolution_safe_witness :
  SameShape (nodeAt orderV1 "field:1") (nodeAt orderV2 "field:1").
Proof.
  eapply (compile_evolution_safe shop2 4 Order2 orderV1 orderV2 "field:1" _ _ shop2_wf Order2_wf).
  - vm_compute. reflexivity.
  - apply nodeAt_in. vm_compute. reflexivity.
  - apply nodeAt_in. vm_compute. reflexivity.
Defined.

Lemma compile_names_permanent_witness : "field:1" = "field:1".
Proof.
  apply (compile_names_permanent shop2 4 Order2 orderV1 orderV2 "field:1" "field:1"
           (nodeAt orderV2 "field:1") shop2_wf Order2_wf).
  - vm_compute. reflexivity.
  - left. exists (nodeAt orderV1 "field:1"). split; [apply nodeAt_in|]; vm_compute; reflexivity.
  - discriminate.
  - apply nodeAt_in. vm_compute. reflexivity.
  - vm_compute. reflexivity.
  - reflexivity.
Defined.

Lemma compile_wellformed_witness : wfDataset orderV2.
Proof.
  apply (compile_wellformed shop2 4 Order2 (Some orderV1) orderV2 shop2_wf Order2_wf).
  vm_compute. reflexivity.
Defined.

(** A message that contains itself: the compiler refuses it, with fuel left. *)
Definition Node : MessageDescriptor :=
  plainMessage "tree.Node" [messageField "tree.Node" "next" 1 "tree.Node"].
Lemma compile_terminates_witness :
  CompileMessage {[ "tree.Node" := Node ]} 1 (Some Node) None <> NoFuel.
Proof.
  apply compile_terminates.
  - by_computation.
  - vm_compute. reflexivity.
Defined.
Example recursive_message_refused :
  CompileMessage {[ "tree.Node" := Node ]} 1 (Some Node) None =
  Err ("compile message " +:+ Quote "tree.Node" +:+ ": field " +:+ Quote "tree.Node.next" +:+
       ": recursive protobuf message " +:+ Quote "tree.Node" +:+ " is not a finite row schema").
Proof. vm_compute. reflexivity. Qed.
