(* ===== verification/CompileBundle.v ===== *)
(** * Compiling a descriptor set (src/go/data/compiler.go)

    [CompileDescriptorBytes]: the selection of dataset roots, the check of the
    annotation numbers, the index of the previous bundle and the compilation of
    each root.  The protobuf runtime (decoding a descriptor set, resolving it,
    looking a name up) is the class [DescriptorRuntime]. *)
From S2P Require Import Prelude GoStrings StringFacts Sha256 Schema WellFormed Bundle Descriptor Compiler.

(** ** The raw descriptor set (package descriptorpb)

    What [validateAnnotationOptionNumbers] reads of it. *)
Record FieldDescriptorProto : Type := mkFieldDescriptorProto {
  fdp_name : string;
  fdp_number : Z;
  fdp_extendee : string;
  fdp_is_message : bool;
  fdp_type_name : string;
  fdp_is_optional : bool
}.
Inductive DescriptorProto : Type :=
  | mkDescriptorProto (dp_name : string) (nested_type : list (option DescriptorProto))
      (extension : list (option FieldDescriptorProto)).
Record FileDescriptorProto : Type := mkFileDescriptorProto {
  file_package : string;
  file_message_type : list (option DescriptorProto);
  file_extension : list (option FieldDescriptorProto)
}.
Definition FileDescriptorSet : Type := list (option FileDescriptorProto).

(** ** The resolved pool (package protoregistry)

    A message with the messages declared inside it, the files in [RangeFiles]
    order, and the lookup of a full name: an error, or a descriptor that is a
    message or something else. *)
Inductive MessageTree : Type :=
  | mkMessageTree (descriptor : MessageDescriptor) (nested : list MessageTree).
Record Files : Type := mkFiles {
  files_messages : list (list MessageTree);
  FindDescriptorByName : string -> string + option MessageDescriptor;
  files_registry : Registry
}.

Class DescriptorRuntime : Type := {
  FileDescriptorSet_Unmarshal : string -> string + FileDescriptorSet;
  NewFiles : FileDescriptorSet -> string + Files
}.

(** Documented behaviour: a message the pool finds is found under its own name,
    and its messages are well formed. *)
Class DescriptorRuntimeLaws `{DescriptorRuntime} (wf : Registry -> Prop) : Prop := {
  FindDescriptorByName_name : forall fds files nm md,
    NewFiles fds = inr files -> FindDescriptorByName files nm = inr (Some md) ->
    md_FullName md = nm /\ files_registry files !! nm = Some md;
  NewFiles_wf : forall fds files, NewFiles fds = inr files -> wf (files_registry files)
}.

(** ** The annotation numbers *)

Definition optionNumber : Z := 51974.

(** The protected extendees, with the declaration Invariant makes. *)
Definition allowedDeclaration (extendee : string) : option (string * string) :=
  assoc extendee [
    (".google.protobuf.MessageOptions",
      ("invariant.data.v1.dataset", ".invariant.data.v1.DatasetOptions"));
    (".google.protobuf.FieldOptions",
      ("invariant.data.v1.field", ".invariant.data.v1.FieldOptions"))
  ].

Definition checkExtension (scope : string) (extension : option FieldDescriptorProto) : Outcome unit :=
  match extension with
  | None => Ok tt
  | Some e =>
      if negb (fdp_number e =? optionNumber)%Z then Ok tt else
      match allowedDeclaration (fdp_extendee e) with
      | None => Ok tt
      | Some (expectedName, expectedType) =>
          let nm := TrimPrefix (scope +:+ "." +:+ fdp_name e) "." in
          _ ← failIf (negb (String.eqb nm expectedName))
                ("custom option number " +:+ FormatInt optionNumber +:+ " for " +:+
                 TrimPrefix (fdp_extendee e) "." +:+ " is assigned to " +:+ Quote expectedName +:+
                 " by Invariant but also declared by " +:+ Quote nm);
          failIf (negb (fdp_is_message e) || negb (String.eqb (fdp_type_name e) expectedType)
                  || negb (fdp_is_optional e))
            ("invariant custom option " +:+ Quote expectedName +:+ " has an unexpected declaration")
      end
  end.

Fixpoint visitMessageExtensions (scope : string) (message : DescriptorProto) {struct message}
  : Outcome unit :=
  match message with
  | mkDescriptorProto nm nested extensions =>
      let messageScope := TrimPrefix (scope +:+ "." +:+ nm) "." in
      _ ← forEach (checkExtension messageScope) extensions;
      forEach (fun m =>
        match m with
        | None => Ok tt
        | Some m => visitMessageExtensions messageScope m
        end) nested
  end.

Definition visitExtensions (scope : string) (messages : list (option DescriptorProto))
    (extensions : list (option FieldDescriptorProto)) : Outcome unit :=
  _ ← forEach (checkExtension scope) extensions;
  forEach (fun m =>
    match m with
    | None => Ok tt
    | Some m => visitMessageExtensions scope m
    end) messages.

Definition validateAnnotationOptionNumbers (files : FileDescriptorSet) : Outcome unit :=
  forEach (fun file =>
    match file with
    | None => Ok tt
    | Some f => visitExtensions (file_package f) (file_message_type f) (file_extension f)
    end) files.

(** ** Discovering annotated datasets *)

(** The names of the annotated messages of a tree, in declaration order. *)
Fixpoint visitMessage (tree : MessageTree) {struct tree} : Outcome (list string) :=
  match tree with
  | mkMessageTree md nested =>
      annotated ← wrapErr ("message " +:+ Quote (md_FullName md) +:+ ": ") (hasDatasetOption md);
      inner ← mapOutcome visitMessage nested;
      Ok ((if (annotated : bool) then [md_FullName md] else []) ++ concat inner)
  end.

Definition annotatedDatasetNames (files : Files) : Outcome (list string) :=
  names ← mapOutcome (mapOutcome visitMessage) (files_messages files);
  Ok (sortStrings (concat (map (@concat string) names))).

(** ** Selecting the roots *)

(** The loop over the selected names: trimmed, refused when empty, first
    occurrence kept. *)
Definition selectName (names : list string) (rawName : string) : Outcome (list string) :=
  let nm := TrimPrefix (TrimSpace rawName) "." in
  if decide (nm = "") then Err "compile descriptor: dataset message name must not be empty"
  else if decide (nm ∈ names) then Ok names
  else Ok (names ++ [nm]).
Definition selectNames (selected : list string) : Outcome (list string) :=
  foldOutcome selectName selected [].

Section WithRuntimes.
Context `{Protoreflect} `{BundleRuntime} `{DescriptorRuntime}.

Definition indexPreviousDataset (indexed : gmap string DatasetSchema) (dataset : option DatasetSchema)
  : Outcome (gmap string DatasetSchema) :=
  match dataset with
  | None => Err "previous bundle contains a dataset without source_message"
  | Some ds =>
      if decide (source_message ds = "")
      then Err "previous bundle contains a dataset without source_message"
      else match indexed !! source_message ds with
           | Some _ => Err ("previous dataset " +:+ Quote (source_message ds) +:+ " is duplicated")
           | None => Ok (<[source_message ds := ds]> indexed)
           end
  end.
Definition indexPreviousBundle (previous : option SchemaBundle) : Outcome (gmap string DatasetSchema) :=
  match previous with
  | None => Ok ∅
  | Some _ =>
      migrated ← wrapErr "previous bundle: " (MigrateSchemaBundle previous);
      foldOutcome indexPreviousDataset (datasets migrated) ∅
  end.

(** The previous roots that are not selected, sorted. *)
Definition removedRoots (previous : gmap string DatasetSchema) (names : list string) : list string :=
  sortStrings (List.filter (fun nm => negb (bool_decide (nm ∈ names))) (map fst (map_to_list previous))).

(** One root: [owners] maps the dataset storage names taken so far. *)
Definition compileRoot (files : Files) (previous : gmap string DatasetSchema)
    (state : list DatasetSchema * gmap string string) (nm : string)
  : Outcome (list DatasetSchema * gmap string string) :=
  match FindDescriptorByName files nm with
  | inl e => Err ("compile descriptor: resolve dataset " +:+ Quote nm +:+ ": " +:+ e)
  | inr None => Err ("compile descriptor: " +:+ Quote nm +:+ " is not a protobuf message")
  | inr (Some md) =>
      _ ← failIf (md_IsMapEntry md)
            ("compile descriptor: " +:+ Quote nm +:+ " is a synthetic protobuf map entry");
      dataset ← wrapErr ("compile descriptor: dataset " +:+ Quote nm +:+ ": ")
        (CompileMessage (files_registry files) (size (files_registry files)) (Some md)
           (previous !! nm));
      match state.2 !! ds_name dataset with
      | Some owner =>
          Err ("compile descriptor: dataset storage name " +:+ Quote (ds_name dataset) +:+
               " collides for protobuf messages " +:+ Quote owner +:+ " and " +:+ Quote nm)
      | None => Ok (state.1 ++ [dataset], <[ds_name dataset := nm]> state.2)
      end
  end.

Definition CompileDescriptorBytes (descriptor : string) (messageNames : list string)
    (previous : option SchemaBundle) : Outcome SchemaBundle :=
  match FileDescriptorSet_Unmarshal descriptor with
  | inl e => Err ("compile descriptor: unmarshal FileDescriptorSet: " +:+ e)
  | inr fds =>
  _ ← wrapErr "compile descriptor: " (validateAnnotationOptionNumbers fds);
  match NewFiles fds with
  | inl e => Err ("compile descriptor: resolve FileDescriptorSet: " +:+ e)
  | inr files =>
  selected ←
    match messageNames with
    | [] => wrapErr "compile descriptor: discover datasets: " (annotatedDatasetNames files)
    | _ => Ok messageNames
    end;
  names ← selectNames selected;
  _ ← failIf (bool_decide (names = []))
        "compile descriptor: at least one dataset message must be selected or annotated";
  previousByMessage ← wrapErr "compile descriptor: " (indexPreviousBundle previous);
  let removed := removedRoots previousByMessage names in
  _ ← failIf (negb (bool_decide (removed = [])))
        ("compile descriptor: selected dataset roots omit previous datasets " +:+
         Join (map Quote removed) ", " +:+ "; dataset roots are append-only");
  state ← foldOutcome (compileRoot files previousByMessage) (sortStrings names) ([], ∅);
  Ok (mkSchemaBundle IRVersion MappingVersion (Sum256 descriptor) (map Some state.1))
  end end.
End WithRuntimes.
