(* ===== verification/BundleSpec.v ===== *)
(** * The contract of schema bundles

    Theorems on [CompileDescriptorBytes] (the roots of a bundle are append-only,
    sorted and distinct, and the history of each is kept), on the migration of
    bundles and on their round trip through the wire format. *)
From S2P Require Import Prelude GoStrings StringFacts Sha256 Schema WellFormed Bundle Descriptor.
From S2P Require Import Compiler Examples CompilerFacts HistoryFacts Evolution CompiledTrees.
From S2P Require Import Termination CompileSpec CompileBundle.

(** ** Sorting *)

#[export] Instance string_le_total : Total string_le.
Proof. intros s t. unfold string_le. destruct (String.leb_total s t); auto. Qed.

Lemma sortStrings_Permutation l : sortStrings l ≡ₚ l.
Proof. apply merge_sort_Permutation. Qed.
Lemma sortStrings_Sorted l : Sorted string_le (sortStrings l).
Proof. apply Sorted_merge_sort, _. Qed.

(** ** Selecting roots *)

Definition normalizedRoot (raw : string) : string := TrimPrefix (TrimSpace raw) ".".

Lemma selectName_Ok acc raw names :
  selectName acc raw = Ok names ->
  NoDup acc -> "" ∉ acc ->
  NoDup names /\ "" ∉ names /\ forall n, n ∈ names <-> n ∈ acc \/ n = normalizedRoot raw.
Proof.
  unfold selectName. fold (normalizedRoot raw). intros Hs Hnd He.
  case_decide; [done|]. case_decide; injection Hs as <-.
  - split_and!; [done..|]. naive_solver.
  - split_and!.
    + apply list.NoDup_app. split_and!; [done|set_solver|apply NoDup_singleton].
    + set_solver.
    + intros n. set_solver.
Qed.

Lemma selectNames_Ok raws acc names :
  foldOutcome selectName raws acc = Ok names ->
  NoDup acc -> "" ∉ acc ->
  NoDup names /\ "" ∉ names /\
  forall n, n ∈ names <-> n ∈ acc \/ exists raw, raw ∈ raws /\ n = normalizedRoot raw.
Proof.
  revert acc. induction raws as [|raw raws IH]; intros acc Hs Hnd He; simpl in Hs.
  - injection Hs as <-. set_solver.
  - apply bind_Ok in Hs as (acc'&Hacc&Hs). apply selectName_Ok in Hacc as (Hnd'&He'&Hiff); [|done..].
    apply IH in Hs as (?&?&Hall); [|done..]. split_and!; [done..|].
    intros n. rewrite Hall, Hiff. set_solver.
Qed.

Section WithRuntimes.
Context `{Protoreflect} `{BundleRuntime} `{DescriptorRuntime}.

(** ** The previous bundle *)

Lemma MigrateSchemaBundle_datasets b m :
  MigrateSchemaBundle (Some b) = Ok m ->
  datasets m = datasets b /\ ir_version m = IRVersion /\ mapping_version m = MappingVersion /\
  source_descriptor_sha256 m = source_descriptor_sha256 b.
Proof.
  unfold MigrateSchemaBundle. intros Hm.
  destruct (_ && _)%bool eqn:E.
  - injection Hm as <-. apply andb_true_iff in E as [?%N.eqb_eq ?%N.eqb_eq]. done.
  - destruct ((ir_version b =? 3)%N && _)%bool; [|done]. M_inv Hm. done.
Qed.

Lemma indexPreviousDatasets_Ok l m0 m :
  foldOutcome indexPreviousDataset l m0 = Ok m ->
  (forall n d, m0 !! n = Some d -> source_message d = n) ->
  (forall n d, m !! n = Some d <-> m0 !! n = Some d \/ Some d ∈ l /\ source_message d = n) /\
  Forall (fun o => is_Some o) l.
Proof.
  revert m0. induction l as [|[d|] l IH]; intros m0 Hm Hm0; simpl in Hm.
  - injection Hm as <-. split; [set_solver|constructor].
  - apply bind_Ok in Hm as (m1&Hd&Hm). case_decide; [done|].
    destruct (m0 !! source_message d) eqn:E; [done|]. injection Hd as <-.
    apply IH in Hm as [Hall Hs].
    + split; [|constructor; eauto]. intros n d'. rewrite Hall, lookup_insert.
      case_decide; set_solver.
    + intros n d'. rewrite lookup_insert. case_decide; naive_solver.
  - done.
Qed.

Lemma indexPreviousBundle_Ok p m :
  indexPreviousBundle (Some p) = Ok m ->
  forall n d, m !! n = Some d <-> Some d ∈ datasets p /\ source_message d = n.
Proof.
  unfold indexPreviousBundle. intros Hm n d. apply bind_Ok in Hm as (mig&Hmig%wrapErr_Ok&Hm).
  apply MigrateSchemaBundle_datasets in Hmig as (<-&_).
  apply indexPreviousDatasets_Ok in Hm as [-> _]; [|intros *; by rewrite lookup_empty].
  rewrite lookup_empty. naive_solver.
Qed.

Lemma removedRoots_nil m names :
  removedRoots m names = [] -> forall n d, m !! n = Some d -> n ∈ names.
Proof.
  unfold removedRoots. intros Hr n d Hn.
  assert (List.filter (fun nm => negb (bool_decide (nm ∈ names))) (map fst (map_to_list m)) = []) as Hf.
  { apply Permutation_nil_r. rewrite <- Hr. symmetry. apply sortStrings_Permutation. }
  destruct (decide (n ∈ names)) as [|Hne]; [done|]. exfalso.
  assert (In n []) as []. rewrite <- Hf. apply filter_In. split.
  - apply list_elem_of_In. apply elem_of_map_to_list in Hn. by apply (list_elem_of_fmap_2 fst) in Hn.
  - by rewrite bool_decide_eq_false_2.
Qed.

(** ** The roots of a run *)

(** What a root contributes. *)
Definition rootCompiled (files : Files) (previous : gmap string DatasetSchema) (nm : string)
    (ds : DatasetSchema) : Prop :=
  exists md, FindDescriptorByName files nm = inr (Some md) /\
    CompileMessage (files_registry files) (size (files_registry files)) (Some md) (previous !! nm)
    = Ok ds.

Lemma compileRoots_Ok files previous names ds0 owners ds owners' :
  foldOutcome (compileRoot files previous) names (ds0, owners) = Ok (ds, owners') ->
  exists new, ds = ds0 ++ new /\ Forall2 (rootCompiled files previous) names new /\
    NoDup (map ds_name new) /\ Forall (fun d => owners !! ds_name d = None) new.
Proof.
  revert ds0 owners. induction names as [|nm names IH]; intros ds0 owners Hr; simpl in Hr.
  - injection Hr as <- <-. exists []. rewrite app_nil_r. split_and!; constructor.
  - apply bind_Ok in Hr as ([ds1 owners1]&Hroot&Hr). unfold compileRoot in Hroot.
    destruct (FindDescriptorByName files nm) as [|[md|]] eqn:Hfind; [done| |done].
    apply bind_Ok in Hroot as (?&_&Hroot). apply bind_Ok in Hroot as (dataset&Hcomp%wrapErr_Ok&Hroot).
    cbn [fst snd] in Hroot. destruct (owners !! ds_name dataset) eqn:Hfree; [done|].
    injection Hroot as <- <-.
    apply IH in Hr as (new&->&Hall&Hnd&Hout). exists (dataset :: new). split_and!.
    + by rewrite <- app_assoc.
    + constructor; [by exists md|done].
    + simpl. apply list.NoDup_cons. split; [|done]. intros (d&Heq&Hd)%list_elem_of_fmap.
      rewrite list.Forall_forall in Hout. specialize (Hout d Hd). rewrite <- Heq in Hout.
      by rewrite lookup_insert_eq in Hout.
    + constructor; [done|]. eapply list.Forall_impl; [exact Hout|].
      intros d Hd. by apply lookup_insert_None in Hd as [? _].
Qed.

(** A successful compilation of a bundle. *)
Record BundleRun (descriptor : string) (messageNames : list string) (previous : option SchemaBundle)
    (b : SchemaBundle) (fds : FileDescriptorSet) (files : Files) (selected names : list string)
    (index : gmap string DatasetSchema) (ds : list DatasetSchema) : Prop := mkBundleRun {
  br_annotations : validateAnnotationOptionNumbers fds = Ok tt;
  br_files : NewFiles fds = inr files;
  br_selected : match messageNames with
                | [] => annotatedDatasetNames files = Ok selected
                | _ => selected = messageNames
                end;
  br_names : selectNames selected = Ok names;
  br_some : names <> [];
  br_index : indexPreviousBundle previous = Ok index;
  br_kept : removedRoots index names = [];
  br_roots : Forall2 (rootCompiled files index) (sortStrings names) ds;
  br_storage : NoDup (map ds_name ds);
  br_bundle : b = mkSchemaBundle IRVersion MappingVersion (Sum256 descriptor) (map Some ds)
}.

Lemma CompileDescriptorBytes_run descriptor messageNames previous b :
  CompileDescriptorBytes descriptor messageNames previous = Ok b ->
  exists fds files selected names index ds,
    BundleRun descriptor messageNames previous b fds files selected names index ds.
Proof.
  unfold CompileDescriptorBytes. intros Hc.
  destruct (FileDescriptorSet_Unmarshal descriptor) as [|fds]; [done|].
  apply bind_Ok in Hc as ([]&Hann%wrapErr_Ok&Hc).
  destruct (NewFiles fds) as [|files] eqn:Hfiles; [done|].
  apply bind_Ok in Hc as (selected&Hsel&Hc). apply bind_Ok in Hc as (names&Hnames&Hc).
  apply bind_Ok in Hc as (?&Hne%failIf_Ok%bool_decide_eq_false&Hc).
  apply bind_Ok in Hc as (index&Hindex%wrapErr_Ok&Hc).
  apply bind_Ok in Hc as (?&Hrem%failIf_Ok&Hc).
  apply bind_Ok in Hc as ([ds owners]&Hroots&Hc). injection Hc as <-.
  apply negb_false_iff, bool_decide_eq_true in Hrem.
  apply compileRoots_Ok in Hroots as (new&->&Hall&Hnd&_).
  exists fds, files, selected, names, index, new. constructor; try done.
  destruct messageNames; [by apply wrapErr_Ok in Hsel|by injection Hsel].
Qed.

Lemma CompileMessage_source reg fuel md previous ds :
  CompileMessage reg fuel (Some md) previous = Ok ds -> source_message ds = md_FullName md.
Proof. intros (c0&c&compiled&Hrun)%CompileMessage_Run. by rewrite (run_dataset _ _ _ _ _ _ _ _ Hrun). Qed.

Section Laws.
Context `{!DescriptorRuntimeLaws wfRegistry}.

Lemma rootCompiled_wf fds files index nm ds :
  NewFiles fds = inr files -> rootCompiled files index nm ds ->
  source_message ds = nm /\
  exists md, wfRegistry (files_registry files) /\ wfMessage md /\
    CompileMessage (files_registry files) (size (files_registry files)) (Some md) (index !! nm) = Ok ds.
Proof.
  intros Hf (md&Hfind&Hc). destruct (FindDescriptorByName_name _ _ _ _ Hf Hfind) as [Hn Hl].
  split; [by rewrite (CompileMessage_source _ _ _ _ _ Hc)|]. exists md.
  pose proof (NewFiles_wf _ _ Hf) as Hwf. split_and!; [done| |done]. by apply (Hwf nm).
Qed.

Lemma BundleRun_sources descriptor messageNames previous b fds files selected names index ds :
  BundleRun descriptor messageNames previous b fds files selected names index ds ->
  map source_message ds = sortStrings names.
Proof.
  intros [_ Hf _ _ _ _ _ Hroots _ _].
  induction Hroots as [|nm d names' ds' Hr _ IH]; [done|]. simpl.
  destruct (rootCompiled_wf _ _ _ _ _ Hf Hr) as [-> _]. by rewrite IH.
Qed.

Lemma bundle_extended descriptor messageNames p b d :
  CompileDescriptorBytes descriptor messageNames (Some p) = Ok b ->
  Some d ∈ datasets p ->
  exists d', Some d' ∈ datasets b /\ source_message d' = source_message d /\
    (forall e, e ∈ ledger d -> e ∈ ledger d') /\ (last_field_id d <= last_field_id d')%Z.
Proof.
  intros (fds&files&selected&names&index&ds&Hrun)%CompileDescriptorBytes_run Hd.
  pose proof (indexPreviousBundle_Ok _ _ (br_index _ _ _ _ _ _ _ _ _ _ Hrun) (source_message d) d) as Hi.
  assert (index !! source_message d = Some d) as Hidx by naive_solver.
  pose proof (removedRoots_nil _ _ (br_kept _ _ _ _ _ _ _ _ _ _ Hrun) _ _ Hidx) as Hin.
  rewrite <- sortStrings_Permutation in Hin. apply list_elem_of_lookup in Hin as [k Hk].
  destruct (Forall2_lookup_l _ _ _ _ _ (br_roots _ _ _ _ _ _ _ _ _ _ Hrun) Hk) as (d'&Hd'&Hroot).
  destruct (rootCompiled_wf _ _ _ _ _ (br_files _ _ _ _ _ _ _ _ _ _ Hrun) Hroot)
    as (Hsrc&md&Hreg&Hmd&Hc). rewrite Hidx in Hc.
  apply CompileMessage_Run in Hc as (c0&c&compiled&Hr).
  exists d'. split_and!; [|done| |].
  - rewrite (br_bundle _ _ _ _ _ _ _ _ _ _ Hrun). simpl. apply (list_elem_of_fmap_2 Some).
    by eapply list_elem_of_lookup_2.
  - intros e. by eapply Run_ledger_mono.
  - by eapply Run_last_mono.
Qed.

(** C10: the dataset roots of a bundle are append-only and so is the history of
    each: every dataset of the previous bundle is in the new one under the same
    message, and no identity or stable id of it is lost. *)
Theorem bundle_append_only descriptor messageNames p b d :
  CompileDescriptorBytes descriptor messageNames (Some p) = Ok b ->
  Some d ∈ datasets p ->
  exists d', Some d' ∈ datasets b /\ source_message d' = source_message d /\
    (forall e, e ∈ ledger d -> e ∈ ledger d') /\ (last_field_id d <= last_field_id d')%Z.
Proof. apply bundle_extended. Qed.

(** The datasets of a bundle are those of the selected messages, each once,
    sorted by message name, with distinct storage names; an explicit selection
    wins over the annotations. *)
Theorem bundle_roots_exact descriptor messageNames previous b :
  CompileDescriptorBytes descriptor messageNames previous = Ok b ->
  exists ds, datasets b = map Some ds /\ ds <> [] /\
    Sorted string_le (map source_message ds) /\ NoDup (map source_message ds) /\
    NoDup (map ds_name ds) /\
    (messageNames <> [] -> forall n, n ∈ map source_message ds <->
       exists raw, raw ∈ messageNames /\ n = normalizedRoot raw).
Proof.
  intros (fds&files&selected&names&index&ds&Hrun)%CompileDescriptorBytes_run. exists ds.
  rewrite (BundleRun_sources _ _ _ _ _ _ _ _ _ _ Hrun).
  destruct (selectNames_Ok _ _ _ (br_names _ _ _ _ _ _ _ _ _ _ Hrun)) as (Hnd&_&Hall);
    [constructor|set_solver|].
  split_and!.
  - by rewrite (br_bundle _ _ _ _ _ _ _ _ _ _ Hrun).
  - intros ->. apply (br_some _ _ _ _ _ _ _ _ _ _ Hrun). apply Permutation_nil_r.
    rewrite <- (sortStrings_Permutation names).
    by rewrite <- (BundleRun_sources _ _ _ _ _ _ _ _ _ _ Hrun).
  - apply sortStrings_Sorted.
  - by rewrite sortStrings_Permutation.
  - apply (br_storage _ _ _ _ _ _ _ _ _ _ Hrun).
  - intros Hne n. rewrite sortStrings_Permutation, Hall.
    pose proof (br_selected _ _ _ _ _ _ _ _ _ _ Hrun) as Hsel.
    destruct messageNames as [|m ms]; [done|]. subst selected. set_solver.
Qed.

(** A compiled bundle is valid for every consumer: it has the current
    versions, the SHA-256 digest of its source, and only well-formed datasets
    with unique, bounded stable ids. *)
Theorem bundle_valid descriptor messageNames previous b :
  CompileDescriptorBytes descriptor messageNames previous = Ok b ->
  ValidateSchemaBundle (Some b) = Ok tt /\
  source_descriptor_sha256 b = Sum256 descriptor /\
  forall o, o ∈ datasets b -> exists d, o = Some d /\ wfDataset d /\ NoDup (ledger d).*2 /\
    (0 <= last_field_id d <= maxStableID)%Z.
Proof.
  intros (fds&files&selected&names&index&ds&Hrun)%CompileDescriptorBytes_run.
  rewrite (br_bundle _ _ _ _ _ _ _ _ _ _ Hrun). split_and!; [done..|]. simpl.
  intros o (d&->&Hd)%list_elem_of_fmap. exists d. split; [done|].
  apply list_elem_of_lookup in Hd as [k Hk].
  destruct (Forall2_lookup_r _ _ _ _ _ (br_roots _ _ _ _ _ _ _ _ _ _ Hrun) Hk) as (nm&_&Hroot).
  destruct (rootCompiled_wf _ _ _ _ _ (br_files _ _ _ _ _ _ _ _ _ _ Hrun) Hroot)
    as (_&md&Hreg&Hmd&Hc). apply CompileMessage_Run in Hc as (c0&c&compiled&Hr).
  split_and!.
  - by eapply Run_wfDataset.
  - by eapply Run_ids_nodup.
  - rewrite (Run_last Hr). apply (inv_last c (Run_Inv Hreg Hmd Hr)).
  - rewrite (Run_last Hr). apply (inv_last c (Run_Inv Hreg Hmd Hr)).
Qed.
(** A well-formed tree has no nil in it. *)
Lemma wfKind_whole k : wfKind k -> wholeKind k.
Proof.
  destruct k as [|[]|[e|]|[fs|]|[[]|]|[[]|]|[]|[]|[]|[]|[]|[]]; cbn; try done.
  - intros [_ ?]. by exists e.
  - intros (l&->&_). exists (map Some l). split; [done|]. apply list.Forall_fmap, list.Forall_true. by eexists.
Qed.
Lemma wfScope_set l : wfScope l -> Forall is_Some l.
Proof. intros (fs&->&_). apply list.Forall_fmap, list.Forall_true. by eexists. Qed.
Lemma compiled_whole descriptor messageNames previous b :
  CompileDescriptorBytes descriptor messageNames previous = Ok b -> wholeBundle b.
Proof.
  intros (fds&files&selected&names&index&ds&Hrun)%CompileDescriptorBytes_run.
  rewrite (br_bundle _ _ _ _ _ _ _ _ _ _ Hrun). unfold wholeBundle. cbn [datasets]. apply list.Forall_forall.
  intros o (d&->&Hd)%list_elem_of_fmap. exists d. split; [done|]. apply list_elem_of_lookup in Hd as [k Hk].
  destruct (Forall2_lookup_r _ _ _ _ _ (br_roots _ _ _ _ _ _ _ _ _ _ Hrun) Hk) as (nm&_&Hroot).
  destruct (rootCompiled_wf _ _ _ _ _ (br_files _ _ _ _ _ _ _ _ _ _ Hrun) Hroot) as (_&md&Hreg&Hmd&Hc).
  destruct (Run_wfDataset_of _ _ _ _ _ Hreg Hmd Hc) as [Hscope Hnodes]. apply CompileMessage_Run in Hc as (c0&c&compiled&Hr).
  split_and!; [by apply wfScope_set| |].
  - rewrite (run_dataset _ _ _ _ _ _ _ _ Hr). cbn. apply list.Forall_fmap, list.Forall_true. by eexists.
  - eapply list.Forall_impl; [exact Hnodes|]. intros f (_&Hk'&_). by apply wfKind_whole.
Qed.
End Laws.

(** ** Migration *)

(** The mapping version 2 had no fixed-length lists. *)
Definition variableLength (f : Field) : Prop :=
  match GetKind (typ f) with
  | DataType_List l => GetFixedLength l = 0%N
  | _ => True
  end.

Lemma bind_unit_Ok (m n : Outcome unit) : (_ ← m; n) = Ok tt <-> m = Ok tt /\ n = Ok tt.
Proof. rewrite bind_Ok. split; [intros ([]&?&?); done|intros [??]; by exists tt]. Qed.

Lemma validateLegacyListShape_iff f path :
  validateLegacyListShape f path = Ok tt <-> Forall variableLength (subFields f).
Proof.
  revert f path. apply (Field_tree_ind (fun f => forall path,
      validateLegacyListShape f path = Ok tt <-> Forall variableLength (subFields f))
    (fun o => forall f, o = Some f -> forall path,
      validateLegacyListShape f path = Ok tt <-> Forall variableLength (subFields f)));
    [done|by intros f IH g [= ->]|].
  intros m t IH path. rewrite subFields_unfold, list.Forall_cons, Forall_childSubFields.
  destruct t as [[p k]|]; simpl in *; [|set_solver].
  assert (forall o (q : Field -> string), o ∈ childrenOf k ->
    match o with None => Ok tt | Some c => validateLegacyListShape c (q c) end = Ok tt <->
    forall f, o = Some f -> Forall variableLength (subFields f)) as Hopt.
  { intros o q Ho. rewrite list.Forall_forall in IH. destruct o as [f|]; [|naive_solver].
    rewrite (IH _ Ho f eq_refl). naive_solver. }
  clear IH. unfold variableLength at 1.
  destruct k as [| | |[fs|]|[[e n]|]|[[k v]|]| | | | | |]; simpl in *;
    try (split; [intros _|done]; split; [done|]; set_solver).
  - rewrite forEach_Ok, list.Forall_forall. split.
    + intros Hall. split; [done|]. intros f Hf.
      by apply (proj1 (Hopt _ (fun c => path +:+ "." +:+ name (meta c)) Hf) (Hall _ Hf)).
    + intros [_ Hall] o Ho. apply Hopt; [done|]. intros f ->. by apply Hall.
  - specialize (Hopt e (fun _ => path +:+ "[]") ltac:(left)). destruct (N.eqb_spec n 0); simpl.
    + rewrite Hopt. set_solver.
    + split; [done|]. by intros [? _].
  - rewrite bind_unit_Ok, (Hopt k (fun _ => path +:+ ".key")), (Hopt v (fun _ => path +:+ ".value"))
      by set_solver. set_solver.
Qed.

(** A message and every message inside it. *)
Fixpoint subMessages (m : Message) : list Message :=
  match m with
  | mkMessage _ populated =>
      m :: flat_map (fun entry =>
        match entry with
        | MapEntry _ (Some items) => flat_map (fun item => match item with (_, x) => subMessages x end) items
        | ListEntry _ (Some items) => flat_map subMessages items
        | SingularEntry _ (Some x) => subMessages x
        | _ => []
        end) populated
  end.
Definition understood (m : Message) : Prop := match m with mkMessage unknown _ => unknown = "" end.
Lemma forEach_flat {A} (f : A -> Outcome unit) (g : A -> list Message) l :
  Forall (fun x => f x = Ok tt <-> Forall understood (g x)) l -> forEach f l = Ok tt <-> Forall understood (flat_map g l).
Proof.
  intros Hl. rewrite forEach_Ok. induction Hl as [|x l Hx _ IH]; [split; constructor|]. cbn. by rewrite list.Forall_cons, list.Forall_app, Hx, IH.
Qed.
Lemma rejectUnknownFields_iff : forall m path what, rejectUnknownFields m path what = Ok tt <-> Forall understood (subMessages m).
Proof.
  fix IH 1. intros [unknown populated] path what. cbn [rejectUnknownFields subMessages]. rewrite list.Forall_cons. cbn [understood].
  destruct unknown as [|a unknown]; cbn [String.length Nat.eqb negb]; [|split; [done|by intros [? _]]].
  assert (("" = "" :> string) <-> True) as -> by done. rewrite (left_id True and). apply forEach_flat.
  induction populated as [|e l IHl]; constructor; [|exact IHl]. clear IHl l.
  destruct e as [fname [items|]|fname [items|]|fname [m|]]; try (by split; constructor).
  - apply forEach_flat. induction items as [|[k m] items IHi]; constructor; [apply IH|exact IHi].
  - generalize 0. induction items as [|m items IHi]; intros n; cbn; [by split; constructor|].
    by rewrite bind_unit_Ok, list.Forall_app, IH, IHi.
  - apply IH.
Qed.

(** The bundle under the current versions. *)
Definition upgraded (b : SchemaBundle) : SchemaBundle :=
  mkSchemaBundle IRVersion MappingVersion (source_descriptor_sha256 b) (datasets b).
Definition listsVary (b : SchemaBundle) : Prop :=
  forall d f, Some d ∈ datasets b -> Some f ∈ ds_fields d -> Forall variableLength (subFields f).
Lemma legacyLists_iff b :
  forEach (fun dataset => match dataset with
                          | None => Ok tt
                          | Some ds => forEach (fun field => validateLegacyListShapeOpt field (name (metaOf field))) (ds_fields ds)
                          end) (datasets b) = Ok tt <-> listsVary b.
Proof.
  rewrite forEach_Ok, list.Forall_forall. split.
  - intros Hall d f Hd Hf. specialize (Hall _ Hd). cbn in Hall. rewrite forEach_Ok, list.Forall_forall in Hall.
    by eapply validateLegacyListShape_iff, (Hall (Some f)).
  - intros Hall [d|] Hd; [|done]. rewrite forEach_Ok, list.Forall_forall. intros [f|] Hf; [|done]. eapply validateLegacyListShape_iff, Hall; done.
Qed.

(** C11: exactly two version pairs are accepted.  A current bundle is returned as it is;
    a bundle of the previous pair exactly when no message in it has a field this program
    does not know and no list has a fixed length, and then with every dataset and
    tombstone unchanged under the current versions, where migration ends. *)
Theorem migrate_exact b m :
  MigrateSchemaBundle (Some b) = Ok m <->
  (ir_version b = 4%N /\ mapping_version b = 3%N /\ m = b) \/
  (ir_version b = 3%N /\ mapping_version b = 2%N /\ m = upgraded b /\
     Forall understood (subMessages (Bundle_ProtoReflect b)) /\ listsVary b).
Proof.
  unfold MigrateSchemaBundle, IRVersion, MappingVersion. destruct (N.eqb_spec (ir_version b) 4) as [Hi|Hi], (N.eqb_spec (mapping_version b) 3) as [Hv|Hv]; cbn.
  1: split; [intros [= <-]; by left|intros [(_&_&->)|(?&_)]; [done|lia]].
  all: destruct (N.eqb_spec (ir_version b) 3) as [Hi3|Hi3], (N.eqb_spec (mapping_version b) 2) as [Hv2|Hv2]; cbn; try lia;
    try (split; [done|intros [(?&?&_)|(?&?&_)]; lia]).
  rewrite <- legacyLists_iff, <- (rejectUnknownFields_iff _ "SchemaBundle" "unknown to this migrator"), !bind_Ok. split.
  - intros ([]&Hu%wrapErr_Ok&([]&Hl&[= <-])%bind_Ok). by right.
  - intros [(?&_)|(_&_&->&Hu&Hl)]; [lia|]. exists tt. rewrite Hu. split; [done|]. rewrite Hl. done.
Qed.

Lemma parse_marshal `{!BundleRuntimeLaws} b encoded : wholeBundle b ->
  MarshalSchemaBundle (Some b) = Ok encoded -> ParseSchemaBundle encoded = Ok b.
Proof.
  unfold MarshalSchemaBundle, ParseSchemaBundle. intros Hw Hm. apply bind_Ok in Hm as (?&Hv&Hm).
  destruct (Bundle_Marshal b) as [|e] eqn:E; [done|]. injection Hm as ->.
  rewrite (Bundle_Marshal_Unmarshal _ _ Hw E). unfold ValidateSchemaBundle in Hv. M_inv Hv.
  unfold MigrateSchemaBundle.
  repeat match goal with Hb : negb _ = false |- _ => apply negb_false_iff in Hb; rewrite Hb end. done.
Qed.

End WithRuntimes.

(** In a bundle whose datasets have distinct messages, [FindDataset] finds a
    dataset exactly by its message. *)
Theorem FindDataset_exact b n d :
  NoDup (map source_message (omap id (datasets b))) ->
  FindDataset (Some b) n = Some d <-> Some d ∈ datasets b /\ source_message d = n.
Proof.
  unfold FindDataset. induction (datasets b) as [|[x|] l IH]; intros Hnd; simpl in *.
  - set_solver.
  - apply list.NoDup_cons in Hnd as [Hx Hnd]. case_decide as Hn.
    + split; [intros [= <-]; set_solver|]. intros [Hd Hs].
      apply elem_of_cons in Hd as [[= ->]|Hd]; [done|]. exfalso. apply Hx. rewrite Hn, <- Hs.
      apply (list_elem_of_fmap_2 source_message). apply list_elem_of_omap. by exists (Some d).
    + rewrite IH by done. split; [set_solver|]. intros [Hd Hs]. split; [|done].
      apply elem_of_cons in Hd as [[= ->]|Hd]; [by destruct Hn|done].
  - rewrite IH by done. set_solver.
Qed.

(** ** Witnesses: the two versions of the shop pool *)

(** A runtime that knows two descriptor sets, distinguished by the package. *)
Definition shopFiles (reg : Registry) : Files :=
  mkFiles [] (fun nm => match reg !! nm with Some md => inr (Some md) | None => inl "not found" end) reg.
Definition shopRuntime : DescriptorRuntime := {|
  FileDescriptorSet_Unmarshal := fun s => inr [Some (mkFileDescriptorProto s [] [])];
  NewFiles := fun fds =>
    match fds with
    | [Some f] => inr (shopFiles (if decide (file_package f = "v1") then shop else shop2))
    | _ => inl "unknown descriptor set"
    end
|}.
#[local] Existing Instance shopRuntime.

Lemma shopRuntime_laws : DescriptorRuntimeLaws wfRegistry.
Proof.
  assert (forall fds files, NewFiles fds = inr files ->
    files = shopFiles shop \/ files = shopFiles shop2) as Hcases.
  { intros [|[f|] [|]] files Hn; simpl in Hn; try discriminate.
    injection Hn as <-. destruct (decide _); auto. }
  constructor.
  - intros fds files nm md Hn. 
    assert (wfRegistry (files_registry files)) as Hwf
      by (destruct (Hcases _ _ Hn) as [-> | ->]; [apply shop_wf|apply shop2_wf]).
    destruct (Hcases _ _ Hn) as [-> | ->]; simpl in *; intros Hf;
      (destruct (_ !! nm) eqn:E; [|done]); injection Hf as ->; (split; [|done]);
      by destruct (Hwf _ _ E).
  - intros fds files Hn. destruct (Hcases _ _ Hn) as [-> | ->]; [apply shop_wf|apply shop2_wf].
Qed.

(** A wire codec for bundles without datasets. *)
Definition tinyCodec : BundleRuntime := {|
  Bundle_Unmarshal := fun s =>
    if HasPrefix s "4/3/" then inr (mkSchemaBundle 4 3 (TrimPrefix s "4/3/") [])
    else inl "malformed";
  Bundle_Marshal := fun b =>
    if (ir_version b =? 4)%N && (mapping_version b =? 3)%N && bool_decide (length (datasets b) = 0)
    then inr ("4/3/" +:+ source_descriptor_sha256 b)
    else inl "unsupported";
  Bundle_ProtoReflect := fun _ => mkMessage "" []
|}.
#[local] Existing Instance tinyCodec.

Definition bundleV1 : SchemaBundle := mkSchemaBundle 4 3 (Sum256 "v1") [Some orderV1].
Definition bundleV2 : SchemaBundle := mkSchemaBundle 4 3 (Sum256 "v2") [Some orderV2].

Lemma bundle_append_only_witness :
  exists d', Some d' ∈ datasets bundleV2 /\ source_message d' = source_message orderV1 /\
    (forall e, e ∈ ledger orderV1 -> e ∈ ledger d') /\ (last_field_id orderV1 <= last_field_id d')%Z.
Proof.
  pose proof shopRuntime_laws.
  apply (bundle_append_only "v2" ["shop.v1.Order"] bundleV1).
  - vm_compute. reflexivity.
  - left.
Defined.

Lemma bundle_roots_exact_witness :
  exists ds, datasets bundleV2 = map Some ds /\ ds <> [] /\
    Sorted string_le (map source_message ds) /\ NoDup (map source_message ds) /\
    NoDup (map ds_name ds) /\
    ([" .shop.v1.Order"] <> [] -> forall n, n ∈ map source_message ds <->
       exists raw, raw ∈ [" .shop.v1.Order"] /\ n = normalizedRoot raw).
Proof.
  pose proof shopRuntime_laws.
  apply (bundle_roots_exact "v2" [" .shop.v1.Order"] (Some bundleV1)). vm_compute. reflexivity.
Defined.

Lemma bundle_valid_witness : ValidateSchemaBundle (Some bundleV1) = Ok tt.
Proof.
  pose proof shopRuntime_laws.
  apply (bundle_valid "v1" ["shop.v1.Order"] None). vm_compute. reflexivity.
Defined.

Example legacy_bundle_migrates : MigrateSchemaBundle (Some (mkSchemaBundle 3 2 "x" [])) = Ok (mkSchemaBundle 4 3 "x" []).
Proof. vm_compute. reflexivity. Qed.
Example legacy_fixed_list_refused :
  isOk (MigrateSchemaBundle (Some (mkSchemaBundle 3 2 "x" [Some orderV1]))) = false.
Proof. vm_compute. reflexivity. Qed.

Lemma FindDataset_exact_witness :
  Some orderV2 ∈ datasets bundleV2 /\ source_message orderV2 = "shop.v1.Order".
Proof.
  apply FindDataset_exact.
  - by_computation.
  - vm_compute. reflexivity.
Defined.
