(* ===== verification/Json.v ===== *)
(** * encoding/json

    [json.Marshal] of the values the program encodes: strings, numbers, booleans,
    null, arrays and objects with their keys in declaration order.  HTML characters
    and the line separators are escaped, as Go does by default, and a byte that is
    not part of a valid UTF-8 encoding becomes the replacement character.
    JsonParse.v is the other direction. *)
From S2P Require Import Prelude GoStrings StringFacts Utf8Facts.

(** ** Decoding with replacement: [None] stands for one invalid byte *)
Fixpoint decode (s : string) : list (option (N * string)) :=
  match s with
  | EmptyString => []
  | String b0 r0 =>
      if inRange 0 127 b0 then Some (byteN b0, str1 b0) :: decode r0
      else match r0 with
      | EmptyString => [None]
      | String b1 r1 =>
          if inRange 194 223 b0 && cont b1
          then Some (((byteN b0 - 192) * 64 + (byteN b1 - 128))%N, String b0 (str1 b1)) :: decode r1
          else match r1 with
          | EmptyString => None :: decode r0
          | String b2 r2 =>
              let ok3 :=
                if inRange 224 224 b0 then inRange 160 191 b1
                else if inRange 237 237 b0 then inRange 128 159 b1
                else inRange 225 239 b0 && cont b1 in
              if ok3 && cont b2
              then Some (((byteN b0 - 224) * 4096 + (byteN b1 - 128) * 64 + (byteN b2 - 128))%N,
                         String b0 (String b1 (str1 b2))) :: decode r2
              else match r2 with
              | EmptyString => None :: decode r0
              | String b3 r3 =>
                  let ok4 :=
                    if inRange 240 240 b0 then inRange 144 191 b1
                    else if inRange 244 244 b0 then inRange 128 143 b1
                    else inRange 241 243 b0 && cont b1 in
                  if ok4 && cont b2 && cont b3
                  then Some (((byteN b0 - 240) * 262144 + (byteN b1 - 128) * 4096
                              + (byteN b2 - 128) * 64 + (byteN b3 - 128))%N,
                             String b0 (String b1 (String b2 (str1 b3)))) :: decode r3
                  else None :: decode r0
              end
          end
      end
  end.

(** ** Encoding *)

Definition escape4 (code : string) : string := String BACKSLASH (String "u" code).

(** One rune of a string literal. *)
Definition escapeRune (r : option (N * string)) : string :=
  match r with
  | None => escape4 "fffd"
  | Some (n, enc) =>
      if (n =? 34)%N || (n =? 92)%N then String BACKSLASH enc
      else if (n =? 8)%N then String BACKSLASH "b"
      else if (n =? 12)%N then String BACKSLASH "f"
      else if (n =? 10)%N then String BACKSLASH "n"
      else if (n =? 13)%N then String BACKSLASH "r"
      else if (n =? 9)%N then String BACKSLASH "t"
      else if (n <? 32)%N || (n =? 60)%N || (n =? 62)%N || (n =? 38)%N
      then escape4 ("00" +:+ hexByte (ascii_of_N n))
      else if (n =? 8232)%N then escape4 "2028"
      else if (n =? 8233)%N then escape4 "2029"
      else enc
  end.
Definition jsonString (s : string) : string :=
  String DQUOTE (String.concat "" (map escapeRune (decode s)) +:+ str1 DQUOTE).

(** ** Numbers

    A finite float64 is given by its shortest decimal form, as [strconv] computes it:
    the sign, the digits without leading or trailing zeros (none for zero) and the
    position of the decimal point, so that the value is 0.digits times ten to the
    [f_point]. *)
Record Float64 : Type := mkFloat { f_negative : bool; f_digits : string; f_point : Z }.

Fixpoint takeString (n : nat) (s : string) : string :=
  match n, s with
  | S n, String c s => String c (takeString n s)
  | _, _ => EmptyString
  end.

Definition signText (f : Float64) : string := if f_negative f then "-" else "".

(** [strconv.FormatFloat(f, 'f', -1, 64)]. *)
Definition FormatFloat (f : Float64) : string :=
  let nd := String.length (f_digits f) in
  let whole :=
    if (0 <? f_point f)%Z then
      let n := Z.to_nat (f_point f) in takeString n (f_digits f) +:+ Repeat "0" (n - nd)
    else "0" in
  let fraction :=
    if (f_point f <? Z.of_nat nd)%Z then
      "." +:+ Repeat "0" (Z.to_nat (- f_point f)) +:+ dropBytes (Z.to_nat (f_point f)) (f_digits f)
    else "" in
  signText f +:+ whole +:+ fraction.

(** The exponent form [encoding/json] uses for very large and very small numbers. *)
Definition formatExponent (f : Float64) : string :=
  let exp := (f_point f - 1)%Z in
  signText f +:+ takeString 1 (f_digits f)
  +:+ (if 1 <? String.length (f_digits f) then "." +:+ dropBytes 1 (f_digits f) else "")
  +:+ (if (exp <? 0)%Z then "e-" else "e+") +:+ FormatInt (Z.abs exp).

Definition jsonFloat (f : Float64) : string :=
  if negb (String.eqb (f_digits f) "") && ((f_point f <=? -6)%Z || (22 <=? f_point f)%Z)
  then formatExponent f else FormatFloat f.

(** ** Values *)

Inductive JsonValue : Type :=
  | JNull
  | JString (s : string)
  | JInt (z : Z)
  | JFloat (f : Float64)
  | JNumber (literal : string)
  | JBool (b : bool)
  | JArray (l : list JsonValue)
  | JObject (l : list (string * JsonValue)).

Fixpoint Marshal (v : JsonValue) : string :=
  match v with
  | JNull => "null"
  | JString s => jsonString s
  | JInt z => FormatInt z
  | JFloat f => jsonFloat f
  | JNumber literal => literal
  | JBool b => FormatBool b
  | JArray l => "[" +:+ Join (map Marshal l) "," +:+ "]"
  | JObject l => "{" +:+ Join (map (fun kv => jsonString kv.1 +:+ ":" +:+ Marshal kv.2) l) "," +:+ "}"
  end.

(** A struct member with the [omitempty] option: a string that is dropped when empty. *)
Definition omitEmpty (key value : string) : list (string * JsonValue) :=
  if decide (value = "") then [] else [(key, JString value)].

Example marshal_escapes :
  Marshal (JArray [JObject [("name", JString "A<B"); ("number", JInt (-1))]; JString (String LF "x")])
  = "[{" +:+ str1 DQUOTE +:+ "name" +:+ str1 DQUOTE +:+ ":" +:+ str1 DQUOTE +:+ "A\u003cB" +:+ str1 DQUOTE +:+
    "," +:+ str1 DQUOTE +:+ "number" +:+ str1 DQUOTE +:+ ":-1}," +:+ str1 DQUOTE +:+ "\nx" +:+ str1 DQUOTE +:+ "]".
Proof. reflexivity. Qed.

Example float_texts :
  (map jsonFloat [mkFloat false "" 0; mkFloat true "15" 1; mkFloat false "15" 4; mkFloat false "15" (-2);
                  mkFloat false "1" (-6); mkFloat false "15" 22], FormatFloat (mkFloat false "1" (-6)))
  = (["0"; "-1.5"; "1500"; "0.0015"; "1e-7"; "1.5e+21"], "0.0000001").
Proof. reflexivity. Qed.
