(* ===== verification/JsonParse.v ===== *)
(** * encoding/json: decoding

    [json.Unmarshal] up to the shape of the target: a text is cut into tokens, the
    tokens are read by an automaton with a stack that is at most 10000 deep, as the
    scanner of Go does, and a number keeps its literal.  A repeated key stays in the
    object; what the target does with it is the decoder's business. *)
From S2P Require Import Prelude GoStrings StringFacts Utf8Facts Json.

(** ** Strings *)

Definition hexValue (n : N) : option N :=
  if ((48 <=? n) && (n <=? 57))%N then Some (n - 48)%N
  else if ((97 <=? n) && (n <=? 102))%N then Some (n - 87)%N
  else if ((65 <=? n) && (n <=? 70))%N then Some (n - 55)%N
  else None.

(** [utf8.AppendRune]; surrogates become the replacement character. *)
Definition encodeRune (n : N) : string :=
  let n := if ((55296 <=? n) && (n <=? 57343) || (1114111 <? n))%N then 65533%N else n in
  if (n <? 128)%N then str1 (ascii_of_N n)
  else if (n <? 2048)%N then bytes [192 + n / 64; 128 + n mod 64]%N
  else if (n <? 65536)%N then bytes [224 + n / 4096; 128 + n / 64 mod 64; 128 + n mod 64]%N
  else bytes [240 + n / 262144; 128 + n / 4096 mod 64; 128 + n / 64 mod 64; 128 + n mod 64]%N.

Definition replacement : string := encodeRune 65533.

Notation Rune := (option (N * string)).
(** The ASCII byte of a decoded rune, a value that is none of them otherwise. *)
Definition codeOf (r : Rune) : N := match r with Some (n, _) => n | None => 65533%N end.
Definition textOf (r : Rune) : string := match r with Some (_, enc) => enc | None => replacement end.

Definition simpleEscape (n : N) : option N :=
  if ((n =? 34) || (n =? 92) || (n =? 47))%N then Some n
  else if (n =? 98)%N then Some 8%N
  else if (n =? 102)%N then Some 12%N
  else if (n =? 110)%N then Some 10%N
  else if (n =? 114)%N then Some 13%N
  else if (n =? 116)%N then Some 9%N
  else None.

Definition getu4 (a b c d : Rune) : option N :=
  match hexValue (codeOf a), hexValue (codeOf b), hexValue (codeOf c), hexValue (codeOf d) with
  | Some a, Some b, Some c, Some d => Some (a * 4096 + b * 256 + c * 16 + d)%N
  | _, _, _, _ => None
  end.

Definition isSurrogate (n : N) : bool := ((55296 <=? n) && (n <=? 57343))%N.
(** [utf16.DecodeRune], [None] when it gives the replacement character. *)
Definition surrogatePair (hi lo : N) : option N :=
  if ((55296 <=? hi) && (hi <=? 56319) && (56320 <=? lo) && (lo <=? 57343))%N
  then Some ((hi - 55296) * 1024 + (lo - 56320) + 65536)%N else None.

(** The text of a string literal whose runes these are. *)
Fixpoint unquote (l : list Rune) : option string :=
  match l with
  | [] => Some EmptyString
  | r :: l =>
      if (codeOf r =? 92)%N then
        match l with
        | [] => None
        | e :: l =>
            if (codeOf e =? 117)%N then
              match l with
              | a :: b :: c :: d :: l =>
                  u ← getu4 a b c d;
                  if isSurrogate u then
                    match l with
                    | r1 :: r2 :: a :: b :: c :: d :: l' =>
                        if (codeOf r1 =? 92)%N && (codeOf r2 =? 117)%N then
                          match getu4 a b c d with
                          | Some v =>
                              match surrogatePair u v with
                              | Some n => t ← unquote l'; Some (encodeRune n +:+ t)
                              | None => t ← unquote l; Some (replacement +:+ t)
                              end
                          | None => t ← unquote l; Some (replacement +:+ t)
                          end
                        else t ← unquote l; Some (replacement +:+ t)
                    | _ => t ← unquote l; Some (replacement +:+ t)
                    end
                  else t ← unquote l; Some (encodeRune u +:+ t)
              | _ => None
              end
            else
              n ← simpleEscape (codeOf e);
              t ← unquote l;
              Some (encodeRune n +:+ t)
        end
      else if ((codeOf r =? 34) || (codeOf r <? 32))%N then None
      else t ← unquote l; Some (textOf r +:+ t)
  end.

(** ** Numbers: [-]int[frac][exp] *)

Fixpoint skipDigits (s : string) : string :=
  match s with
  | String c r => if isDigit c then skipDigits r else s
  | EmptyString => EmptyString
  end.
Definition digits1 (s : string) : option string :=
  match s with
  | String c r => if isDigit c then Some (skipDigits r) else None
  | EmptyString => None
  end.
Definition integerPart (s : string) : option string :=
  match s with
  | String c r => if Ascii.eqb c "0" then Some r else digits1 s
  | EmptyString => None
  end.
Definition fractionPart (s : string) : option string :=
  match s with
  | String c r => if Ascii.eqb c "." then digits1 r else Some s
  | EmptyString => Some s
  end.
Definition exponentPart (s : string) : option string :=
  match s with
  | String c r =>
      if Ascii.eqb c "e" || Ascii.eqb c "E" then
        match r with
        | String d r' => if Ascii.eqb d "+" || Ascii.eqb d "-" then digits1 r' else digits1 r
        | EmptyString => None
        end
      else Some s
  | EmptyString => Some s
  end.
Definition isNumber (s : string) : bool :=
  let s := match s with
           | String c r => if Ascii.eqb c "-" then r else s
           | EmptyString => s
           end in
  match integerPart s with
  | Some r =>
      match fractionPart r with
      | Some r => match exponentPart r with Some EmptyString => true | _ => false end
      | None => false
      end
  | None => false
  end.

(** ** Tokens *)

Inductive Token : Type :=
  | TOpenObject | TCloseObject | TOpenArray | TCloseArray | TColon | TComma
  | TString (s : string) | TNumber (literal : string) | TLiteral (v : JsonValue).

Inductive LexState : Type :=
  | LStart
  | LString (raw : string)
  | LEscape (raw : string)
  | LNumber (literal : string)
  | LWord (rest : string) (v : JsonValue).

Definition isSpace (c : ascii) : bool := Ascii.eqb c " " || Ascii.eqb c TAB || Ascii.eqb c CR || Ascii.eqb c LF.
Definition numberByte (c : ascii) : bool :=
  isDigit c || Ascii.eqb c "-" || Ascii.eqb c "+" || Ascii.eqb c "." || Ascii.eqb c "e" || Ascii.eqb c "E".

(** The byte that begins a token: the tokens it completes and the state it leaves. *)
Definition lexStart (c : ascii) : option (list Token * LexState) :=
  if isSpace c then Some ([], LStart)
  else if Ascii.eqb c "{" then Some ([TOpenObject], LStart)
  else if Ascii.eqb c "}" then Some ([TCloseObject], LStart)
  else if Ascii.eqb c "[" then Some ([TOpenArray], LStart)
  else if Ascii.eqb c "]" then Some ([TCloseArray], LStart)
  else if Ascii.eqb c ":" then Some ([TColon], LStart)
  else if Ascii.eqb c "," then Some ([TComma], LStart)
  else if Ascii.eqb c DQUOTE then Some ([], LString "")
  else if isDigit c || Ascii.eqb c "-" then Some ([], LNumber (str1 c))
  else if Ascii.eqb c "t" then Some ([], LWord "rue" (JBool true))
  else if Ascii.eqb c "f" then Some ([], LWord "alse" (JBool false))
  else if Ascii.eqb c "n" then Some ([], LWord "ull" JNull)
  else None.

Definition lexByte (st : LexState) (c : ascii) : option (list Token * LexState) :=
  match st with
  | LStart => lexStart c
  | LString raw =>
      if Ascii.eqb c DQUOTE then s ← unquote (decode raw); Some ([TString s], LStart)
      else if Ascii.eqb c BACKSLASH then Some ([], LEscape raw)
      else Some ([], LString (raw +:+ str1 c))
  | LEscape raw => Some ([], LString (raw +:+ String BACKSLASH (str1 c)))
  | LNumber literal =>
      if numberByte c then Some ([], LNumber (literal +:+ str1 c))
      else if isNumber literal then
        p ← lexStart c;
        Some (TNumber literal :: p.1, p.2)
      else None
  | LWord (String d rest) v =>
      if Ascii.eqb c d then
        match rest with
        | EmptyString => Some ([TLiteral v], LStart)
        | _ => Some ([], LWord rest v)
        end
      else None
  | LWord EmptyString _ => None
  end.

Definition lexEnd (st : LexState) : option (list Token) :=
  match st with
  | LStart => Some []
  | LNumber literal => if isNumber literal then Some [TNumber literal] else None
  | _ => None
  end.

Fixpoint lex (st : LexState) (s : string) : option (list Token) :=
  match s with
  | EmptyString => lexEnd st
  | String c r =>
      p ← lexByte st c;
      l ← lex p.2 r;
      Some (p.1 ++ l)
  end.

(** ** The automaton *)

Inductive Frame : Type :=
  | InArray (items : list JsonValue)
  | InObject (members : list (string * JsonValue)) (key : string).

Inductive ParseState : Type :=
  | WantValue (stack : list Frame)
  | WantElement (stack : list Frame)
  | WantFirstKey (stack : list Frame)
  | WantKey (members : list (string * JsonValue)) (stack : list Frame)
  | WantColon (members : list (string * JsonValue)) (key : string) (stack : list Frame)
  | AfterElement (items : list JsonValue) (stack : list Frame)
  | AfterMember (members : list (string * JsonValue)) (stack : list Frame)
  | Done (v : JsonValue).

Definition maxNestingDepth : nat := Z.to_nat 10000.

(** A value is complete. *)
Definition complete (v : JsonValue) (stack : list Frame) : ParseState :=
  match stack with
  | [] => Done v
  | InArray items :: stack => AfterElement (items ++ [v]) stack
  | InObject members key :: stack => AfterMember (members ++ [(key, v)]) stack
  end.

Definition deeper (stack : list Frame) (st : ParseState) : option ParseState :=
  if S (length stack) <=? maxNestingDepth then Some st else None.

Definition beginValue (t : Token) (stack : list Frame) : option ParseState :=
  match t with
  | TString s => Some (complete (JString s) stack)
  | TNumber literal => Some (complete (JNumber literal) stack)
  | TLiteral v => Some (complete v stack)
  | TOpenArray => deeper stack (WantElement stack)
  | TOpenObject => deeper stack (WantFirstKey stack)
  | _ => None
  end.

Definition parseToken (st : ParseState) (t : Token) : option ParseState :=
  match st with
  | WantValue stack => beginValue t stack
  | WantElement stack =>
      match t with
      | TCloseArray => Some (complete (JArray []) stack)
      | _ => beginValue t (InArray [] :: stack)
      end
  | WantFirstKey stack =>
      match t with
      | TCloseObject => Some (complete (JObject []) stack)
      | TString key => Some (WantColon [] key stack)
      | _ => None
      end
  | WantKey members stack =>
      match t with
      | TString key => Some (WantColon members key stack)
      | _ => None
      end
  | WantColon members key stack =>
      match t with
      | TColon => Some (WantValue (InObject members key :: stack))
      | _ => None
      end
  | AfterElement items stack =>
      match t with
      | TComma => Some (WantValue (InArray items :: stack))
      | TCloseArray => Some (complete (JArray items) stack)
      | _ => None
      end
  | AfterMember members stack =>
      match t with
      | TComma => Some (WantKey members stack)
      | TCloseObject => Some (complete (JObject members) stack)
      | _ => None
      end
  | Done _ => None
  end.

Fixpoint parseTokens (st : ParseState) (l : list Token) : option JsonValue :=
  match l with
  | [] => match st with Done v => Some v | _ => None end
  | t :: l => st ← parseToken st t; parseTokens st l
  end.

(** [json.Unmarshal]: [None] is a syntax error. *)
Definition Unmarshal (s : string) : option JsonValue := l ← lex LStart s; parseTokens (WantValue []) l.

(** Apostrophes stand for quotation marks in the examples. *)
Definition quotes : string -> string := mapBytes (fun c => str1 (if Ascii.eqb c SQUOTE then DQUOTE else c)).

Example unmarshal_nested :
  Unmarshal (quotes " { 'a' : [ 1, -2.5e3 , {} ], 'b':null,'a':'\u00e9\ud83d\ude00\n' } ")
  = Some (JObject [("a", JArray [JNumber "1"; JNumber "-2.5e3"; JObject []]); ("b", JNull);
                   ("a", JString (bytes [195; 169; 240; 159; 152; 128; 10]%N))]).
Proof. vm_compute. reflexivity. Qed.
Example unmarshal_refuses :
  map (fun s => Unmarshal (quotes s)) ["01"; "[1,]"; "1 2"; "tru"; "{'a' 1}"; "-"; "1."; "'"; "'\x'"; "[}"; ""]
  = repeat None 11.
Proof. vm_compute. reflexivity. Qed.
