(* ===== verification/JsonSpec.v ===== *)
(** * Decoding undoes encoding *)
From S2P Require Import Prelude GoStrings StringFacts Utf8Facts Json JsonParse.
From Stdlib Require Import DecimalString DecimalFacts DecimalN DecimalZ DecimalPos.

(** ** One rune *)

(** [enc] is the UTF-8 encoding of the rune [n]: what the encoder needs to know. *)
Record Encoded (n : N) (enc : string) : Prop := mkEncoded {
  enc_decode t : decode (enc +:+ t) = Some (n, enc) :: decode t;
  enc_ascii : (n < 128)%N -> exists c, enc = str1 c /\ n = byteN c;
  enc_high : (128 <= n)%N -> allBytes (inRange 128 255) enc = true;
  enc_2028 : (n = 8232)%N -> enc = bytes [226; 128; 168]%N;
  enc_2029 : (n = 8233)%N -> enc = bytes [226; 128; 169]%N;
  enc_valid : ValidString enc = true
}.

Lemma inRange_iff lo hi c : inRange lo hi c = true <-> (lo <= byteN c <= hi)%N.
Proof. unfold inRange. rewrite andb_true_iff, !N.leb_le. done. Qed.
Lemma byteN_inj c d : byteN c = byteN d -> c = d.
Proof. intros H. rewrite <- (ascii_N_embedding c), <- (ascii_N_embedding d). unfold byteN in H. by rewrite H. Qed.
Lemma byteN_byte n : (n < 256)%N -> byteN (byte n) = n.
Proof. intros H. unfold byteN, byte. by rewrite N_ascii_embedding. Qed.
Lemma byte_of c n : byteN c = n -> (n < 256)%N -> c = byte n.
Proof. intros H Hn. apply byteN_inj. by rewrite byteN_byte. Qed.

(** The bytes of a three-byte encoding. *)
Lemma three_bytes b0 b1 b2 :
  (if inRange 224 224 b0 then inRange 160 191 b1
   else if inRange 237 237 b0 then inRange 128 159 b1 else inRange 225 239 b0 && cont b1) && cont b2 = true ->
  (224 <= byteN b0 <= 239)%N /\ (128 <= byteN b1 <= 191)%N /\ (128 <= byteN b2 <= 191)%N /\
  (byteN b0 = 224 -> 160 <= byteN b1)%N.
Proof.
  unfold cont. intros [H H2]%andb_true_iff. apply inRange_iff in H2.
  destruct (inRange 224 224 b0) eqn:E0; [apply inRange_iff in E0, H; lia|].
  destruct (inRange 237 237 b0) eqn:E1; [apply inRange_iff in E1, H; lia|].
  apply andb_true_iff in H as [Ha Hb]. apply inRange_iff in Ha, Hb. lia.
Qed.
Lemma four_bytes b0 b1 b2 b3 :
  (if inRange 240 240 b0 then inRange 144 191 b1
   else if inRange 244 244 b0 then inRange 128 143 b1 else inRange 241 243 b0 && cont b1) && cont b2 && cont b3 = true ->
  (240 <= byteN b0 <= 244)%N /\ (128 <= byteN b1 <= 191)%N /\ (128 <= byteN b2 <= 191)%N /\ (128 <= byteN b3 <= 191)%N /\
  (byteN b0 = 240 -> 144 <= byteN b1)%N.
Proof.
  unfold cont. intros [[H H2]%andb_true_iff H3]%andb_true_iff. apply inRange_iff in H2, H3.
  destruct (inRange 240 240 b0) eqn:E0; [apply inRange_iff in E0, H; lia|].
  destruct (inRange 244 244 b0) eqn:E1; [apply inRange_iff in E1, H; lia|].
  apply andb_true_iff in H as [Ha Hb]. apply inRange_iff in Ha, Hb. lia.
Qed.

Ltac high_bytes := cbn [allBytes str1]; rewrite ?andb_true_iff; split_and?; try done; apply inRange_iff; lia.

Lemma encoded1 b0 : inRange 0 127 b0 = true -> Encoded (byteN b0) (str1 b0).
Proof.
  intros E. pose proof E as R. apply inRange_iff in R. split; try lia.
  - intros t. unfold str1. rewrite append_cons, append_nil_l. cbn [decode]. by rewrite E.
  - intros _. by exists b0.
  - unfold ValidString, str1. rewrite runes_unfold_cons. by rewrite E.
Qed.
Lemma encoded2 b0 b1 :
  inRange 0 127 b0 = false -> inRange 194 223 b0 = true -> cont b1 = true ->
  Encoded ((byteN b0 - 192) * 64 + (byteN b1 - 128)) (String b0 (str1 b1)).
Proof.
  intros E0 E1 C1. pose proof E1 as R0. pose proof C1 as R1. unfold cont in R1. apply inRange_iff in R0, R1. split; try lia.
  - intros t. unfold str1. rewrite !append_cons, append_nil_l. cbn [decode]. by rewrite E0, E1, C1.
  - intros _. high_bytes.
  - unfold ValidString, str1. rewrite runes_unfold_cons. by rewrite E0, E1, C1.
Qed.
Lemma encoded3 b0 b1 b2 :
  inRange 0 127 b0 = false -> inRange 194 223 b0 = false ->
  (if inRange 224 224 b0 then inRange 160 191 b1
   else if inRange 237 237 b0 then inRange 128 159 b1 else inRange 225 239 b0 && cont b1) && cont b2 = true ->
  Encoded ((byteN b0 - 224) * 4096 + (byteN b1 - 128) * 64 + (byteN b2 - 128)) (String b0 (String b1 (str1 b2))).
Proof.
  intros E0 E1 E2. destruct (three_bytes _ _ _ E2) as (R0&R1&R2&R3). split; try lia.
  - intros t. unfold str1. rewrite !append_cons, append_nil_l. cbn [decode]. rewrite E0, E1. cbn [andb]. cbv zeta. by rewrite E2.
  - intros _. high_bytes.
  - intros H. rewrite (byte_of b0 226), (byte_of b1 128), (byte_of b2 168); [done|lia..].
  - intros H. rewrite (byte_of b0 226), (byte_of b1 128), (byte_of b2 169); [done|lia..].
  - unfold ValidString, str1. rewrite runes_unfold_cons. cbv zeta. by rewrite E0, E1, E2.
Qed.
Lemma encoded4 b0 b1 b2 b3 :
  inRange 0 127 b0 = false -> inRange 194 223 b0 = false ->
  (if inRange 224 224 b0 then inRange 160 191 b1
   else if inRange 237 237 b0 then inRange 128 159 b1 else inRange 225 239 b0 && cont b1) && cont b2 = false ->
  (if inRange 240 240 b0 then inRange 144 191 b1
   else if inRange 244 244 b0 then inRange 128 143 b1 else inRange 241 243 b0 && cont b1) && cont b2 && cont b3 = true ->
  Encoded ((byteN b0 - 240) * 262144 + (byteN b1 - 128) * 4096 + (byteN b2 - 128) * 64 + (byteN b3 - 128))
    (String b0 (String b1 (String b2 (str1 b3)))).
Proof.
  intros E0 E1 E2 E3. destruct (four_bytes _ _ _ _ E3) as (R0&R1&R2&R3&R4). split; try lia.
  - intros t. unfold str1. rewrite !append_cons, append_nil_l. cbn [decode]. rewrite E0, E1. cbn [andb]. cbv zeta.
    by rewrite E2, E3.
  - intros _. high_bytes.
  - unfold ValidString, str1. rewrite runes_unfold_cons. cbv zeta. by rewrite E0, E1, E2, E3.
Qed.

(** Valid text is empty, or the encoding of a rune and valid text. *)
Lemma valid_step s :
  ValidString s = true ->
  s = "" \/ exists n enc rest, s = enc +:+ rest /\ Encoded n enc /\ ValidString rest = true /\
                               String.length rest < String.length s.
Proof.
  unfold ValidString. destruct s as [|b0 r0]; [by left|]. rewrite runes_unfold_cons. intros Hs. right.
  destruct (inRange 0 127 b0) eqn:E0.
  { exists (byteN b0), (str1 b0), r0. split_and!; [done|by apply encoded1|by destruct (runes r0)|simpl; lia]. }
  destruct r0 as [|b1 r1]; [done|]. destruct (inRange 194 223 b0) eqn:E1.
  { destruct (cont b1) eqn:C1; [|done]. eexists _, (String b0 (str1 b1)), r1.
    split_and!; [done|by apply encoded2|by destruct (runes r1)|simpl; lia]. }
  destruct r1 as [|b2 r2]; [done|]. cbv zeta in Hs. destruct (_ && cont b2)%bool eqn:E2.
  { eexists _, (String b0 (String b1 (str1 b2))), r2.
    split_and!; [done|by apply encoded3|by destruct (runes r2)|simpl; lia]. }
  destruct r2 as [|b3 r3]; [done|]. destruct (_ && cont b2 && cont b3)%bool eqn:E3; [|done].
  eexists _, (String b0 (String b1 (String b2 (str1 b3)))), r3.
  split_and!; [done|by apply encoded4|by destruct (runes r3)|simpl; lia].
Qed.

(** Induction over the runes of valid text. *)
Lemma valid_ind (P : string -> Prop) :
  P "" ->
  (forall n enc rest, Encoded n enc -> ValidString rest = true -> P rest -> P (enc +:+ rest)) ->
  forall s, ValidString s = true -> P s.
Proof.
  intros H0 H1 s. remember (String.length s) as m eqn:Em. revert s Em. induction (lt_wf m) as [m _ IH].
  intros s -> Hs. destruct (valid_step s Hs) as [->|(n&enc&rest&->&He&Hr&Hlt)]; [done|]. eapply H1; eauto.
Qed.

(** ** String literals *)

Definition escaped (s : string) : string := String.concat "" (map escapeRune (decode s)).

Lemma concat_cons x l : String.concat "" (x :: l) = x +:+ String.concat "" l.
Proof. destruct l as [|y l]; simpl; [by rewrite append_nil_r|by rewrite append_nil_l]. Qed.
Lemma escaped_enc n enc s : Encoded n enc -> escaped (enc +:+ s) = escapeRune (Some (n, enc)) +:+ escaped s.
Proof. intros He. unfold escaped. rewrite (enc_decode _ _ He). cbn [map]. by rewrite concat_cons. Qed.

Lemma unquote_ascii c t :
  (byteN c < 128)%N ->
  unquote (decode (escapeRune (Some (byteN c, str1 c)) +:+ t)) = (r ← unquote (decode t); Some (str1 c +:+ r)).
Proof. destruct c as [[] [] [] [] [] [] [] []]; intros H; try (vm_compute in H; discriminate); reflexivity. Qed.

(** A rune outside ASCII is written as it is, but for the two line separators. *)
Lemma escapeRune_high n enc :
  (128 <= n)%N -> escapeRune (Some (n, enc)) =
  (if (n =? 8232)%N then escape4 "2028" else if (n =? 8233)%N then escape4 "2029" else enc).
Proof.
  intros Hn. unfold escapeRune.
  repeat match goal with |- context [(n =? ?k)%N] =>
    assert (n =? k = false)%N as -> by (apply N.eqb_neq; lia) end.
  assert (n <? 32 = false)%N as -> by (apply N.ltb_ge; lia). done.
Qed.

Lemma unquote_rune n enc t :
  Encoded n enc ->
  unquote (decode (escapeRune (Some (n, enc)) +:+ t)) = (r ← unquote (decode t); Some (enc +:+ r)).
Proof.
  intros He. destruct (N.lt_ge_cases n 128) as [Hn|Hn].
  { destruct (enc_ascii _ _ He Hn) as (c&->&->). by apply unquote_ascii. }
  rewrite escapeRune_high by done.
  destruct (N.eqb_spec n 8232) as [Hs|H1]; [by rewrite (enc_2028 _ _ He Hs)|].
  destruct (N.eqb_spec n 8233) as [Hs|H2]; [by rewrite (enc_2029 _ _ He Hs)|].
  rewrite (enc_decode _ _ He). cbn [unquote codeOf textOf].
  assert (n =? 92 = false)%N as -> by (apply N.eqb_neq; lia). assert (n =? 34 = false)%N as -> by (apply N.eqb_neq; lia).
  assert (n <? 32 = false)%N as -> by (apply N.ltb_ge; lia). done.
Qed.

Lemma unquote_escaped s : ValidString s = true -> unquote (decode (escaped s)) = Some s.
Proof.
  revert s. apply valid_ind; [done|]. intros n enc rest He Hr IH.
  rewrite (escaped_enc _ _ _ He), (unquote_rune _ _ _ He), IH. done.
Qed.

(** The lexer inside a literal. *)
Definition plain (s : string) : bool := noByte DQUOTE s && noByte BACKSLASH s.

Lemma lex_skip (st st' : LexState) c t : lexByte st c = Some ([], st') -> lex st (String c t) = lex st' t.
Proof. intros H. cbn [lex]. rewrite H. cbn. by destruct (lex st' t). Qed.

Lemma lex_plain p acc t : plain p = true -> lex (LString acc) (p +:+ t) = lex (LString (acc +:+ p)) t.
Proof.
  revert acc. induction p as [|c p IH]; intros acc; [by rewrite append_nil_l, append_nil_r|].
  unfold plain. rewrite andb_true_iff, !noByte_cons. intros [[H1 H2] [H3 H4]]. rewrite append_cons.
  rewrite (lex_skip _ (LString (acc +:+ str1 c))).
  - rewrite IH; [by rewrite append_assoc|]. unfold plain. by rewrite H2, H4.
  - cbn [lexByte]. by rewrite (proj2 (Ascii.eqb_neq _ _) H1), (proj2 (Ascii.eqb_neq _ _) H3).
Qed.

Lemma lex_escape acc c p t :
  plain p = true ->
  lex (LString acc) (String BACKSLASH (String c p) +:+ t) = lex (LString (acc +:+ String BACKSLASH (String c p))) t.
Proof.
  intros Hp. rewrite !append_cons. rewrite (lex_skip _ (LEscape acc)) by done.
  rewrite (lex_skip _ (LString (acc +:+ String BACKSLASH (str1 c)))) by done.
  rewrite lex_plain by done. f_equal. f_equal. by rewrite append_assoc.
Qed.

Lemma escape_shape n enc :
  Encoded n enc -> plain (escapeRune (Some (n, enc))) = true \/
  exists c p, escapeRune (Some (n, enc)) = String BACKSLASH (String c p) /\ plain p = true.
Proof.
  intros He. destruct (N.lt_ge_cases n 128) as [Hn|Hn].
  { destruct (enc_ascii _ _ He Hn) as (c&->&->). clear He.
    destruct c as [[] [] [] [] [] [] [] []]; try (vm_compute in Hn; discriminate);
      first [by left|right; eexists _, _; split; reflexivity]. }
  rewrite escapeRune_high by done.
  destruct (n =? 8232)%N; [right; by eexists _, _|]. destruct (n =? 8233)%N; [right; by eexists _, _|].
  left. unfold plain, noByte. rewrite andb_true_iff. pose proof (enc_high _ _ He Hn) as Hh.
  split; (eapply allBytes_impl; [|exact Hh]); intros c Hc; apply inRange_iff in Hc; apply negb_true_iff, Ascii.eqb_neq;
    intros ->; vm_compute in Hc; by destruct Hc.
Qed.

Lemma lex_escaped s acc t :
  ValidString s = true -> lex (LString acc) (escaped s +:+ t) = lex (LString (acc +:+ escaped s)) t.
Proof.
  intros Hs. revert acc. revert s Hs.
  apply (valid_ind (fun s => forall acc, lex (LString acc) (escaped s +:+ t) = lex (LString (acc +:+ escaped s)) t));
    [intros acc; by rewrite append_nil_l, append_nil_r|].
  intros n enc rest He Hr IH acc. rewrite (escaped_enc _ _ _ He), append_assoc.
  destruct (escape_shape _ _ He) as [Hp|(c&p&->&Hp)];
    [rewrite lex_plain by done|rewrite lex_escape by done]; by rewrite IH, append_assoc.
Qed.

(** A string literal is one token. *)
Lemma lex_string s t :
  ValidString s = true -> lex LStart (jsonString s +:+ t) = (l ← lex LStart t; Some (TString s :: l)).
Proof.
  intros Hs. unfold jsonString. fold (escaped s). rewrite append_cons, append_assoc.
  rewrite (lex_skip _ (LString "")) by done. rewrite lex_escaped by done. rewrite append_nil_l.
  change (str1 DQUOTE +:+ t) with (String DQUOTE t). cbn [lex lexByte].
  rewrite (Ascii.eqb_refl DQUOTE), unquote_escaped by done. done.
Qed.

(** ** Numbers *)

(** [s] is number bytes followed by [r]. *)
Definition eats (s r : string) : Prop := exists a, s = a +:+ r /\ allBytes numberByte a = true.

Lemma eats_refl s : eats s s.
Proof. by exists "". Qed.
Lemma eats_cons c s r : numberByte c = true -> eats s r -> eats (String c s) r.
Proof. intros Hc (a&->&Ha). exists (String c a). split; [done|]. cbn [allBytes]. by rewrite Hc. Qed.
Lemma eats_trans s r t : eats s r -> eats r t -> eats s t.
Proof. intros (a&->&Ha) (b&->&Hb). exists (a +:+ b). by rewrite append_assoc, allBytes_append, Ha, Hb. Qed.
Lemma digit_numberByte c : isDigit c = true -> numberByte c = true.
Proof. unfold numberByte. by intros ->. Qed.
#[local] Hint Resolve eats_refl eats_cons digit_numberByte : core.

Lemma skipDigits_eats s : eats s (skipDigits s).
Proof. induction s as [|c s IH]; [done|]. cbn [skipDigits]. destruct (isDigit c) eqn:E; auto. Qed.
Lemma digits1_eats s r : digits1 s = Some r -> eats s r.
Proof. destruct s as [|c s]; [done|]. cbn. destruct (isDigit c) eqn:E; [|done]. intros [= <-]. auto using skipDigits_eats. Qed.
Lemma integerPart_eats s r : integerPart s = Some r -> eats s r /\ exists c t, s = String c t /\ isDigit c = true.
Proof.
  destruct s as [|c s]; [done|]. cbn [integerPart]. destruct (Ascii.eqb_spec c "0") as [->|_].
  - intros [= <-]. split; [auto|by eexists _, _].
  - intros H. split; [by apply digits1_eats|]. cbn in H. destruct (isDigit c) eqn:E; [|done]. by eexists _, _.
Qed.
Lemma fractionPart_eats s r : fractionPart s = Some r -> eats s r.
Proof.
  destruct s as [|c s]; cbn [fractionPart]; [intros [= <-]; auto|]. destruct (Ascii.eqb_spec c "."); [|intros [= <-]; auto].
  subst. eauto using digits1_eats.
Qed.
Lemma exponentPart_eats s r : exponentPart s = Some r -> eats s r.
Proof.
  destruct s as [|c s]; cbn [exponentPart]; [intros [= <-]; auto|].
  destruct (Ascii.eqb c "e" || Ascii.eqb c "E") eqn:Ee; [|intros [= <-]; auto].
  assert (numberByte c = true) as Hc.
  { unfold numberByte. apply orb_true_iff in Ee as [-> | ->]; by rewrite ?orb_true_r. }
  destruct s as [|d s]; [done|]. destruct (Ascii.eqb d "+" || Ascii.eqb d "-") eqn:Ed; intros H.
  - apply eats_cons; [done|]. apply eats_cons; [|by apply digits1_eats].
    unfold numberByte. apply orb_true_iff in Ed as [-> | ->]; by rewrite ?orb_true_r.
  - apply eats_cons; [done|]. by apply digits1_eats.
Qed.

Definition numberStart (c : ascii) : bool := isDigit c || Ascii.eqb c "-".

Lemma isNumber_bytes s :
  isNumber s = true -> allBytes numberByte s = true /\ exists c t, s = String c t /\ numberStart c = true.
Proof.
  unfold isNumber. set (u := match s with EmptyString => s | String c r => if Ascii.eqb c "-" then r else s end).
  intros H. destruct (integerPart u) as [r1|] eqn:E1; [|done]. destruct (fractionPart r1) as [r2|] eqn:E2; [|done].
  destruct (exponentPart r2) as [[|]|] eqn:E3; try done. destruct (integerPart_eats _ _ E1) as (Hi&c&t&Hu&Hc).
  pose proof (eats_trans _ _ _ Hi (eats_trans _ _ _ (fractionPart_eats _ _ E2) (exponentPart_eats _ _ E3))) as (a&Ha&Hb).
  rewrite append_nil_r in Ha. subst a. unfold numberStart. destruct s as [|d s]; [done|]. subst u.
  destruct (Ascii.eqb_spec d "-") as [->|_]; [split; [exact Hb|by eexists _, _]|].
  split; [done|]. injection Hu as -> ->. exists c, t. by rewrite Hc.
Qed.

(** What may follow a number. *)
Definition delimited (t : string) : bool := match t with String c _ => negb (numberByte c) | EmptyString => true end.

Lemma lex_number_bytes a acc t :
  allBytes numberByte a = true -> lex (LNumber acc) (a +:+ t) = lex (LNumber (acc +:+ a)) t.
Proof.
  revert acc. induction a as [|c a IH]; intros acc; [by rewrite append_nil_l, append_nil_r|].
  cbn [allBytes]. intros [Hc Ha]%andb_true_iff. rewrite append_cons. rewrite (lex_skip _ (LNumber (acc +:+ str1 c))).
  - rewrite IH by done. by rewrite append_assoc.
  - cbn [lexByte]. by rewrite Hc.
Qed.

Lemma lexStart_number c : numberStart c = true -> lexStart c = Some ([], LNumber (str1 c)).
Proof. destruct c as [[] [] [] [] [] [] [] []]; intros H; try discriminate H; reflexivity. Qed.

Lemma lex_number s t :
  isNumber s = true -> delimited t = true -> lex LStart (s +:+ t) = (l ← lex LStart t; Some (TNumber s :: l)).
Proof.
  intros Hs Ht. destruct (isNumber_bytes s Hs) as (Hb&c&r&->&Hc). rewrite append_cons.
  rewrite (lex_skip _ (LNumber (str1 c))) by (by apply lexStart_number). cbn [allBytes] in Hb. apply andb_true_iff in Hb as [_ Hb].
  rewrite lex_number_bytes by done. change (str1 c +:+ r) with (String c r). destruct t as [|d t]; cbn [lex lexEnd lexByte].
  - by rewrite Hs.
  - cbn [delimited] in Ht. apply negb_true_iff in Ht. rewrite Ht, Hs. destruct (lexStart d) as [[ts st]|]; [|done]. cbn.
    by destruct (lex st t).
Qed.

Lemma isNumber_digits c r : isDigit c = true -> c <> "0"%char \/ r = "" -> allBytes isDigit r = true -> isNumber (String c r) = true.
Proof.
  intros Hc H0 Hr. assert (forall s, allBytes isDigit s = true -> skipDigits s = "") as Hskip.
  { induction s as [|d s IH]; [done|]. cbn. intros [-> Hs]%andb_true_iff. auto. }
  unfold isNumber. destruct (Ascii.eqb_spec c "-") as [->|_]; [done|]. cbn [integerPart].
  destruct (Ascii.eqb_spec c "0") as [->|_]; [by destruct H0 as [?| ->]|]. cbn [digits1]. by rewrite Hc, Hskip.
Qed.

Lemma to_uint_normal n d : N.to_uint n = Decimal.D0 d -> d = Decimal.Nil.
Proof.
  intros H. pose proof (DecimalN.Unsigned.to_of (N.to_uint n)) as Hn. rewrite DecimalN.Unsigned.of_to, H in Hn.
  unfold Decimal.unorm in Hn. destruct (Decimal.nzhead (Decimal.D0 d)) eqn:E; try discriminate Hn.
  - by injection Hn.
  - exfalso. by apply (nzhead_nonzero _ _ E).
Qed.

Lemma isNumber_FormatUint n : isNumber (FormatUint n) = true.
Proof.
  unfold FormatUint. pose proof (to_uint_normal n) as Hn. pose proof (Nto_uint_nonnil n) as Hnil.
  pose proof (string_of_uint_digits) as Hd.
  destruct (N.to_uint n) as [|d|d|d|d|d|d|d|d|d|d]; [done|rewrite (Hn d eq_refl); done|..];
    (apply isNumber_digits; [done|by left|apply Hd]).
Qed.

Lemma isNumber_FormatInt z : isNumber (FormatInt z) = true.
Proof.
  destruct z as [|p|p]; [done|apply (isNumber_FormatUint (N.pos p))|].
  pose proof (isNumber_FormatUint (N.pos p)) as H. pose proof (FormatUint_digits (N.pos p)) as Hd.
  change (FormatInt (Z.neg p)) with (String "-" (FormatUint (N.pos p))).
  unfold isNumber in *. cbn [Ascii.eqb]. destruct (FormatUint (N.pos p)) as [|c r]; [done|].
  destruct (Ascii.eqb_spec c "-") as [->|_]; [done|]. exact H.
Qed.

(** ** Values *)

Section JsonInd.
Context (P : JsonValue -> Prop).
Context (HNull : P JNull) (HString : forall s, P (JString s)) (HInt : forall z, P (JInt z)) (HFloat : forall f, P (JFloat f)).
Context (HNumber : forall l, P (JNumber l)) (HBool : forall b, P (JBool b)).
Context (HArray : forall l, Forall P l -> P (JArray l)).
Context (HObject : forall l, Forall (fun kv => P kv.2) l -> P (JObject l)).

Fixpoint json_ind (v : JsonValue) : P v :=
  match v with
  | JNull => HNull
  | JString s => HString s
  | JInt z => HInt z
  | JFloat f => HFloat f
  | JNumber l => HNumber l
  | JBool b => HBool b
  | JArray l =>
      HArray l ((fix go (l : list JsonValue) : Forall P l :=
        match l with
        | [] => @List.Forall_nil _ P
        | v :: l => @List.Forall_cons _ P v l (json_ind v) (go l)
        end) l)
  | JObject l =>
      HObject l ((fix go (l : list (string * JsonValue)) : Forall (fun kv => P kv.2) l :=
        match l with
        | [] => @List.Forall_nil _ (fun kv => P kv.2)
        | kv :: l => @List.Forall_cons _ (fun kv => P kv.2) kv l (json_ind kv.2) (go l)
        end) l)
  end.
End JsonInd.

(** The value a text is read back as: numbers are literals. *)
Fixpoint literals (v : JsonValue) : JsonValue :=
  match v with
  | JInt z => JNumber (FormatInt z)
  | JFloat f => JNumber (jsonFloat f)
  | JArray l => JArray (map literals l)
  | JObject l => JObject (map (fun kv => (kv.1, literals kv.2)) l)
  | _ => v
  end.

(** Text is valid UTF-8 and numbers are JSON numbers. *)
Fixpoint encodable (v : JsonValue) : bool :=
  match v with
  | JString s => ValidString s
  | JNumber l => isNumber l
  | JFloat f => isNumber (jsonFloat f)
  | JArray l => forallb encodable l
  | JObject l => forallb (fun kv => ValidString kv.1 && encodable kv.2) l
  | _ => true
  end.

Fixpoint depth (v : JsonValue) : nat :=
  match v with
  | JArray l => S (max_list (map depth l))
  | JObject l => S (max_list (map (fun kv => depth kv.2) l))
  | _ => 0
  end.

Fixpoint commas (l : list (list Token)) : list Token :=
  match l with
  | [] => []
  | [x] => x
  | x :: l => x ++ TComma :: commas l
  end.

Fixpoint tokens (v : JsonValue) : list Token :=
  match v with
  | JNull | JBool _ => [TLiteral v]
  | JString s => [TString s]
  | JInt z => [TNumber (FormatInt z)]
  | JFloat f => [TNumber (jsonFloat f)]
  | JNumber l => [TNumber l]
  | JArray l => TOpenArray :: commas (map tokens l) ++ [TCloseArray]
  | JObject l => TOpenObject :: commas (map (fun kv => TString kv.1 :: TColon :: tokens kv.2) l) ++ [TCloseObject]
  end.

(** ** From text to tokens *)

Definition lexes (text : string) (ts : list Token) : Prop :=
  forall t, delimited t = true -> lex LStart (text +:+ t) = (l ← lex LStart t; Some (ts ++ l)).

(** A byte that is a token of its own. *)
Lemma lex_mark c tok t : lexStart c = Some ([tok], LStart) -> lex LStart (String c t) = (l ← lex LStart t; Some (tok :: l)).
Proof. intros H. cbn [lex lexByte]. by rewrite H. Qed.

Lemma lexes_join (l : list (string * list Token)) :
  Forall (fun p => lexes p.1 p.2) l -> lexes (Join (map fst l) ",") (commas (map snd l)).
Proof.
  induction l as [|[x ts] l IH]; intros Hl t Ht; [cbn [map Join commas]; rewrite append_nil_l; by destruct (lex LStart t)|].
  apply list.Forall_cons in Hl as [Hx Hl]. cbn [map fst snd] in *. destruct l as [|y l]; [by apply Hx|].
  cbn [map Join commas] in *. rewrite !append_assoc.
  change ("," +:+ ?u) with (String "," u). rewrite Hx by done. rewrite (lex_mark _ TComma) by done.
  rewrite (IH Hl t Ht). destruct (lex LStart t) as [r|]; [|done]. cbn. by rewrite <- app_assoc.
Qed.

Lemma lexes_brackets o c opn cls text ts :
  lexStart o = Some ([opn], LStart) -> lexStart c = Some ([cls], LStart) -> numberByte c = false ->
  lexes text ts -> lexes (str1 o +:+ text +:+ str1 c) (opn :: ts ++ [cls]).
Proof.
  intros Ho Hc Hd Ht t _. rewrite !append_assoc. unfold str1. rewrite append_cons, append_nil_l.
  rewrite (lex_mark _ opn) by done. rewrite append_cons, append_nil_l, Ht by (cbn [delimited]; by rewrite Hd).
  rewrite (lex_mark _ cls) by done. destruct (lex LStart t) as [r|]; [|done]. cbn. by rewrite <- app_assoc.
Qed.

Lemma lexes_word c w v :
  lexStart c = Some ([], LWord w v) -> w <> "" -> lexes (String c w) [TLiteral v].
Proof.
  intros Hc Hw t _. rewrite append_cons, (lex_skip _ (LWord w v)) by done. clear Hc c.
  induction w as [|d w IH]; [done|]. rewrite append_cons. destruct w as [|e w].
  - rewrite append_nil_l. cbn [lex lexByte]. by rewrite Ascii.eqb_refl.
  - rewrite (lex_skip _ (LWord (String e w) v)); [by apply IH|]. cbn [lexByte]. by rewrite Ascii.eqb_refl.
Qed.

Lemma lexes_number s : isNumber s = true -> lexes s [TNumber s].
Proof. intros H t Ht. by apply lex_number. Qed.

Lemma lexes_map {A} (f : A -> string) (g : A -> list Token) l :
  Forall (fun x => lexes (f x) (g x)) l -> lexes (Join (map f l) ",") (commas (map g l)).
Proof.
  intros Hl. pose proof (lexes_join (map (fun x => (f x, g x)) l)) as H. rewrite !map_map in H. apply H.
  by apply List.Forall_map.
Qed.

Lemma forallb_Forall {A} (f : A -> bool) l : forallb f l = true <-> Forall (fun x => f x = true) l.
Proof. rewrite forallb_forall, List.Forall_forall. done. Qed.

(** The text of a value is its tokens. *)
Lemma lexes_value v : encodable v = true -> lexes (Marshal v) (tokens v).
Proof.
  induction v as [|s|z|f|l|b|l IH|l IH] using json_ind; cbn [encodable Marshal tokens]; intros He.
  - by apply lexes_word.
  - intros t _. by apply lex_string.
  - apply lexes_number, isNumber_FormatInt.
  - by apply lexes_number.
  - by apply lexes_number.
  - destruct b; by apply lexes_word.
  - apply (lexes_brackets "[" "]"); [done..|]. apply lexes_map. apply forallb_Forall in He.
    eapply list.Forall_impl; [exact (List.Forall_and IH He)|]. cbn. intros v [H1 H2]. auto.
  - apply (lexes_brackets "{" "}"); [done..|]. apply lexes_map. apply forallb_Forall in He.
    eapply list.Forall_impl; [exact (List.Forall_and IH He)|]. cbn. intros [k v] [H1 [H2 H3]%andb_true_iff] t Ht.
    cbn [fst snd] in *. rewrite append_assoc, lex_string by done. change (":" +:+ ?u) with (String ":" u).
    rewrite append_cons, (lex_mark _ TColon), (H1 H3 t Ht) by done. by destruct (lex LStart t).
Qed.

(** ** From tokens to the value *)

Definition reads (v : JsonValue) : Prop :=
  forall stack ts, length stack + depth v <= maxNestingDepth ->
  parseTokens (WantValue stack) (tokens v ++ ts) = parseTokens (complete (literals v) stack) ts.

Lemma deeper_ok stack st : S (length stack) <= maxNestingDepth -> deeper stack st = Some st.
Proof. intros H. unfold deeper. by rewrite (proj2 (Nat.leb_le _ _) H). Qed.

Lemma parse_step st t ts st' : parseToken st t = Some st' -> parseTokens st (t :: ts) = parseTokens st' ts.
Proof. intros H. cbn [parseTokens]. by rewrite H. Qed.

Lemma depth_bound {A} (f : A -> nat) l n m : n + max_list (map f l) <= m -> Forall (fun x => n + f x <= m) l.
Proof.
  intros H. apply List.Forall_forall. intros x Hx. assert (f x ∈ map f l) as Hi by (by apply list_elem_of_In, in_map).
  pose proof (max_list_elem_of_le _ _ Hi). lia.
Qed.

(** The elements after the first [items], up to the closing bracket. *)
Lemma reads_elements l items stack ts :
  Forall (fun v => reads v /\ S (length stack) + depth v <= maxNestingDepth) l -> l <> [] ->
  parseTokens (WantValue (InArray items :: stack)) (commas (map tokens l) ++ TCloseArray :: ts)
  = parseTokens (complete (JArray (items ++ map literals l)) stack) ts.
Proof.
  revert items. induction l as [|v l IH]; intros items Hl Hne; [done|]. apply list.Forall_cons in Hl as [[Hv Hd] Hl].
  cbn [map]. destruct l as [|w l]; cbn [map commas].
  - rewrite Hv by (cbn [length]; lia). by erewrite parse_step.
  - rewrite <- app_assoc, Hv by (cbn [length]; lia). cbn [complete]. rewrite <- app_comm_cons.
    erewrite parse_step by done. cbn [map] in IH. rewrite IH by done. by rewrite <- app_assoc.
Qed.

Definition memberTokens (kv : string * JsonValue) : list Token := TString kv.1 :: TColon :: tokens kv.2.

(** The members from a key on, up to the closing brace. *)
Lemma reads_members l st members stack ts :
  Forall (fun kv => reads kv.2 /\ S (length stack) + depth kv.2 <= maxNestingDepth) l -> l <> [] ->
  (forall k, parseToken st (TString k) = Some (WantColon members k stack)) ->
  parseTokens st (commas (map memberTokens l) ++ TCloseObject :: ts)
  = parseTokens (complete (JObject (members ++ map (fun kv => (kv.1, literals kv.2)) l)) stack) ts.
Proof.
  revert members st. induction l as [|[k v] l IH]; intros members st Hl Hne Hst; [done|].
  apply list.Forall_cons in Hl as [[Hv Hd] Hl]. cbn [fst snd] in *. cbn [map]. destruct l as [|w l]; cbn [map commas].
  - unfold memberTokens. cbn [fst snd]. rewrite <- !app_comm_cons. do 2 (erewrite parse_step by done).
    rewrite Hv by (cbn [length]; lia). by erewrite parse_step.
  - unfold memberTokens at 1. cbn [fst snd]. rewrite <- !app_comm_cons. do 2 (erewrite parse_step by done).
    rewrite <- app_assoc, Hv by (cbn [length]; lia). cbn [complete]. rewrite <- app_comm_cons.
    erewrite parse_step by done. cbn [map] in IH. rewrite (IH (members ++ [(k, literals v)])) by done. by rewrite <- app_assoc.
Qed.

Lemma first_token v : exists t ts, tokens v = t :: ts /\ t <> TCloseArray.
Proof. destruct v; eexists _, _; (split; [reflexivity|done]). Qed.
Lemma commas_first t ts l : exists r, commas ((t :: ts) :: l) = t :: r.
Proof. destruct l; by eexists. Qed.

Lemma reads_array v l stack ts :
  parseTokens (WantElement stack) (commas (map tokens (v :: l)) ++ ts)
  = parseTokens (WantValue (InArray [] :: stack)) (commas (map tokens (v :: l)) ++ ts).
Proof.
  cbn [map]. destruct (first_token v) as (t&r&->&Ht). destruct (commas_first t r (map tokens l)) as (r'&->).
  rewrite <- app_comm_cons. cbn [parseTokens]. f_equal. by destruct t.
Qed.

Lemma reads_value v : reads v.
Proof.
  induction v as [|s|z|f|l|b|l IH|l IH] using json_ind; intros stack ts Hd; try done; cbn [depth] in Hd.
  - assert (Forall (fun v => reads v /\ S (length stack) + depth v <= maxNestingDepth) l) as Hl.
    { apply (List.Forall_and IH). apply depth_bound. lia. }
    cbn [tokens literals]. rewrite <- app_comm_cons, <- app_assoc. rewrite (parse_step _ _ _ (WantElement stack)).
    2: { cbn [parseToken beginValue]. by rewrite deeper_ok by lia. }
    destruct l as [|v l]; [done|]. rewrite reads_array. exact (reads_elements (v :: l) [] stack ts Hl ltac:(done)).
  - assert (Forall (fun kv => reads kv.2 /\ S (length stack) + depth kv.2 <= maxNestingDepth) l) as Hl.
    { apply (List.Forall_and IH). apply (depth_bound (fun kv => depth kv.2)). lia. }
    cbn [tokens literals]. rewrite <- app_comm_cons, <- app_assoc. rewrite (parse_step _ _ _ (WantFirstKey stack)).
    2: { cbn [parseToken beginValue]. by rewrite deeper_ok by lia. }
    destruct l as [|v l]; [done|]. by rewrite (reads_members (v :: l) _ [] stack ts Hl).
Qed.

(** Decoding what was encoded gives the value back, its numbers as their literals:
    escaping, nesting, whatever valid text the strings and keys hold. *)
Theorem json_roundtrip v :
  encodable v = true -> depth v <= maxNestingDepth -> Unmarshal (Marshal v) = Some (literals v).
Proof.
  intros He Hd. unfold Unmarshal. rewrite <- (append_nil_r (Marshal v)), (lexes_value v He "" eq_refl). cbn [lex lexEnd].
  cbn [mbind option_bind]. by rewrite (reads_value v [] [] Hd).
Qed.

(** ** Encoded text is valid UTF-8 *)

Lemma escapeRune_valid n enc : Encoded n enc -> ValidString (escapeRune (Some (n, enc))) = true.
Proof.
  intros He. destruct (N.lt_ge_cases n 128) as [Hn|Hn].
  - destruct (enc_ascii _ _ He Hn) as (c&->&->). destruct c as [[] [] [] [] [] [] [] []]; try (vm_compute in Hn; discriminate); reflexivity.
  - rewrite escapeRune_high by done. destruct (n =? 8232)%N; [done|]. destruct (n =? 8233)%N; [done|]. by apply (enc_valid _ _ He).
Qed.
Lemma jsonString_valid s : ValidString s = true -> ValidString (jsonString s) = true.
Proof.
  intros Hs. unfold jsonString. fold (escaped s). change (String DQUOTE ?t) with (str1 DQUOTE +:+ t).
  apply ValidString_append; [done|]. apply ValidString_append; [|done].
  revert s Hs. apply valid_ind; [done|]. intros n enc rest He _ IH. rewrite (escaped_enc _ _ _ He).
  apply ValidString_append; [by apply escapeRune_valid|done].
Qed.
Lemma Join_valid l : Forall (fun s => ValidString s = true) l -> ValidString (Join l ",") = true.
Proof.
  induction 1 as [|x l Hx Hl IH]; [done|]. cbn [Join]. destruct l; [done|]. apply ValidString_append; [done|]. by apply ValidString_append.
Qed.
Lemma number_valid s : isNumber s = true -> ValidString s = true.
Proof.
  intros (Hb&_)%isNumber_bytes. apply ValidString_ascii. eapply allBytes_impl; [|exact Hb]. intros c Hc.
  destruct c as [[] [] [] [] [] [] [] []]; try discriminate Hc; reflexivity.
Qed.
Lemma Marshal_valid v : encodable v = true -> ValidString (Marshal v) = true.
Proof.
  induction v as [|s|z|f|l|b|l IH|l IH] using json_ind; cbn [encodable Marshal]; intros He.
  - done.
  - by apply jsonString_valid.
  - apply number_valid, isNumber_FormatInt.
  - by apply number_valid.
  - by apply number_valid.
  - by destruct b.
  - apply ValidString_append; [done|]. apply ValidString_append; [|done]. apply Join_valid, List.Forall_map. apply forallb_Forall in He.
    eapply list.Forall_impl; [exact (List.Forall_and IH He)|]. cbn. intros v [H1 H2]. auto.
  - apply ValidString_append; [done|]. apply ValidString_append; [|done]. apply Join_valid, List.Forall_map. apply forallb_Forall in He.
    eapply list.Forall_impl; [exact (List.Forall_and IH He)|]. cbn. intros [k v] [H1 [H2 H3]%andb_true_iff]. cbn [fst snd] in *.
    apply ValidString_append; [by apply jsonString_valid|]. apply ValidString_append; [done|]. auto.
Qed.
