(* ===== verification/Render.v ===== *)
(** * What the renderers share

    A renderer returns text, the diagnostics it collected and an error: on an
    error the diagnostics collected so far are still returned, so the monad [W]
    threads them.  The file also holds the quoting scheme of the SQL dialects,
    with a lexer for it, and the paths of the nodes of a schema. *)
From S2P Require Import Prelude GoStrings StringFacts Schema WellFormed.

(** ** The monad: diagnostics and errors *)

Definition W (A : Type) : Type := list MappingDiagnostic -> list MappingDiagnostic * Outcome A.
#[export] Instance W_ret : MRet W := fun A a d => (d, Ok a).
#[export] Instance W_bind : MBind W := fun A B f m d =>
  match m d with
  | (d, Ok a) => f a d
  | (d, Err e) => (d, Err e)
  | (d, Panic e) => (d, Panic e)
  | (d, NoFuel) => (d, NoFuel)
  end.
Definition liftW {A} (m : Outcome A) : W A := fun d => (d, m).
Definition emit (new : list MappingDiagnostic) : W unit := fun d => (d ++ new, Ok tt).
Definition foldW {A S} (f : S -> A -> W S) : list A -> S -> W S :=
  fix go l s :=
  match l with
  | [] => mret s
  | x :: l => s ← f s x; go l s
  end.

Lemma W_bind_Ok {A B} (m : W A) (f : A -> W B) d d' b :
  (m ≫= f) d = (d', Ok b) <-> exists a d1, m d = (d1, Ok a) /\ f a d1 = (d', Ok b).
Proof.
  unfold mbind, W_bind. destruct (m d) as [d1 [a| | |]] eqn:E; naive_solver.
Qed.
Lemma liftW_Ok {A} (m : Outcome A) d d' a : liftW m d = (d', Ok a) <-> m = Ok a /\ d' = d.
Proof. unfold liftW. naive_solver. Qed.
Lemma emit_Ok new d d' u : emit new d = (d', Ok u) <-> d' = d ++ new /\ u = tt.
Proof. unfold emit. destruct u. naive_solver. Qed.
Lemma wret_Ok {A} (a b : A) (d d' : list MappingDiagnostic) :
  (mret a : W A) d = (d', Ok b) <-> a = b /\ d' = d.
Proof. unfold mret, W_ret. naive_solver. Qed.

(** The computations that succeed. *)
Lemma W_bind_run {A B} (m : W A) (f : A -> W B) d d1 a :
  m d = (d1, Ok a) -> (m ≫= f) d = f a d1.
Proof. intros Hm. unfold mbind, W_bind. by rewrite Hm. Qed.

Ltac W_step H :=
  lazymatch type of H with
  | @mbind W W_bind _ _ _ _ _ = (_, Ok _) =>
      apply W_bind_Ok in H; let a := fresh "v" in let d1 := fresh "d" in let Ha := fresh "H" in
      destruct H as [a [d1 [Ha H]]]; W_step Ha
  | liftW _ _ = (_, Ok _) => apply liftW_Ok in H; let H1 := fresh "H" in
      destruct H as [H1 H]; try W_step H1
  | emit _ _ = (_, Ok _) => apply emit_Ok in H; destruct H
  | @mret W W_ret _ _ _ = (_, Ok _) => apply wret_Ok in H; destruct H
  | @mbind Outcome outcome_bind _ _ _ _ = Ok _ =>
      apply bind_Ok in H; let a := fresh "v" in let Ha := fresh "H" in
      destruct H as [a [Ha H]]; W_step Ha
  | wrapErr _ _ = Ok _ => apply wrapErr_Ok in H; W_step H
  | failIf _ _ = Ok _ => apply failIf_Ok in H
  | Ok _ = Ok _ => injection H as H
  | _ => idtac
  end.
Ltac W_inv H := repeat (progress W_step H; simplify_eq).

(** ** Groups of columns in first-seen order (the oneofs of a table) *)

Fixpoint addToGroup (group member : string) (groups : list (string * list string))
  : list (string * list string) :=
  match groups with
  | [] => [(group, [member])]
  | (g, ms) :: groups =>
      if decide (g = group) then (g, ms ++ [member]) :: groups
      else (g, ms) :: addToGroup group member groups
  end.

(** ** Quoting

    [quoteWith q s] encloses [s] in [q] and doubles every [q] inside. *)
Definition quoteWith (q : ascii) (s : string) : string :=
  str1 q +:+ ReplaceAll s (str1 q) (String q (str1 q)) +:+ str1 q.

(** The lexer of a quoted token, after its opening quote: the value and the text
    that follows the closing quote, [None] when the token does not end. *)
Fixpoint scanQuoted (q : ascii) (s : string) : option (string * string) :=
  match s with
  | EmptyString => None
  | String c s' =>
      if Ascii.eqb c q then
        match s' with
        | String d s'' =>
            if Ascii.eqb d q
            then match scanQuoted q s'' with
                 | Some (v, rest) => Some (String q v, rest)
                 | None => None
                 end
            else Some (EmptyString, s')
        | EmptyString => Some (EmptyString, EmptyString)
        end
      else match scanQuoted q s' with
           | Some (v, rest) => Some (String c v, rest)
           | None => None
           end
  end.
Definition lexQuoted (q : ascii) (s : string) : option (string * string) :=
  match s with
  | String c s => if Ascii.eqb c q then scanQuoted q s else None
  | EmptyString => None
  end.

Lemma ReplaceAll_byte s q new :
  ReplaceAll s (str1 q) new = mapBytes (fun c => if Ascii.eqb c q then new else str1 c) s.
Proof.
  unfold ReplaceAll. assert (forall t, HasPrefix t "" = true) as Hnil by (by intros []).
  induction s as [|c s IH]; [done|]. simpl. rewrite Hnil, andb_true_r, (Ascii.eqb_sym c q). destruct (Ascii.eqb q c) eqn:E; by rewrite IH.
Qed.

Definition startsWith (q : ascii) (s : string) : bool :=
  match s with String c _ => Ascii.eqb c q | EmptyString => false end.

Lemma scanQuoted_double q s rest :
  startsWith q rest = false ->
  scanQuoted q (mapBytes (fun c => if Ascii.eqb c q then String q (str1 q) else str1 c) s
                +:+ str1 q +:+ rest) = Some (s, rest).
Proof.
  intros Hr. induction s as [|c s IH].
  - change (scanQuoted q (String q rest) = Some ("", rest)). simpl. rewrite Ascii.eqb_refl.
    destruct rest as [|d rest]; [done|]. simpl in Hr. by rewrite Hr.
  - simpl. destruct (Ascii.eqb_spec c q) as [->|Hne].
    + rewrite !append_assoc. unfold str1 at 1. rewrite !append_cons, append_nil_l. simpl.
      by rewrite !Ascii.eqb_refl, IH.
    + rewrite !append_assoc. unfold str1 at 1. rewrite !append_cons, append_nil_l. simpl.
      by rewrite (proj2 (Ascii.eqb_neq c q)), IH.
Qed.

(** A quoted value is read back exactly, whatever follows it. *)
Lemma lexQuoted_quoteWith q s rest :
  startsWith q rest = false -> lexQuoted q (quoteWith q s +:+ rest) = Some (s, rest).
Proof.
  intros Hr. unfold quoteWith, lexQuoted. rewrite !append_assoc. unfold str1 at 1.
  rewrite append_cons, append_nil_l, Ascii.eqb_refl, ReplaceAll_byte.
  by apply scanQuoted_double.
Qed.

(** ** The paths of a schema

    The paths of a field and its descendants, in preorder. *)
Fixpoint fieldPaths (path : string) (f : Field) {struct f} : list string :=
  match f with
  | mkField m t =>
      path ::
      match t with
      | None => []
      | Some (mkDataType _ k) =>
          match k with
          | DataType_Struct (Some fs) =>
              concatOpt (fun c => fieldPaths (path +:+ "." +:+ name (meta c)) c) fs
          | DataType_List (Some (Some e, _)) => fieldPaths (path +:+ "[]") e
          | DataType_Map (Some (key, value)) =>
              match key with Some x => fieldPaths (path +:+ ".key") x | None => [] end ++
              match value with Some x => fieldPaths (path +:+ ".value") x | None => [] end
          | _ => []
          end
      end
  end.

(** The paths of the children of a type, each with its field. *)
Definition childPaths (path : string) (k : DataTypeKind) : list (option Field * string) :=
  match k with
  | DataType_Struct s =>
      map (fun c => (c, path +:+ "." +:+ name (metaOf c))) (GetStructFields s)
  | DataType_List l => [(GetListElement l, path +:+ "[]")]
  | DataType_Map m => [(GetMapKey m, path +:+ ".key"); (GetMapValue m, path +:+ ".value")]
  | _ => []
  end.
Definition pathsOf (c : option Field * string) : list string :=
  match c.1 with Some f => fieldPaths c.2 f | None => [] end.

Lemma fieldPaths_unfold path m t :
  fieldPaths path (mkField m t) =
  path :: concat (map pathsOf (childPaths path (GetKind t))).
Proof.
  destruct t as [[p [| | |[fs|]|[[[] ?]|]|[[[] []]|]| | | | | |]]|]; simpl; rewrite ?app_nil_r; try done.
  f_equal. induction fs as [|[f|] fs IH]; simpl; [done| |done]. by rewrite IH.
Qed.

Lemma childPaths_fst path k : map fst (childPaths path k) = childrenOf k.
Proof. destruct k; try done. simpl. rewrite map_map. apply map_id. Qed.

Lemma joinPath_nonempty p c : p <> "" -> joinPath p c = p +:+ "." +:+ c.
Proof. intros Hp. unfold joinPath. by rewrite decide_False. Qed.

Lemma childPaths_nonempty path k c : c ∈ childPaths path k -> c.2 <> "".
Proof.
  intros Hc He. destruct k; simpl in Hc; try (by apply not_elem_of_nil in Hc).
  - apply list_elem_of_fmap in Hc as (o&->&_). simpl in He. by apply append_eq_nil in He as [_ He].
  - apply list_elem_of_singleton in Hc as ->. simpl in He. by apply append_eq_nil in He as [_ He].
  - repeat (apply elem_of_cons in Hc as [->|Hc]; [simpl in He; by apply append_eq_nil in He as [_ He]|]).
    by apply not_elem_of_nil in Hc.
Qed.

(** The paths of the fields of a table. *)
Definition datasetPaths (d : DatasetSchema) : list string :=
  concatOpt (fun f => fieldPaths (name (meta f)) f) (ds_fields d).

Lemma length_fieldPaths path f : length (fieldPaths path f) = length (subFields f).
Proof.
  revert f path. apply (Field_tree_ind (fun f => forall path,
      length (fieldPaths path f) = length (subFields f))
    (fun o => forall f, o = Some f -> forall path, length (fieldPaths path f) = length (subFields f)));
    [done|by intros f IH g [= ->]|].
  intros m t IH path. rewrite fieldPaths_unfold, subFields_unfold. simpl. f_equal.
  rewrite <- (childPaths_fst path) in *. induction (childPaths path (GetKind t)) as [|[o q] l IHl]; [done|].
  apply list.Forall_cons in IH as [IHo IHr]. simpl. rewrite length_app, IHl by done.
  destruct o as [f|]; simpl; [|done]. rewrite childSubFields_cons, length_app. f_equal. by apply IHo.
Qed.

(** ** Mapping the fields of a dataset one by one *)

Lemma wfDataset_split ds :
  wfDataset ds -> exists fs, ds_fields ds = map Some fs /\ Forall wfTree fs /\
    Forall (fun f => fieldName f <> "") fs.
Proof.
  intros Hwf. pose proof (wfDataset_fields _ Hwf) as Htrees. destruct Hwf as [(fs&Hfs&_&Hn) _].
  exists fs. rewrite Hfs, List.Forall_map in Htrees. split_and!; [done| |].
  - eapply list.Forall_impl; [exact Htrees|]. by intros f (g&[= <-]&?).
  - eapply list.Forall_impl; [exact Hn|]. by intros f [? _].
Qed.

Lemma mapOutcome_ext {A B} (f g : A -> Outcome B) l :
  (forall x, f x = g x) -> mapOutcome f l = mapOutcome g l.
Proof. intros Hfg. induction l as [|x l IH]; [done|]. simpl. by rewrite Hfg, IH. Qed.
Lemma mapOutcome_fmap {A B C} (g : A -> B) (f : B -> Outcome C) l :
  mapOutcome f (map g l) = mapOutcome (fun x => f (g x)) l.
Proof. induction l as [|x l IH]; [done|]. simpl. by rewrite IH. Qed.

Lemma mapOutcome_each {A B} (f : A -> Outcome B) (P : A -> B -> Prop) l :
  Forall (fun x => exists y, f x = Ok y /\ P x y) l ->
  exists ys, mapOutcome f l = Ok ys /\ Forall2 P l ys.
Proof.
  induction 1 as [|x l (y&Hy&HP) _ (ys&Hys&HPs)]; [by exists []|].
  exists (y :: ys). simpl. rewrite Hy. simpl. rewrite Hys. by split; [|constructor].
Qed.

(** The loop of a renderer that maps the fields and appends their diagnostics. *)
Definition collect {X} (g : option Field -> Outcome (X * list MappingDiagnostic)) (fields : list X)
  (field : option Field) : W (list X) :=
  mapped ← liftW (g field);
  _ ← emit mapped.2;
  mret (fields ++ [mapped.1]).

Lemma foldW_collect {X} (g : option Field -> Outcome (X * list MappingDiagnostic)) l acc d d' fs :
  foldW (collect g) l acc d = (d', Ok fs) <->
  exists rs, mapOutcome g l = Ok rs /\ d' = d ++ concat (map snd rs) /\ fs = acc ++ map fst rs.
Proof.
  revert acc d. induction l as [|o l IH]; intros acc d.
  - cbn [foldW mapOutcome]. rewrite wret_Ok. split.
    + intros [-> ->]. exists []. simpl. by rewrite !app_nil_r.
    + intros (?&<-%Ok_inj&->&->). simpl. by rewrite !app_nil_r.
  - cbn [foldW mapOutcome]. rewrite W_bind_Ok. unfold collect at 1. split.
    + intros (acc'&d1&Hr&Hl). apply W_bind_Ok in Hr as (mapped&d2&[Hx ->]%liftW_Ok&Hr).
      apply W_bind_Ok in Hr as (?&?&[-> _]%emit_Ok&[<- ->]%wret_Ok). apply IH in Hl as (rs&Hrs&->&->).
      rewrite Hx. simpl. rewrite Hrs. eexists. split; [reflexivity|]. simpl.
      by rewrite <- !app_assoc.
    + intros (rs&Hrs&->&->). apply bind_Ok in Hrs as ([x ds]&Hx&Hrs).
      apply bind_Ok in Hrs as (rs'&Hrs&<-%Ok_inj). exists (acc ++ [x]), (d ++ ds). split.
      * erewrite W_bind_run by (unfold liftW; rewrite Hx; done). reflexivity.
      * apply IH. exists rs'. simpl. by rewrite <- !app_assoc.
Qed.
