(* ===== verification/Sqlite.v ===== *)
(** * The SQLite renderer (src/go/data/sqlite/schema.go)

    One table per dataset, with checks for the storage class and the value
    domain of every column. *)
From S2P Require Import Prelude GoStrings StringFacts Schema WellFormed Render.

Module Sqlite.

Definition maxInt32N : N := 2147483647.

Definition quote (value : string) : string := quoteWith DQUOTE value.

(** [strings.Map] over the runes: bytes above 127 are not letters of the range. *)
Definition asciiLower (value : string) : string := ToLower value.

Definition validText (value : string) : Outcome unit :=
  failIf (negb (ValidString value) || containsByte NUL value) "text must be valid UTF-8 without NUL".

Definition comment (value indent : string) : string :=
  if decide (value = "") then ""
  else
    let value := ReplaceAll value (str1 CR) (str1 LF) in
    indent +:+ "-- " +:+ ReplaceAll value (str1 LF) (str1 LF +:+ indent +:+ "-- ") +:+ str1 LF.

Definition unsignedText (value : string) : string :=
  "length(" +:+ value +:+ ") > 0 AND instr(" +:+ value +:+ ", char(0)) = 0 AND " +:+ value +:+
  " NOT GLOB '*[^0-9]*' AND (" +:+ value +:+ " = '0' OR substr(" +:+ value +:+
  ", 1, 1) BETWEEN '1' AND '9')".

Definition invalidType {A} : Outcome A := Err "unsupported or invalid logical type".

(** The result of [mapping]: type, check, compatibility and message. *)
Definition Mapped : Type := string * string * MappingCompatibility * string.

Definition mapPrimitive (kind : PrimitiveKind) (nm : string) : Outcome Mapped :=
  let integer := "typeof(" +:+ nm +:+ ") = 'integer'" in
  let text := "typeof(" +:+ nm +:+ ") = 'text'" in
  let blob := "typeof(" +:+ nm +:+ ") = 'blob'" in
  match kind with
  | PRIMITIVE_KIND_DOUBLE | PRIMITIVE_KIND_FLOAT =>
      Ok ("REAL", "typeof(" +:+ nm +:+ ") = 'real'", RANGE_REDUCED,
          "SQLite REAL stores binary64 values; NaN becomes NULL and cannot preserve a present protobuf NaN; float32 writers must enforce their source precision")
  | PRIMITIVE_KIND_INT64 | PRIMITIVE_KIND_SINT64 | PRIMITIVE_KIND_SFIXED64 =>
      Ok ("INTEGER", integer, LOSSLESS, "signed 64-bit integer with a SQLite storage-class check")
  | PRIMITIVE_KIND_INT32 | PRIMITIVE_KIND_SINT32 | PRIMITIVE_KIND_SFIXED32 =>
      Ok ("INTEGER", integer +:+ " AND " +:+ nm +:+ " BETWEEN -2147483648 AND 2147483647", LOSSLESS,
          "signed 32-bit integer with exact range checks")
  | PRIMITIVE_KIND_UINT32 | PRIMITIVE_KIND_FIXED32 =>
      Ok ("INTEGER", integer +:+ " AND " +:+ nm +:+ " BETWEEN 0 AND 4294967295", LOSSLESS,
          "unsigned 32-bit integer with exact range checks")
  | PRIMITIVE_KIND_UINT64 | PRIMITIVE_KIND_FIXED64 =>
      Ok ("TEXT",
          text +:+ " AND " +:+ unsignedText nm +:+ " AND (length(" +:+ nm +:+ ") < 20 OR (length(" +:+
          nm +:+ ") = 20 AND " +:+ nm +:+ " <= '18446744073709551615' COLLATE BINARY))",
          REPRESENTATION_CHANGED,
          "uint64 uses canonical decimal TEXT with exact bounds; bind text without an intermediate REAL or signed integer; lexical order is not numeric order")
  | PRIMITIVE_KIND_BOOL =>
      Ok ("INTEGER", integer +:+ " AND " +:+ nm +:+ " IN (0, 1)", REPRESENTATION_CHANGED,
          "boolean represented by INTEGER 0 or 1")
  | PRIMITIVE_KIND_STRING =>
      Ok ("TEXT", text, LOSSLESS, "protobuf string stored as TEXT, including embedded U+0000")
  | PRIMITIVE_KIND_BYTES => Ok ("BLOB", blob, LOSSLESS, "protobuf bytes stored as BLOB")
  | PRIMITIVE_KIND_UNSPECIFIED | PRIMITIVE_KIND_other _ => invalidType
  end.

(** The check of a decimal column of precision [p] and scale [s]. *)
Definition decimalCheck (p s : N) (nm : string) : string :=
  let text := "typeof(" +:+ nm +:+ ") = 'text'" in
  let magnitude := "(CASE WHEN substr(" +:+ nm +:+ ", 1, 1) = '-' THEN substr(" +:+ nm +:+
                   ", 2) ELSE " +:+ nm +:+ " END)" in
  let check := text +:+ " AND instr(" +:+ nm +:+ ", char(0)) = 0" in
  let '(whole, check, zero) :=
    if (0 <? s)%N then
      let fraction := "substr(" +:+ magnitude +:+ ", -" +:+ FormatUint s +:+ ")" in
      ("substr(" +:+ magnitude +:+ ", 1, length(" +:+ magnitude +:+ ") - " +:+ FormatUint (s + 1) +:+ ")",
       check +:+ " AND substr(" +:+ magnitude +:+ ", -" +:+ FormatUint (s + 1) +:+ ", 1) = '.' AND length("
         +:+ fraction +:+ ") = " +:+ FormatUint s +:+ " AND " +:+ fraction +:+ " NOT GLOB '*[^0-9]*'",
       "0" +:+ "." +:+ Repeat "0" (N.to_nat s))
    else (magnitude, check, "0") in
  let check := check +:+ " AND " +:+ unsignedText whole in
  let check :=
    if (p =? s)%N then check +:+ " AND " +:+ whole +:+ " = '0'"
    else check +:+ " AND length(" +:+ whole +:+ ") <= " +:+ FormatUint (p - s) in
  check +:+ " AND " +:+ nm +:+ " != '-" +:+ zero +:+ "'".

Definition uuidCheck (nm : string) : string :=
  "typeof(" +:+ nm +:+ ") = 'text'" +:+ " AND length(" +:+ nm +:+ ") = 36 AND instr(" +:+ nm +:+
  ", char(0)) = 0 AND substr(" +:+ nm +:+ ", 9, 1) = '-' AND substr(" +:+ nm +:+
  ", 14, 1) = '-' AND substr(" +:+ nm +:+ ", 19, 1) = '-' AND substr(" +:+ nm +:+
  ", 24, 1) = '-' AND length(replace(" +:+ nm +:+ ", '-', '')) = 32 AND replace(" +:+ nm +:+
  ", '-', '') NOT GLOB '*[^0-9a-f]*'".

(** The shape and the fixed length of a value stored as JSON text. *)
Definition jsonShape (kind : DataTypeKind) : Outcome (string * N) :=
  match kind with
  | DataType_Struct s => if isNil s then Err "invalid struct type" else Ok ("object", 0%N)
  | DataType_List l =>
      if isNil l || (maxInt32N <? GetFixedLength l)%N then Err "invalid list type"
      else Ok ("array", GetFixedLength l)
  | DataType_Map m => if isNil m then Err "invalid map type" else Ok ("object", 0%N)
  | DataType_Json j =>
      match GetJsonKind j with
      | JSON_KIND_VALUE => Ok ("", 0%N)
      | JSON_KIND_LIST_VALUE => Ok ("array", 0%N)
      | JSON_KIND_ANY | JSON_KIND_STRUCT => Ok ("object", 0%N)
      | _ => Err "unsupported dynamic JSON kind"
      end
  | _ => invalidType
  end.

Definition jsonMapping (kind : DataTypeKind) (nm : string) : Outcome Mapped :=
  shaped ← jsonShape kind;
  let '(shape, fixed) := shaped in
  let valid :=
    if decide (shape = "") then "1" else "json_type(" +:+ nm +:+ ") = '" +:+ shape +:+ "'" in
  let valid :=
    if (0 <? fixed)%N then valid +:+ " AND json_array_length(" +:+ nm +:+ ") = " +:+ FormatUint fixed
    else valid in
  let text := "typeof(" +:+ nm +:+ ") = 'text'" in
  Ok ("TEXT",
      text +:+ " AND instr(" +:+ nm +:+ ", char(0)) = 0 AND CASE WHEN json_valid(" +:+ nm +:+ ") THEN " +:+
      valid +:+ " ELSE 0 END", RANGE_WIDENED,
      "ProtoJSON TEXT checks JSON syntax, top-level shape and any top-level fixed length; nested types, presence, refinements and Any resolution remain writer-owned; dynamic JSON numbers must be finite").

Definition mapping (t : DataType) (nm : string) : Outcome Mapped :=
  let integer := "typeof(" +:+ nm +:+ ") = 'integer'" in
  match kindOf t with
  | DataType_Primitive p => mapPrimitive (GetPrimitiveKind p) nm
  | DataType_Enum e =>
      if isNil e || (length (GetEnumValues e) =? 0)%nat then invalidType
      else
        let check := integer +:+ " AND " +:+ nm +:+ " BETWEEN -2147483648 AND 2147483647" in
        let check :=
          if GetEnumClosed e then
            check +:+ " AND " +:+ nm +:+ " IN (" +:+
            Join (map (fun v => FormatInt (ev_number (enumValueOf v))) (GetEnumValues e)) ", " +:+ ")"
          else check in
        Ok ("INTEGER", check, LOSSLESS,
            "enum numbers retain their signed 32-bit domain; closed enums also check declared values")
  | DataType_Timestamp ts =>
      if negb (bool_decide (GetTimestampUnit ts = TIME_UNIT_NANOSECOND))
         || negb (String.eqb (GetTimezone ts) "UTC") then invalidType
      else
        Ok ("INTEGER", integer +:+ " AND " +:+ nm +:+ " BETWEEN -62135596800000000 AND 253402300799999999",
            PRECISION_REDUCED,
            "Timestamp uses signed Unix microseconds with the complete protobuf year range; sub-microsecond precision requires explicit writer conversion")
  | DataType_Duration u =>
      if negb (bool_decide (GetDurationUnit u = TIME_UNIT_NANOSECOND)) then invalidType
      else
        Ok ("INTEGER", integer, RANGE_REDUCED,
            "Duration uses exact signed nanoseconds; SQLite int64 cannot represent the complete protobuf Duration range")
  | DataType_Decimal d =>
      let p := GetPrecision d in
      let s := GetScale d in
      if (p =? 0)%N || (38 <? p)%N || (p <? s)%N then invalidType
      else
        Ok ("TEXT", decimalCheck p s nm, LOSSLESS,
            "canonical fixed-scale decimal text with exact precision, scale, sign and zero checks; bind text, arithmetic is application-owned")
  | DataType_Uuid u =>
      if isNil u then invalidType
      else Ok ("TEXT", uuidCheck nm, LOSSLESS,
               "canonical lowercase UUID text with exact hexadecimal and hyphen checks")
  | DataType_FixedBytes f =>
      let width := GetByteLength f in
      if (width =? 0)%N || (maxInt32N <? width)%N then invalidType
      else
        Ok ("BLOB", "typeof(" +:+ nm +:+ ") = 'blob'" +:+ " AND length(" +:+ nm +:+ ") = " +:+ FormatUint width,
            LOSSLESS, "fixed-width bytes with a BLOB length check")
  | DataType_Struct _ | DataType_List _ | DataType_Map _ | DataType_Json _ => jsonMapping (kindOf t) nm
  | DataType_None => invalidType
  end.

Definition defaultExpression (field : Field) : Outcome string :=
  let t := typ field in
  match presence (meta field) with
  | PRESENCE_REPEATED => Ok (if (GetFixedLength (GetList t) =? 0)%N then "'[]'" else "")
  | PRESENCE_MAP => Ok "'{}'"
  | PRESENCE_IMPLICIT =>
      if negb (isNil (GetEnum t)) then Ok "0"
      else if isNil (GetPrimitive t) then
        Err "implicit refined or composite field has no protobuf default"
      else
        match GetPrimitiveKind (GetPrimitive t) with
        | PRIMITIVE_KIND_STRING => Ok "''"
        | PRIMITIVE_KIND_BYTES => Ok "X''"
        | PRIMITIVE_KIND_UINT64 | PRIMITIVE_KIND_FIXED64 => Ok "'0'"
        | _ => Ok "0"
        end
  | _ => Ok ""
  end.

Definition nestedMessage : string :=
  "nested ProtoJSON value: SQLite does not enforce this node's logical domain, presence or refinements; writer validation is required".

(** Diagnostics of the nodes below a column; each must have a mappable type. *)
Fixpoint nestedDiagnostics (t : DataType) (path : string) {struct t}
  : Outcome (list MappingDiagnostic) :=
  let one (field : option Field) (p : string) : Outcome (list MappingDiagnostic) :=
    match field with
    | Some (mkField m (Some ft)) =>
        _ ← wrapErr ("sqlite: field " +:+ Quote p +:+ ": ") (mapping ft (quote (name m)));
        nested ← nestedDiagnostics ft p;
        Ok (mkDiagnostic p RANGE_WIDENED nestedMessage :: nested)
    | _ => Err ("sqlite: field " +:+ Quote p +:+ ": missing nested logical type")
    end in
  match t with
  | mkDataType _ kind =>
      match kind with
      | DataType_Struct (Some fields) =>
          result ← mapOutcome (fun f => one f (path +:+ "." +:+ name (metaOf f))) fields;
          Ok (concat result)
      | DataType_List (Some (element, _)) => one element (path +:+ "[]")
      | DataType_List None => one None (path +:+ "[]")
      | DataType_Map (Some (key, value)) =>
          ks ← one key (path +:+ ".key");
          vs ← one value (path +:+ ".value");
          Ok (ks ++ vs)
      | DataType_Map None => one None (path +:+ ".key")
      | _ => Ok []
      end
  end.

(** The state of the loop over the columns. *)
Record Columns : Type := mkColumns {
  definitions : list string;
  seen : list string;
  oneofs : list (string * list string)
}.

Definition columnDefinition (field : Field) (typeName check defaultSQL : string) : string :=
  let m := meta field in
  let nm := quote (name m) in
  comment (description m) "  " +:+ "  " +:+ nm +:+ " " +:+ typeName +:+
  (if negb (nullable m) then " NOT NULL" else "") +:+
  (if decide (defaultSQL = "") then "" else " DEFAULT " +:+ defaultSQL) +:+
  " CHECK (" +:+ nm +:+ " IS NULL OR (" +:+ check +:+ "))".

Definition column (state : Columns) (field : option Field) : W Columns :=
  match field with
  | Some (mkField m (Some t)) =>
      let f := mkField m (Some t) in
      _ ← liftW (failIf (bool_decide (name m = "")) "sqlite: field requires a name and logical type");
      _ ← liftW (wrapErr "sqlite: field name: " (validText (name m)));
      _ ← liftW (wrapErr "sqlite: field description: " (validText (description m)));
      let folded := asciiLower (name m) in
      _ ← liftW (failIf (bool_decide (folded ∈ seen state))
            ("sqlite: case-insensitive column collision " +:+ Quote (name m)));
      mapped ← liftW (wrapErr ("sqlite: field " +:+ Quote (name m) +:+ ": ") (mapping t (quote (name m))));
      let '(typeName, check, compat, msg) := mapped in
      defaultSQL ← liftW (wrapErr ("sqlite: field " +:+ Quote (name m) +:+ ": ") (defaultExpression f));
      _ ← emit [mkDiagnostic (name m) compat msg];
      nested ← liftW (nestedDiagnostics t (name m));
      _ ← emit nested;
      mret (mkColumns (definitions state ++ [columnDefinition f typeName check defaultSQL])
              (seen state ++ [folded])
              (if decide (oneof m = "") then oneofs state
               else addToGroup (oneof m) ("(" +:+ quote (name m) +:+ " IS NOT NULL)") (oneofs state)))
  | _ => liftW (Err "sqlite: field requires a name and logical type")
  end.

Definition oneofDefinition (group : string * list string) : string :=
  "  CHECK ((" +:+ Join group.2 " + " +:+ ") <= 1)".

Definition DDL (dataset : option DatasetSchema) : list MappingDiagnostic * Outcome string :=
  match dataset with
  | None => ([], Err "sqlite: a dataset with at least one field is required")
  | Some ds =>
      (_ ← liftW (failIf (length (ds_fields ds) =? 0)%nat
             "sqlite: a dataset with at least one field is required");
       _ ← liftW (failIf (negb (isOk (validText (ds_name ds))) || bool_decide (ds_name ds = "")
                          || HasPrefix (asciiLower (ds_name ds)) "sqlite_")
             "sqlite: invalid or reserved table name");
       _ ← liftW (wrapErr "sqlite: table description: " (validText (ds_description ds)));
       state ← foldW column (ds_fields ds) (mkColumns [] [] []);
       mret (comment (ds_description ds) "" +:+ "CREATE TABLE " +:+ quote (ds_name ds) +:+ " (" +:+ str1 LF +:+
             Join (definitions state ++ map oneofDefinition (oneofs state)) ("," +:+ str1 LF) +:+
             str1 LF +:+ ");" +:+ str1 LF)) []
  end.
End Sqlite.
