(* ===== verification/SqliteSpec.v ===== *)
(** * The contract of the SQLite renderer *)
From S2P Require Import Prelude GoStrings StringFacts Schema WellFormed Compiler Examples.
From S2P Require Import CompilerFacts CompileSpec Render Sqlite.

Import Sqlite.

(** ** Diagnostics *)

Definition nestedField (c : option Field * string) : Outcome (list MappingDiagnostic) :=
  match c.1 with
  | Some (mkField m (Some ft)) =>
      _ ← wrapErr ("sqlite: field " +:+ Quote c.2 +:+ ": ") (mapping ft (quote (name m)));
      nested ← nestedDiagnostics ft c.2;
      Ok (mkDiagnostic c.2 RANGE_WIDENED nestedMessage :: nested)
  | _ => Err ("sqlite: field " +:+ Quote c.2 +:+ ": missing nested logical type")
  end.

Lemma mapOutcome_map {A B C} (g : A -> B) (f : B -> Outcome C) l :
  mapOutcome f (map g l) = mapOutcome (fun x => f (g x)) l.
Proof. induction l as [|x l IH]; [done|]. simpl. by rewrite IH. Qed.

Lemma sqlite_nestedDiagnostics_unfold t path :
  nestedDiagnostics t path =
  (r ← mapOutcome nestedField (childPaths path (kindOf t)); Ok (concat r)).
Proof.
  destruct t as [p [| | |[fs|]|[[e n]|]|[[k v]|]| | | | | |]]; simpl; try done.
  - rewrite mapOutcome_map. done.
  - change (nestedField (e, path +:+ "[]")) with
      (nestedField (e, path +:+ "[]")). unfold nestedField. simpl.
    destruct e as [[m [ft|]]|]; simpl; [|done..].
    destruct (mapping ft _); simpl; try done.
    destruct (nestedDiagnostics ft _); simpl; try done. by rewrite app_nil_r.
  - unfold nestedField. simpl.
    destruct k as [[m [ft|]]|]; simpl; [|done..].
    destruct (mapping ft _); simpl; try done.
    destruct (nestedDiagnostics ft _); simpl; try done.
    destruct v as [[m' [ft'|]]|]; simpl; [|done..].
    destruct (mapping ft' _); simpl; try done.
    destruct (nestedDiagnostics ft' _); simpl; try done. by rewrite app_nil_r.
Qed.

Lemma mapping_total t nm : wfKind (kindOf t) -> exists r, mapping t nm = Ok r.
Proof.
  unfold mapping, jsonMapping, jsonShape, maxInt32N. intros Hk.
  destruct (kindOf t) as [|[p|]|[e|]|[fs|]|[[e n]|]|[[k v]|]|[ts|]|[u|]|[j|]|[d|]|[u|]|[n|]];
    simpl in *; try done; try by eexists.
  - destruct p; simpl in *; try done; by eexists.
  - destruct Hk as [Hne _]. destruct (et_values e); [done|]. simpl. by eexists.
  - destruct Hk as [_ Hn]. destruct (N.ltb_spec 2147483647 n); [lia|]. simpl. by eexists.
  - destruct Hk as [-> ->]. by eexists.
  - subst u. by eexists.
  - destruct j; simpl in *; try done; by eexists.
  - destruct Hk as [Hp Hs].
    destruct (N.eqb_spec (dec_precision d) 0); [lia|]. destruct (N.ltb_spec 38 (dec_precision d)); [lia|].
    destruct (N.ltb_spec (dec_precision d) (dec_scale d)); [lia|]. by eexists.
  - destruct (N.eqb_spec n 0); [lia|]. destruct (N.ltb_spec 2147483647 n); [lia|]. by eexists.
Qed.

(** A nested field yields one diagnostic per node, in preorder. *)
Lemma nestedField_total f path :
  wfTree f ->
  exists ds, nestedField (Some f, path) = Ok ds /\ map field_path ds = fieldPaths path f.
Proof.
  intros Hwf. revert f Hwf path. apply (wfTree_ind (fun f => forall path,
    exists ds, nestedField (Some f, path) = Ok ds /\ map field_path ds = fieldPaths path f)).
  intros m t [[ft Ht] [Hk _]] _ IH path. cbn [typ] in Ht, Hk. subst t. cbn [GetKind] in Hk, IH.
  rewrite fieldPaths_unfold. unfold nestedField. cbn [fst snd GetKind].
  destruct (mapping_total ft (quote (name m)) Hk) as [r ->]. simpl.
  rewrite sqlite_nestedDiagnostics_unfold. rewrite <- (childPaths_fst path) in IH.
  assert (exists rs, mapOutcome nestedField (childPaths path (kindOf ft)) = Ok rs /\
    map field_path (concat rs) = concat (map pathsOf (childPaths path (kindOf ft)))) as (rs&->&Hrs).
  { induction (childPaths path (kindOf ft)) as [|[o q] l IHl]; [by exists []|].
    apply list.Forall_cons in IH as [(g&Heq&Hg) IH]. simpl in Heq. subst o.
    destruct (Hg q) as (ds&Hds&Hp). destruct (IHl IH) as (rs&Hrs&Hps).
    exists (ds :: rs). simpl. rewrite Hds. simpl. rewrite Hrs. split; [done|].
    by rewrite map_app, Hp, Hps. }
  simpl. eexists. split; [done|]. simpl. by rewrite Hrs.
Qed.

Lemma sqlite_defaultExpression_total f :
  wfPresence (meta f) (GetKind (typ f)) -> wfKind (GetKind (typ f)) ->
  exists e, defaultExpression f = Ok e.
Proof.
  unfold wfPresence, defaultExpression, GetEnum, GetPrimitive. intros Hp Hk.
  destruct (presence (meta f)); try by eexists.
  destruct Hp as (_&_&_&Hs). destruct (GetKind (typ f)) as [|[p|]|[e|]| | | | | | | | |]; simpl in *;
    try done; try by eexists.
  destruct p; by eexists.
Qed.

(** ** The table *)

(** What the renderer requires of the names and the descriptions of a dataset. *)
Record Renderable (ds : DatasetSchema) : Prop := mkRenderable {
  rd_wf : wfDataset ds;
  rd_fields : ds_fields ds <> [];
  rd_name : validText (ds_name ds) = Ok tt /\ ds_name ds <> "" /\
            HasPrefix (asciiLower (ds_name ds)) "sqlite_" = false;
  rd_description : validText (ds_description ds) = Ok tt;
  rd_texts : forallb (fun o => isOk (validText (name (metaOf o))) &&
                               isOk (validText (description (metaOf o)))) (ds_fields ds) = true;
  rd_folded : NoDup (map (fun o => asciiLower (name (metaOf o))) (ds_fields ds))
}.

Lemma column_total state f d :
  wfTree f -> fieldName f <> "" -> validText (name (meta f)) = Ok tt ->
  validText (description (meta f)) = Ok tt -> asciiLower (name (meta f)) ∉ seen state ->
  exists state' ds, column state (Some f) d = (d ++ ds, Ok state') /\
    map field_path ds = fieldPaths (name (meta f)) f /\
    seen state' = seen state ++ [asciiLower (name (meta f))].
Proof.
  destruct f as [m t]. intros Hwf Hne Hn Hd Hseen. cbn [meta] in *.
  destruct (wfTree_node _ _ Hwf) as [[ft Ht] [Hk Hp]]. simpl in Ht. subst t.
  destruct (mapping_total ft (quote (name m)) Hk) as [[[[ty ck] cp] ms] Hm].
  destruct (sqlite_defaultExpression_total _ Hp Hk) as [e He].
  destruct (nestedField_total (mkField m (Some ft)) (name m) Hwf) as (ds&Hds&Hpaths).
  unfold nestedField in Hds. simpl in Hds. rewrite Hm in Hds. simpl in Hds.
  destruct (nestedDiagnostics ft (name m)) as [nested| | |] eqn:Hnest; try done. simpl in Hds.
  injection Hds as <-. unfold column.
  rewrite (bool_decide_eq_false_2 (name m = "")), (bool_decide_eq_false_2 (_ ∈ seen state)) by done.
  unfold fieldName in Hne. simpl in Hne.
  erewrite W_bind_run by done. erewrite W_bind_run by (unfold liftW; rewrite Hn; done).
  erewrite W_bind_run by (unfold liftW; rewrite Hd; done). erewrite W_bind_run by done.
  erewrite W_bind_run by (unfold liftW; rewrite Hm; done). cbv beta iota.
  erewrite W_bind_run by (unfold liftW; rewrite He; done).
  erewrite W_bind_run by (unfold emit; done).
  erewrite W_bind_run by (unfold liftW; rewrite Hnest; done).
  erewrite W_bind_run by (unfold emit; done).
  eexists _, (mkDiagnostic (name m) cp ms :: nested). split; [|split].
  - unfold mret, W_ret. rewrite <- app_assoc. done.
  - simpl in *. injection Hpaths as Hpaths. by rewrite Hpaths.
  - done.
Qed.

Lemma columns_total fs state d :
  Forall wfTree fs -> Forall (fun f => fieldName f <> "") fs ->
  Forall (fun f => validText (name (meta f)) = Ok tt /\ validText (description (meta f)) = Ok tt) fs ->
  NoDup (seen state ++ map (fun f => asciiLower (fieldName f)) fs) ->
  exists state' ds, foldW column (map Some fs) state d = (d ++ ds, Ok state') /\
    map field_path ds = concat (map (fun f => fieldPaths (name (meta f)) f) fs).
Proof.
  revert state d. induction fs as [|f fs IH]; intros state d Hwf Hne Htx Hnd.
  - exists state, []. simpl. by rewrite app_nil_r.
  - apply list.Forall_cons in Hwf as [Hf Hwf]. apply list.Forall_cons in Hne as [Hn Hne].
    apply list.Forall_cons in Htx as [[Ht1 Ht2] Htx]. simpl in Hnd.
    destruct (column_total state f d Hf Hn Ht1 Ht2) as (s1&ds1&Hc&Hp&Hs).
    { apply list.NoDup_app in Hnd as (_&Hdis&_). intros Hin. apply (Hdis _ Hin). left. }
    destruct (IH s1 (d ++ ds1) Hwf Hne Htx) as (s2&ds2&Hc2&Hp2).
    { rewrite Hs. unfold fieldName in Hnd. by rewrite <- app_assoc. }
    exists s2, (ds1 ++ ds2). simpl map. cbn [foldW]. erewrite W_bind_run by exact Hc.
    split; [by rewrite Hc2, app_assoc|]. rewrite map_app, Hp, Hp2. done.
Qed.

Lemma isOk_unit (m : Outcome unit) : isOk m = true -> m = Ok tt.
Proof. by destruct m as [[]| | |]. Qed.

Lemma forallb_texts l :
  forallb (fun o => isOk (validText (name (metaOf o))) && isOk (validText (description (metaOf o)))) l
  = true ->
  Forall (fun o => validText (name (metaOf o)) = Ok tt /\ validText (description (metaOf o)) = Ok tt) l.
Proof.
  intros H. rewrite forallb_forall in H. apply List.Forall_forall. intros o [??]%H%andb_true_iff.
  split; by apply isOk_unit.
Qed.

Lemma datasetPaths_Some ds fs :
  ds_fields ds = map Some fs ->
  datasetPaths ds = concat (map (fun f => fieldPaths (name (meta f)) f) fs).
Proof.
  unfold datasetPaths. intros ->. induction fs as [|f fs IH]; [done|]. simpl. by rewrite IH.
Qed.

(** Every well-formed dataset whose names and descriptions are valid text,
    whose columns differ case-insensitively and whose table name is not reserved
    renders to a table, with exactly one diagnostic per node of the schema, in
    preorder. *)
Theorem sqlite_total ds :
  Renderable ds ->
  exists diagnostics sql, DDL (Some ds) = (diagnostics, Ok sql) /\
    map field_path diagnostics = datasetPaths ds.
Proof.
  intros [Hwf Hne (Hn&Hnn&Hpre) Hd Htx Hnd]. pose proof (wfDataset_fields _ Hwf) as Htrees.
  destruct Hwf as [(fs&Hfs&_&Hnames) _]. rewrite Hfs in *.
  destruct (columns_total fs (mkColumns [] [] []) []) as (state&diags&Hc&Hp).
  - rewrite List.Forall_map in Htrees. eapply list.Forall_impl; [exact Htrees|]. by intros f (g&[= <-]&?).
  - eapply list.Forall_impl; [exact Hnames|]. by intros f [? _].
  - apply forallb_texts in Htx. by rewrite List.Forall_map in Htx.
  - rewrite map_map in Hnd. exact Hnd.
  - exists diags. rewrite (datasetPaths_Some ds fs Hfs).
    eexists. split; [|exact Hp]. unfold DDL. rewrite Hfs.
    erewrite W_bind_run by (unfold liftW; by destruct fs).
    erewrite W_bind_run by (unfold liftW; rewrite Hn, bool_decide_eq_false_2, Hpre by done; done).
    erewrite W_bind_run by (unfold liftW; rewrite Hd; done).
    erewrite W_bind_run by exact Hc. unfold mret, W_ret. by rewrite app_nil_l.
Qed.

(** ** Safety of the text *)

Lemma comment_lines value indent :
  noByte LF indent = true ->
  Forall (fun line => line = "" \/ HasPrefix line (indent +:+ "-- ") = true)
    (Split (comment value indent) LF).
Proof.
  intros Hi. unfold comment. case_decide; [by repeat constructor|].
  set (text := ReplaceAll value _ _). rewrite (ReplaceAll_byte text LF).
  change (String LF "" +:+ indent +:+ "-- ") with (String LF (indent +:+ "-- ")).
  change (Forall (fun line => line = "" \/ HasPrefix line (indent +:+ "-- ") = true)
    (Split (indent +:+ "-- " +:+ prefixLines LF (indent +:+ "-- ") text +:+ String LF "") LF)).
  replace (indent +:+ "-- " +:+ prefixLines LF (indent +:+ "-- ") text +:+ String LF "") with
    (((indent +:+ "-- ") +:+ prefixLines LF (indent +:+ "-- ") text) +:+ String LF "")
    by (by rewrite !append_assoc).
  rewrite Split_append, Split_prefixLines by (by rewrite noByte_append, Hi).
  apply Forall_app. split; [|by repeat constructor].
  destruct (Split _ LF) as [|x xs]; constructor.
  - right. apply HasPrefix_append.
  - apply List.Forall_map, Forall_true. intros l. right. apply HasPrefix_append.
Qed.

Lemma validText_Ok s u : validText s = Ok u -> noByte NUL s = true /\ ValidString s = true.
Proof.
  unfold validText. intros [Hv Hn]%failIf_Ok%orb_false_iff.
  split; [by apply containsByte_noByte|by apply negb_false_iff].
Qed.

(** Identifiers and comments cannot break out of the statement: the table
    name is read back exactly by the SQL lexer, and a description is rendered as
    comment lines only, each behind the comment marker. *)
Theorem sqlite_text_safe ds diagnostics sql :
  DDL (Some ds) = (diagnostics, Ok sql) ->
  exists rest tail,
    sql = comment (ds_description ds) "" +:+ "CREATE TABLE " +:+ rest /\
    lexQuoted DQUOTE rest = Some (ds_name ds, tail) /\
    noByte NUL (ds_name ds) = true /\
    Forall (fun line => line = "" \/ HasPrefix line "-- " = true)
      (Split (comment (ds_description ds) "") LF).
Proof.
  unfold DDL. intros Hd. W_inv Hd.
  eexists _, _. split_and!; [done|by apply lexQuoted_quoteWith| |exact (comment_lines (ds_description ds) "" eq_refl)].
  repeat match goal with Hb : (_ || _)%bool = false |- _ => apply orb_false_iff in Hb as [??] end.
  destruct (validText (ds_name ds)) as [u| | |] eqn:Hv; try done. by destruct (validText_Ok _ _ Hv).
Qed.

(** The definition of a column: its comment, then its quoted name. *)
Lemma columnDefinition_lex f typeName check defaultSQL :
  exists tail, columnDefinition f typeName check defaultSQL =
    comment (description (meta f)) "  " +:+ "  " +:+ quote (name (meta f)) +:+ tail /\
    startsWith DQUOTE tail = false.
Proof. unfold columnDefinition. eexists. split; [reflexivity|]. done. Qed.

(** A column definition starts with comment lines and the column name,
    which the SQL lexer reads back exactly; nothing of a name or a description
    is read as SQL. *)
Theorem sqlite_column_safe f typeName check defaultSQL :
  exists rest tail,
    columnDefinition f typeName check defaultSQL = comment (description (meta f)) "  " +:+ "  " +:+ rest /\
    lexQuoted DQUOTE rest = Some (name (meta f), tail) /\
    Forall (fun line => line = "" \/ HasPrefix line "  -- " = true)
      (Split (comment (description (meta f)) "  ") LF).
Proof.
  destruct (columnDefinition_lex f typeName check defaultSQL) as (tail&->&Ht).
  eexists _, tail. split_and!; [done|by apply lexQuoted_quoteWith|exact (comment_lines (description (meta f)) "  " eq_refl)].
Qed.

(** ** Witnesses *)

Lemma sqlite_total_witness :
  exists diagnostics sql, DDL (Some orderV2) = (diagnostics, Ok sql) /\
    map field_path diagnostics = datasetPaths orderV2.
Proof.
  apply sqlite_total. constructor.
  - apply (Run_wfDataset_of shop2 4 Order2 (Some orderV1) orderV2 shop2_wf Order2_wf).
    vm_compute. reflexivity.
  - discriminate.
  - vm_compute. repeat split; discriminate.
  - vm_compute. reflexivity.
  - vm_compute. reflexivity.
  - by_computation.
Defined.

Definition hostile : DatasetSchema :=
  mkDatasetSchema "m" (String DQUOTE "t); DROP TABLE x; --") (String CR "DROP TABLE y;") (ds_fields orderV2) 0 [].
Definition hostileSQL : string :=
  Eval vm_compute in match (DDL (Some hostile)).2 with Ok sql => sql | _ => "" end.
Lemma sqlite_text_safe_witness :
  exists rest tail, hostileSQL = comment (ds_description hostile) "" +:+ "CREATE TABLE " +:+ rest /\
    lexQuoted DQUOTE rest = Some (ds_name hostile, tail).
Proof.
  destruct (sqlite_text_safe hostile (DDL (Some hostile)).1 hostileSQL) as (rest&tail&Heq&Hlex&_).
  - vm_compute. reflexivity.
  - exists rest, tail. split; [exact Heq|exact Hlex].
Defined.
