(* ===== verification/Postgres.v ===== *)
(** * The PostgreSQL renderer (src/go/data/postgres/schema.go)

    One table per dataset with typed columns, oneof constraints and comments;
    nested values are JSONB.  Long identifiers are shortened with a digest. *)
From S2P Require Import Prelude GoStrings StringFacts Sha256 Schema WellFormed Render.

Module Postgres.

Definition maxIdentifierBytes : nat := 63.
Definition maxInt32N : N := 2147483647.

Record column : Type := mkColumn {
  col_name : string;
  col_description : string;
  sqlType : string;
  defaultSQL : string;
  notNull : bool;
  col_oneof : string;
  fixedBytes : N;
  fixedList : N
}.

Definition quoteIdentifier (value : string) : string := quoteWith DQUOTE value.
Definition quoteLiteral (value : string) : string := quoteWith SQUOTE value.

Definition validateText (value : string) : Outcome unit :=
  _ ← failIf (negb (ValidString value)) "invalid UTF-8";
  failIf (containsByte NUL value) "NUL byte is not allowed".

(** The loop over the runes: the longest prefix of whole runes within [limit]. *)
Fixpoint prefixRunes (limit : nat) (prefix : string) (rs : list (N * string)) : string :=
  match rs with
  | [] => prefix
  | (_, enc) :: rs =>
      if (limit <? String.length prefix + String.length enc)%nat then prefix
      else prefixRunes limit (prefix +:+ enc) rs
  end.

Definition identifier (value : string) : Outcome string :=
  _ ← failIf (bool_decide (value = "")) "empty identifier";
  _ ← validateText value;
  if (String.length value <=? maxIdentifierBytes)%nat then Ok value
  else
    let suffix := "_" +:+ EncodeToString (String.substring 0 6 (Sum256 value)) in
    let limit := maxIdentifierBytes - String.length suffix in
    Ok (prefixRunes limit "" (default [] (runes value)) +:+ suffix).

(** ** Types *)

(** Whether a value of the type can hold the character U+0000. *)
Fixpoint canContainNUL (t : DataType) {struct t} : bool :=
  let ofField (f : option Field) : bool :=
    match f with
    | Some (mkField _ (Some t)) => canContainNUL t
    | _ => false
    end in
  match t with
  | mkDataType _ kind =>
      match kind with
      | DataType_Primitive p => bool_decide (GetPrimitiveKind p = PRIMITIVE_KIND_STRING)
      | DataType_Struct (Some fields) => existsb ofField fields
      | DataType_List (Some (element, _)) => ofField element
      | DataType_Map (Some (key, value)) => ofField key || ofField value
      | DataType_Json _ => true
      | _ => false
      end
  end.

Definition decimalParameters (decimal : option DecimalType) : Outcome (N * N) :=
  _ ← failIf (isNil decimal || (GetPrecision decimal =? 0)%N || (38 <? GetPrecision decimal)%N)
        "decimal precision must be between 1 and 38";
  _ ← failIf (GetPrecision decimal <? GetScale decimal)%N "decimal scale must not exceed precision";
  Ok (GetPrecision decimal, GetScale decimal).

Definition fixedByteWidth (fixed : option N) : Outcome N :=
  _ ← failIf (isNil fixed || (GetByteLength fixed =? 0)%N) "fixed byte length must be positive";
  _ ← failIf (maxInt32N <? GetByteLength fixed)%N
        ("fixed byte length " +:+ FormatUint (GetByteLength fixed) +:+
         " exceeds PostgreSQL renderer's maximum of " +:+ FormatUint maxInt32N);
  Ok (GetByteLength fixed).

Definition jsonRangeReduction (kind : JsonKind) : string :=
  match kind with
  | JSON_KIND_ANY =>
      "standard protobuf JSON requires each populated Any type URL to resolve to a known message descriptor; embedded Struct, Value, and ListValue numbers must also be finite"
  | JSON_KIND_STRUCT | JSON_KIND_VALUE | JSON_KIND_LIST_VALUE =>
      "standard protobuf JSON requires Struct, Value, and ListValue numbers to be finite; NaN and infinities are not representable"
  | _ => "standard protobuf JSON requires an explicitly supported dynamic JSON kind"
  end.

Definition Mapped : Type := string * MappingCompatibility * string.

Definition mapPrimitive (kind : PrimitiveKind) : Outcome Mapped :=
  match kind with
  | PRIMITIVE_KIND_DOUBLE =>
      Ok ("DOUBLE PRECISION", LOSSLESS, "protobuf double maps losslessly to PostgreSQL DOUBLE PRECISION")
  | PRIMITIVE_KIND_FLOAT => Ok ("REAL", LOSSLESS, "protobuf float maps losslessly to PostgreSQL REAL")
  | PRIMITIVE_KIND_INT64 | PRIMITIVE_KIND_SFIXED64 | PRIMITIVE_KIND_SINT64 =>
      Ok ("BIGINT", LOSSLESS, "protobuf signed 64-bit integer maps losslessly to PostgreSQL BIGINT")
  | PRIMITIVE_KIND_UINT64 | PRIMITIVE_KIND_FIXED64 =>
      Ok ("NUMERIC(20,0)", RANGE_WIDENED,
          "protobuf unsigned 64-bit integer maps to PostgreSQL NUMERIC(20,0), which contains its full domain")
  | PRIMITIVE_KIND_INT32 | PRIMITIVE_KIND_SFIXED32 | PRIMITIVE_KIND_SINT32 =>
      Ok ("INTEGER", LOSSLESS, "protobuf signed 32-bit integer maps losslessly to PostgreSQL INTEGER")
  | PRIMITIVE_KIND_FIXED32 | PRIMITIVE_KIND_UINT32 =>
      Ok ("BIGINT", RANGE_WIDENED, "protobuf unsigned 32-bit integer widens to PostgreSQL BIGINT")
  | PRIMITIVE_KIND_BOOL => Ok ("BOOLEAN", LOSSLESS, "protobuf bool maps losslessly to PostgreSQL BOOLEAN")
  | PRIMITIVE_KIND_STRING =>
      Ok ("TEXT", RANGE_REDUCED, "protobuf string maps to PostgreSQL TEXT, which cannot represent U+0000")
  | PRIMITIVE_KIND_BYTES => Ok ("BYTEA", LOSSLESS, "protobuf bytes maps losslessly to PostgreSQL BYTEA")
  | _ => Err ("unsupported primitive kind " +:+ PrimitiveKind_String kind)
  end.

Definition noNUL : string := "; PostgreSQL JSONB cannot represent the protobuf string value U+0000".

Definition mapType (t : DataType) : Outcome Mapped :=
  let jsonb (what : string) : Outcome Mapped :=
    if canContainNUL t then Ok ("JSONB", RANGE_REDUCED, what +:+ noNUL)
    else Ok ("JSONB", REPRESENTATION_CHANGED, what) in
  match kindOf t with
  | DataType_Primitive p => mapPrimitive (GetPrimitiveKind p)
  | DataType_Enum e =>
      if GetEnumClosed e then
        Ok ("INTEGER", RANGE_WIDENED,
            "closed protobuf enum numbers map to unconstrained PostgreSQL INTEGER; the column admits undeclared values")
      else
        Ok ("INTEGER", LOSSLESS, "open protobuf enum numbers map losslessly to PostgreSQL INTEGER")
  | DataType_Timestamp _ =>
      Ok ("TIMESTAMPTZ", PRECISION_REDUCED,
          "PostgreSQL TIMESTAMPTZ retains the protobuf Timestamp range and UTC instant semantics but reduces nanoseconds to microseconds")
  | DataType_Duration _ =>
      Ok ("BIGINT", RANGE_REDUCED,
          "PostgreSQL has no exact protobuf Duration type; exact nanoseconds use BIGINT, whose range is narrower than protobuf Duration")
  | DataType_Struct _ => jsonb "nested protobuf message is stored as one JSONB column"
  | DataType_List l =>
      if negb (GetFixedLength l =? 0)%N then
        Ok ("JSONB", RANGE_WIDENED,
            "fixed-cardinality protobuf repeated field is stored as JSONB with an exact top-level array-length check of "
            +:+ FormatUint (GetFixedLength l) +:+
            "; PostgreSQL does not enforce the protobuf float element domain inside JSONB")
      else jsonb "protobuf repeated field is stored as one JSONB array column"
  | DataType_Map _ => jsonb "protobuf map is stored as one JSONB object column"
  | DataType_Json j =>
      Ok ("JSONB", RANGE_REDUCED,
          "protobuf " +:+ JsonKind_String (GetJsonKind j) +:+
          " is encoded with protobuf JSON semantics in PostgreSQL JSONB, which cannot represent the protobuf string value U+0000; "
          +:+ jsonRangeReduction (GetJsonKind j))
  | DataType_Decimal d =>
      ps ← decimalParameters d;
      let '(p, s) := ps in
      Ok ("NUMERIC(" +:+ FormatUint p +:+ "," +:+ FormatUint s +:+ ")", REPRESENTATION_CHANGED,
          "canonical decimal text is decoded into PostgreSQL NUMERIC(" +:+ FormatUint p +:+ "," +:+
          FormatUint s +:+ "); precision and scale are preserved but the representation changes")
  | DataType_Uuid u =>
      if isNil u then Err "invalid UUID logical type"
      else Ok ("UUID", REPRESENTATION_CHANGED, "canonical UUID text is decoded into PostgreSQL UUID")
  | DataType_FixedBytes f =>
      width ← fixedByteWidth f;
      Ok ("BYTEA", LOSSLESS,
          "exact-width protobuf bytes map losslessly to PostgreSQL BYTEA with an octet_length check of "
          +:+ FormatUint width)
  | DataType_None => Err "unspecified logical type"
  end.

(** ** Defaults *)

Definition implicitDefault (t : option DataType) : string :=
  if negb (isNil (GetEnum t)) then "0"
  else if isNil (GetPrimitive t) then ""
  else match GetPrimitiveKind (GetPrimitive t) with
       | PRIMITIVE_KIND_BOOL => "FALSE"
       | PRIMITIVE_KIND_STRING => "''"
       | PRIMITIVE_KIND_BYTES => "'" +:+ str1 BACKSLASH +:+ "x'::bytea"
       | _ => "0"
       end.

Definition defaultExpression (field : Field) : Outcome string :=
  let t := typ field in
  match presence (meta field) with
  | PRESENCE_REPEATED =>
      Ok (if negb (isNil (GetList t)) && negb (GetFixedLength (GetList t) =? 0)%N then ""
          else "'[]'::jsonb")
  | PRESENCE_MAP => Ok "'{}'::jsonb"
  | PRESENCE_IMPLICIT =>
      if negb (isNil (GetDecimal t)) || negb (isNil (GetUuid t)) || negb (isNil (GetFixedBytes t))
      then Err "implicit protobuf presence has no valid default for a refined logical type; use explicit presence"
      else Ok (implicitDefault t)
  | _ => Ok ""
  end.

(** ** Diagnostics of embedded nodes *)

Definition embedded : string :=
  "logical child is embedded in its parent PostgreSQL JSONB column rather than projected as a relational column".

Definition embeddedDiagnostic (t : DataType) (path : string) : MappingDiagnostic :=
  let l := GetList (Some t) in
  if negb (isNil l) && negb (GetFixedLength l =? 0)%N then
    mkDiagnostic path RANGE_WIDENED
      ("fixed-cardinality logical child is embedded in its parent PostgreSQL JSONB column; the nested JSONB representation does not enforce length "
       +:+ FormatUint (GetFixedLength l))
  else if canContainNUL t then mkDiagnostic path RANGE_REDUCED (embedded +:+ noNUL)
  else mkDiagnostic path REPRESENTATION_CHANGED embedded.

Fixpoint addEmbedded (field : Field) (path : string) {struct field} : list MappingDiagnostic :=
  match field with
  | mkField _ None => []
  | mkField _ (Some t) =>
      embeddedDiagnostic t path ::
      match t with
      | mkDataType _ kind =>
          match kind with
          | DataType_Struct (Some fields) =>
              concatOpt (fun c => addEmbedded c (joinPath path (name (meta c)))) fields
          | DataType_List (Some (Some element, _)) => addEmbedded element (path +:+ "[]")
          | DataType_Map (Some (key, value)) =>
              match key with Some k => addEmbedded k (path +:+ ".key") | None => [] end ++
              match value with Some v => addEmbedded v (path +:+ ".value") | None => [] end
          | _ => []
          end
      end
  end.

Definition nestedDiagnostics (t : DataType) (path : string) : list MappingDiagnostic :=
  match kindOf t with
  | DataType_Struct s =>
      concatOpt (fun c => addEmbedded c (joinPath path (name (meta c)))) (GetStructFields s)
  | DataType_List l =>
      match GetListElement l with Some e => addEmbedded e (path +:+ "[]") | None => [] end
  | DataType_Map m =>
      match GetMapKey m with Some k => addEmbedded k (path +:+ ".key") | None => [] end ++
      match GetMapValue m with Some v => addEmbedded v (path +:+ ".value") | None => [] end
  | _ => []
  end.

(** ** The table *)

Fixpoint groupColumns (columns : list column) (groups : list (string * list string))
  : list (string * list string) :=
  match columns with
  | [] => groups
  | col :: columns =>
      groupColumns columns
        (if decide (col_oneof col = "") then groups
         else addToGroup (col_oneof col) (col_name col) groups)
  end.

Definition oneofCheck (tableName : string) (group : string * list string) : Outcome (list string) :=
  let '(oo, members) := group in
  if (length members <? 2)%nat then Ok []
  else
    constraint ← wrapErr ("postgres: oneof " +:+ Quote oo +:+ " constraint: ")
      (identifier (tableName +:+ "_" +:+ oo +:+ "_oneof_check"));
    Ok ["  CONSTRAINT " +:+ quoteIdentifier constraint +:+ " CHECK (num_nonnulls(" +:+
        Join (map quoteIdentifier members) ", " +:+ ") <= 1)"].

Definition oneofChecks (tableName : string) (columns : list column) : Outcome (list string) :=
  checks ← mapOutcome (oneofCheck tableName) (groupColumns columns []);
  Ok (concat checks).

(** One iteration of the loop over the fields; [seen] holds the identifiers used. *)
Definition addColumn (state : list column * list (string * string)) (field : option Field)
  : W (list column * list (string * string)) :=
  match field with
  | Some (mkField m (Some t)) =>
      let f := mkField m (Some t) in
      let '(columns, seen) := state in
      nm ← liftW (wrapErr ("postgres: field " +:+ Quote (proto_full_name m) +:+ ": ") (identifier (name m)));
      _ ← liftW (match assoc nm seen with
                 | Some previous => Err ("postgres: fields " +:+ Quote previous +:+ " and " +:+
                     Quote (name m) +:+ " map to the same identifier " +:+ Quote nm)
                 | None => Ok tt
                 end);
      _ ← liftW (wrapErr ("postgres: field " +:+ Quote (name m) +:+ " description: ")
                   (validateText (description m)));
      mapped ← liftW (wrapErr ("postgres: field " +:+ Quote (name m) +:+ ": ") (mapType t));
      let '(typeName, compat, msg) := mapped in
      default ← liftW (wrapErr ("postgres: field " +:+ Quote (name m) +:+ ": ") (defaultExpression f));
      _ ← emit (mkDiagnostic (name m) compat msg :: nestedDiagnostics t (name m));
      mret (columns ++ [mkColumn nm (description m) typeName default (negb (nullable m)) (oneof m)
                          (GetByteLength (GetFixedBytes (Some t))) (GetFixedLength (GetList (Some t)))],
            (nm, name m) :: seen)
  | _ => liftW (Err "postgres: dataset contains a field without a logical type")
  end.

Definition columnDefinition (tableName : string) (col : column) : Outcome string :=
  let nm := quoteIdentifier (col_name col) in
  bytesCheck ←
    (if (0 <? fixedBytes col)%N then
       constraint ← wrapErr ("postgres: field " +:+ Quote (col_name col) +:+ " fixed-bytes constraint: ")
         (identifier (tableName +:+ "_" +:+ col_name col +:+ "_fixed_bytes_check"));
       Ok (" CONSTRAINT " +:+ quoteIdentifier constraint +:+ " CHECK (octet_length(" +:+ nm +:+ ") = " +:+
           FormatUint (fixedBytes col) +:+ ")")
     else Ok "");
  listCheck ←
    (if (0 <? fixedList col)%N then
       constraint ← wrapErr ("postgres: field " +:+ Quote (col_name col) +:+ " fixed-list constraint: ")
         (identifier (tableName +:+ "_" +:+ col_name col +:+ "_fixed_list_check"));
       Ok (" CONSTRAINT " +:+ quoteIdentifier constraint +:+ " CHECK (CASE WHEN jsonb_typeof(" +:+ nm +:+
           ") = 'array' THEN jsonb_array_length(" +:+ nm +:+ ") = " +:+ FormatUint (fixedList col) +:+
           " ELSE FALSE END)")
     else Ok "");
  Ok ("  " +:+ nm +:+ " " +:+ sqlType col +:+ (if notNull col then " NOT NULL" else "") +:+
      (if decide (defaultSQL col = "") then "" else " DEFAULT " +:+ defaultSQL col) +:+
      bytesCheck +:+ listCheck).

Definition columnComment (tableName : string) (col : column) : string :=
  if decide (col_description col = "") then ""
  else "COMMENT ON COLUMN " +:+ quoteIdentifier tableName +:+ "." +:+ quoteIdentifier (col_name col) +:+
       " IS " +:+ quoteLiteral (col_description col) +:+ ";" +:+ str1 LF.

Definition DDL (dataset : option DatasetSchema) : list MappingDiagnostic * Outcome string :=
  match dataset with
  | None => ([], Err "postgres: nil dataset schema")
  | Some ds =>
      (tableName ← liftW (wrapErr "postgres: dataset name: " (identifier (ds_name ds)));
       _ ← liftW (wrapErr "postgres: dataset description: " (validateText (ds_description ds)));
       state ← foldW addColumn (ds_fields ds) ([], []);
       let columns := state.1 in
       checks ← liftW (oneofChecks tableName columns);
       defs ← liftW (mapOutcome (columnDefinition tableName) columns);
       mret ("CREATE TABLE " +:+ quoteIdentifier tableName +:+ " (" +:+ str1 LF +:+
             Join (defs ++ checks) ("," +:+ str1 LF) +:+ str1 LF +:+ ");" +:+ str1 LF +:+
             (if decide (ds_description ds = "") then ""
              else "COMMENT ON TABLE " +:+ quoteIdentifier tableName +:+ " IS " +:+
                   quoteLiteral (ds_description ds) +:+ ";" +:+ str1 LF) +:+
             Join (map (columnComment tableName) columns) "")) []
  end.
End Postgres.
