(* ===== verification/PostgresSpec.v ===== *)
(** * The contract of the PostgreSQL renderer *)
From S2P Require Import Prelude GoStrings StringFacts Utf8Facts Sha256 Schema WellFormed Compiler.
From S2P Require Import Examples CompilerFacts CompileSpec Render Postgres.

Import Postgres.

#[local] Opaque Sum256.

(** ** Identifiers *)

Lemma validateText_iff s : validateText s = Ok tt <-> ValidString s = true /\ noByte NUL s = true.
Proof.
  unfold validateText. rewrite bind_Ok. split.
  - intros ([]&Hv%failIf_Ok%negb_false_iff&Hn%failIf_Ok). split; [done|by apply containsByte_noByte].
  - intros [Hv Hn]. exists tt. rewrite Hv. split; [done|]. apply failIf_Ok.
    unfold containsByte. apply negb_false_iff. revert Hn. apply allBytes_impl.
    intros d. by rewrite Ascii.eqb_sym.
Qed.

Lemma validateText_append s t :
  validateText s = Ok tt -> validateText t = Ok tt -> validateText (s +:+ t) = Ok tt.
Proof.
  rewrite !validateText_iff. intros [??] [??].
  split; [by apply ValidString_append|]. rewrite noByte_append. by apply andb_true_iff.
Qed.

Lemma hexByte_ascii c : validateText (hexByte c) = Ok tt /\ String.length (hexByte c) = 2.
Proof.
  split; [|done]. destruct c as [[] [] [] [] [] [] [] []]; vm_compute; reflexivity.
Qed.

Lemma EncodeToString_text s :
  validateText (EncodeToString s) = Ok tt /\ String.length (EncodeToString s) = 2 * String.length s.
Proof.
  induction s as [|c s [IHv IHl]]; [by split|]. destruct (hexByte_ascii c) as [Hv Hl].
  unfold EncodeToString in *. cbn [mapBytes]. split; [by apply validateText_append|].
  rewrite length_append, Hl, IHl. simpl. lia.
Qed.

Lemma prefixRunes_spec limit prefix rs :
  validateText prefix = Ok tt -> String.length prefix <= limit ->
  Forall (fun r => validateText r.2 = Ok tt) rs ->
  validateText (prefixRunes limit prefix rs) = Ok tt /\
  String.length (prefixRunes limit prefix rs) <= limit.
Proof.
  revert prefix. induction rs as [|[c enc] rs IH]; intros prefix Hp Hl Hrs; simpl; [done|].
  apply list.Forall_cons in Hrs as [He Hrs]. destruct (Nat.ltb_spec limit (String.length prefix + String.length enc)).
  - done.
  - apply IH; [by apply validateText_append| |done]. rewrite length_append. lia.
Qed.

Lemma noByte_foldr c (rs : list (N * string)) :
  noByte c (foldr (fun r acc => r.2 +:+ acc) "" rs) = true -> Forall (fun r => noByte c r.2 = true) rs.
Proof.
  induction rs as [|r rs IH]; simpl; [constructor|]. rewrite noByte_append.
  intros [??]%andb_true_iff. constructor; auto.
Qed.

Lemma String_length_substring6 s : 6 <= String.length s -> String.length (String.substring 0 6 s) = 6.
Proof.
  intros Hl. do 6 (destruct s as [|? s]; [simpl in Hl; lia|]). simpl. by destruct s.
Qed.

Lemma identifier_spec value id :
  identifier value = Ok id ->
  validateText id = Ok tt /\ String.length id <= 63 /\ id <> "" /\
  (String.length value <= 63 -> id = value).
Proof.
  unfold identifier, maxIdentifierBytes. intros Hi.
  apply bind_Ok in Hi as (?&Hne%failIf_Ok%bool_decide_eq_false&Hi).
  apply bind_Ok in Hi as ([]&Hv&Hi). destruct (Nat.leb_spec (String.length value) 63).
  { injection Hi as <-. done. }
  apply Ok_inj in Hi. subst id. set (hex := EncodeToString (String.substring 0 6 (Sum256 value))).
  destruct (EncodeToString_text (String.substring 0 6 (Sum256 value))) as [Hhv Hhl].
  rewrite String_length_substring6 in Hhl by (rewrite Sum256_length; lia). fold hex in Hhv, Hhl.
  apply validateText_iff in Hv as [Hu Hz]. unfold ValidString in Hu.
  destruct (runes value) as [rs|] eqn:Hr; [|done]. simpl default.
  destruct (runes_encodings _ _ Hr) as [Henc Heq]. rewrite Heq in Hz. apply noByte_foldr in Hz.
  destruct (prefixRunes_spec (63 - String.length ("_" +:+ hex)) "" rs) as [Hp1 Hp2]; [done|simpl; lia| |].
  { rewrite list.Forall_forall in *. intros r Hin. apply validateText_iff. split; [by apply Henc|by apply Hz]. }
  assert (String.length ("_" +:+ hex) = 13) as H13 by (rewrite length_append, Hhl; done).
  split_and!; [| | |lia].
  - apply validateText_append; [done|]. by apply validateText_append.
  - rewrite length_append. lia.
  - intros [_ He]%append_eq_nil. by rewrite He in H13.
Qed.

Lemma identifier_total value :
  value <> "" -> validateText value = Ok tt -> exists id, identifier value = Ok id.
Proof.
  intros Hne Hv. unfold identifier. rewrite bool_decide_eq_false_2, Hv by done. cbn.
  case_match; by eexists.
Qed.

Lemma validateText_cases s :
  validateText s = Ok tt \/ exists e, validateText s = Err e /\ (ValidString s = false \/ noByte NUL s = false).
Proof.
  destruct (ValidString s) eqn:E1; [destruct (noByte NUL s) eqn:E2|].
  - left. by apply validateText_iff.
  - right. unfold validateText. rewrite E1. simpl.
    destruct (containsByte NUL s) eqn:E3; [eauto|].
    by rewrite containsByte_noByte in E2.
  - right. unfold validateText. rewrite E1. simpl. eauto.
Qed.

(** Every identifier the renderer emits fits PostgreSQL's 63 bytes, is not
    empty, is valid UTF-8 without NUL, and a name that fits is unchanged: the
    shortening never cuts a rune. *)
Theorem identifier_fits value :
  match identifier value with
  | Ok id => String.length id <= 63 /\ id <> "" /\ ValidString id = true /\ noByte NUL id = true /\
             (String.length value <= 63 -> id = value)
  | Err _ => value = "" \/ ValidString value = false \/ noByte NUL value = false
  | _ => False
  end.
Proof.
  destruct (decide (value = "")) as [->|Hne]; [by left|].
  destruct (validateText_cases value) as [Hv|(e&Hv&Hbad)].
  - destruct (identifier_total value Hne Hv) as [id Hid]. rewrite Hid.
    destruct (identifier_spec _ _ Hid) as ([??]%validateText_iff&?&?&?). done.
  - unfold identifier. rewrite bool_decide_eq_false_2, Hv by done. cbn. by right.
Qed.

(** ** NUL characters *)

(** The nodes that can hold U+0000 themselves. *)
Definition holdsText (f : Field) : bool :=
  match GetKind (typ f) with
  | DataType_Primitive p => bool_decide (GetPrimitiveKind p = PRIMITIVE_KIND_STRING)
  | DataType_Json _ => true
  | _ => false
  end.

Definition canContainField (o : option Field) : bool :=
  match o with Some (mkField _ (Some t)) => canContainNUL t | _ => false end.

Lemma canContainNUL_children t :
  canContainNUL t =
  holdsText (mkField zeroMeta (Some t)) || existsb canContainField (childrenOf (kindOf t)).
Proof.
  unfold holdsText.
  destruct t as [p [|pk| |[fs|]|[[e n]|]|[[k v]|]| | | | | |]]; simpl; rewrite ?orb_false_r; try done.
Qed.

Lemma existsb_childSubFields (p : Field -> bool) l :
  existsb p (childSubFields l) =
  existsb (fun o => match o with Some f => existsb p (subFields f) | None => false end) l.
Proof.
  induction l as [|[f|] l IH]; [done| |done]. rewrite childSubFields_cons, existsb_app, IH. done.
Qed.

(** A column is reported to lose U+0000 exactly when a string or a dynamic
    JSON value occurs somewhere in it. *)
Theorem canContainNUL_exact m t :
  canContainNUL t = existsb holdsText (subFields (mkField m (Some t))).
Proof.
  assert (forall f, canContainField (Some f) = existsb holdsText (subFields f)) as Hf.
  { apply (Field_tree_ind (fun f => canContainField (Some f) = existsb holdsText (subFields f))
      (fun o => canContainField o =
        match o with Some f => existsb holdsText (subFields f) | None => false end)); [done|done|].
    intros m' [t'|] IH; [|done]. rewrite subFields_unfold. cbn [GetKind canContainField] in *.
    rewrite canContainNUL_children. simpl existsb. f_equal. rewrite existsb_childSubFields.
    induction IH as [|o l Ho _ IHl]; [done|]. simpl. by rewrite Ho, IHl. }
  by rewrite <- (Hf (mkField m (Some t))).
Qed.

(** ** Diagnostics *)

Definition embeddedOf (c : option Field * string) : list MappingDiagnostic :=
  match c.1 with Some f => addEmbedded f c.2 | None => [] end.

Lemma concatOpt_map {A B} (f : A -> list B) (g : option A -> string) (h : option A * string -> list B) l :
  (forall a, h (Some a, g (Some a)) = f a) -> (forall q, h (None, q) = []) ->
  concatOpt f l = concat (map h (map (fun o => (o, g o)) l)).
Proof.
  intros Hs Hn. induction l as [|[a|] l IH]; simpl; [done| |].
  - by rewrite Hs, IH.
  - by rewrite Hn, IH.
Qed.

Lemma addEmbedded_unfold m t path :
  path <> "" ->
  addEmbedded (mkField m (Some t)) path =
  embeddedDiagnostic t path :: concat (map embeddedOf (childPaths path (kindOf t))).
Proof.
  intros Hp. destruct t as [p [| | |[fs|]|[[[] n]|]|[[[] []]|]| | | | | |]]; simpl;
    rewrite ?app_nil_r; try done.
  f_equal. apply (concatOpt_map _ (fun o => path +:+ "." +:+ name (metaOf o)) embeddedOf); [|done].
  intros a. unfold embeddedOf. simpl. by rewrite joinPath_nonempty.
Qed.

Lemma postgres_nestedDiagnostics_unfold t path :
  path <> "" -> nestedDiagnostics t path = concat (map embeddedOf (childPaths path (kindOf t))).
Proof.
  intros Hp. unfold nestedDiagnostics, embeddedOf. destruct (kindOf t) as [| | |s|l|mp| | | | | |]; try done.
  - apply (concatOpt_map _ (fun o => path +:+ "." +:+ name (metaOf o)) embeddedOf); [|done].
    intros a. unfold embeddedOf. simpl. by rewrite joinPath_nonempty.
  - simpl. by rewrite app_nil_r.
  - simpl. by rewrite app_nil_r.
Qed.

Lemma embeddedDiagnostic_path t path : field_path (embeddedDiagnostic t path) = path.
Proof. unfold embeddedDiagnostic. by repeat case_match. Qed.

Lemma addEmbedded_paths f path :
  wfTree f -> path <> "" -> map field_path (addEmbedded f path) = fieldPaths path f.
Proof.
  intros Hwf. revert f Hwf path. apply (wfTree_ind (fun f => forall path,
    path <> "" -> map field_path (addEmbedded f path) = fieldPaths path f)).
  intros m t [[ft Ht] _] _ IH path Hp. cbn [typ] in Ht. subst t. cbn [GetKind] in IH.
  rewrite addEmbedded_unfold, fieldPaths_unfold by done. cbn [map GetKind].
  rewrite embeddedDiagnostic_path. f_equal. rewrite <- (childPaths_fst path) in IH.
  pose proof (childPaths_nonempty path (kindOf ft)) as Hne.
  induction (childPaths path (kindOf ft)) as [|[o q] l IHl]; [done|].
  apply list.Forall_cons in IH as [(g&Heq&Hg) IH]. simpl in Heq. subst o. simpl.
  rewrite map_app, IHl by set_solver. unfold embeddedOf, pathsOf. cbn [fst snd].
  rewrite Hg; [done|]. apply (Hne (Some g, q)). left.
Qed.

(** ** Totality *)

Lemma mapType_total t : wfKind (kindOf t) -> exists r, mapType t = Ok r.
Proof.
  unfold mapType, decimalParameters, fixedByteWidth, maxInt32N. intros Hk.
  destruct (kindOf t) as [|[p|]|[e|]|[fs|]|[[e n]|]|[[k v]|]|[ts|]|[u|]|[j|]|[d|]|[u|]|[n|]];
    simpl in *; try done; try by eexists.
  - destruct p; simpl in *; try done; by eexists.
  - destruct (et_closed e); by eexists.
  - case_match; by eexists.
  - repeat case_match; by eexists.
  - case_match; by eexists.
  - destruct Hk as [Hp Hs].
    destruct (N.eqb_spec (dec_precision d) 0); [lia|]. destruct (N.ltb_spec 38 (dec_precision d)); [lia|].
    simpl. destruct (N.ltb_spec (dec_precision d) (dec_scale d)); [lia|]. by eexists.
  - destruct (N.eqb_spec n 0); [lia|]. destruct (N.ltb_spec 2147483647 n); [lia|]. by eexists.
Qed.

Lemma postgres_defaultExpression_total f :
  wfPresence (meta f) (GetKind (typ f)) -> exists e, defaultExpression f = Ok e.
Proof.
  unfold wfPresence, defaultExpression, GetDecimal, GetUuid, GetFixedBytes. intros Hp.
  destruct (presence (meta f)); try by eexists.
  destruct Hp as (_&_&_&Hs). destruct (GetKind (typ f)); try done; by eexists.
Qed.

(** The texts of a field the renderer checks. *)
Definition fieldTexts (f : Field) : Prop :=
  validateText (name (meta f)) = Ok tt /\ validateText (description (meta f)) = Ok tt /\
  validateText (oneof (meta f)) = Ok tt.

(** The column a field becomes. *)
Record ColumnOf (f : Field) (col : column) : Prop := mkColumnOf {
  co_name : identifier (fieldName f) = Ok (col_name col);
  co_oneof : col_oneof col = oneof (meta f)
}.

Lemma addColumn_total cols seen f d :
  wfTree f -> fieldName f <> "" -> fieldTexts f ->
  (forall id, identifier (fieldName f) = Ok id -> assoc id seen = None) ->
  exists col ds, addColumn (cols, seen) (Some f) d =
      (d ++ ds, Ok (cols ++ [col], (col_name col, fieldName f) :: seen)) /\
    ColumnOf f col /\ map field_path ds = fieldPaths (fieldName f) f.
Proof.
  destruct f as [m t]. unfold fieldName. intros Hwf Hne (Ht1&Ht2&Ht3) Hfree. cbn [meta] in *.
  destruct (wfTree_node _ _ Hwf) as [[ft Ht] [Hk Hp]]. cbn [typ] in Ht. subst t.
  destruct (identifier_total _ Hne Ht1) as [id Hid]. specialize (Hfree id Hid).
  destruct (mapType_total ft Hk) as [[[ty cp] ms] Hm].
  destruct (postgres_defaultExpression_total _ Hp) as [e He].
  pose proof (addEmbedded_paths _ (name m) Hwf Hne) as Hpaths.
  rewrite addEmbedded_unfold in Hpaths by done. cbn [map] in Hpaths.
  unfold addColumn.
  erewrite W_bind_run by (unfold liftW; rewrite Hid; done).
  erewrite W_bind_run by (unfold liftW; rewrite Hfree; done).
  erewrite W_bind_run by (unfold liftW; rewrite Ht2; done).
  erewrite W_bind_run by (unfold liftW; rewrite Hm; done). cbv beta iota.
  erewrite W_bind_run by (unfold liftW; rewrite He; done).
  erewrite W_bind_run by (unfold emit; done).
  eexists (mkColumn _ _ _ _ _ _ _ _), _. split; [unfold mret, W_ret; done|]. split.
  - by constructor.
  - rewrite postgres_nestedDiagnostics_unfold by done. cbn [map field_path].
    rewrite fieldPaths_unfold in *. injection Hpaths as Hpaths. by f_equal.
Qed.

Lemma addColumns_total fs cols seen d :
  Forall wfTree fs -> Forall (fun f => fieldName f <> "") fs -> Forall fieldTexts fs ->
  NoDup (map Ok (map fst seen) ++ map (fun f => identifier (fieldName f)) fs) ->
  exists new ds seen', foldW addColumn (map Some fs) (cols, seen) d = (d ++ ds, Ok (cols ++ new, seen')) /\
    Forall2 ColumnOf fs new /\
    map field_path ds = concat (map (fun f => fieldPaths (name (meta f)) f) fs).
Proof.
  revert cols seen d. induction fs as [|f fs IH]; intros cols seen d Hwf Hne Htx Hnd.
  - exists [], [], seen. simpl. rewrite !app_nil_r. split_and!; [done|constructor|done].
  - apply list.Forall_cons in Hwf as [Hf Hwf]. apply list.Forall_cons in Hne as [Hn Hne].
    apply list.Forall_cons in Htx as [Ht Htx]. simpl in Hnd.
    destruct (addColumn_total cols seen f d Hf Hn Ht) as (col&ds1&Hc&Hco&Hp).
    { intros id Hid. apply assoc_None. intros Hin. apply list.NoDup_app in Hnd as (_&Hdis&_).
      apply (Hdis (Ok id)); [by apply (list_elem_of_fmap_2 Ok)|rewrite Hid; left]. }
    destruct (IH (cols ++ [col]) ((col_name col, fieldName f) :: seen) (d ++ ds1) Hwf Hne Htx)
      as (new&ds2&seen'&Hc2&Hall&Hp2).
    { simpl. rewrite (co_name _ _ Hco) in Hnd.
      by rewrite <- (Permutation_middle (map Ok (map fst seen))) in Hnd. }
    exists (col :: new), (ds1 ++ ds2), seen'. simpl map. cbn [foldW]. erewrite W_bind_run by exact Hc.
    split_and!.
    + by rewrite Hc2, <- !app_assoc.
    + by constructor.
    + rewrite map_app, Hp, Hp2. done.
Qed.

Lemma groupColumns_texts cols groups :
  Forall (fun g => validateText g.1 = Ok tt) groups ->
  Forall (fun c => validateText (col_oneof c) = Ok tt) cols ->
  Forall (fun g => validateText g.1 = Ok tt) (groupColumns cols groups).
Proof.
  revert groups. induction cols as [|c cols IH]; intros groups Hg Hc; simpl; [done|].
  apply list.Forall_cons in Hc as [Hc Hcs]. apply IH; [|done]. case_decide; [done|].
  clear IH. induction groups as [|[g ms] groups IHg]; simpl; [by repeat constructor|].
  apply list.Forall_cons in Hg as [Hg1 Hg]. case_decide; constructor; auto.
Qed.

(** A constraint name built from valid parts is an identifier. *)
Lemma constraint_identifier tableName part suffix :
  validateText tableName = Ok tt -> validateText part = Ok tt -> validateText suffix = Ok tt ->
  exists id, identifier (tableName +:+ "_" +:+ part +:+ suffix) = Ok id.
Proof.
  intros H1 H2 H3. apply identifier_total.
  - intros [_ [He _]%append_eq_nil]%append_eq_nil. done.
  - by repeat apply validateText_append.
Qed.

Lemma mapOutcome_total {A B} (f : A -> Outcome B) l :
  Forall (fun x => exists y, f x = Ok y) l -> exists ys, mapOutcome f l = Ok ys.
Proof.
  induction 1 as [|x l [y Hy] _ [ys Hys]]; [by exists []|]. exists (y :: ys). simpl.
  by rewrite Hy; simpl; rewrite Hys.
Qed.

Lemma oneofChecks_total tableName cols :
  validateText tableName = Ok tt -> Forall (fun c => validateText (col_oneof c) = Ok tt) cols ->
  exists checks, oneofChecks tableName cols = Ok checks.
Proof.
  intros Ht Hc. unfold oneofChecks.
  destruct (mapOutcome_total (oneofCheck tableName) (groupColumns cols [])) as [ys ->]; [|by eexists].
  eapply list.Forall_impl; [apply groupColumns_texts; [constructor|exact Hc]|].
  intros [oo ms] Hoo. simpl in Hoo. unfold oneofCheck. case_match; [by eexists|].
  destruct (constraint_identifier tableName oo "_oneof_check") as [id ->]; [done..|]. by eexists.
Qed.

Lemma columnDefinition_total tableName col :
  validateText tableName = Ok tt -> validateText (col_name col) = Ok tt ->
  exists def, columnDefinition tableName col = Ok def.
Proof.
  intros Ht Hc. unfold columnDefinition.
  destruct (constraint_identifier tableName (col_name col) "_fixed_bytes_check") as [i1 H1]; [done..|].
  destruct (constraint_identifier tableName (col_name col) "_fixed_list_check") as [i2 H2]; [done..|].
  rewrite H1, H2. destruct (0 <? fixedBytes col)%N, (0 <? fixedList col)%N; by eexists.
Qed.

Record PgRenderable (ds : DatasetSchema) : Prop := mkRenderable {
  rp_wf : wfDataset ds;
  rp_name : validateText (ds_name ds) = Ok tt /\ ds_name ds <> "";
  rp_description : validateText (ds_description ds) = Ok tt;
  rp_texts : forallb (fun o => isOk (validateText (name (metaOf o))) &&
    isOk (validateText (description (metaOf o))) && isOk (validateText (oneof (metaOf o)))) (ds_fields ds)
    = true;
  rp_identifiers : NoDup (map (fun o => identifier (name (metaOf o))) (ds_fields ds))
}.

Lemma forallb_fieldTexts fs :
  forallb (fun o => isOk (validateText (name (metaOf o))) &&
    isOk (validateText (description (metaOf o))) && isOk (validateText (oneof (metaOf o)))) (map Some fs)
  = true -> Forall fieldTexts fs.
Proof.
  intros Hb. rewrite forallb_forall in Hb. apply List.Forall_forall. intros f Hf.
  specialize (Hb (Some f) (in_map Some _ _ Hf)). apply andb_true_iff in Hb as [[H1 H2]%andb_true_iff H3].
  assert (forall m : Outcome unit, isOk m = true -> m = Ok tt) as Hok by (by intros [[]| | |]).
  split_and!; by apply Hok.
Qed.

(** Every well-formed dataset with valid text whose columns have distinct
    identifiers renders, with one diagnostic per node of the schema, in preorder. *)
Theorem postgres_total ds :
  PgRenderable ds ->
  exists diagnostics sql, DDL (Some ds) = (diagnostics, Ok sql) /\
    map field_path diagnostics = datasetPaths ds.
Proof.
  intros [Hwf [Hn Hnn] Hd Htx Hnd]. pose proof (wfDataset_fields _ Hwf) as Htrees.
  destruct Hwf as [(fs&Hfs&_&Hnames) _]. rewrite Hfs in *. apply forallb_fieldTexts in Htx.
  destruct (identifier_total _ Hnn Hn) as [table Htable].
  destruct (identifier_spec _ _ Htable) as (Htv&_).
  destruct (addColumns_total fs [] [] []) as (cols&diags&seen&Hc&Hall&Hp).
  - rewrite List.Forall_map in Htrees. eapply list.Forall_impl; [exact Htrees|]. by intros f (g&[= <-]&?).
  - eapply list.Forall_impl; [exact Hnames|]. by intros f [? _].
  - done.
  - rewrite map_map in Hnd. exact Hnd.
  - assert (Forall (fun c => validateText (col_oneof c) = Ok tt /\ validateText (col_name c) = Ok tt) cols)
      as Hcols.
    { clear -Hall Htx. induction Hall as [|f c fs cols [Hi Ho] _ IH]; [constructor|].
      apply list.Forall_cons in Htx as [(_&_&Ht) Htx]. constructor; [|by apply IH].
      rewrite Ho. split; [done|]. by destruct (identifier_spec _ _ Hi). }
    destruct (oneofChecks_total table cols Htv) as [checks Hchecks].
    { eapply list.Forall_impl; [exact Hcols|]. by intros c [? _]. }
    destruct (mapOutcome_total (columnDefinition table) cols) as [defs Hdefs].
    { eapply list.Forall_impl; [exact Hcols|]. intros c [_ ?]. by apply columnDefinition_total. }
    exists diags. eexists. split.
    + unfold DDL. rewrite Hfs. erewrite W_bind_run by (unfold liftW; rewrite Htable; done).
      erewrite W_bind_run by (unfold liftW; rewrite Hd; done).
      erewrite W_bind_run by exact Hc. cbv zeta. cbn [fst app].
      erewrite W_bind_run by (unfold liftW; rewrite Hchecks; done).
      erewrite W_bind_run by (unfold liftW; rewrite Hdefs; done). unfold mret, W_ret. done.
    + unfold datasetPaths. rewrite Hfs, Hp. clear. induction fs as [|f fs IH]; [done|].
      simpl. by rewrite IH.
Qed.

(** ** Safety of the text *)

(** Names and descriptions stay inside their tokens: a column comment reads
    back, token by token, as the table, the column and the exact description. *)
Theorem postgres_comment_safe tableName col :
  col_description col <> "" ->
  exists r1 r2 r3,
    columnComment tableName col = "COMMENT ON COLUMN " +:+ r1 /\
    lexQuoted DQUOTE r1 = Some (tableName, "." +:+ r2) /\
    lexQuoted DQUOTE r2 = Some (col_name col, " IS " +:+ r3) /\
    lexQuoted SQUOTE r3 = Some (col_description col, ";" +:+ str1 LF).
Proof.
  intros Hd. unfold columnComment. rewrite decide_False by done.
  eexists _, _, _. split_and!; [done|by apply lexQuoted_quoteWith|by apply lexQuoted_quoteWith|].
  by apply lexQuoted_quoteWith.
Qed.

(** ** Witnesses *)

Lemma postgres_total_witness :
  exists diagnostics sql, DDL (Some orderV2) = (diagnostics, Ok sql) /\
    map field_path diagnostics = datasetPaths orderV2.
Proof.
  apply postgres_total. constructor.
  - apply (Run_wfDataset_of shop2 4 Order2 (Some orderV1) orderV2 shop2_wf Order2_wf).
    vm_compute. reflexivity.
  - vm_compute. split; [reflexivity|discriminate].
  - vm_compute. reflexivity.
  - vm_compute. reflexivity.
  - assert (map (fun o => identifier (name (metaOf o))) (ds_fields orderV2) =
      map Ok ["order_id"; "side"; "price"; "tags"; "item"; "embedding"; "created_at"; "note"]) as ->
      by (vm_compute; reflexivity).
    assert (Inj (=) (=) (@Ok string)) by (intros ??; apply Ok_inj).
    apply (NoDup_fmap_2 Ok). by_computation.
Defined.

Lemma postgres_comment_safe_witness :
  let col := mkColumn "c" "it's; DROP TABLE x;" "TEXT" "" false "" 0 0 in
  exists r1 r2 r3,
    columnComment "t" col = "COMMENT ON COLUMN " +:+ r1 /\
    lexQuoted DQUOTE r1 = Some ("t", "." +:+ r2) /\
    lexQuoted DQUOTE r2 = Some (col_name col, " IS " +:+ r3) /\
    lexQuoted SQUOTE r3 = Some (col_description col, ";" +:+ str1 LF).
Proof. intros col. apply (postgres_comment_safe "t" col). discriminate. Defined.
