(* ===== verification/Iceberg.v ===== *)
(** * The Iceberg renderer (src/go/data/iceberg/schema.go)

    The mapping of a dataset to an Iceberg schema, whose types are those of the
    iceberg-go package as data.  Every Iceberg field keeps the stable id of the
    logical field, and the ids are checked before anything is mapped. *)
From S2P Require Import Prelude GoStrings StringFacts Schema WellFormed Render.

Module Iceberg.

Definition maxInt32N : N := 2147483647.
Definition maxFieldID : Z := 2147483647 - 200.

(** ** The schema model of iceberg-go *)

(** The Go values a default can be. *)
Inductive Default : Type :=
  | NoDefault
  | FloatDefault (f : Z)
  | StringDefault (s : string)
  | BoolDefault (b : bool)
  | EmptyListDefault
  | EmptyMapDefault.

Inductive Type_ : Type :=
  | Float64 | Float32 | Int64 | Int32 | Bool | String_ | Binary | TimestampTzNs | UUID
  | DecimalTypeOf (precision scale : N)
  | FixedTypeOf (width : N)
  | StructType (FieldList : list NestedField)
  | ListType (ElementID : Z) (Element : Type_) (ElementRequired : bool)
  | MapType (KeyID : Z) (KeyType : Type_) (ValueID : Z) (ValueType : Type_) (ValueRequired : bool)
with NestedField : Type :=
  | mkNestedField (ID : Z) (Name : string) (Required : bool) (Doc : string) (Typ : Type_)
      (InitialDefault WriteDefault : Default).

Definition ID (f : NestedField) : Z := match f with mkNestedField id _ _ _ _ _ _ => id end.
Definition Required (f : NestedField) : bool := match f with mkNestedField _ _ r _ _ _ _ => r end.
Definition Typ (f : NestedField) : Type_ := match f with mkNestedField _ _ _ _ t _ _ => t end.

Record IcebergSchema : Type := NewSchema { schema_id : Z; schema_fields : list NestedField }.

(** ** Field ids *)

Definition claimFieldID (seen : gmap Z string) (id : Z) (path : string) : Outcome (gmap Z string) :=
  _ ← failIf ((id <=? 0)%Z || (maxFieldID <? id)%Z)
        ("iceberg: field " +:+ Quote path +:+ " has invalid stable ID " +:+ FormatInt id +:+
         "; IDs must be between 1 and " +:+ FormatInt maxFieldID);
  match seen !! id with
  | Some previous => Err ("iceberg: stable ID " +:+ FormatInt id +:+ " is shared by " +:+ Quote previous +:+
                          " and " +:+ Quote path)
  | None => Ok (<[id := path]> seen)
  end.

Fixpoint visit (field : Field) (path : string) (seen : gmap Z string) {struct field}
  : Outcome (gmap Z string) :=
  let visitOpt (o : option Field) (p : string) (s : gmap Z string) : Outcome (gmap Z string) :=
    match o with
    | Some f => visit f p s
    | None => Err ("iceberg: nil field at " +:+ Quote p)
    end in
  match field with
  | mkField m t =>
      seen ← claimFieldID seen (stable_id m) path;
      match t with
      | None => Err ("iceberg: field " +:+ Quote path +:+ " has no logical type")
      | Some (mkDataType _ kind) =>
          match kind with
          | DataType_Struct (Some fields) =>
              foldOutcome (fun s c => visitOpt c (joinPath path (name (metaOf c))) s) fields seen
          | DataType_List (Some (element, _)) => visitOpt element (path +:+ "[]") seen
          | DataType_List None => visitOpt None (path +:+ "[]") seen
          | DataType_Map (Some (key, value)) =>
              seen ← visitOpt key (path +:+ ".key") seen;
              visitOpt value (path +:+ ".value") seen
          | DataType_Map None => visitOpt None (path +:+ ".key") seen
          | _ => Ok seen
          end
      end
  end.

Definition claimRetired (seen : gmap Z string) (r : option RetiredField) : Outcome (gmap Z string) :=
  match r with
  | None => Err "iceberg: nil retired field"
  | Some r => claimFieldID seen (rf_stable_id r) ("retired " +:+ rf_identity r)
  end.

Definition validateFieldIDs (dataset : DatasetSchema) : Outcome unit :=
  seen ← foldOutcome (fun s f =>
           match f with
           | Some g => visit g (name (meta g)) s
           | None => Err ("iceberg: nil field at " +:+ Quote "")
           end) (ds_fields dataset) ∅;
  _ ← foldOutcome claimRetired (retired_fields dataset) seen;
  Ok tt.

(** ** Types and defaults *)

Definition decimalParameters (decimal : option DecimalType) : Outcome (N * N) :=
  _ ← failIf (isNil decimal || (GetPrecision decimal =? 0)%N || (38 <? GetPrecision decimal)%N)
        "decimal precision must be between 1 and 38";
  _ ← failIf (GetPrecision decimal <? GetScale decimal)%N "decimal scale must not exceed precision";
  Ok (GetPrecision decimal, GetScale decimal).

Definition fixedByteWidth (fixed : option N) : Outcome N :=
  _ ← failIf (isNil fixed || (GetByteLength fixed =? 0)%N) "fixed byte length must be positive";
  _ ← failIf (maxInt32N <? GetByteLength fixed)%N
        ("fixed byte length " +:+ FormatUint (GetByteLength fixed) +:+ " exceeds Iceberg's maximum of " +:+
         FormatUint maxInt32N);
  Ok (GetByteLength fixed).

Definition jsonRangeReduction (kind : JsonKind) : string :=
  match kind with
  | JSON_KIND_ANY =>
      "standard protobuf JSON requires each populated Any type URL to resolve to a known message descriptor; embedded Struct, Value, and ListValue numbers must also be finite"
  | JSON_KIND_STRUCT | JSON_KIND_VALUE | JSON_KIND_LIST_VALUE =>
      "standard protobuf JSON requires Struct, Value, and ListValue numbers to be finite; NaN and infinities are not representable"
  | _ => "standard protobuf JSON requires an explicitly supported dynamic JSON kind"
  end.

Definition mapPrimitive (kind : PrimitiveKind) : Outcome (Type_ * MappingCompatibility * string) :=
  match kind with
  | PRIMITIVE_KIND_DOUBLE => Ok (Float64, LOSSLESS, "protobuf double maps losslessly to Iceberg double")
  | PRIMITIVE_KIND_FLOAT => Ok (Float32, LOSSLESS, "protobuf float maps losslessly to Iceberg float")
  | PRIMITIVE_KIND_INT64 | PRIMITIVE_KIND_SFIXED64 | PRIMITIVE_KIND_SINT64 =>
      Ok (Int64, LOSSLESS, "protobuf signed 64-bit integer maps losslessly to Iceberg long")
  | PRIMITIVE_KIND_UINT64 | PRIMITIVE_KIND_FIXED64 =>
      Ok (DecimalTypeOf 20 0, RANGE_WIDENED,
          "protobuf unsigned 64-bit integer maps to Iceberg decimal(20, 0), which contains its full domain")
  | PRIMITIVE_KIND_INT32 | PRIMITIVE_KIND_SFIXED32 | PRIMITIVE_KIND_SINT32 =>
      Ok (Int32, LOSSLESS, "protobuf signed 32-bit integer maps losslessly to Iceberg int")
  | PRIMITIVE_KIND_FIXED32 | PRIMITIVE_KIND_UINT32 =>
      Ok (Int64, RANGE_WIDENED, "protobuf unsigned 32-bit integer widens to Iceberg long")
  | PRIMITIVE_KIND_BOOL => Ok (Bool, LOSSLESS, "protobuf bool maps losslessly to Iceberg boolean")
  | PRIMITIVE_KIND_STRING => Ok (String_, LOSSLESS, "protobuf string maps losslessly to Iceberg string")
  | PRIMITIVE_KIND_BYTES => Ok (Binary, LOSSLESS, "protobuf bytes maps losslessly to Iceberg binary")
  | _ => Err ("unsupported primitive kind " +:+ PrimitiveKind_String kind)
  end.

Definition implicitDefault (t : option DataType) (path : string) : Outcome Default :=
  let implicit (msg : string) : string := "iceberg: implicit protobuf " +:+ msg in
  match t with
  | None => Err (implicit ("field " +:+ Quote path +:+ " has no logical type"))
  | Some dt =>
      match kindOf dt with
      | DataType_Primitive p =>
          match GetPrimitiveKind p with
          | PRIMITIVE_KIND_DOUBLE | PRIMITIVE_KIND_FLOAT | PRIMITIVE_KIND_INT64 | PRIMITIVE_KIND_INT32
          | PRIMITIVE_KIND_FIXED32 | PRIMITIVE_KIND_UINT32 | PRIMITIVE_KIND_SFIXED32
          | PRIMITIVE_KIND_SFIXED64 | PRIMITIVE_KIND_SINT32 | PRIMITIVE_KIND_SINT64 => Ok (FloatDefault 0)
          | PRIMITIVE_KIND_UINT64 | PRIMITIVE_KIND_FIXED64 => Ok (StringDefault "0")
          | PRIMITIVE_KIND_BOOL => Ok (BoolDefault false)
          | PRIMITIVE_KIND_STRING | PRIMITIVE_KIND_BYTES => Ok (StringDefault "")
          | k => Err (implicit ("field " +:+ Quote path +:+ " has unsupported primitive kind " +:+
                                PrimitiveKind_String k))
          end
      | DataType_Enum e =>
          match GetEnumValues e with
          | [] => Err (implicit ("enum field " +:+ Quote path +:+ " has no declared values"))
          | v :: _ => Ok (FloatDefault (ev_number (enumValueOf v)))
          end
      | DataType_Decimal _ | DataType_Uuid _ | DataType_FixedBytes _ =>
          Err (implicit ("field " +:+ Quote path +:+
            " has a refined logical type without a valid implicit value; use explicit presence"))
      | _ => Err (implicit ("field " +:+ Quote path +:+ " is not a scalar or enum"))
      end
  end.

Definition fieldDefaults (field : Field) (path : string) : Outcome (Default * Default) :=
  let m := meta field in
  let t := typ field in
  match presence m with
  | PRESENCE_IMPLICIT =>
      _ ← failIf (nullable m) ("iceberg: implicit protobuf field " +:+ Quote path +:+ " cannot be nullable");
      value ← implicitDefault t path;
      Ok (value, value)
  | PRESENCE_REPEATED =>
      _ ← failIf (nullable m || isNil (GetList t))
            ("iceberg: repeated protobuf field " +:+ Quote path +:+ " must be a non-null list");
      if negb (GetFixedLength (GetList t) =? 0)%N then Ok (NoDefault, NoDefault)
      else Ok (EmptyListDefault, EmptyListDefault)
  | PRESENCE_MAP =>
      _ ← failIf (nullable m || isNil (GetMap t))
            ("iceberg: protobuf map field " +:+ Quote path +:+ " must be a non-null map");
      Ok (EmptyMapDefault, EmptyMapDefault)
  | PRESENCE_REQUIRED =>
      Err ("iceberg: required protobuf field " +:+ Quote path +:+
           " has no safe canonical value for historical rows; use an implicit scalar/enum, repeated/map, or presence-bearing optional field")
  | PRESENCE_EXPLICIT | PRESENCE_ONEOF =>
      _ ← failIf (negb (nullable m))
            ("iceberg: presence-bearing protobuf field " +:+ Quote path +:+ " must be nullable");
      Ok (NoDefault, NoDefault)
  | PRESENCE_NOT_APPLICABLE =>
      _ ← failIf (bool_decide (synthetic_role m = SYNTHETIC_ROLE_PROTO_FIELD))
            ("iceberg: protobuf field " +:+ Quote path +:+ " has no presence semantics");
      Ok (NoDefault, NoDefault)
  | _ => Err ("iceberg: field " +:+ Quote path +:+ " has unspecified protobuf presence")
  end.

(** The diagnostic of a field: a oneof is not enforced. *)
Definition fieldDiagnostic (m : FieldMeta) (path : string) (compat : MappingCompatibility) (msg : string)
  : MappingDiagnostic :=
  if decide (oneof m = "") then mkDiagnostic path compat msg
  else mkDiagnostic path (if decide (compat = LOSSLESS) then RANGE_WIDENED else compat)
         (msg +:+ "; Iceberg does not enforce mutual exclusivity for oneof " +:+ Quote (oneof m)).

Definition requiredField (m : FieldMeta) (t : option DataType) : bool :=
  if negb (isNil (GetList t)) && negb (GetFixedLength (GetList t) =? 0)%N then false
  else negb (nullable m).

Definition noType {A} (path : string) : Outcome A :=
  Err ("iceberg: field " +:+ Quote path +:+ " has no logical type").

(** The result of [mapType]: the type, the diagnostics below it, its compatibility
    and message. *)
Definition MappedType : Type := Type_ * list MappingDiagnostic * MappingCompatibility * string.

(** Types without children. *)
Definition mapLeaf (kind : DataTypeKind) (path : string) : Outcome MappedType :=
  let fieldErr := "iceberg: field " +:+ Quote path in
  match kind with
  | DataType_Primitive p =>
      r ← wrapErr (fieldErr +:+ ": ") (mapPrimitive (GetPrimitiveKind p));
      let '(t, compat, msg) := r in Ok (t, [], compat, msg)
  | DataType_Enum e =>
      if GetEnumClosed e then
        Ok (Int32, [], RANGE_WIDENED,
            "closed protobuf enum numbers map to unconstrained Iceberg int; the column admits undeclared values")
      else Ok (Int32, [], LOSSLESS, "open protobuf enum numbers map losslessly to Iceberg int")
  | DataType_Timestamp ts =>
      if negb (bool_decide (GetTimestampUnit ts = TIME_UNIT_NANOSECOND))
         || negb (String.eqb (GetTimezone ts) "UTC")
      then Err (fieldErr +:+ " has unsupported timestamp unit or timezone")
      else Ok (TimestampTzNs, [], RANGE_REDUCED,
             "Iceberg timestamptz_ns preserves UTC nanoseconds but its int64 range is narrower than protobuf Timestamp; it requires Iceberg format v3")
  | DataType_Duration u =>
      if negb (bool_decide (GetDurationUnit u = TIME_UNIT_NANOSECOND))
      then Err (fieldErr +:+ " has unsupported duration unit")
      else Ok (Int64, [], RANGE_REDUCED,
             "Iceberg has no duration type; exact nanoseconds use long, whose int64 range is narrower than protobuf Duration")
  | DataType_Json j =>
      Ok (String_, [], RANGE_REDUCED,
          "protobuf " +:+ JsonKind_String (GetJsonKind j) +:+
          " is encoded as RFC 8259 JSON text in an Iceberg string; " +:+ jsonRangeReduction (GetJsonKind j))
  | DataType_Decimal d =>
      ps ← wrapErr (fieldErr +:+ ": ") (decimalParameters d);
      let '(p, s) := ps in
      Ok (DecimalTypeOf p s, [], REPRESENTATION_CHANGED,
          "canonical decimal text is decoded into Iceberg decimal(" +:+ FormatUint p +:+ ", " +:+ FormatUint s +:+
          "); precision and scale are preserved but the physical representation changes")
  | DataType_Uuid u =>
      if isNil u then Err (fieldErr +:+ " has an invalid UUID logical type")
      else Ok (UUID, [], REPRESENTATION_CHANGED, "canonical UUID text is decoded into Iceberg uuid")
  | DataType_FixedBytes f =>
      width ← wrapErr (fieldErr +:+ ": ") (fixedByteWidth f);
      Ok (FixedTypeOf width, [], LOSSLESS,
          "exact-width protobuf bytes map losslessly to Iceberg fixed[" +:+ FormatUint width +:+ "]")
  | _ => Err (fieldErr +:+ " has an unspecified logical type")
  end.

Definition listMessage (fixedLength : N) : MappingCompatibility * string :=
  if negb (fixedLength =? 0)%N then
    (RANGE_WIDENED,
     "Iceberg has no fixed-cardinality list: length " +:+ FormatUint fixedLength +:+
     " widens to an optional unconstrained list with no default; publishers must validate every value against SchemaBundle")
  else (LOSSLESS, "protobuf repeated field maps to an Iceberg list with a distinct element ID").

Fixpoint mapField (field : Field) (path : string) {struct field}
  : Outcome (NestedField * list MappingDiagnostic) :=
  match field with
  | mkField _ None => noType path
  | mkField m (Some t) =>
      mapped ← mapType t path;
      let '(mappedType, children, compat, msg) := mapped in
      defaults ← fieldDefaults (mkField m (Some t)) path;
      let '(initialDefault, writeDefault) := defaults in
      Ok (mkNestedField (stable_id m) (name m) (requiredField m (Some t)) (description m) mappedType
            initialDefault writeDefault,
          fieldDiagnostic m path compat msg :: children)
  end
with mapType (t : DataType) (path : string) {struct t} : Outcome MappedType :=
  let mapOpt (o : option Field) (p : string) : Outcome (NestedField * list MappingDiagnostic) :=
    match o with Some f => mapField f p | None => noType p end in
  match t with
  | mkDataType _ kind =>
      match kind with
      | DataType_Struct s =>
          match s with
          | None => Ok (StructType [], [], LOSSLESS, "protobuf message maps to an Iceberg struct")
          | Some fields =>
              mapped ← mapOutcome (fun c => mapOpt c (joinPath path (name (metaOf c)))) fields;
              Ok (StructType (map fst mapped), concat (map snd mapped), LOSSLESS,
                  "protobuf message maps to an Iceberg struct")
          end
      | DataType_List None => noType (path +:+ "[]")
      | DataType_List (Some (element, fixedLength)) =>
          mapped ← mapOpt element (path +:+ "[]");
          let '(e, diagnostics) := mapped in
          let '(compat, msg) := listMessage fixedLength in
          Ok (ListType (ID e) (Typ e) (Required e), diagnostics, compat, msg)
      | DataType_Map None => noType (path +:+ ".key")
      | DataType_Map (Some (key, value)) =>
          k ← mapOpt key (path +:+ ".key");
          v ← mapOpt value (path +:+ ".value");
          Ok (MapType (ID k.1) (Typ k.1) (ID v.1) (Typ v.1) (Required v.1), k.2 ++ v.2, LOSSLESS,
              "protobuf map maps to an Iceberg map with distinct key and value IDs")
      | k => mapLeaf k path
      end
  end.

Definition mapTopLevel (fields : list NestedField) (field : option Field) : W (list NestedField) :=
  mapped ← liftW (match field with
                  | Some f => mapField f (name (meta f))
                  | None => noType ""
                  end);
  _ ← emit mapped.2;
  mret (fields ++ [mapped.1]).

Definition Schema (dataset : option DatasetSchema) : list MappingDiagnostic * Outcome IcebergSchema :=
  match dataset with
  | None => ([], Err "iceberg: nil dataset schema")
  | Some ds =>
      (_ ← liftW (validateFieldIDs ds);
       fields ← foldW mapTopLevel (ds_fields ds) [];
       mret (NewSchema 0 fields)) []
  end.

(** [JSON]: the encoder belongs to iceberg-go. *)
Definition JSON (marshal : IcebergSchema -> string + string) (schema : option IcebergSchema) : Outcome string :=
  match schema with
  | None => Err "iceberg: nil schema"
  | Some s =>
      match marshal s with
      | inl e => Err ("iceberg: encode schema JSON: " +:+ e)
      | inr encoded => Ok encoded
      end
  end.

(** The ids of a mapped field and its descendants, in preorder. *)
Fixpoint fieldIDs (f : NestedField) {struct f} : list Z :=
  match f with mkNestedField id _ _ _ t _ _ => id :: typeIDs t end
with typeIDs (t : Type_) {struct t} : list Z :=
  match t with
  | StructType fs => (fix go (l : list NestedField) := match l with [] => [] | f :: l => fieldIDs f ++ go l end) fs
  | ListType id e _ => id :: typeIDs e
  | MapType kid k vid v _ => (kid :: typeIDs k) ++ (vid :: typeIDs v)
  | _ => []
  end.
End Iceberg.
