(* ===== verification/IcebergSpec.v ===== *)
(** * The contract of the Iceberg renderer *)
From S2P Require Import Prelude GoStrings StringFacts Schema WellFormed Bundle Descriptor Compiler.
From S2P Require Import Examples CompilerFacts HistoryFacts Evolution CompileSpec Render Iceberg.

Import Iceberg.

(** ** Field ids

    The recursive visit is a flat loop over the nodes of the tree. *)
Definition idsOf (f : Field) : list Z := map (fun g => stable_id (meta g)) (subFields f).
Definition claims (path : string) (f : Field) : list (Z * string) := zip (idsOf f) (fieldPaths path f).
Definition claim (s : gmap Z string) (c : Z * string) : Outcome (gmap Z string) := claimFieldID s c.1 c.2.

Definition visitOpt (seen : gmap Z string) (c : option Field * string) : Outcome (gmap Z string) :=
  match c.1 with
  | Some f => visit f c.2 seen
  | None => Err ("iceberg: nil field at " +:+ Quote c.2)
  end.

Lemma bind_Ok_id {A} (m : Outcome A) : (x ← m; Ok x) = m.
Proof. by destruct m. Qed.

Lemma foldOutcome_map {A B S} (f : S -> B -> Outcome S) (g : A -> B) l s :
  foldOutcome f (map g l) s = foldOutcome (fun s x => f s (g x)) l s.
Proof. revert s. induction l as [|x l IH]; intros s; simpl; [done|]. destruct (f s (g x)); simpl; auto. Qed.

Lemma foldOutcome_ext {A S} (f g : S -> A -> Outcome S) l s :
  (forall s x, f s x = g s x) -> foldOutcome f l s = foldOutcome g l s.
Proof. intros Hfg. revert s. induction l as [|x l IH]; intros s; simpl; [done|]. rewrite Hfg. destruct (g s x); simpl; auto. Qed.

Lemma visit_unfold m t path seen :
  path <> "" ->
  visit (mkField m (Some t)) path seen =
  (s ← claimFieldID seen (stable_id m) path; foldOutcome visitOpt (childPaths path (kindOf t)) s).
Proof.
  intros Hp. destruct t as [p [| | |[fs|]|[[e n]|]|[[k v]|]| | | | | |]]; simpl;
    destruct (claimFieldID seen (stable_id m) path) as [s| | |]; simpl; try done.
  - rewrite foldOutcome_map. apply foldOutcome_ext. intros s' c. unfold visitOpt. simpl.
    rewrite joinPath_nonempty by done. by destruct c.
  - unfold visitOpt. simpl. destruct e; [|done]. by rewrite bind_Ok_id.
  - unfold visitOpt. simpl. destruct k; [|done]. destruct (visit _ _ s); simpl; [|done..].
    destruct v; [|done]. by rewrite bind_Ok_id.
Qed.

(** The claims below a node. *)
Definition claimsOf (c : option Field * string) : list (Z * string) :=
  match c.1 with Some f => claims c.2 f | None => [] end.

Lemma claims_unfold path m t :
  claims path (mkField m t) = (stable_id m, path) :: concat (map claimsOf (childPaths path (GetKind t))).
Proof.
  unfold claims, idsOf. rewrite subFields_unfold, fieldPaths_unfold. simpl. f_equal.
  rewrite <- (childPaths_fst path). induction (childPaths path (GetKind t)) as [|[[f|] q] l IH]; [done| |done].
  simpl. rewrite childSubFields_cons, map_app, <- IH. unfold pathsOf, claimsOf. simpl.
  apply zip_with_app. etrans; [apply length_map|]. symmetry. apply length_fieldPaths.
Qed.

Lemma visit_flat f path seen :
  wfTree f -> path <> "" -> visit f path seen = foldOutcome claim (claims path f) seen.
Proof.
  intros Hwf. revert f Hwf path seen. apply (wfTree_ind (fun f => forall path seen,
    path <> "" -> visit f path seen = foldOutcome claim (claims path f) seen)).
  intros m t [[ft Ht] _] _ IH path seen Hp. cbn [typ] in Ht. subst t. cbn [GetKind] in IH.
  rewrite visit_unfold, claims_unfold by done. cbn [foldOutcome GetKind].
  change (claim seen (stable_id m, path)) with (claimFieldID seen (stable_id m) path).
  destruct (claimFieldID seen (stable_id m) path) as [s| | |]; simpl; try done. clear seen.
  rewrite <- (childPaths_fst path) in IH. pose proof (childPaths_nonempty path (kindOf ft)) as Hne.
  revert s. induction (childPaths path (kindOf ft)) as [|[o q] l IHl]; intros s; [done|].
  apply list.Forall_cons in IH as [(g&Heq&Hg) IH]. simpl in Heq. subst o. cbn [foldOutcome map concat].
  change (claimsOf (Some g, q)) with (claims q g). rewrite foldOutcome_app.
  change (visitOpt s (Some g, q)) with (visit g q s). rewrite Hg by (apply (Hne (Some g, q)); left).
  destruct (foldOutcome claim (claims q g) s); simpl; try done. apply IHl; [done|]. set_solver.
Qed.

Definition idInRange (id : Z) : Prop := (1 <= id <= maxFieldID)%Z.

Lemma claimFieldID_iff seen id path seen' :
  claimFieldID seen id path = Ok seen' <->
  idInRange id /\ seen !! id = None /\ seen' = <[id := path]> seen.
Proof.
  unfold claimFieldID, idInRange. rewrite bind_Ok. split.
  - intros (?&Hr%failIf_Ok%orb_false_iff&Hs). case_match; [done|]. apply Ok_inj in Hs.
    split_and!; [lia|lia|done|done].
  - intros (Hr&Hn&->). exists tt. split; [|by rewrite Hn]. apply failIf_Ok, orb_false_iff. lia.
Qed.

Lemma foldClaims_iff l seen :
  (exists seen', foldOutcome claim l seen = Ok seen') <->
  Forall idInRange l.*1 /\ NoDup l.*1 /\ Forall (fun id => seen !! id = None) l.*1.
Proof.
  revert seen. induction l as [|[id p] l IH]; intros seen; simpl.
  - split; [intros _; split_and!; constructor|by eexists].
  - rewrite !list.Forall_cons, list.NoDup_cons. split.
    + intros (s'&Hs). apply bind_Ok in Hs as (s1&Hc&Hs). apply claimFieldID_iff in Hc as (Hr&Hn&->).
      destruct (proj1 (IH _) (ex_intro _ _ Hs)) as (Hrs&Hnd&Hfree). simpl in *.
      rewrite list.Forall_forall in Hfree. split_and!; try done.
      * intros Hin%Hfree. by rewrite lookup_insert_eq in Hin.
      * apply list.Forall_forall. intros j Hj%Hfree. by apply lookup_insert_None in Hj as [? _].
    + intros ([Hr Hrs]&[Hnin Hnd]&[Hn Hfree]). change (claim seen (id, p)) with (claimFieldID seen id p).
      rewrite (proj2 (claimFieldID_iff seen id p _)) by done. simpl. apply IH.
      split_and!; [done..|]. rewrite list.Forall_forall in *. intros j Hj.
      rewrite lookup_insert_ne; [by apply Hfree|]. by intros ->.
Qed.

(** *** The ids of a dataset *)

Lemma fieldNodes_snd f parent : map snd (fieldNodes parent f) = subFields f.
Proof.
  revert f parent. apply (Field_tree_ind (fun f => forall parent, map snd (fieldNodes parent f) = subFields f)
    (fun o => forall f, o = Some f -> forall parent, map snd (fieldNodes parent f) = subFields f));
    [done|by intros f IH g [= ->]|].
  intros m t IH parent. rewrite fieldNodes_unfold, subFields_unfold. simpl. f_equal. unfold typeNodes.
  induction (childrenOf (GetKind t)) as [|[f|] l IHl]; [done| |].
  - apply list.Forall_cons in IH as [Hf IH]. rewrite childNodes_cons, childSubFields_cons, map_app, IHl by done.
    by rewrite (Hf f eq_refl).
  - apply list.Forall_cons in IH as [_ IH]. by apply IHl.
Qed.

Lemma childNodes_snd l parent : map snd (childNodes parent l) = childSubFields l.
Proof.
  induction l as [|[f|] l IH]; [done| |done].
  by rewrite childNodes_cons, childSubFields_cons, map_app, IH, fieldNodes_snd.
Qed.

Definition datasetIDs (ds : DatasetSchema) : list Z :=
  map (fun f => stable_id (meta f)) (childSubFields (ds_fields ds)) ++ map rf_stable_id (retiredOf ds).

Lemma ledger_ids ds : (ledger ds).*2 = datasetIDs ds.
Proof.
  unfold ledger, datasetIDs, dsEntries, childEntries. rewrite fmap_app. f_equal.
  - rewrite <- (childNodes_snd (ds_fields ds) ""), map_map. by rewrite <- list_fmap_compose.
  - by rewrite <- list_fmap_compose.
Qed.

Lemma zip_fst {A B} (l : list A) (k : list B) : length l = length k -> (zip l k).*1 = l.
Proof. intros Hl. apply fst_zip. lia. Qed.

Definition fieldClaims (f : Field) : list (Z * string) := claims (fieldName f) f.
Definition retiredClaim (r : RetiredField) : Z * string := (rf_stable_id r, "retired " +:+ rf_identity r).

Lemma visits_flat fs s :
  Forall wfTree fs -> Forall (fun f => fieldName f <> "") fs ->
  foldOutcome (fun s f => visit f (name (meta f)) s) fs s =
  foldOutcome claim (concat (map fieldClaims fs)) s.
Proof.
  intros Hwf Hne. revert s. induction Hwf as [|f fs Hw Hwf IH]; intros s; [done|].
  apply list.Forall_cons in Hne as [Hn Hne]. cbn [foldOutcome map concat]. rewrite foldOutcome_app.
  change (fieldClaims f) with (claims (name (meta f)) f). rewrite <- visit_flat by done.
  destruct (visit f (name (meta f)) s); simpl; auto.
Qed.

Lemma validateFieldIDs_flat ds fs rs :
  ds_fields ds = map Some fs -> retired_fields ds = map Some rs ->
  Forall wfTree fs -> Forall (fun f => fieldName f <> "") fs ->
  validateFieldIDs ds =
  (_ ← foldOutcome claim (concat (map fieldClaims fs) ++ map retiredClaim rs) ∅; Ok tt).
Proof.
  intros Hf Hr Hwf Hne. unfold validateFieldIDs. rewrite Hf, Hr, foldOutcome_app, !foldOutcome_map.
  rewrite visits_flat by done.
  destruct (foldOutcome claim (concat (map fieldClaims fs)) ∅); simpl; [|done..].
  by rewrite !foldOutcome_map.
Qed.

Lemma claims_ids fs rs :
  (concat (map fieldClaims fs) ++ map retiredClaim rs).*1 =
  map (fun f => stable_id (meta f)) (childSubFields (map Some fs)) ++ map rf_stable_id rs.
Proof.
  rewrite fmap_app. f_equal; [|by rewrite <- list_fmap_compose].
  induction fs as [|f fs IH]; [done|]. cbn [map concat].
  rewrite childSubFields_cons. etrans; [apply fmap_app|]. rewrite map_app. f_equal; [|exact IH].
  unfold fieldClaims, claims. apply zip_fst. unfold idsOf. rewrite length_map. symmetry.
  apply length_fieldPaths.
Qed.

Lemma validateFieldIDs_iff ds rs :
  wfDataset ds -> retired_fields ds = map Some rs ->
  validateFieldIDs ds = Ok tt <-> Forall idInRange (datasetIDs ds) /\ NoDup (datasetIDs ds).
Proof.
  intros Hwf Hrs. destruct (wfDataset_split _ Hwf) as (fs&Hfs&Ht&Hn).
  rewrite (validateFieldIDs_flat ds fs rs) by done.
  assert (datasetIDs ds = (concat (map fieldClaims fs) ++ map retiredClaim rs).*1) as ->.
  { rewrite claims_ids. unfold datasetIDs, retiredOf. by rewrite Hfs, Hrs, omap_id_Some. }
  pose proof (foldClaims_iff (concat (map fieldClaims fs) ++ map retiredClaim rs) ∅) as Hiff.
  split.
  - intros (s'&Hs&_)%bind_Ok. destruct (proj1 Hiff (ex_intro _ _ Hs)) as (?&?&_). done.
  - intros [Hr Hnd]. destruct (proj2 Hiff) as (s'&Hs).
    + split_and!; [done..|]. apply Forall_true. intros. apply lookup_empty.
    + by rewrite Hs.
Qed.

Section WithProtoreflect.
Context `{Protoreflect}.

(** C13: the compiler and the Iceberg renderer agree on ids: every compiled
    dataset passes the id check, tombstones included. *)
Theorem iceberg_accepts_compiled reg fuel md previous ds :
  wfRegistry reg -> wfMessage md ->
  CompileMessage reg fuel (Some md) previous = Ok ds -> validateFieldIDs ds = Ok tt.
Proof.
  intros Hreg Hmd (c0&c&compiled&Hrun)%CompileMessage_Run.
  pose proof (Run_Inv Hreg Hmd Hrun) as Hinv.
  eapply validateFieldIDs_iff; [by eapply Run_wfDataset| |].
  - by rewrite (run_dataset _ _ _ _ _ _ _ _ Hrun).
  - rewrite <- ledger_ids. split; [|by eapply Run_ids_nodup].
    apply list.Forall_forall. intros id ([i id']&->&Hin)%list_elem_of_fmap.
    eapply (Run_reserved Hreg Hmd Hrun) in Hin. apply (inv_range c Hinv) in Hin.
    pose proof (inv_last c Hinv) as Hl. unfold idInRange, maxFieldID, maxStableID in *. simpl. lia.
Qed.
End WithProtoreflect.

(** ** The mapping *)

Definition mapOpt (c : option Field * string) : Outcome (NestedField * list MappingDiagnostic) :=
  match c.1 with Some f => mapField f c.2 | None => noType c.2 end.

(** How the mapped children make the type of their parent. *)
Definition assemble (k : DataTypeKind) (path : string) (mapped : list (NestedField * list MappingDiagnostic))
  : Outcome MappedType :=
  let diagnostics := concat (map snd mapped) in
  match k, mapped with
  | DataType_Struct _, _ =>
      Ok (StructType (map fst mapped), diagnostics, LOSSLESS, "protobuf message maps to an Iceberg struct")
  | DataType_List l, [(e, _)] =>
      Ok (ListType (ID e) (Typ e) (Required e), diagnostics, (listMessage (GetFixedLength l)).1,
          (listMessage (GetFixedLength l)).2)
  | DataType_Map _, [(key, _); (value, _)] =>
      Ok (MapType (ID key) (Typ key) (ID value) (Typ value) (Required value), diagnostics, LOSSLESS,
          "protobuf map maps to an Iceberg map with distinct key and value IDs")
  | _, _ => mapLeaf k path
  end.

Lemma mapType_unfold t path :
  path <> "" ->
  mapType t path =
  (mapped ← mapOutcome mapOpt (childPaths path (kindOf t)); assemble (kindOf t) path mapped).
Proof.
  intros Hp. destruct t as [p [| | |[fs|]|[[e n]|]|[[k v]|]| | | | | |]]; simpl; try done.
  - rewrite mapOutcome_fmap. erewrite mapOutcome_ext; [reflexivity|].
    intros c. unfold mapOpt. simpl. rewrite joinPath_nonempty by done. by destruct c.
  - unfold mapOpt. simpl. destruct e as [f|]; [|done]. destruct (mapField f _) as [[nf ds]| | |]; simpl; try done.
    destruct (listMessage n). by rewrite app_nil_r.
  - unfold mapOpt. simpl. destruct k as [f|]; [|done].
    destruct (mapField f _) as [[nf ds]| | |]; simpl; try done.
    destruct v as [g|]; [|done]. destruct (mapField g _) as [[nf' ds']| | |]; simpl; try done.
    by rewrite app_nil_r.
Qed.

(** The ids of a mapped type follow from those of the mapped children. *)
Lemma typeIDs_struct fs : typeIDs (StructType fs) = concat (map fieldIDs fs).
Proof. simpl. induction fs as [|f fs IH]; [done|]. simpl. by rewrite IH. Qed.

Lemma fieldIDs_eq f : fieldIDs f = ID f :: typeIDs (Typ f).
Proof. by destruct f. Qed.

Lemma mapLeaf_total k path :
  wfKind k -> match k with DataType_Struct _ | DataType_List _ | DataType_Map _ => False | _ => True end ->
  exists t compat msg, mapLeaf k path = Ok (t, [], compat, msg) /\ typeIDs t = [].
Proof.
  unfold mapLeaf, decimalParameters, fixedByteWidth, maxInt32N. intros Hk Hc.
  destruct k as [|[p|]|[e|]|[fs|]|[[e n]|]|[[k v]|]|[ts|]|[u|]|[j|]|[d|]|[u|]|[n|]];
    simpl in *; try done; try (by eexists _, _, _).
  - destruct p; simpl in *; try done; by eexists _, _, _.
  - destruct (et_closed e); by eexists _, _, _.
  - destruct Hk as [-> ->]. by eexists _, _, _.
  - subst u. by eexists _, _, _.
  - destruct Hk as [Hp Hs].
    destruct (N.eqb_spec (dec_precision d) 0); [lia|]. destruct (N.ltb_spec 38 (dec_precision d)); [lia|].
    simpl. destruct (N.ltb_spec (dec_precision d) (dec_scale d)); [lia|]. by eexists _, _, _.
  - destruct (N.eqb_spec n 0); [lia|]. destruct (N.ltb_spec 2147483647 n); [lia|]. by eexists _, _, _.
Qed.

(** The children are mapped, one by one. *)
Record MappedChild (c : option Field * string) (r : NestedField * list MappingDiagnostic) : Prop := mkMappedChild {
  mc_ids : fieldIDs r.1 = match c.1 with Some f => idsOf f | None => [] end;
  mc_paths : map field_path r.2 = pathsOf c
}.

Lemma assemble_total t path rs :
  wfKind (kindOf t) -> path <> "" -> Forall2 MappedChild (childPaths path (kindOf t)) rs ->
  exists mt ds compat msg, assemble (kindOf t) path rs = Ok (mt, ds, compat, msg) /\
    typeIDs mt = map (fun f => stable_id (meta f)) (childSubFields (childrenOf (kindOf t))) /\
    map field_path ds = concat (map pathsOf (childPaths path (kindOf t))).
Proof.
  intros Hk Hp Hall.
  assert (concat (map fieldIDs (map fst rs)) =
    map (fun f => stable_id (meta f)) (childSubFields (childrenOf (kindOf t)))) as Hids.
  { rewrite <- (childPaths_fst path). clear Hk. induction Hall as [|[o q] [nf ds] l rs [Hi _] _ IH]; [done|].
    simpl in *. rewrite Hi, IH. destruct o as [f|]; [|done]. by rewrite childSubFields_cons, map_app. }
  assert (map field_path (concat (map snd rs)) = concat (map pathsOf (childPaths path (kindOf t)))) as Hps.
  { clear Hk Hids. induction Hall as [|c [nf ds] l rs [_ Hi] _ IH]; [done|].
    simpl in *. by rewrite map_app, Hi, IH. }
  destruct (kindOf t) as [|p|e|s|l|mp|ts|u|j|d|u|n] eqn:Ek; simpl in Hall.
  4:{ eexists _, _, _, _. split; [reflexivity|]. split; [|exact Hps]. by rewrite typeIDs_struct. }
  4:{ inversion Hall as [|? [e ds] ? ? _ Hnil]; subst. inversion Hnil; subst.
      eexists _, _, _, _. split; [reflexivity|]. split; [|exact Hps]. rewrite <- Hids. simpl.
      by rewrite app_nil_r, fieldIDs_eq. }
  4:{ inversion Hall as [|? [e ds] ? ? _ Hall']; subst. inversion Hall' as [|? [v ds'] ? ? _ Hnil]; subst.
      inversion Hnil; subst. eexists _, _, _, _. split; [reflexivity|]. split; [|exact Hps].
      rewrite <- Hids. simpl. by rewrite app_nil_r, !fieldIDs_eq. }
  1: by destruct Hk.
  all: inversion Hall; subst; destruct (mapLeaf_total _ path Hk I) as (mt&cp&ms&Hm&Hmt);
       exists mt, [], cp, ms; rewrite <- Hids, <- Hps; cbn [assemble]; rewrite Hm, Hmt; done.
Qed.

(** ** Defaults *)

Definition notRequired (f : Field) : Prop := presence (meta f) <> PRESENCE_REQUIRED.

Lemma fieldDefaults_total f path :
  wfNode f -> notRequired f -> exists d, fieldDefaults f path = Ok d.
Proof.
  unfold wfNode, wfPresence, notRequired, fieldDefaults, GetList, GetMap. intros ([t Ht]&Hk&Hp) Hr.
  destruct (presence (meta f)) eqn:Epres; try done.
  - destruct Hp as (->&_&_&Hs). simpl. rewrite Ht in *. simpl in *. unfold implicitDefault.
    destruct (kindOf t) as [|[p|]|[e|]| | | | | | | | |]; try done; simpl in *.
    + destruct p; simpl in *; try done; by eexists.
    + destruct Hk as [Hne _]. destruct (et_values e); [done|]. simpl. by eexists.
  - destruct Hp as (->&_). by eexists.
  - destruct Hp as (->&_). by eexists.
  - destruct Hp as (->&_&_&Hl). destruct (GetKind (typ f)) as [| | | |[l|]| | | | | | |]; try done. simpl.
    case_match; by eexists.
  - destruct Hp as (->&_&_&Hl). destruct (GetKind (typ f)) as [| | | | |[l|]| | | | | |]; try done. simpl. by eexists.
  - destruct Hp as (_&_&Hrole&_). rewrite bool_decide_eq_false_2 by done. by eexists.
Qed.

Lemma mapField_total f path :
  wfTree f -> Forall notRequired (subFields f) -> path <> "" ->
  exists nf ds, mapField f path = Ok (nf, ds) /\ fieldIDs nf = idsOf f /\ map field_path ds = fieldPaths path f.
Proof.
  intros Hwf. revert f Hwf path. apply (wfTree_ind (fun f => forall path,
    Forall notRequired (subFields f) -> path <> "" ->
    exists nf ds, mapField f path = Ok (nf, ds) /\ fieldIDs nf = idsOf f /\
      map field_path ds = fieldPaths path f)).
  intros m t Hnode Hch IH path Hreq Hp. pose proof Hnode as ([ft Ht]&Hk&_). cbn [typ] in Ht. subst t.
  cbn [typ GetKind] in *. rewrite subFields_unfold in Hreq. apply list.Forall_cons in Hreq as [Hr Hreq].
  destruct (fieldDefaults_total _ path Hnode Hr) as [[d1 d2] Hd].
  assert (exists rs, mapOutcome mapOpt (childPaths path (kindOf ft)) = Ok rs /\
    Forall2 MappedChild (childPaths path (kindOf ft)) rs) as (rs&Hrs&Hall).
  { rewrite <- (childPaths_fst path) in IH, Hreq.
    pose proof (childPaths_nonempty path (kindOf ft)) as Hne. clear -IH Hreq Hne. cbn [GetKind] in *.
    induction (childPaths path (kindOf ft)) as [|[o q] l IHl]; [by exists []|].
    apply list.Forall_cons in IH as [(g&Heq&Hg) IH]. simpl in Heq. subst o. simpl map in Hreq.
    rewrite childSubFields_cons, list.Forall_app in Hreq. destruct Hreq as [Hr1 Hr2].
    destruct (Hg q Hr1) as (nf&ds&Hm&Hi&Hps); [apply (Hne (Some g, q)); left|].
    destruct (IHl IH Hr2) as (rs&Hrs&Hall); [set_solver|].
    exists ((nf, ds) :: rs). simpl. change (mapOpt (Some g, q)) with (mapField g q). rewrite Hm. simpl. rewrite Hrs.
    split; [done|]. constructor; [|done]. by constructor. }
  destruct (assemble_total ft path rs Hk Hp Hall) as (mt&ds&cp&ms&Has&Hids&Hps).
  exists (mkNestedField (stable_id m) (name m) (requiredField m (Some ft)) (description m) mt d1 d2),
    (fieldDiagnostic m path cp ms :: ds). split; [|split].
  - cbn [mapField]. rewrite mapType_unfold by done. rewrite Hrs. cbn. rewrite Has. cbn. by rewrite Hd.
  - unfold idsOf. rewrite subFields_unfold. cbn [fieldIDs map meta GetKind]. by rewrite Hids.
  - rewrite fieldPaths_unfold. cbn [map GetKind]. rewrite Hps. f_equal.
    unfold fieldDiagnostic. by case_decide.
Qed.

Lemma mapTopLevel_total fs fields d :
  Forall wfTree fs -> Forall (fun f => fieldName f <> "") fs ->
  Forall notRequired (childSubFields (map Some fs)) ->
  exists new ds, foldW mapTopLevel (map Some fs) fields d = (d ++ ds, Ok (fields ++ new)) /\
    concat (map fieldIDs new) = map (fun f => stable_id (meta f)) (childSubFields (map Some fs)) /\
    map field_path ds = concat (map (fun f => fieldPaths (fieldName f) f) fs).
Proof.
  intros Hwf Hne. revert fields d. induction Hwf as [|f fs Hw Hwf IH]; intros fields d Hreq.
  - exists [], []. simpl. by rewrite !app_nil_r.
  - apply list.Forall_cons in Hne as [Hn Hne]. simpl map in *.
    rewrite childSubFields_cons in *. apply list.Forall_app in Hreq as [Hr1 Hr2].
    destruct (mapField_total f (fieldName f) Hw Hr1 Hn) as (nf&ds1&Hm&Hi&Hp).
    destruct (IH Hne (fields ++ [nf]) (d ++ ds1) Hr2) as (new&ds2&Hf&Hids&Hps).
    exists (nf :: new), (ds1 ++ ds2). split_and!.
    + cbn [foldW]. erewrite W_bind_run.
      2:{ unfold mapTopLevel. erewrite W_bind_run by (unfold liftW; fold (fieldName f); rewrite Hm; done).
          erewrite W_bind_run by (unfold emit; done). unfold mret, W_ret. reflexivity. }
      etrans; [exact Hf|]. by rewrite <- !app_assoc.
    + cbn [map concat]. rewrite Hids, map_app. f_equal. exact Hi.
    + rewrite map_app, Hp, Hps. done.
Qed.

(** A well-formed dataset whose ids pass the check and which has no required
    field maps to an Iceberg schema: every node keeps its stable id, in preorder,
    and yields one diagnostic. *)
Theorem iceberg_total ds :
  wfDataset ds -> validateFieldIDs ds = Ok tt -> Forall notRequired (childSubFields (ds_fields ds)) ->
  exists diagnostics schema, Schema (Some ds) = (diagnostics, Ok schema) /\
    concat (map fieldIDs (schema_fields schema)) =
      map (fun f => stable_id (meta f)) (childSubFields (ds_fields ds)) /\
    map field_path diagnostics = datasetPaths ds.
Proof.
  intros Hwf Hv Hreq. destruct (wfDataset_split _ Hwf) as (fs&Hfs&Ht&Hn). rewrite Hfs in *.
  destruct (mapTopLevel_total fs [] [] Ht Hn Hreq) as (new&ds1&Hf&Hids&Hps).
  exists ds1, (NewSchema 0 new). split_and!.
  - unfold Schema. rewrite Hfs. erewrite W_bind_run by (unfold liftW; rewrite Hv; done).
    erewrite W_bind_run by exact Hf. done.
  - exact Hids.
  - rewrite Hps. unfold datasetPaths. rewrite Hfs. clear. induction fs as [|f fs IH]; [done|].
    simpl. by rewrite IH.
Qed.

(** An Iceberg field that is required always has an initial default, so that
    rows written before the field existed can be read. *)
Theorem iceberg_required_has_default f path nf ds :
  mapField f path = Ok (nf, ds) -> synthetic_role (meta f) = SYNTHETIC_ROLE_PROTO_FIELD ->
  Required nf = true ->
  exists initial write, nf = mkNestedField (stable_id (meta f)) (name (meta f)) true (description (meta f))
    (Typ nf) initial write /\ initial <> NoDefault /\ write = initial.
Proof.
  destruct f as [m [t|]]; [|done]. cbn [mapField meta]. intros Hm Hrole Hreq.
  apply bind_Ok in Hm as ([[[mt ch] cp] ms]&_&Hm). apply bind_Ok in Hm as ([d1 d2]&Hd&Hm).
  apply Ok_inj in Hm. injection Hm as <- _. cbn [Required Typ] in *.
  exists d1, d2. rewrite Hreq. split; [done|]. unfold requiredField in Hreq. unfold fieldDefaults in Hd.
  cbn [meta typ] in Hd.
  destruct (negb (isNil (GetList (Some t))) && negb (GetFixedLength (GetList (Some t)) =? 0)%N)%bool eqn:Efix; [done|].
  apply negb_true_iff in Hreq. rewrite Hreq, Hrole in Hd.
  destruct (presence m); try done; apply bind_Ok in Hd as (?&Hg&Hd).
  - apply bind_Ok in Hd as (v&Hi&Hd). apply Ok_inj in Hd. injection Hd as <- <-. split; [|done].
    intros ->. unfold implicitDefault in Hi. destruct (kindOf t); try done; by repeat case_match.
  - apply failIf_Ok in Hg. rewrite orb_false_l in Hg. rewrite Hg in Efix. cbn [negb andb] in Efix.
    rewrite Efix in Hd. apply Ok_inj in Hd. by injection Hd as <- <-.
  - apply Ok_inj in Hd. by injection Hd as <- <-.
Qed.

(** A dataset with a required protobuf field is refused: Iceberg has no safe
    value for the rows written before the field existed. *)
Theorem iceberg_required_refused ds f :
  Some f ∈ ds_fields ds -> presence (meta f) = PRESENCE_REQUIRED ->
  forall schema, (Schema (Some ds)).2 <> Ok schema.
Proof.
  intros Hf Hp schema. unfold Schema.
  destruct ((_ ← liftW (validateFieldIDs ds); fields ← foldW mapTopLevel (ds_fields ds) [];
             mret (NewSchema 0 fields)) []) as [d o] eqn:E. intros Ho. simpl in Ho. subst o.
  apply W_bind_Ok in E as (?&?&_&E). apply W_bind_Ok in E as (fields&d1&E&_). revert E.
  generalize (@nil NestedField) at 1. revert Hf. generalize (ds_fields ds) as l. intros l Hf.
  revert x0. induction l as [|o l IH]; intros d0 acc E; [by apply not_elem_of_nil in Hf|].
  cbn [foldW] in E. apply W_bind_Ok in E as (acc'&d2&E1&E2).
  apply elem_of_cons in Hf as [<-|Hf]; [|by eapply IH].
  unfold mapTopLevel in E1. apply W_bind_Ok in E1 as ([nf ds']&?&E1&_). apply liftW_Ok in E1 as [E1 _].
  destruct f as [m [t|]]; [|done]. cbn [mapField meta] in *.
  apply bind_Ok in E1 as ([[[mt ch] cp] ms]&_&E1). apply bind_Ok in E1 as ([? ?]&Hd&_).
  unfold fieldDefaults in Hd. cbn [meta] in Hd. by rewrite Hp in Hd.
Qed.

(** ** Witnesses *)

Lemma iceberg_accepts_compiled_witness : validateFieldIDs orderV2 = Ok tt.
Proof.
  apply (iceberg_accepts_compiled shop2 4 Order2 (Some orderV1) orderV2 shop2_wf Order2_wf).
  vm_compute. reflexivity.
Defined.

Lemma iceberg_total_witness :
  exists diagnostics schema, Schema (Some orderV2) = (diagnostics, Ok schema) /\
    concat (map fieldIDs (schema_fields schema)) =
      map (fun f => stable_id (meta f)) (childSubFields (ds_fields orderV2)) /\
    map field_path diagnostics = datasetPaths orderV2.
Proof.
  apply iceberg_total.
  - apply (Run_wfDataset_of shop2 4 Order2 (Some orderV1) orderV2 shop2_wf Order2_wf).
    vm_compute. reflexivity.
  - vm_compute. reflexivity.
  - unfold notRequired. apply (bool_decide_unpack _). vm_compute. exact I.
Defined.

Definition sideNode : Field := nodeAt orderV2 "field:2".
Lemma iceberg_required_has_default_witness :
  exists initial write,
    mkNestedField 2 "side" true "" Int32 (FloatDefault 0) (FloatDefault 0) =
    mkNestedField (stable_id (meta sideNode)) (name (meta sideNode)) true (description (meta sideNode))
      Int32 initial write /\ initial <> NoDefault /\ write = initial.
Proof.
  eapply (iceberg_required_has_default sideNode "side"
    (mkNestedField 2 "side" true "" Int32 (FloatDefault 0) (FloatDefault 0))).
  - vm_compute. reflexivity.
  - vm_compute. reflexivity.
  - reflexivity.
Defined.

Definition requiredField1 : Field :=
  mkField (mkFieldMeta "m.f" [1%N] "f" 1 PRESENCE_REQUIRED false "" "" SYNTHETIC_ROLE_PROTO_FIELD
    false "" "f" "f") (Some (primitiveType PRIMITIVE_KIND_INT64)).
Lemma iceberg_required_refused_witness :
  ~ (exists schema, (Schema (Some (mkDatasetSchema "m" "m" "" [Some requiredField1] 1 []))).2 = Ok schema).
Proof. intros [schema Hs]. revert Hs. apply (iceberg_required_refused _ requiredField1); [left|reflexivity]. Defined.
