(* ===== verification/Arrow.v ===== *)
(** * The Arrow renderer (src/go/data/arrow/schema.go)

    The mapping of a dataset to an Arrow schema, whose types and fields are those
    of the arrow-go package as data.  Metadata is a map from keys to values: the
    package sorts the keys.  The text of an Arrow type and the JSON extension type
    belong to arrow-go and are operations of the class [ArrowRuntime]. *)
From S2P Require Import Prelude GoStrings StringFacts Schema WellFormed Json Render.

Module Arrow.

(** ** The schema model of arrow-go *)

Notation Metadata := (gmap string string).

Inductive ArrowType : Type :=
  | Float64 | Float32 | Int64 | Uint64 | Int32 | Uint32 | Boolean | String_ | Binary
  | TimestampNs (TimeZone : string)
  | Duration_ns
  | JSONType (Storage : ArrowType)
  | Decimal128Type (Precision Scale : Z)
  | UUIDType
  | FixedSizeBinaryType (ByteWidth : Z)
  | StructType (fields : list ArrowField)
  | ListType (ElemField : ArrowField)
  | FixedSizeListType (Len : Z) (ElemField : ArrowField)
  | MapType (KeyField ItemField : ArrowField)
with ArrowField : Type :=
  | mkArrowField (Name : string) (Type_ : ArrowType) (Nullable : bool) (Metadata_ : Metadata).

Definition Name (f : ArrowField) : string := match f with mkArrowField n _ _ _ => n end.
Definition Type_ (f : ArrowField) : ArrowType := match f with mkArrowField _ t _ _ => t end.
Definition Nullable (f : ArrowField) : bool := match f with mkArrowField _ _ b _ => b end.
Definition Metadata_ (f : ArrowField) : Metadata := match f with mkArrowField _ _ _ m => m end.

(** Assignments to members of an Arrow field. *)
Definition setName (n : string) (f : ArrowField) : ArrowField :=
  match f with mkArrowField _ t b m => mkArrowField n t b m end.
Definition setType (t : ArrowType) (f : ArrowField) : ArrowField :=
  match f with mkArrowField n _ b m => mkArrowField n t b m end.
Definition setNullable (b : bool) (f : ArrowField) : ArrowField :=
  match f with mkArrowField n t _ m => mkArrowField n t b m end.

Record ArrowSchema : Type := NewSchema {
  schema_fields : list ArrowField;
  schema_metadata : Metadata
}.

Class ArrowRuntime : Type := {
  DataType_String : ArrowType -> string;
  NewJSONType : ArrowType -> string + ArrowType
}.

(** Arrow's JSON extension type accepts the utf8 storage type. *)
Class ArrowRuntimeLaws `{ArrowRuntime} : Prop := {
  NewJSONType_utf8 : NewJSONType String_ = inr (JSONType String_)
}.

(** ** Metadata keys *)

Definition metadataDescription : string := "invariant.description".
Definition metadataEnumClosed : string := "invariant.enum.closed".
Definition metadataEnumValues : string := "invariant.enum.values".
Definition metadataLogicalType : string := "invariant.logical_type".
Definition metadataOneof : string := "invariant.oneof".
Definition metadataPresence : string := "invariant.presence".
Definition metadataProtoDefault : string := "invariant.proto.default".
Definition metadataProtoFullName : string := "invariant.proto.full_name".
Definition metadataProtoHasDefault : string := "invariant.proto.has_default".
Definition metadataProtoJSONName : string := "invariant.proto.json_name".
Definition metadataProtoNumberPath : string := "invariant.proto.number_path".
Definition metadataProtobufType : string := "invariant.protobuf_type".
Definition metadataStableID : string := "invariant.stable_id".
Definition parquetFieldIDMetadata : string := "PARQUET:field_id".

Definition compactMetadata (values : Metadata) : Metadata :=
  filter (fun kv => kv.2 <> "") values.

(** ** Helpers *)

Definition maxInt32N : N := 2147483647.
Definition int32 (n : N) : Z := ((Z.of_N n + 2147483648) mod 4294967296 - 2147483648)%Z.

Definition decimalParameters (decimal : option DecimalType) : Outcome (Z * Z) :=
  if isNil decimal || (GetPrecision decimal =? 0)%N || (38 <? GetPrecision decimal)%N
  then Err "decimal precision must be between 1 and 38"
  else if (GetPrecision decimal <? GetScale decimal)%N then Err "decimal scale must not exceed precision"
  else Ok (int32 (GetPrecision decimal), int32 (GetScale decimal)).

Definition fixedByteWidth (fixed : option N) : Outcome Z :=
  if isNil fixed || (GetByteLength fixed =? 0)%N then Err "fixed byte length must be positive"
  else if (maxInt32N <? GetByteLength fixed)%N then
    Err ("fixed byte length " +:+ FormatUint (GetByteLength fixed) +:+ " exceeds Arrow IPC's maximum of " +:+
         FormatUint maxInt32N)
  else Ok (Z.of_N (GetByteLength fixed)).

Definition jsonRangeReduction (kind : JsonKind) : string :=
  match kind with
  | JSON_KIND_ANY =>
      "standard protobuf JSON requires each populated Any type URL to resolve to a known message descriptor; embedded Struct, Value, and ListValue numbers must also be finite"
  | JSON_KIND_STRUCT | JSON_KIND_VALUE | JSON_KIND_LIST_VALUE =>
      "standard protobuf JSON requires Struct, Value, and ListValue numbers to be finite; NaN and infinities are not representable"
  | _ => "standard protobuf JSON requires an explicitly supported dynamic JSON kind"
  end.

Definition mapPrimitive (kind : PrimitiveKind) : Outcome ArrowType :=
  match kind with
  | PRIMITIVE_KIND_DOUBLE => Ok Float64
  | PRIMITIVE_KIND_FLOAT => Ok Float32
  | PRIMITIVE_KIND_INT64 | PRIMITIVE_KIND_SFIXED64 | PRIMITIVE_KIND_SINT64 => Ok Int64
  | PRIMITIVE_KIND_UINT64 | PRIMITIVE_KIND_FIXED64 => Ok Uint64
  | PRIMITIVE_KIND_INT32 | PRIMITIVE_KIND_SFIXED32 | PRIMITIVE_KIND_SINT32 => Ok Int32
  | PRIMITIVE_KIND_FIXED32 | PRIMITIVE_KIND_UINT32 => Ok Uint32
  | PRIMITIVE_KIND_BOOL => Ok Boolean
  | PRIMITIVE_KIND_STRING => Ok String_
  | PRIMITIVE_KIND_BYTES => Ok Binary
  | _ => Err ("unsupported primitive kind " +:+ PrimitiveKind_String kind)
  end.

Definition logicalTypeName (t : option DataType) : string :=
  match GetKind t with
  | DataType_Primitive _ => "primitive"
  | DataType_Enum _ => "enum"
  | DataType_Struct _ => "struct"
  | DataType_List l => if negb (GetFixedLength l =? 0)%N then "fixed_list" else "list"
  | DataType_Map _ => "map"
  | DataType_Timestamp _ => "timestamp"
  | DataType_Duration _ => "duration"
  | DataType_Json _ => "json"
  | DataType_Decimal _ => "decimal"
  | DataType_Uuid _ => "uuid"
  | DataType_FixedBytes _ => "fixed_bytes"
  | DataType_None => "unspecified"
  end.

Definition numberPath (numbers : list N) : string := Join (map FormatUint numbers) ".".

Definition primitiveName (kind : PrimitiveKind) : string :=
  ToLower (TrimPrefix (PrimitiveKind_String kind) "PRIMITIVE_KIND_").

Definition enumMetadataValue (value : option EnumValue) : JsonValue :=
  let v := enumValueOf value in
  JObject ([("name", JString (ev_name v)); ("number", JInt (ev_number v))]
           ++ omitEmpty "description" (ev_description v)).

(** ** Fields *)

Definition fieldMetadata (m : FieldMeta) (t : option DataType) : Metadata :=
  let metadata := compactMetadata (list_to_map [
    (metadataDescription, description m);
    (metadataLogicalType, logicalTypeName t);
    (metadataOneof, oneof m);
    (metadataPresence, Presence_String (presence m));
    (metadataProtoFullName, proto_full_name m);
    (metadataProtoHasDefault, FormatBool (has_default m));
    (metadataProtoJSONName, json_name m);
    (metadataProtoNumberPath, numberPath (proto_number_path m));
    (metadataProtobufType, GetProtobufType t);
    (metadataStableID, FormatInt (stable_id m));
    (parquetFieldIDMetadata, FormatInt (stable_id m))]) in
  let metadata := if has_default m then <[metadataProtoDefault := protobuf_default m]> metadata else metadata in
  match GetEnum t with
  | None => metadata
  | Some enumType =>
      <[metadataEnumValues := Marshal (JArray (map enumMetadataValue (et_values enumType)))]>
        (<[metadataEnumClosed := FormatBool (et_closed enumType)]> metadata)
  end.

(** The diagnostic of a field: a oneof is not enforced. *)
Definition fieldDiagnostic (m : FieldMeta) (path : string) (compat : MappingCompatibility) (msg : string)
  : MappingDiagnostic :=
  if decide (oneof m = "") then mkDiagnostic path compat msg
  else mkDiagnostic path (if decide (compat = LOSSLESS) then RANGE_WIDENED else compat)
         (msg +:+ "; Arrow records membership in oneof " +:+ Quote (oneof m) +:+
          " as metadata but does not enforce mutual exclusivity").

Definition nilField {A} (path : string) : Outcome A := Err ("arrow: nil field at " +:+ Quote path).

(** The result of [mapType]: the type, the diagnostics below it, its compatibility
    and message. *)
Definition MappedType : Type := ArrowType * list MappingDiagnostic * MappingCompatibility * string.

Section WithRuntime.
Context `{ArrowRuntime}.

(** Types without children. *)
Definition mapLeaf (kind : DataTypeKind) (path : string) : Outcome MappedType :=
  let fieldErr := "arrow: field " +:+ Quote path in
  match kind with
  | DataType_Primitive p =>
      t ← wrapErr (fieldErr +:+ ": ") (mapPrimitive (GetPrimitiveKind p));
      Ok (t, [], LOSSLESS, "protobuf " +:+ primitiveName (GetPrimitiveKind p) +:+ " maps losslessly to Arrow " +:+
                           DataType_String t)
  | DataType_Enum e =>
      if GetEnumClosed e then
        Ok (Int32, [], RANGE_WIDENED,
            "closed protobuf enum numbers map to unconstrained Arrow int32; symbols, aliases, and the closed value set are field metadata")
      else Ok (Int32, [], LOSSLESS,
            "open protobuf enum numbers map losslessly to Arrow int32; symbols and aliases are field metadata")
  | DataType_Timestamp ts =>
      if negb (bool_decide (GetTimestampUnit ts = TIME_UNIT_NANOSECOND))
         || negb (String.eqb (GetTimezone ts) "UTC")
      then Err (fieldErr +:+ " has unsupported timestamp unit or timezone")
      else Ok (TimestampNs "UTC", [], RANGE_REDUCED,
             "Arrow timestamp[ns, tz=UTC] preserves nanosecond precision but its int64 range is narrower than protobuf Timestamp")
  | DataType_Duration u =>
      if negb (bool_decide (GetDurationUnit u = TIME_UNIT_NANOSECOND))
      then Err (fieldErr +:+ " has unsupported duration unit")
      else Ok (Duration_ns, [], RANGE_REDUCED,
             "Arrow duration[ns] preserves nanosecond precision but its int64 range is narrower than protobuf Duration")
  | DataType_Json j =>
      match NewJSONType String_ with
      | inl e => Err (fieldErr +:+ ": " +:+ e)
      | inr jsonType =>
          Ok (jsonType, [], RANGE_REDUCED,
              "protobuf " +:+ JsonKind_String (GetJsonKind j) +:+
              " is encoded as RFC 8259 text in Arrow's canonical JSON extension type; " +:+
              jsonRangeReduction (GetJsonKind j))
      end
  | DataType_Decimal d =>
      ps ← wrapErr (fieldErr +:+ ": ") (decimalParameters d);
      Ok (Decimal128Type ps.1 ps.2, [], REPRESENTATION_CHANGED,
          "canonical decimal text is decoded into Arrow decimal128(" +:+ FormatInt ps.1 +:+ ", " +:+
          FormatInt ps.2 +:+ "); precision and scale are preserved but the physical representation changes")
  | DataType_Uuid u =>
      if isNil u then Err (fieldErr +:+ " has an invalid UUID logical type")
      else Ok (UUIDType, [], REPRESENTATION_CHANGED,
               "canonical UUID text is decoded into Arrow's canonical arrow.uuid extension over fixed-size binary[16]")
  | DataType_FixedBytes f =>
      width ← wrapErr (fieldErr +:+ ": ") (fixedByteWidth f);
      Ok (FixedSizeBinaryType width, [], LOSSLESS,
          "exact-width protobuf bytes map losslessly to Arrow fixed_size_binary[" +:+ FormatInt width +:+ "]")
  | _ => Err (fieldErr +:+ " has an unspecified logical type")
  end.

(** The type of a list of [element]s, fixed-size when a length is given. *)
Definition listOf (path : string) (length : N) (element : ArrowField) (diagnostics : list MappingDiagnostic)
  : Outcome MappedType :=
  let item := setName "item" element in
  if negb (length =? 0)%N then
    if (maxInt32N <? length)%N then
      Err ("arrow: field " +:+ Quote path +:+ " fixed-list length " +:+ FormatUint length +:+
           " exceeds Arrow's maximum of " +:+ FormatUint maxInt32N)
    else Ok (FixedSizeListType (int32 length) item, diagnostics, LOSSLESS,
           "fixed-cardinality protobuf repeated field maps losslessly to Arrow fixed_size_list[" +:+
           FormatUint length +:+ "]")
  else Ok (ListType item, diagnostics, LOSSLESS, "protobuf repeated field maps to an Arrow list").

Fixpoint mapField (field : Field) (path : string) {struct field}
  : Outcome (ArrowField * list MappingDiagnostic) :=
  match field with
  | mkField _ None => Err ("arrow: field " +:+ Quote path +:+ " has no logical type")
  | mkField m (Some t) =>
      mapped ← mapType t path;
      let '(mappedType, children, compat, msg) := mapped in
      Ok (mkArrowField (name m) mappedType (nullable m) (fieldMetadata m (Some t)),
          fieldDiagnostic m path compat msg :: children)
  end
with mapType (t : DataType) (path : string) {struct t} : Outcome MappedType :=
  let mapOpt (o : option Field) (p : string) : Outcome (ArrowField * list MappingDiagnostic) :=
    match o with Some f => mapField f p | None => nilField p end in
  match t with
  | mkDataType _ kind =>
      match kind with
      | DataType_Struct None => Ok (StructType [], [], LOSSLESS, "protobuf message maps to an Arrow struct")
      | DataType_Struct (Some fields) =>
          mapped ← mapOutcome (fun c => mapOpt c (joinPath path (name (metaOf c)))) fields;
          Ok (StructType (map fst mapped), concat (map snd mapped), LOSSLESS,
              "protobuf message maps to an Arrow struct")
      | DataType_List None => nilField (path +:+ "[]")
      | DataType_List (Some (element, length)) =>
          mapped ← mapOpt element (path +:+ "[]");
          listOf path length mapped.1 mapped.2
      | DataType_Map None => nilField (path +:+ ".key")
      | DataType_Map (Some (key, value)) =>
          k ← mapOpt key (path +:+ ".key");
          v ← mapOpt value (path +:+ ".value");
          Ok (MapType (setNullable false (setName "key" k.1)) (setName "value" v.1), k.2 ++ v.2, LOSSLESS,
              "protobuf map maps to an Arrow map with typed key and value children")
      | k => mapLeaf k path
      end
  end.

(** [mapField] on a pointer. *)
Definition mapOpt (field : option Field) (path : string) : Outcome (ArrowField * list MappingDiagnostic) :=
  match field with Some f => mapField f path | None => nilField path end.

Definition datasetMetadata (ds : DatasetSchema) : Metadata :=
  compactMetadata (list_to_map [
    (metadataDescription, ds_description ds);
    ("invariant.dataset", ds_name ds);
    ("invariant.last_field_id", FormatInt (last_field_id ds));
    ("invariant.source_message", source_message ds)]).

Definition Schema (dataset : option DatasetSchema) : list MappingDiagnostic * Outcome ArrowSchema :=
  match dataset with
  | None => ([], Err "arrow: nil dataset schema")
  | Some ds =>
      (fields ← foldW (collect (fun field => mapOpt field (name (metaOf field)))) (ds_fields ds) [];
       mret (NewSchema fields (datasetMetadata ds))) []
  end.
End WithRuntime.

(** [WriteIPC]: the stream writer belongs to arrow-go; [w] is its result on the
    io.Writer, absent when the writer is nil. *)
Definition WriteIPC (w : option (ArrowSchema -> Outcome unit)) (schema : option ArrowSchema) : Outcome unit :=
  match w with
  | None => Err "arrow: nil IPC writer"
  | Some close =>
      match schema with
      | None => Err "arrow: nil IPC schema"
      | Some s => close s
      end
  end.

(** The fields of a mapped tree, in preorder. *)
Fixpoint fieldNodes (f : ArrowField) {struct f} : list ArrowField :=
  f :: typeNodes (Type_ f)
with typeNodes (t : ArrowType) {struct t} : list ArrowField :=
  match t with
  | StructType fs => (fix go (l : list ArrowField) := match l with [] => [] | f :: l => fieldNodes f ++ go l end) fs
  | ListType e | FixedSizeListType _ e => fieldNodes e
  | MapType k v => fieldNodes k ++ fieldNodes v
  | _ => []
  end.
End Arrow.
