(* ===== verification/ArrowSpec.v ===== *)
(** * What the Arrow renderer guarantees

    Every dataset the compiler produces has an Arrow schema; each logical field
    becomes one Arrow field that carries its stable id, and the type parameters
    stay within the bounds of arrow-go's constructors. *)
From S2P Require Import Prelude GoStrings StringFacts Schema WellFormed Compiler Examples CompileSpec.
From S2P Require Import Json Render Arrow.
Import Arrow.

(** ** Metadata *)

Lemma compactMetadata_lookup m k v :
  m !! k = Some v -> v <> "" -> compactMetadata m !! k = Some v.
Proof. intros Hm Hv. unfold compactMetadata. by apply map_lookup_filter_Some. Qed.

Lemma Presence_String_nonempty p : Presence_String p <> "".
Proof. destruct p; try done. apply FormatInt_nonempty. Qed.

Lemma fieldMetadata_lookup m t k v :
  compactMetadata (list_to_map [
    (metadataDescription, description m);
    (metadataLogicalType, logicalTypeName t);
    (metadataOneof, oneof m);
    (metadataPresence, Presence_String (presence m));
    (metadataProtoFullName, proto_full_name m);
    (metadataProtoHasDefault, FormatBool (has_default m));
    (metadataProtoJSONName, json_name m);
    (metadataProtoNumberPath, numberPath (proto_number_path m));
    (metadataProtobufType, GetProtobufType t);
    (metadataStableID, FormatInt (stable_id m));
    (parquetFieldIDMetadata, FormatInt (stable_id m))]) !! k = Some v ->
  k <> metadataProtoDefault -> k <> metadataEnumValues -> k <> metadataEnumClosed ->
  fieldMetadata m t !! k = Some v.
Proof.
  intros Hk Hd Hv Hc. revert Hk. unfold fieldMetadata. cbv zeta.
  match goal with |- context [compactMetadata ?l] => generalize (compactMetadata l) end. intros base Hk.
  destruct (GetEnum t); [rewrite !lookup_insert_ne by done|];
    (destruct (has_default m); [rewrite lookup_insert_ne by done|]); exact Hk.
Qed.

Lemma fieldMetadata_ids m t :
  fieldMetadata m t !! metadataStableID = Some (FormatInt (stable_id m)) /\
  fieldMetadata m t !! parquetFieldIDMetadata = Some (FormatInt (stable_id m)) /\
  fieldMetadata m t !! metadataPresence = Some (Presence_String (presence m)).
Proof.
  split_and!; (apply fieldMetadata_lookup; [|done..]); apply compactMetadata_lookup; try reflexivity;
    auto using FormatInt_nonempty, Presence_String_nonempty.
Qed.

(** ** The Arrow field of a logical field *)

Definition arrowName (f : Field) : string :=
  match synthetic_role (meta f) with
  | SYNTHETIC_ROLE_LIST_ELEMENT => "item"
  | SYNTHETIC_ROLE_MAP_KEY => "key"
  | SYNTHETIC_ROLE_MAP_VALUE => "value"
  | _ => name (meta f)
  end.

(** The members of an Arrow field, its name apart. *)
Record Carries (f : Field) (a : ArrowField) : Prop := mkCarries {
  carries_id : Metadata_ a !! metadataStableID = Some (FormatInt (stable_id (meta f)));
  carries_parquet_id : Metadata_ a !! parquetFieldIDMetadata = Some (FormatInt (stable_id (meta f)));
  carries_presence : Metadata_ a !! metadataPresence = Some (Presence_String (presence (meta f)));
  carries_nullable : Nullable a = nullable (meta f)
}.
Definition Describes (f : Field) (a : ArrowField) : Prop := Carries f a /\ Name a = arrowName f.

(** What mapping a child yields. *)
Record MappedChild (c : option Field * string) (r : ArrowField * list MappingDiagnostic) : Prop := mkMappedChild {
  mc_carries : exists f, c.1 = Some f /\ Carries f r.1 /\ Name r.1 = name (meta f) /\
    Forall2 Describes (childSubFields (childrenOf (GetKind (typ f)))) (typeNodes (Type_ r.1));
  mc_paths : map field_path r.2 = pathsOf c
}.

Lemma fieldNodes_eq f : fieldNodes f = f :: typeNodes (Type_ f).
Proof. by destruct f. Qed.
Lemma typeNodes_struct fs : typeNodes (StructType fs) = concat (map fieldNodes fs).
Proof. simpl. induction fs as [|f fs IH]; [done|]. simpl. by rewrite IH. Qed.

(** A child with its final name. *)
Lemma child_nodes f a n b :
  Carries f a -> Forall2 Describes (childSubFields (childrenOf (GetKind (typ f)))) (typeNodes (Type_ a)) ->
  n = arrowName f -> b = nullable (meta f) ->
  Forall2 Describes (subFields f) (fieldNodes (setNullable b (setName n a))).
Proof.
  intros [Hi Hp Hpr Hn] Hall -> ->. destruct f as [m t]. rewrite subFields_unfold, fieldNodes_eq.
  destruct a as [an at_ ab am]. simpl in *. by repeat constructor.
Qed.
Lemma setNullable_same a : setNullable (Nullable a) a = a.
Proof. by destruct a. Qed.
Lemma setName_same a : setName (Name a) a = a.
Proof. by destruct a. Qed.
Lemma child_nodes_named f a n :
  Carries f a -> Forall2 Describes (childSubFields (childrenOf (GetKind (typ f)))) (typeNodes (Type_ a)) ->
  n = arrowName f -> Forall2 Describes (subFields f) (fieldNodes (setName n a)).
Proof.
  intros Hc Hall Hn. rewrite <- (setNullable_same (setName n a)). apply child_nodes; [done..|].
  destruct a. simpl. apply (carries_nullable _ _ Hc).
Qed.

(** ** Types *)

Section WithRuntime.
Context `{ArrowRuntimeLaws}.

(** How the mapped children make the type of their parent. *)
Definition assemble (k : DataTypeKind) (path : string) (mapped : list (ArrowField * list MappingDiagnostic))
  : Outcome MappedType :=
  let diagnostics := concat (map snd mapped) in
  match k, mapped with
  | DataType_Struct _, _ =>
      Ok (StructType (map fst mapped), diagnostics, LOSSLESS, "protobuf message maps to an Arrow struct")
  | DataType_List l, [(e, _)] => listOf path (GetFixedLength l) e diagnostics
  | DataType_Map _, [(key, _); (value, _)] =>
      Ok (MapType (setNullable false (setName "key" key)) (setName "value" value), diagnostics, LOSSLESS,
          "protobuf map maps to an Arrow map with typed key and value children")
  | _, _ => mapLeaf k path
  end.

Definition mapChild (c : option Field * string) : Outcome (ArrowField * list MappingDiagnostic) := mapOpt c.1 c.2.

Lemma arrow_mapType_unfold t path :
  path <> "" ->
  mapType t path =
  (mapped ← mapOutcome mapChild (childPaths path (kindOf t)); assemble (kindOf t) path mapped).
Proof.
  intros Hp. destruct t as [p [| | |[fs|]|[[e n]|]|[[k v]|]| | | | | |]]; simpl; try done.
  - rewrite mapOutcome_fmap. erewrite mapOutcome_ext; [reflexivity|].
    intros c. unfold mapChild, mapOpt. simpl. rewrite joinPath_nonempty by done. by destruct c.
  - unfold mapChild, mapOpt. simpl. destruct e as [f|]; [|done].
    destruct (mapField f _) as [[nf ds]| | |]; simpl; try done. by rewrite app_nil_r.
  - unfold mapChild, mapOpt. simpl. destruct k as [f|]; [|done].
    destruct (mapField f _) as [[nf ds]| | |]; simpl; try done.
    destruct v as [g|]; [|done]. destruct (mapField g _) as [[nf' ds']| | |]; simpl; try done.
    by rewrite app_nil_r.
Qed.

Definition leafKind (k : DataTypeKind) : Prop :=
  match k with DataType_Struct _ | DataType_List _ | DataType_Map _ => False | _ => True end.

Lemma arrow_mapLeaf_total k path :
  wfKind k -> leafKind k ->
  exists t compat msg, mapLeaf k path = Ok (t, [], compat, msg) /\ typeNodes t = [].
Proof.
  unfold mapLeaf, decimalParameters, fixedByteWidth, maxInt32N. intros Hk Hc.
  destruct k as [|[p|]|[e|]|[fs|]|[[e n]|]|[[k v]|]|[ts|]|[u|]|[j|]|[d|]|[u|]|[n|]];
    simpl in *; try done; try (by eexists _, _, _).
  - destruct p; simpl in *; try done; by eexists _, _, _.
  - destruct (et_closed e); by eexists _, _, _.
  - destruct Hk as [-> ->]. by eexists _, _, _.
  - subst u. by eexists _, _, _.
  - rewrite NewJSONType_utf8. by eexists _, _, _.
  - destruct Hk as [Hp Hs].
    destruct (N.eqb_spec (dec_precision d) 0); [lia|]. destruct (N.ltb_spec 38 (dec_precision d)); [lia|].
    simpl. destruct (N.ltb_spec (dec_precision d) (dec_scale d)); [lia|]. by eexists _, _, _.
  - destruct (N.eqb_spec n 0); [lia|]. destruct (N.ltb_spec 2147483647 n); [lia|]. by eexists _, _, _.
Qed.

(** A synthetic node is never nullable. *)
Lemma key_not_nullable f :
  wfNode f -> synthetic_role (meta f) <> SYNTHETIC_ROLE_PROTO_FIELD -> nullable (meta f) = false.
Proof. unfold wfNode, wfPresence. destruct (presence (meta f)); naive_solver. Qed.

(** The nodes of a struct, from those of its members. *)
Lemma struct_nodes fs g rs :
  Forall (fun f => fieldName f <> "" /\ synthetic_role (meta f) = SYNTHETIC_ROLE_PROTO_FIELD) fs ->
  Forall2 MappedChild (map (fun c => (c, g c)) (map Some fs)) rs ->
  Forall2 Describes (childSubFields (map Some fs)) (typeNodes (StructType (map fst rs))).
Proof.
  intros Hrole. rewrite typeNodes_struct. revert rs.
  induction Hrole as [|f fs [_ Hr] _ IH]; intros rs Hall; inversion Hall as [|? [a ds] ? rs' Hc Hall']; subst; [done|].
  destruct Hc as [(f'&Heq&Hc&Hn&Hch) _]. simpl in *. injection Heq as <-. rewrite childSubFields_cons.
  apply Forall2_app; [|by apply IH]. rewrite <- (setName_same a). apply child_nodes_named; [done..|].
  unfold arrowName. by rewrite Hr.
Qed.

Lemma arrow_assemble_total k path rs :
  wfKind k -> Forall wfTreeOpt (childrenOf k) -> Forall2 MappedChild (childPaths path k) rs ->
  exists mt ds compat msg, assemble k path rs = Ok (mt, ds, compat, msg) /\
    Forall2 Describes (childSubFields (childrenOf k)) (typeNodes mt) /\
    map field_path ds = concat (map pathsOf (childPaths path k)).
Proof.
  intros Hk Hwf Hall.
  assert (map field_path (concat (map snd rs)) = concat (map pathsOf (childPaths path k))) as Hps.
  { clear Hk Hwf. induction Hall as [|c [a ds] l rs [_ Hi] _ IH]; [done|].
    simpl in *. by rewrite map_app, Hi, IH. }
  destruct k as [|p|e|[fs|]|[[e n]|]|[[key v]|]|ts|u|j|d|u|n]; try (by destruct Hk).
  3:{ destruct Hk as (gs&->&_&Hr). eexists _, _, _, _. split; [reflexivity|]. split; [|exact Hps].
      exact (struct_nodes gs (fun c => path +:+ "." +:+ name (metaOf c)) rs Hr Hall). }
  3:{ destruct Hk as [(f&->&Hr) Hn]. inversion Hall as [|? [a ds] ? ? Hc Hnil]; subst. inversion Hnil; subst.
      destruct Hc as [(f'&[= <-]&Hc&_&Hch) _].
      assert (Forall2 Describes (subFields f) (fieldNodes (setName "item" a))) as Hitem.
      { apply child_nodes_named; [done..|]. unfold arrowName. by rewrite Hr. }
      rewrite <- (app_nil_r (subFields f)) in Hitem.
      cbn [assemble GetFixedLength]. unfold listOf, maxInt32N. destruct (N.eqb_spec n 0); simpl negb.
      - eexists _, _, _, _. split; [reflexivity|]. split; [exact Hitem|exact Hps].
      - destruct (N.ltb_spec 2147483647 n); [lia|].
        eexists _, _, _, _. split; [reflexivity|]. split; [exact Hitem|exact Hps]. }
  3:{ destruct Hk as ((f&->&Hr)&(g&->&Hr')&_). inversion Hall as [|? [a ds] ? ? Hc Hall']; subst.
      inversion Hall' as [|? [b ds'] ? ? Hc' Hnil]; subst. inversion Hnil; subst.
      destruct Hc as [(f'&[= <-]&Hc&_&Hch) _]. destruct Hc' as [(g'&[= <-]&Hc'&_&Hch') _].
      eexists _, _, _, _. split; [reflexivity|]. split; [|exact Hps].
      cbn [typeNodes childrenOf GetMapKey GetMapValue]. rewrite !childSubFields_cons.
      apply Forall2_app; [|simpl; rewrite app_nil_r].
      - apply child_nodes; [done..|by unfold arrowName; rewrite Hr|]. symmetry. simpl in Hwf.
        apply list.Forall_cons in Hwf as [(f'&[= <-]&Hf) _]. destruct f as [m t].
        apply key_not_nullable; [by apply wfTree_node|by rewrite Hr].
      - apply child_nodes_named; [done..|]. unfold arrowName. by rewrite Hr'. }
  all: inversion Hall; subst; destruct (arrow_mapLeaf_total _ path Hk I) as (mt&cp&ms&Hm&Hmt);
       exists mt, [], cp, ms; cbn [assemble]; rewrite Hm, Hmt; done.
Qed.

Lemma arrow_mapField_total f :
  wfTree f -> forall path, path <> "" ->
  exists r, mapField f path = Ok r /\ MappedChild (Some f, path) r.
Proof.
  revert f. apply (wfTree_ind (fun f => forall path, path <> "" ->
    exists r, mapField f path = Ok r /\ MappedChild (Some f, path) r)). intros m t Hnode Hch IH path Hp.
  pose proof Hnode as ([ft Ht]&Hk&_). cbn [typ] in Ht. subst t. cbn [typ GetKind] in *.
  destruct (mapOutcome_each mapChild MappedChild (childPaths path (kindOf ft))) as (rs&Hrs&Hall).
  { apply list.Forall_forall. intros [o q] Hc. rewrite <- (childPaths_fst path) in IH.
    rewrite List.Forall_map, list.Forall_forall in IH. destruct (IH _ Hc) as (g&Heq&Hg).
    simpl in Heq. subst o. apply Hg. by apply (childPaths_nonempty path (kindOf ft) (Some g, q)). }
  destruct (arrow_assemble_total (kindOf ft) path rs Hk Hch Hall) as (mt&ds&cp&ms&Has&Hnodes&Hps).
  eexists. split; [|constructor].
  - cbn [mapField]. rewrite arrow_mapType_unfold by done. rewrite Hrs. cbn [mbind outcome_bind]. rewrite Has. reflexivity.
  - exists (mkField m (Some ft)). destruct (fieldMetadata_ids m (Some ft)) as (?&?&?). by repeat constructor.
  - cbn [fst snd pathsOf]. unfold pathsOf. simpl fst. rewrite fieldPaths_unfold. cbn [map GetKind]. rewrite Hps. f_equal.
    unfold fieldDiagnostic. by case_decide.
Qed.

Lemma mapTop_total fs :
  Forall wfTree fs -> Forall (fun f => fieldName f <> "") fs ->
  exists rs, mapOutcome (fun field => mapOpt field (name (metaOf field))) (map Some fs) = Ok rs /\
    Forall2 MappedChild (map (fun c => (c, name (metaOf c))) (map Some fs)) rs.
Proof.
  intros Hwf Hne. rewrite <- (mapOutcome_fmap (fun c => (c, name (metaOf c))) mapChild).
  apply mapOutcome_each. rewrite !List.Forall_map. rewrite list.Forall_forall in *.
  intros f Hf. apply (arrow_mapField_total f (Hwf f Hf) (fieldName f) (Hne f Hf)).
Qed.

(** Every well-formed dataset has an Arrow schema.  Its fields, in preorder,
    are those of the dataset: each carries the stable id (also under the key
    Parquet reads), the presence and the nullability of its logical field, under
    the name Arrow prescribes; and each logical field yields one diagnostic. *)
Theorem arrow_total ds :
  wfDataset ds ->
  exists diagnostics schema, Schema (Some ds) = (diagnostics, Ok schema) /\
    Forall2 Describes (childSubFields (ds_fields ds)) (concat (map fieldNodes (schema_fields schema))) /\
    map field_path diagnostics = datasetPaths ds.
Proof.
  intros Hwf. destruct (wfDataset_split _ Hwf) as (fs&Hfs&Ht&Hn).
  destruct (mapTop_total fs Ht Hn) as (rs&Hrs&Hall).
  exists (concat (map snd rs)), (NewSchema (map fst rs) (datasetMetadata ds)). split_and!.
  - unfold Schema. rewrite Hfs. erewrite W_bind_run; [reflexivity|]. apply foldW_collect. by exists rs.
  - rewrite Hfs, <- typeNodes_struct. destruct Hwf as [(gs&Hgs&_&Hr) _]. rewrite Hfs in Hgs.
    apply (struct_nodes fs (fun c => name (metaOf c)) rs); [|exact Hall].
    apply (inj (fmap Some)) in Hgs as ->. done.
  - unfold datasetPaths. rewrite Hfs. clear -Hall. revert rs Hall.
    induction fs as [|f fs IH]; intros rs Hall; inversion Hall as [|? [a ds'] ? rs' Hc Hall']; subst; [done|].
    simpl in *. rewrite map_app, (IH _ Hall'). f_equal. apply (mc_paths _ _ Hc).
Qed.

(** ** Bounds *)

(** arrow-go's constructors panic on a fixed-size list without a positive int32
    length and on a map with a nullable key; its decimal128 holds 38 digits. *)
Definition inBounds (a : ArrowField) : Prop :=
  match Type_ a with
  | Decimal128Type p s => (1 <= p <= 38 /\ 0 <= s <= p)%Z
  | FixedSizeBinaryType w => (1 <= w <= 2147483647)%Z
  | FixedSizeListType n _ => (1 <= n <= 2147483647)%Z
  | MapType k _ => Nullable k = false
  | _ => True
  end.

Lemma int32_small n : (n <= 2147483647)%N -> int32 n = Z.of_N n.
Proof. intros Hn. unfold int32. rewrite Z.mod_small by lia. lia. Qed.

Definition typeInBounds (t : ArrowType) : Prop :=
  inBounds (mkArrowField "" t false ∅) /\ Forall inBounds (typeNodes t).

Lemma mapLeaf_inBounds k path mt ds cp ms : mapLeaf k path = Ok (mt, ds, cp, ms) -> typeInBounds mt.
Proof.
  unfold mapLeaf, decimalParameters, fixedByteWidth, maxInt32N. intros Hm.
  destruct k as [|p|e|s|l|mp|ts|u|j|d|u|n]; try done.
  - apply bind_Ok in Hm as (t&Ht%wrapErr_Ok&Hm). simplify_eq.
    destruct (GetPrimitiveKind p); simpl in Ht; simplify_eq; by split.
  - destruct (GetEnumClosed e); simplify_eq; by split.
  - case_match; simplify_eq; by split.
  - case_match; simplify_eq; by split.
  - rewrite NewJSONType_utf8 in Hm. simplify_eq. by split.
  - apply bind_Ok in Hm as ([p s]&Ht%wrapErr_Ok&Hm). simplify_eq.
    destruct (isNil d), (N.eqb_spec (GetPrecision d) 0), (N.ltb_spec 38 (GetPrecision d)),
      (N.ltb_spec (GetPrecision d) (GetScale d)); simpl in Ht; simplify_eq.
    split; [|done]. unfold inBounds. simpl. rewrite !int32_small by lia. lia.
  - case_match; simplify_eq; by split.
  - apply bind_Ok in Hm as (w&Ht%wrapErr_Ok&Hm). simplify_eq.
    destruct (isNil n), (N.eqb_spec (GetByteLength n) 0), (N.ltb_spec 2147483647 (GetByteLength n));
      simpl in Ht; simplify_eq. split; [|done]. unfold inBounds. simpl. lia.
Qed.

Lemma inBounds_field n t b m : typeInBounds t <-> Forall inBounds (fieldNodes (mkArrowField n t b m)).
Proof. rewrite fieldNodes_eq, list.Forall_cons. done. Qed.
Lemma inBounds_set a n b : Forall inBounds (fieldNodes a) -> Forall inBounds (fieldNodes (setNullable b (setName n a))).
Proof. destruct a. intros Ha. apply inBounds_field. by apply inBounds_field in Ha. Qed.
Lemma inBounds_setName a n : Forall inBounds (fieldNodes a) -> Forall inBounds (fieldNodes (setName n a)).
Proof. destruct a. intros Ha. apply inBounds_field. by apply inBounds_field in Ha. Qed.

Lemma struct_inBounds rs :
  Forall (fun r : ArrowField * list MappingDiagnostic => Forall inBounds (fieldNodes r.1)) rs ->
  typeInBounds (StructType (map fst rs)).
Proof.
  intros Hrs. split; [done|]. rewrite typeNodes_struct.
  induction Hrs as [|r rs Hr _ IH]; [constructor|]. simpl. by apply list.Forall_app.
Qed.

Lemma listOf_inBounds path n e ds mt ds' cp ms :
  listOf path n e ds = Ok (mt, ds', cp, ms) -> Forall inBounds (fieldNodes e) -> typeInBounds mt.
Proof.
  unfold listOf, maxInt32N. intros Hm He. apply (inBounds_setName _ "item") in He.
  destruct (N.eqb_spec n 0); simpl in Hm; simplify_eq; [by split|].
  destruct (N.ltb_spec 2147483647 n); simplify_eq. split; [|done].
  unfold inBounds. simpl. rewrite int32_small by lia. lia.
Qed.

(** The types a mapped field and its descendants have. *)
Lemma mapField_inBounds f path a ds : mapField f path = Ok (a, ds) -> Forall inBounds (fieldNodes a).
Proof.
  revert f path a ds. apply (Field_tree_ind
    (fun f => forall path a ds, mapField f path = Ok (a, ds) -> Forall inBounds (fieldNodes a))
    (fun o => forall path a ds, mapOpt o path = Ok (a, ds) -> Forall inBounds (fieldNodes a))); [done..|].
  intros m [t|] IH path a ds Hm; [|done]. cbn [mapField] in Hm.
  apply bind_Ok in Hm as ([[[mt ch] cp] ms]&Ht&Hm). simplify_eq. apply inBounds_field.
  destruct t as [p [| | |[fs|]|[[e n]|]|[[k v]|]| | | | | |]]; try discriminate Ht;
    try exact (mapLeaf_inBounds _ _ _ _ _ _ Ht).
  - apply bind_Ok in Ht as (rs&Hrs&Ht). simplify_eq. apply struct_inBounds. cbn in IH.
    apply mapOutcome_Ok in Hrs. clear -Hrs IH.
    induction Hrs as [|o [b ds] l rs Ho _ IHl]; [constructor|]. apply list.Forall_cons in IH as [Hi IH].
    constructor; [by eapply (Hi _ b ds)|by apply IHl].
  - cbn [mapType] in Ht. injection Ht as <- <- <- <-. by apply (struct_inBounds []).
  - apply bind_Ok in Ht as ([b ds]&Hb&Ht). cbn in IH. apply list.Forall_cons in IH as [Hi _].
    eapply listOf_inBounds; [exact Ht|]. by eapply (Hi _ b ds).
  - apply bind_Ok in Ht as ([b ds]&Hb&Ht). apply bind_Ok in Ht as ([c ds']&Hc&Ht). simplify_eq. cbn in IH.
    apply list.Forall_cons in IH as [Hi IH]. apply list.Forall_cons in IH as [Hj _].
    split; [by destruct b|]. cbn [typeNodes]. apply list.Forall_app. split.
    + apply inBounds_set. by eapply (Hi _ b ds).
    + apply inBounds_setName. by eapply (Hj _ c ds').
Qed.

(** Whatever the dataset, an Arrow schema that is produced has decimal
    parameters, byte widths and list lengths within Arrow's bounds and no nullable
    map key, at every depth: no constructor of arrow-go panics. *)
Theorem arrow_in_bounds ds diagnostics schema :
  Schema (Some ds) = (diagnostics, Ok schema) ->
  Forall inBounds (concat (map fieldNodes (schema_fields schema))).
Proof.
  unfold Schema. intros Hs. apply W_bind_Ok in Hs as (fields&d1&Hf&[<- _]%wret_Ok).
  apply foldW_collect in Hf as (rs&Hrs&_&->). simpl. rewrite <- typeNodes_struct.
  apply struct_inBounds. apply mapOutcome_Ok in Hrs. clear -Hrs H0.
  induction Hrs as [|[f|] [a dg] l rs Ho _ IHl]; [constructor| |done]. constructor; [|done].
  by eapply mapField_inBounds.
Qed.
End WithRuntime.

(** ** Witnesses *)

(** A runtime whose JSON extension accepts any storage. *)
#[export] Instance plainArrow : ArrowRuntime := {|
  DataType_String := fun _ => "type";
  NewJSONType := fun storage => inr (JSONType storage)
|}.
#[export] Instance plainArrowLaws : ArrowRuntimeLaws.
Proof. constructor. reflexivity. Qed.

Lemma orderV2_wf : wfDataset orderV2.
Proof.
  apply (Run_wfDataset_of shop2 4 Order2 (Some orderV1) orderV2 shop2_wf Order2_wf).
  vm_compute. reflexivity.
Qed.

Lemma arrow_total_witness :
  exists diagnostics schema, Schema (Some orderV2) = (diagnostics, Ok schema) /\
    Forall2 Describes (childSubFields (ds_fields orderV2)) (concat (map fieldNodes (schema_fields schema))) /\
    map field_path diagnostics = datasetPaths orderV2.
Proof. exact (arrow_total orderV2 orderV2_wf). Defined.

(** A table with one list of exactly three fixed-width keys. *)
Definition keysTable : DatasetSchema :=
  let field nm id role pres t :=
    Some (mkField (mkFieldMeta "m.keys" [1%N] nm id pres false "" "" role false "" nm nm) (Some (mkDataType "" t))) in
  mkDatasetSchema "m" "m" ""
    [field "keys" 1%Z SYNTHETIC_ROLE_PROTO_FIELD PRESENCE_REPEATED
       (DataType_List (Some (field "element" 2%Z SYNTHETIC_ROLE_LIST_ELEMENT PRESENCE_NOT_APPLICABLE
                               (DataType_FixedBytes (Some 16%N)), 3%N)))] 2 [].
Definition keysSchema : ArrowSchema :=
  match (Schema (Some keysTable)).2 with Ok s => s | _ => NewSchema [] ∅ end.

Lemma arrow_in_bounds_witness : Forall inBounds (concat (map fieldNodes (schema_fields keysSchema))).
Proof.
  apply (arrow_in_bounds keysTable (Schema (Some keysTable)).1). vm_compute. reflexivity.
Defined.
