(* ===== verification/Parquet.v ===== *)
(** * The Parquet renderer (src/go/data/parquet/schema.go)

    The dataset is mapped to Arrow, the Arrow schema is made compatible with
    Parquet (which has no duration type), and pqarrow turns it into a Parquet
    schema.  The bridge belongs to arrow-go and is an operation of the class
    [ParquetRuntime]. *)
From S2P Require Import Prelude GoStrings StringFacts Schema WellFormed Compiler Examples CompileSpec Json Render Arrow ArrowSpec.
Import Arrow.

Module Parquet.

(** [pqarrow.ToParquet] with the writer properties of [Schema]: version 2, the
    given root name. *)
Class ParquetRuntime : Type := {
  ParquetSchema : Type;
  ToParquet : ArrowSchema -> string -> string + ParquetSchema
}.

Definition uint32 (z : Z) : N := Z.to_N (z mod 4294967296).

Definition noType {A} (path : string) : Outcome A :=
  Err ("parquet: field " +:+ Quote path +:+ " has no logical type").
Definition invalidBridge {A} (path what : string) : Outcome A :=
  Err ("parquet: field " +:+ Quote path +:+ what).

(** The element of the Arrow list a logical list became. *)
Definition listElement (path : string) (fixedLength : N) (t : ArrowType) : Outcome ArrowField :=
  match t with
  | ListType element =>
      if negb (fixedLength =? 0)%N then invalidBridge path " lost its fixed-cardinality Arrow bridge"
      else Ok element
  | FixedSizeListType len element =>
      if (fixedLength =? 0)%N || negb (uint32 len =? fixedLength)%N
      then invalidBridge path " has an inconsistent fixed-cardinality Arrow bridge"
      else Ok element
  | _ => invalidBridge path " has an invalid Arrow list bridge"
  end.

Fixpoint compatibleArrowField (logical : Field) (path : string) (field : ArrowField) {struct logical}
  : Outcome ArrowField :=
  let compatibleOpt (o : option Field) (p : string) (a : ArrowField) : Outcome ArrowField :=
    match o with Some f => compatibleArrowField f p a | None => noType p end in
  match logical with
  | mkField _ None => noType path
  | mkField _ (Some (mkDataType _ kind)) =>
      match kind with
      | DataType_Duration _ => Ok (setType Int64 field)
      | DataType_Struct None =>
          match Type_ field with
          | StructType [] => Ok (setType (StructType []) field)
          | _ => invalidBridge path " has an invalid Arrow struct bridge"
          end
      | DataType_Struct (Some fields) =>
          match Type_ field with
          | StructType arrowFields =>
              if negb (length arrowFields =? length fields) then
                invalidBridge path " has an invalid Arrow struct bridge"
              else
                children ←
                  (fix go (l : list (option Field)) (arrows : list ArrowField) : Outcome (list ArrowField) :=
                     match l, arrows with
                     | c :: l, a :: arrows =>
                         mapped ← compatibleOpt c (joinPath path (name (metaOf c))) a;
                         rest ← go l arrows;
                         Ok (mapped :: rest)
                     | _, _ => Ok []
                     end) fields arrowFields;
                Ok (setType (StructType children) field)
          | _ => invalidBridge path " has an invalid Arrow struct bridge"
          end
      | DataType_List None =>
          _ ← listElement path 0 (Type_ field);
          noType (path +:+ "[]")
      | DataType_List (Some (logicalElement, fixedLength)) =>
          elementField ← listElement path fixedLength (Type_ field);
          element ← compatibleOpt logicalElement (path +:+ "[]") elementField;
          Ok (setType (if (fixedLength =? 0)%N then ListType element
                       else FixedSizeListType (int32 fixedLength) element) field)
      | DataType_Map m =>
          match Type_ field, m with
          | MapType keyField itemField, Some (logicalKey, logicalValue) =>
              key ← compatibleOpt logicalKey (path +:+ ".key") keyField;
              value ← compatibleOpt logicalValue (path +:+ ".value") itemField;
              Ok (setType (MapType (setNullable false key) value) field)
          | MapType _ _, None => noType (path +:+ ".key")
          | _, _ => invalidBridge path " has an invalid Arrow map bridge"
          end
      | _ => Ok field
      end
  end.

Definition compatibleOpt (logical : option Field) (path : string) (field : ArrowField) : Outcome ArrowField :=
  match logical with Some f => compatibleArrowField f path field | None => noType path end.

Definition compatibleArrowSchema (schema : ArrowSchema) (dataset : DatasetSchema) : Outcome ArrowSchema :=
  if negb (length (schema_fields schema) =? length (ds_fields dataset)) then
    Err "parquet: Arrow bridge field count does not match dataset"
  else
    fields ← mapOutcome (fun p => compatibleOpt p.1 (name (metaOf p.1)) p.2)
               (zip (ds_fields dataset) (schema_fields schema));
    Ok (NewSchema fields (schema_metadata schema)).

(** ** Diagnostics *)

Definition jsonRangeReduction (kind : JsonKind) : string :=
  match kind with
  | JSON_KIND_ANY =>
      "standard protobuf JSON requires each populated Any type URL to resolve to a known message descriptor; embedded Struct, Value, and ListValue numbers must also be finite"
  | JSON_KIND_STRUCT | JSON_KIND_VALUE | JSON_KIND_LIST_VALUE =>
      "standard protobuf JSON requires Struct, Value, and ListValue numbers to be finite; NaN and infinities are not representable"
  | _ => "standard protobuf JSON requires an explicitly supported dynamic JSON kind"
  end.

(** The compatibility and the message of a type. *)
Definition typeDiagnostic (kind : DataTypeKind) : MappingCompatibility * string :=
  match kind with
  | DataType_Struct _ => (LOSSLESS, "protobuf message maps to a Parquet group")
  | DataType_List l =>
      if (GetFixedLength l =? 0)%N then
        (LOSSLESS, "protobuf repeated field maps to Parquet's canonical LIST shape")
      else (RANGE_WIDENED,
        "Arrow validates fixed cardinality " +:+ FormatUint (GetFixedLength l) +:+
        " before writing, but Parquet's physical LIST shape does not enforce element count; generic Parquet writers and readers must retain SchemaBundle validation")
  | DataType_Map _ => (LOSSLESS, "protobuf map maps to Parquet's canonical MAP shape")
  | DataType_Timestamp _ =>
      (RANGE_REDUCED, "Parquet TIMESTAMP(NANOS, adjustedToUTC=true) preserves nanosecond precision but its int64 range is narrower than protobuf Timestamp")
  | DataType_Duration _ =>
      (RANGE_REDUCED, "Parquet has no duration logical type; exact nanoseconds use INT64, whose range is narrower than protobuf Duration")
  | DataType_Json j =>
      (RANGE_REDUCED, "protobuf " +:+ JsonKind_String (GetJsonKind j) +:+
        " is encoded as RFC 8259 text with Parquet's JSON logical annotation; " +:+ jsonRangeReduction (GetJsonKind j))
  | DataType_Decimal d =>
      (REPRESENTATION_CHANGED, "canonical decimal text is decoded into Parquet DECIMAL(" +:+
        FormatUint (GetPrecision d) +:+ ", " +:+ FormatUint (GetScale d) +:+
        "); precision and scale are preserved but the physical representation changes")
  | DataType_Uuid _ =>
      (REPRESENTATION_CHANGED, "canonical UUID text is decoded into Parquet's UUID logical type over FIXED_LEN_BYTE_ARRAY(16)")
  | DataType_FixedBytes f =>
      (LOSSLESS, "exact-width protobuf bytes map losslessly to Parquet FIXED_LEN_BYTE_ARRAY(" +:+
        FormatUint (GetByteLength f) +:+ ")")
  | DataType_Enum e =>
      if GetEnumClosed e then
        (RANGE_WIDENED, "closed protobuf enum numbers map to unconstrained Parquet INT32; the physical type admits undeclared values")
      else (LOSSLESS, "open protobuf enum numbers map losslessly to Parquet INT32")
  | _ => (LOSSLESS, "protobuf value domain maps losslessly to a Parquet logical or physical type")
  end.

Definition fieldDiagnostic (m : FieldMeta) (path : string) (kind : DataTypeKind) : MappingDiagnostic :=
  let '(compat, msg) := typeDiagnostic kind in
  if decide (oneof m = "") then mkDiagnostic path compat msg
  else mkDiagnostic path (if decide (compat = LOSSLESS) then RANGE_WIDENED else compat)
         (msg +:+ "; Parquet does not enforce mutual exclusivity for oneof " +:+ Quote (oneof m)).

Fixpoint fieldDiagnostics (field : Field) (path : string) {struct field} : list MappingDiagnostic :=
  let below (o : option Field) (p : string) : list MappingDiagnostic :=
    match o with Some f => fieldDiagnostics f p | None => [] end in
  match field with
  | mkField _ None => []
  | mkField m (Some (mkDataType _ kind)) =>
      fieldDiagnostic m path kind ::
      match kind with
      | DataType_Struct (Some fields) => concat (map (fun c => below c (joinPath path (name (metaOf c)))) fields)
      | DataType_List (Some (element, _)) => below element (path +:+ "[]")
      | DataType_Map (Some (key, value)) => below key (path +:+ ".key") ++ below value (path +:+ ".value")
      | _ => []
      end
  end.

Definition diagnostics (dataset : DatasetSchema) : list MappingDiagnostic :=
  concat (map (fun o => match o with Some f => fieldDiagnostics f (name (meta f)) | None => [] end)
              (ds_fields dataset)).

(** [Schema] returns no diagnostics with an error. *)
Definition Schema `{ArrowRuntime, ParquetRuntime} (dataset : option DatasetSchema)
  : Outcome (ParquetSchema * list MappingDiagnostic) :=
  match dataset with
  | None => Err "parquet: nil dataset schema"
  | Some ds =>
      arrowSchema ← wrapErr "parquet: build Arrow bridge schema: " (Arrow.Schema (Some ds)).2;
      compatible ← compatibleArrowSchema arrowSchema ds;
      match ToParquet compatible (ds_name ds) with
      | inl e => Err ("parquet: map dataset " +:+ Quote (source_message ds) +:+ ": " +:+ e)
      | inr mapped => Ok (mapped, diagnostics ds)
      end
  end.
End Parquet.

(** ** What the Parquet renderer guarantees

    The bridge accepts every Arrow schema of the Arrow renderer and changes it in
    one way only: durations become exact int64 nanoseconds, at every depth.  The
    diagnostics are one per logical field, and none claims more than Arrow's. *)
Import Arrow Parquet.

(** ** The reference definition: durations become int64 *)
Fixpoint withoutDuration (f : ArrowField) {struct f} : ArrowField :=
  match f with mkArrowField n t b m => mkArrowField n (withoutDurationT t) b m end
with withoutDurationT (t : ArrowType) {struct t} : ArrowType :=
  match t with
  | Duration_ns => Int64
  | StructType fs => StructType (map withoutDuration fs)
  | ListType e => ListType (withoutDuration e)
  | FixedSizeListType n e => FixedSizeListType n (withoutDuration e)
  | MapType k v => MapType (withoutDuration k) (withoutDuration v)
  | t => t
  end.
Definition bridge (schema : ArrowSchema) : ArrowSchema :=
  NewSchema (map withoutDuration (schema_fields schema)) (schema_metadata schema).

Lemma withoutDuration_eq a : withoutDuration a = setType (withoutDurationT (Type_ a)) a.
Proof. by destruct a. Qed.
Lemma setNullable_withoutDuration a : setNullable false (withoutDuration (setNullable false a)) = withoutDuration (setNullable false a).
Proof. by destruct a. Qed.
Lemma Type_setName n a : Type_ (setName n a) = Type_ a.
Proof. by destruct a. Qed.
Lemma Type_setNullable b a : Type_ (setNullable b a) = Type_ a.
Proof. by destruct a. Qed.

Section WithRuntime.
Context `{ArrowRuntimeLaws}.

(** What the bridge does with the Arrow field of a logical field, whatever name
    and nullability its parent gave it. *)
Definition Bridged (o : option Field) (a : ArrowField) : Prop :=
  forall path a', Type_ a' = Type_ a -> compatibleOpt o path a' = Ok (withoutDuration a').

Lemma mapLeaf_plain k path mt ds cp ms :
  mapLeaf k path = Ok (mt, ds, cp, ms) ->
  withoutDurationT mt = match k with DataType_Duration _ => Int64 | _ => mt end.
Proof.
  unfold mapLeaf. intros Hm. destruct k as [|p|e|s|l|mp|ts|u|j|d|u|n]; try done.
  - apply bind_Ok in Hm as (t&Ht%wrapErr_Ok&Hm). simplify_eq.
    destruct (GetPrimitiveKind p); simpl in Ht; by simplify_eq.
  - destruct (GetEnumClosed e); by simplify_eq.
  - case_match; by simplify_eq.
  - case_match; by simplify_eq.
  - rewrite NewJSONType_utf8 in Hm. by simplify_eq.
  - apply bind_Ok in Hm as ([p s]&_&Hm). by simplify_eq.
  - case_match; by simplify_eq.
  - apply bind_Ok in Hm as (w&_&Hm). by simplify_eq.
Qed.

(** The members of a struct, pairwise. *)
Definition compatibleFields (path : string) : list (option Field) -> list ArrowField -> Outcome (list ArrowField) :=
  fix go l arrows :=
  match l, arrows with
  | c :: l, a :: arrows =>
      mapped ← compatibleOpt c (joinPath path (name (metaOf c))) a;
      rest ← go l arrows;
      Ok (mapped :: rest)
  | _, _ => Ok []
  end.

Lemma compatibleFields_bridged path l arrows :
  Forall2 Bridged l arrows -> compatibleFields path l arrows = Ok (map withoutDuration arrows).
Proof. induction 1 as [|o a l arrows Ho _ IH]; [done|]. simpl. rewrite Ho by done. simpl. by rewrite IH. Qed.

Lemma bridged_struct m p fs path a arrows :
  Type_ a = StructType arrows -> Forall2 Bridged fs arrows ->
  compatibleArrowField (mkField m (Some (mkDataType p (DataType_Struct (Some fs))))) path a = Ok (withoutDuration a).
Proof.
  intros Ht Hall. cbn [compatibleArrowField]. rewrite Ht. rewrite <- (Forall2_length Hall), Nat.eqb_refl.
  cbn [negb]. change (compatibleFields path fs arrows ≫= (fun c => Ok (setType (StructType c) a)) = Ok (withoutDuration a)).
  rewrite (compatibleFields_bridged _ _ _ Hall). by rewrite (withoutDuration_eq a), Ht.
Qed.

Lemma listOf_bridged path n e ds mt ds' cp ms m p o path' a :
  listOf path n e ds = Ok (mt, ds', cp, ms) -> Bridged o e -> Type_ a = mt ->
  compatibleArrowField (mkField m (Some (mkDataType p (DataType_List (Some (o, n)))))) path' a = Ok (withoutDuration a).
Proof.
  unfold listOf, maxInt32N. intros Hl He Ht. unfold Bridged, compatibleOpt in He. cbn [compatibleArrowField].
  destruct (N.eqb_spec n 0) as [->|Hn]; cbn [negb] in Hl.
  - injection Hl as <- _ _ _. rewrite Ht. cbn [listElement negb N.eqb mbind outcome_bind].
    rewrite (He _ (setName "item" e)) by apply Type_setName. cbn [mbind outcome_bind].
    by rewrite (withoutDuration_eq a), Ht.
  - destruct (N.ltb_spec 2147483647 n) as [|Hle]; [done|]. injection Hl as <- _ _ _. rewrite Ht.
    unfold listElement. assert (uint32 (int32 n) = n) as Hu.
    { rewrite int32_small by lia. unfold uint32. rewrite Z.mod_small by lia. lia. }
    rewrite Hu, N.eqb_refl, (proj2 (N.eqb_neq n 0)) by done. cbn [negb orb mbind outcome_bind].
    rewrite (He _ (setName "item" e)) by apply Type_setName. cbn [mbind outcome_bind].
    by rewrite (withoutDuration_eq a), Ht.
Qed.

(** The bridge accepts what the Arrow renderer maps a field to. *)
Lemma mapField_bridged f path a ds : mapField f path = Ok (a, ds) -> Bridged (Some f) a.
Proof.
  revert f path a ds. apply (Field_tree_ind
    (fun f => forall path a ds, mapField f path = Ok (a, ds) -> Bridged (Some f) a)
    (fun o => forall path a ds, mapOpt o path = Ok (a, ds) -> Bridged o a)); [done..|].
  intros m [t|] IH path a ds Hm; [|done]. cbn [mapField] in Hm.
  apply bind_Ok in Hm as ([[[mt ch] cp] ms]&Ht&Hm). injection Hm as <- _. intros path' a' Ha'. simpl in Ha'.
  cbn [compatibleOpt].
  destruct t as [p [| | |[fs|]|[[e n]|]|[[k v]|]| | | | | |]]; try discriminate Ht;
    try (pose proof (mapLeaf_plain _ _ _ _ _ _ Ht) as Hp; cbn in Hp; cbn [compatibleArrowField];
         rewrite (withoutDuration_eq a'), Ha', Hp; rewrite <- ?Ha'; by destruct a').
  - apply bind_Ok in Ht as (rs&Hrs&Ht). injection Ht as <- _ _ _. eapply bridged_struct; [exact Ha'|].
    apply mapOutcome_Ok in Hrs. cbn in IH. clear -Hrs IH.
    induction Hrs as [|o [b dg] l rs Ho _ IHl]; [constructor|]. apply list.Forall_cons in IH as [Hi IH].
    constructor; [by eapply (Hi _ b dg)|by apply IHl].
  - injection Ht as <- _ _ _. cbn [compatibleArrowField]. by rewrite (withoutDuration_eq a'), Ha'.
  - apply bind_Ok in Ht as ([b dg]&Hb&Ht). cbn in IH. apply list.Forall_cons in IH as [Hi _].
    eapply listOf_bridged; [exact Ht| |exact Ha']. by eapply (Hi _ b dg).
  - apply bind_Ok in Ht as ([b dg]&Hb&Ht). apply bind_Ok in Ht as ([c dg']&Hc&Ht). injection Ht as <- _ _ _.
    cbn in IH. apply list.Forall_cons in IH as [Hi IH]. apply list.Forall_cons in IH as [Hj _].
    specialize (Hi _ b dg Hb (path' +:+ ".key") (setNullable false (setName "key" b))).
    rewrite Type_setNullable, Type_setName in Hi.
    specialize (Hj _ c dg' Hc (path' +:+ ".value") (setName "value" c)). rewrite Type_setName in Hj.
    unfold compatibleOpt in Hi, Hj. cbn [compatibleArrowField]. rewrite Ha'. cbn [fst].
    rewrite Hi by done. cbn [mbind outcome_bind]. rewrite Hj by done. cbn [mbind outcome_bind].
    by rewrite setNullable_withoutDuration, (withoutDuration_eq a'), Ha'.
Qed.

Lemma compatibleArrowSchema_exact ds dg schema :
  Arrow.Schema (Some ds) = (dg, Ok schema) -> compatibleArrowSchema schema ds = Ok (bridge schema).
Proof.
  unfold Arrow.Schema. intros Hs. apply W_bind_Ok in Hs as (fields&d1&Hf&[<- _]%wret_Ok).
  apply foldW_collect in Hf as (rs&Hrs&_&->). unfold compatibleArrowSchema, bridge. cbn [schema_fields schema_metadata app].
  pose proof (mapOutcome_length _ _ _ Hrs) as Hlen. rewrite length_map, Hlen, Nat.eqb_refl. cbn [negb].
  apply mapOutcome_Ok in Hrs.
  assert (mapOutcome (fun p => compatibleOpt p.1 (name (metaOf p.1)) p.2) (zip (ds_fields ds) (map fst rs)) =
          Ok (map withoutDuration (map fst rs))) as ->; [|done].
  clear Hlen. induction Hrs as [|[f|] [a dg'] l rs Ho _ IH]; [done| |done]. simpl.
  apply mapField_bridged in Ho. unfold Bridged, compatibleOpt in Ho. rewrite Ho by done. simpl. by rewrite IH.
Qed.

(** C14: the bridge accepts every Arrow schema the Arrow renderer produces, and its
    result is that schema with every duration, at any depth, replaced by int64;
    names, nullability, ids and metadata are untouched. *)
Theorem parquet_bridge_exact ds dg schema :
  Arrow.Schema (Some ds) = (dg, Ok schema) -> compatibleArrowSchema schema ds = Ok (bridge schema).
Proof. apply compatibleArrowSchema_exact. Qed.

(** ** Diagnostics *)

(** The Parquet diagnostic of a field is at its Arrow path and is lossless only
    where the Arrow mapping, which it goes through, is lossless. *)
Definition NoStronger (arrow parquet : MappingDiagnostic) : Prop :=
  field_path parquet = field_path arrow /\ (compatibility parquet = LOSSLESS -> compatibility arrow = LOSSLESS).

Definition diagnosticsOf (c : option Field * string) : list MappingDiagnostic :=
  match c.1 with Some f => fieldDiagnostics f c.2 | None => [] end.

Lemma fieldDiagnostics_unfold m t path :
  path <> "" ->
  fieldDiagnostics (mkField m (Some t)) path =
  Parquet.fieldDiagnostic m path (kindOf t) :: concat (map diagnosticsOf (childPaths path (kindOf t))).
Proof.
  intros Hp. destruct t as [p [| | |[fs|]|[[e n]|]|[[k v]|]| | | | | |]]; cbn [fieldDiagnostics kindOf]; f_equal; try done.
  - cbn [childPaths GetStructFields default]. rewrite map_map. f_equal. apply map_ext.
    intros c. unfold diagnosticsOf. cbn [fst snd]. by rewrite joinPath_nonempty.
  - unfold diagnosticsOf. simpl. by rewrite app_nil_r.
  - unfold diagnosticsOf. simpl. by rewrite app_nil_r.
Qed.

Lemma leaf_noStronger m k path path' mt ds cp ms :
  mapLeaf k path' = Ok (mt, ds, cp, ms) ->
  ds = [] /\ NoStronger (Arrow.fieldDiagnostic m path cp ms) (Parquet.fieldDiagnostic m path k).
Proof.
  unfold mapLeaf. intros Hm. assert (ds = [] /\ (typeDiagnostic k).1 = cp) as [-> Hc].
  { destruct k as [|p|e|s|l|mp|ts|u|j|d|u|n]; try done; cbn [typeDiagnostic];
      try (apply bind_Ok in Hm as (?&?&Hm)); repeat case_match; by simplify_eq. }
  split; [done|]. unfold NoStronger, Arrow.fieldDiagnostic, Parquet.fieldDiagnostic.
  destruct (typeDiagnostic k) as [cp' ms']. simpl in Hc. subst cp'. repeat case_decide; by simpl.
Qed.

(** A type with children: Arrow's mapping is lossless. *)
Lemma lossless_noStronger m k path ms :
  NoStronger (Arrow.fieldDiagnostic m path LOSSLESS ms) (Parquet.fieldDiagnostic m path k).
Proof.
  unfold NoStronger, Arrow.fieldDiagnostic, Parquet.fieldDiagnostic.
  destruct (typeDiagnostic k) as [cp' ms']. repeat case_decide; by simpl.
Qed.

Lemma children_noStronger l rs :
  Forall2 (fun c r => Forall2 NoStronger r.2 (diagnosticsOf c)) l rs ->
  Forall2 NoStronger (concat (map (snd (A:=ArrowField)) rs)) (concat (map diagnosticsOf l)).
Proof. induction 1 as [|c r l rs Hc _ IH]; [constructor|]. by apply Forall2_app. Qed.

(** Assembling a type keeps the diagnostics of its children. *)
Lemma assemble_noStronger m k path rs mt ds cp ms :
  assemble k path rs = Ok (mt, ds, cp, ms) ->
  Forall2 (fun c r => Forall2 NoStronger r.2 (diagnosticsOf c)) (childPaths path k) rs ->
  Forall2 NoStronger (Arrow.fieldDiagnostic m path cp ms :: ds)
    (Parquet.fieldDiagnostic m path k :: concat (map diagnosticsOf (childPaths path k))).
Proof.
  intros Ha Hall. pose proof (children_noStronger _ _ Hall) as Hcat.
  destruct k as [|p|e|s|l|mp|ts|u|j|d|u|n]; cbn [assemble] in Ha.
  all: try (destruct (leaf_noStronger m _ path _ _ _ _ _ Ha) as [-> Hn]; constructor; [exact Hn|constructor]).
  - injection Ha as <- <- <- <-. constructor; [apply lossless_noStronger|done].
  - inversion Hall as [|? [a dg] ? ? _ Hnil]; subst. inversion Hnil; subst. unfold listOf in Ha.
    repeat case_match; simplify_eq; (constructor; [apply lossless_noStronger|done]).
  - inversion Hall as [|? [a dg] ? ? _ Hall']; subst. inversion Hall' as [|? [b dg'] ? ? _ Hnil]; subst.
    inversion Hnil; subst. injection Ha as <- <- <- <-. constructor; [apply lossless_noStronger|done].
Qed.

Lemma mapField_noStronger f path a dg :
  path <> "" -> mapField f path = Ok (a, dg) -> Forall2 NoStronger dg (fieldDiagnostics f path).
Proof.
  revert f path a dg. apply (Field_tree_ind
    (fun f => forall path a dg, path <> "" -> mapField f path = Ok (a, dg) ->
       Forall2 NoStronger dg (fieldDiagnostics f path))
    (fun o => forall path a dg, path <> "" -> mapOpt o path = Ok (a, dg) ->
       Forall2 NoStronger dg (diagnosticsOf (o, path)))); [done..|].
  intros m [t|] IH path a dg Hp Hm; [|done]. cbn [mapField GetKind] in *.
  rewrite arrow_mapType_unfold in Hm by done. apply bind_Ok in Hm as ([[[mt ch] cp] ms]&Ht&Hm).
  injection Hm as _ <-. apply bind_Ok in Ht as (rs&Hrs&Ha). rewrite fieldDiagnostics_unfold by done.
  eapply assemble_noStronger; [exact Ha|]. apply mapOutcome_Ok in Hrs.
  rewrite <- (childPaths_fst path) in IH. pose proof (childPaths_nonempty path (kindOf t)) as Hne.
  clear -Hrs IH Hne. induction Hrs as [|[o q] [b dg] l rs Ho _ IHl]; [constructor|].
  cbn [map] in IH. apply list.Forall_cons in IH as [Hi IH]. constructor.
  - apply (Hi q b dg); [|exact Ho]. apply (Hne (o, q)). left.
  - apply IHl; [exact IH|]. intros c Hc. apply Hne. by right.
Qed.

Lemma diagnostics_paths f path :
  wfTree f -> path <> "" -> map field_path (fieldDiagnostics f path) = fieldPaths path f.
Proof.
  intros Hwf Hp. destruct (arrow_mapField_total f Hwf path Hp) as ([a dg]&Hm&Hmc).
  pose proof (mapField_noStronger f path a dg Hp Hm) as Hall. pose proof (mc_paths _ _ Hmc) as Hps.
  unfold pathsOf in Hps. simpl in Hps. rewrite <- Hps. clear -Hall.
  induction Hall as [|x y l l' [Hxy _] _ IH]; [done|]. simpl. by rewrite Hxy, IH.
Qed.

(** The Parquet renderer fails on a well-formed dataset only when pqarrow
    refuses the bridged Arrow schema.  Its diagnostics are one per logical field,
    in preorder, and a field is reported lossless only where Arrow, which carries
    the values, reports it lossless. *)
Theorem parquet_total `{ParquetRuntime} ds :
  wfDataset ds ->
  exists arrowDiagnostics schema, Arrow.Schema (Some ds) = (arrowDiagnostics, Ok schema) /\
    Parquet.Schema (Some ds) =
      match ToParquet (bridge schema) (ds_name ds) with
      | inl e => Err ("parquet: map dataset " +:+ Quote (source_message ds) +:+ ": " +:+ e)
      | inr mapped => Ok (mapped, diagnostics ds)
      end /\
    Forall2 NoStronger arrowDiagnostics (diagnostics ds) /\
    map field_path (diagnostics ds) = datasetPaths ds.
Proof.
  intros Hwf. destruct (wfDataset_split _ Hwf) as (fs&Hfs&Ht&Hn).
  destruct (mapTop_total fs Ht Hn) as (rs&Hrs&_).
  assert (Arrow.Schema (Some ds) = (concat (map snd rs), Ok (NewSchema (map fst rs) (datasetMetadata ds)))) as Hs.
  { unfold Arrow.Schema. rewrite Hfs. erewrite W_bind_run; [reflexivity|]. apply foldW_collect. by exists rs. }
  eexists _, _. split; [exact Hs|]. split_and!.
  - unfold Schema. rewrite Hs. cbn [snd wrapErr mbind outcome_bind].
    by rewrite (compatibleArrowSchema_exact _ _ _ Hs).
  - unfold diagnostics. rewrite Hfs. apply mapOutcome_Ok in Hrs. clear -Hrs Hn.
    revert rs Hrs. induction Hn as [|f fs Hf _ IH]; intros rs Hrs; inversion Hrs as [|? [a dg] ? rs' Ho Hrs']; subst; [constructor|].
    simpl. apply Forall2_app; [|by apply IH]. by eapply (mapField_noStronger f _ a dg).
  - unfold diagnostics, datasetPaths. rewrite Hfs. clear -Ht Hn H0. induction Ht as [|f fs Hf _ IH]; [done|].
    apply list.Forall_cons in Hn as [Hne Hn]. simpl. rewrite map_app, IH by done. f_equal. by apply diagnostics_paths.
Qed.
End WithRuntime.

(** ** Witnesses *)

(** A duration inside a list: the bridge replaces it. *)
Definition elapsedTable : DatasetSchema :=
  let field nm id role pres t :=
    Some (mkField (mkFieldMeta "m.laps" [1%N] nm id pres false "" "" role false "" nm nm) (Some (mkDataType "" t))) in
  mkDatasetSchema "m" "m" ""
    [field "laps" 1%Z SYNTHETIC_ROLE_PROTO_FIELD PRESENCE_REPEATED
       (DataType_List (Some (field "element" 2%Z SYNTHETIC_ROLE_LIST_ELEMENT PRESENCE_NOT_APPLICABLE
                               (DataType_Duration (Some TIME_UNIT_NANOSECOND)), 0%N)))] 2 [].
Definition elapsedSchema : ArrowSchema :=
  match (Arrow.Schema (Some elapsedTable)).2 with Ok s => s | _ => NewSchema [] ∅ end.

Lemma parquet_bridge_exact_witness :
  compatibleArrowSchema elapsedSchema elapsedTable = Ok (bridge elapsedSchema).
Proof.
  apply (parquet_bridge_exact elapsedTable (Arrow.Schema (Some elapsedTable)).1). vm_compute. reflexivity.
Defined.

(** A bridge that keeps the Arrow schema and the root name. *)
#[export] Instance plainParquet : ParquetRuntime := {|
  ParquetSchema := ArrowSchema * string;
  ToParquet := fun schema root => inr (schema, root)
|}.
Lemma parquet_total_witness :
  exists arrowDiagnostics schema, Arrow.Schema (Some orderV2) = (arrowDiagnostics, Ok schema) /\
    Parquet.Schema (Some orderV2) =
      match ToParquet (bridge schema) (ds_name orderV2) with
      | inl e => Err ("parquet: map dataset " +:+ Quote (source_message orderV2) +:+ ": " +:+ e)
      | inr mapped => Ok (mapped, diagnostics orderV2)
      end /\
    Forall2 NoStronger arrowDiagnostics (diagnostics orderV2) /\
    map field_path (diagnostics orderV2) = datasetPaths orderV2.
Proof. exact (parquet_total orderV2 orderV2_wf). Defined.
