(* ===== verification/ClickHouse.v ===== *)
(** * The ClickHouse renderer (src/go/data/clickhouse/schema.go)

    A dataset becomes column declarations and CHECK constraints.  A constraint is
    built bottom-up: it mentions the value it constrains through a placeholder
    between NUL bytes, which each enclosing scope replaces by its own expression
    for the value.  A failing step still reports diagnostics, so the mapping
    functions return a [Result]: the diagnostics and an outcome. *)
From S2P Require Import Prelude GoStrings StringFacts Schema WellFormed Render.

Module ClickHouse.

Definition maxFixedStringBytes : N := 256.
Definition reservedNamePrefix : string := "__invariant_".
Definition constraintValuePlaceholder : string :=
  String NUL ("invariant-value" +:+ str1 NUL).
Definition projectionValuePlaceholder : string := "{value}".

(** ** Data *)

Record Column : Type := mkColumn {
  Name : string;
  Type_ : string;
  DefaultExpression : string;
  Comment : string;
  FieldPath : string;
  StableID : Z;
  Synthetic : bool
}.
Record Constraint : Type := mkConstraint {
  con_Name : string;
  con_Expression : string;
  con_FieldPath : string
}.
Record TableSchema : Type := mkTableSchema {
  Dataset : string;
  SourceMessage : string;
  Description : string;
  Columns : list Column;
  Constraints : list Constraint
}.

Record fieldDeclaration : Type := mkDeclaration {
  fd_name : string;
  fd_sqlType : string;
  fd_defaultExpression : string;
  fd_comment : string;
  fd_fieldPath : string;
  fd_stableID : Z;
  fd_synthetic : bool
}.
Record validation : Type := mkValidation {
  v_fieldPath : string;
  v_kind : string;
  v_expression : string
}.
(** The diagnostics of a [mappedType] are those of the [Result] that holds it. *)
Record mappedType : Type := mkMappedType {
  mt_sqlType : string;
  mt_compatibility : MappingCompatibility;
  mt_message : string;
  mt_validations : list validation;
  mt_composite : bool
}.
Record mappedField : Type := mkMappedField {
  mf_sqlType : string;
  mf_defaultExpression : string;
  mf_validations : list validation
}.

Definition Result (A : Type) : Type := list MappingDiagnostic * Outcome A.

(** ** Text *)

Definition validateIdentifier (value : string) : Outcome unit :=
  if decide (value = "") then Err "identifier must not be empty"
  else match runes value with
       | None => Err "identifier is not valid UTF-8"
       | Some rs => failIf (existsb (fun r => IsControl r.1) rs) "identifier contains a control character"
       end.

Definition validateText (value : string) : Outcome unit :=
  match runes value with
  | None => Err "text is not valid UTF-8"
  | Some rs =>
      failIf (existsb (fun r => IsControl r.1 && negb (r.1 =? 10)%N && negb (r.1 =? 13)%N && negb (r.1 =? 9)%N) rs)
        "text contains an unsupported control character"
  end.

Definition escapeIdentifier (c : ascii) : string :=
  if Ascii.eqb c BACKSLASH then String BACKSLASH (str1 BACKSLASH)
  else if Ascii.eqb c BACKTICK then String BACKSLASH (str1 BACKTICK)
  else str1 c.
Definition quoteIdentifier (value : string) : string :=
  str1 BACKTICK +:+ mapBytes escapeIdentifier value +:+ str1 BACKTICK.

Definition escapeLiteral (c : ascii) : string :=
  if Ascii.eqb c BACKSLASH then String BACKSLASH (str1 BACKSLASH)
  else if Ascii.eqb c SQUOTE then String BACKSLASH (str1 SQUOTE)
  else if Ascii.eqb c LF then String BACKSLASH "n"
  else if Ascii.eqb c CR then String BACKSLASH "r"
  else if Ascii.eqb c TAB then String BACKSLASH "t"
  else str1 c.
Definition quoteLiteral (value : string) : string :=
  str1 SQUOTE +:+ mapBytes escapeLiteral value +:+ str1 SQUOTE.

(** ** Expressions *)

Definition replaceValue (expression replacement : string) : string :=
  ReplaceAll expression constraintValuePlaceholder replacement.
Definition tupleElementExpression (value nm : string) : string :=
  "tupleElement(" +:+ value +:+ ", " +:+ quoteLiteral nm +:+ ")".
Definition scopeElementExpression (nm : string) (topLevel : bool) : string :=
  if topLevel then quoteIdentifier nm else tupleElementExpression constraintValuePlaceholder nm.
Definition oneofCaseName (nm : string) : string := reservedNamePrefix +:+ "oneof_" +:+ nm +:+ "_case".

(** A validation with its expression changed. *)
Definition mapExpression (g : string -> string) (v : validation) : validation :=
  mkValidation (v_fieldPath v) (v_kind v) (g (v_expression v)).

Definition unsupportedDiagnostic (path message : string) : MappingDiagnostic :=
  mkDiagnostic (if decide (path = "") then "<dataset>" else path) UNSUPPORTED message.

(** An error with its own diagnostic. *)
Definition unsupported {A} (path message error : string) : Result A :=
  ([unsupportedDiagnostic path message], Err error).
Definition unsupportedField {A} (path message : string) : Result A :=
  unsupported path message ("clickhouse: field " +:+ Quote path +:+ ": " +:+ message).

(** ** Types without children *)

Definition mapPrimitive (kind : PrimitiveKind) : Outcome (string * string) :=
  match kind with
  | PRIMITIVE_KIND_DOUBLE => Ok ("Float64", "protobuf double maps losslessly to ClickHouse Float64")
  | PRIMITIVE_KIND_FLOAT => Ok ("Float32", "protobuf float maps losslessly to ClickHouse Float32")
  | PRIMITIVE_KIND_INT64 | PRIMITIVE_KIND_SFIXED64 | PRIMITIVE_KIND_SINT64 =>
      Ok ("Int64", "protobuf signed 64-bit integer maps losslessly to ClickHouse Int64")
  | PRIMITIVE_KIND_UINT64 | PRIMITIVE_KIND_FIXED64 =>
      Ok ("UInt64", "protobuf unsigned 64-bit integer maps losslessly to ClickHouse UInt64")
  | PRIMITIVE_KIND_INT32 | PRIMITIVE_KIND_SFIXED32 | PRIMITIVE_KIND_SINT32 =>
      Ok ("Int32", "protobuf signed 32-bit integer maps losslessly to ClickHouse Int32")
  | PRIMITIVE_KIND_FIXED32 | PRIMITIVE_KIND_UINT32 =>
      Ok ("UInt32", "protobuf unsigned 32-bit integer maps losslessly to ClickHouse UInt32")
  | PRIMITIVE_KIND_BOOL => Ok ("Bool", "protobuf bool maps losslessly to ClickHouse Bool")
  | PRIMITIVE_KIND_STRING =>
      Ok ("String", "protobuf UTF-8 string maps to ClickHouse String with a generated UTF-8 CHECK")
  | PRIMITIVE_KIND_BYTES => Ok ("String", "protobuf bytes map losslessly to binary-safe ClickHouse String")
  | _ => Err ("unsupported primitive kind " +:+ PrimitiveKind_String kind)
  end.

Definition implicitCapable (t : option DataType) : bool :=
  match GetKind t with DataType_Primitive _ | DataType_Enum _ => true | _ => false end.

Definition implicitDefault (t : option DataType) : string :=
  if negb (isNil (GetEnum t)) then "0"
  else match GetPrimitiveKind (GetPrimitive t) with
       | PRIMITIVE_KIND_BOOL => "false"
       | PRIMITIVE_KIND_STRING | PRIMITIVE_KIND_BYTES => "''"
       | _ => "0"
       end.

Definition preserveStrongerCompatibility (compat : MappingCompatibility) : MappingCompatibility :=
  if decide (compat = LOSSLESS) then REPRESENTATION_CHANGED else compat.

Definition decimalParameters (decimal : option DecimalType) : Outcome (N * N) :=
  if isNil decimal || (GetPrecision decimal =? 0)%N || (38 <? GetPrecision decimal)%N
  then Err "decimal precision must be between 1 and 38"
  else if (GetPrecision decimal <? GetScale decimal)%N then Err "decimal scale must not exceed precision"
  else Ok (GetPrecision decimal, GetScale decimal).

Definition fixedByteWidth (fixed : option N) : Outcome N :=
  if isNil fixed || (GetByteLength fixed =? 0)%N then Err "fixed byte length must be positive"
  else if (maxFixedStringBytes <? GetByteLength fixed)%N then
    Err ("fixed byte length " +:+ FormatUint (GetByteLength fixed) +:+
         " exceeds ClickHouse's conventional FixedString limit of " +:+ FormatUint maxFixedStringBytes +:+
         "; larger widths require allow_suspicious_fixed_string_types and are not emitted")
  else Ok (GetByteLength fixed).

Definition jsonRangeReduction (kind : JsonKind) : string :=
  match kind with
  | JSON_KIND_ANY =>
      "standard ProtoJSON requires each populated Any type URL to resolve to a known message descriptor; embedded dynamic numbers must be finite"
  | JSON_KIND_STRUCT | JSON_KIND_VALUE | JSON_KIND_LIST_VALUE =>
      "standard ProtoJSON requires dynamic numbers to be finite; NaN and infinities are not representable"
  | _ => "standard ProtoJSON requires an explicitly supported dynamic JSON kind"
  end.

(** The numbers of a closed enumeration, without repetition, ascending. *)
Fixpoint enumNumbers (values : list (option EnumValue)) (numbers : list Z) : Outcome (list Z) :=
  match values with
  | [] => Ok (merge_sort Z.le numbers)
  | None :: _ => Err "enum contains a nil value"
  | Some v :: values =>
      enumNumbers values (if decide (ev_number v ∈ numbers) then numbers else numbers ++ [ev_number v])
  end.

Definition enumMessage : string :=
  "protobuf enum numeric values map losslessly to ClickHouse Int32; symbols and aliases remain canonical in SchemaBundle".

Definition mapEnum (e : option EnumType) (path : string) : Outcome mappedType :=
  if isNil e || (length (GetEnumValues e) =? 0) then Err "enum has no declared values"
  else if GetEnumClosed e then
    numbers ← enumNumbers (GetEnumValues e) [];
    Ok (mkMappedType "Int32" LOSSLESS (enumMessage +:+ "; a CHECK retains the closed numeric domain")
          [mkValidation path "closed_enum"
             (constraintValuePlaceholder +:+ " IN (" +:+ Join (map FormatInt numbers) ", " +:+ ")")] false)
  else Ok (mkMappedType "Int32" LOSSLESS enumMessage [] false).

Definition mapLeaf (kind : DataTypeKind) (path : string) : Outcome mappedType :=
  match kind with
  | DataType_Primitive p =>
      r ← mapPrimitive (GetPrimitiveKind p);
      Ok (mkMappedType r.1 LOSSLESS r.2
            (if decide (GetPrimitiveKind p = PRIMITIVE_KIND_STRING)
             then [mkValidation path "utf8" ("isValidUTF8(" +:+ constraintValuePlaceholder +:+ ")")] else []) false)
  | DataType_Enum e => mapEnum e path
  | DataType_Timestamp ts =>
      if isNil ts || negb (bool_decide (GetTimestampUnit ts = TIME_UNIT_NANOSECOND))
         || negb (String.eqb (GetTimezone ts) "UTC")
      then Err "timestamp must use nanoseconds and UTC"
      else Ok (mkMappedType "DateTime64(9, 'UTC')" RANGE_REDUCED
                 "ClickHouse DateTime64(9, 'UTC') preserves UTC nanoseconds but only covers approximately 1677-09-21 through 2262-04-11, narrower than protobuf Timestamp" [] false)
  | DataType_Duration u =>
      if isNil u || negb (bool_decide (GetDurationUnit u = TIME_UNIT_NANOSECOND))
      then Err "duration must use nanoseconds"
      else Ok (mkMappedType "Int64" RANGE_REDUCED
                 "ClickHouse has no duration type; exact nanoseconds use Int64, whose range is narrower than protobuf Duration" [] false)
  | DataType_Json j =>
      if isNil j || bool_decide (GetJsonKind j = JSON_KIND_UNSPECIFIED)
      then Err "invalid protobuf JSON logical type"
      else Ok (mkMappedType "String" RANGE_REDUCED
                 ("protobuf " +:+ JsonKind_String (GetJsonKind j) +:+
                  " is encoded as canonical ProtoJSON text in ClickHouse String; " +:+ jsonRangeReduction (GetJsonKind j))
                 [mkValidation path "json" ("isValidJSON(" +:+ constraintValuePlaceholder +:+ ")")] false)
  | DataType_Decimal d =>
      ps ← decimalParameters d;
      let parameters := "(" +:+ FormatUint ps.1 +:+ ", " +:+ FormatUint ps.2 +:+ ")" in
      Ok (mkMappedType ("Decimal" +:+ parameters) REPRESENTATION_CHANGED
            ("canonical decimal text is decoded into ClickHouse Decimal" +:+ parameters +:+
             "; precision and scale are preserved") [] false)
  | DataType_Uuid u =>
      if isNil u then Err "invalid UUID logical type"
      else Ok (mkMappedType "UUID" REPRESENTATION_CHANGED "canonical UUID text is decoded into ClickHouse UUID" [] false)
  | DataType_FixedBytes f =>
      width ← fixedByteWidth f;
      Ok (mkMappedType ("FixedString(" +:+ FormatUint width +:+ ")") REPRESENTATION_CHANGED
            ("exact-width protobuf bytes map to ClickHouse FixedString(" +:+ FormatUint width +:+
             "); publishers must validate exactly " +:+ FormatUint width +:+
             " bytes before insertion because ClickHouse pads shorter input with NUL bytes") [] false)
  | _ => Err "unspecified logical type"
  end.

(** ** Types with children *)

Definition unitValidation (path value : string) : validation :=
  mkValidation path "unit" (value +:+ " = false").

Definition structType (path : string) (scope : list fieldDeclaration * list validation) : mappedType :=
  let '(fields, validations) := scope in
  let elements fs := map (fun f => quoteIdentifier (fd_name f) +:+ " " +:+ fd_sqlType f) fs in
  match fields with
  | [] =>
      mkMappedType ("Tuple(" +:+ Join (elements [mkDeclaration "__invariant_unit" "Bool" "" "" path 0 true]) ", " +:+ ")")
        REPRESENTATION_CHANGED
        "empty protobuf message uses a constrained synthetic Bool because ClickHouse has no empty Tuple"
        (validations ++ [unitValidation path (tupleElementExpression constraintValuePlaceholder "__invariant_unit")])
        true
  | _ =>
      mkMappedType ("Tuple(" +:+ Join (elements fields) ", " +:+ ")") LOSSLESS
        "protobuf message maps to a ClickHouse named Tuple" validations true
  end.

(** A constraint on every element of an array expression. *)
Definition forAll (variable array expression : string) : string :=
  "arrayAll(" +:+ variable +:+ " -> (" +:+ replaceValue expression variable +:+ "), " +:+ array +:+ ")".

Definition listType (path : string) (fixedLength : N) (element : mappedField) : mappedType :=
  mkMappedType ("Array(" +:+ mf_sqlType element +:+ ")") LOSSLESS
    (if negb (fixedLength =? 0)%N then
       "fixed-cardinality protobuf repeated field maps losslessly to ClickHouse Array(T) with an exact length CHECK of " +:+
       FormatUint fixedLength
     else "protobuf repeated field maps losslessly to ClickHouse Array(T)")
    ((if negb (fixedLength =? 0)%N then
        [mkValidation path "fixed_list"
           ("length(" +:+ constraintValuePlaceholder +:+ ") = " +:+ FormatUint fixedLength)]
      else []) ++
     map (mapExpression (forAll "element" constraintValuePlaceholder)) (mf_validations element))
    true.

Definition mapType_ (path : string) (key value : mappedField) : Outcome mappedType :=
  if HasPrefix (mf_sqlType key) "Nullable(" then Err "ClickHouse Map keys cannot be nullable"
  else
    let keys := "mapKeys(" +:+ constraintValuePlaceholder +:+ ")" in
    Ok (mkMappedType ("Map(" +:+ mf_sqlType key +:+ ", " +:+ mf_sqlType value +:+ ")") REPRESENTATION_CHANGED
          "protobuf map maps to ClickHouse Map(K, V); a recursive CHECK rejects ClickHouse's otherwise-permitted duplicate keys"
          (mkValidation path "map_keys" ("length(" +:+ keys +:+ ") = length(arrayDistinct(" +:+ keys +:+ "))")
           :: map (mapExpression (forAll "key" keys)) (mf_validations key) ++
           map (mapExpression (forAll "value" ("mapValues(" +:+ constraintValuePlaceholder +:+ ")")))
             (mf_validations value))
          true).

(** ** Presence *)

Definition presentTuple (sqlType : string) : string := "Tuple(`present` Bool, `value` " +:+ sqlType +:+ ")".
Definition present : string := tupleElementExpression constraintValuePlaceholder "present".

(** A constraint on the value of a presence tuple, and on a nullable value. *)
Definition guardPresent (expression : string) : string :=
  "NOT " +:+ present +:+ " OR (" +:+
  replaceValue expression (tupleElementExpression constraintValuePlaceholder "value") +:+ ")".
Definition guardNull (expression : string) : string :=
  "isNull(" +:+ constraintValuePlaceholder +:+ ") OR (" +:+
  replaceValue expression ("assumeNotNull(" +:+ constraintValuePlaceholder +:+ ")") +:+ ")".

(** The presence of a field: its physical type, default, constraints,
    compatibility and message. *)
Definition applyPresence (m : FieldMeta) (t : option DataType) (path : string) (mapped : mappedType)
  : Outcome (mappedField * MappingCompatibility * string) :=
  let sql := mt_sqlType mapped in
  let checks := mt_validations mapped in
  let compat := mt_compatibility mapped in
  let msg := mt_message mapped in
  match presence m with
  | PRESENCE_IMPLICIT =>
      _ ← failIf (nullable m || negb (implicitCapable t)) "implicit presence requires a non-null primitive or enum";
      Ok (mkMappedField sql (implicitDefault t) checks, compat, msg)
  | PRESENCE_EXPLICIT =>
      _ ← failIf (negb (nullable m)) "explicit presence requires nullable=true";
      if mt_composite mapped then
        Ok (mkMappedField (presentTuple sql) "" (map (mapExpression guardPresent) checks),
            preserveStrongerCompatibility compat,
            msg +:+ "; explicit presence uses Tuple(present Bool, value T) because stable ClickHouse does not support Nullable(Array/Map) and Nullable(Tuple) is beta")
      else
        Ok (mkMappedField ("Nullable(" +:+ sql +:+ ")") "NULL" (map (mapExpression guardNull) checks),
            preserveStrongerCompatibility compat,
            msg +:+ "; explicit presence maps to Nullable(T), preserving absent versus present-default")
  | PRESENCE_REQUIRED =>
      _ ← failIf (nullable m) "required presence requires nullable=false";
      Ok (mkMappedField (presentTuple sql) ""
            (mkValidation path "required" present :: map (mapExpression guardPresent) checks),
          preserveStrongerCompatibility compat,
          msg +:+ "; required presence uses Tuple(present Bool, value T) plus a CHECK so an omitted ClickHouse column cannot become an implicit type default")
  | PRESENCE_ONEOF =>
      _ ← failIf (String.eqb (oneof m) "" || negb (nullable m)) "oneof presence requires a oneof name and nullable=true";
      Ok (mkMappedField (presentTuple sql) "" (map (mapExpression guardPresent) checks),
          preserveStrongerCompatibility compat,
          msg +:+ "; oneof " +:+ Quote (oneof m) +:+
          " uses a member Tuple(present Bool, value T) and sibling discriminator " +:+ Quote (oneofCaseName (oneof m)) +:+
          " (0=unset, protobuf field number=selected member), preserving selected default values without making the synthetic discriminator the sole source of presence")
  | PRESENCE_REPEATED =>
      _ ← failIf (nullable m || isNil (GetList t)) "repeated presence requires a non-null list";
      Ok (mkMappedField sql (if (GetFixedLength (GetList t) =? 0)%N then "[]" else "") checks, compat, msg)
  | PRESENCE_MAP =>
      _ ← failIf (nullable m || isNil (GetMap t)) "map presence requires a non-null map";
      Ok (mkMappedField sql "map()" checks, compat, msg)
  | PRESENCE_NOT_APPLICABLE =>
      _ ← failIf (bool_decide (synthetic_role m = SYNTHETIC_ROLE_PROTO_FIELD) || nullable m)
            "not-applicable presence is only valid for non-null synthetic collection children";
      Ok (mkMappedField sql "" checks, compat, msg)
  | _ => Err "protobuf presence is unspecified"
  end.

(** ** Scopes: the columns of a table or the elements of a tuple *)

Definition unsupportedW {A} (path message error : string) : W A :=
  fun d => (d ++ [unsupportedDiagnostic path message], Err error).
Definition unsupportedFieldW {A} (path message : string) : W A :=
  unsupportedW path message ("clickhouse: field " +:+ Quote path +:+ ": " +:+ message).
Definition liftResult {A} (r : Result A) : W A := fun d => (d ++ r.1, r.2).

Definition nilInScope {A} (path : string) : W A :=
  unsupportedW path "logical scope contains a nil field" "clickhouse: logical scope contains a nil field".

(** First loop: the names of the scope. *)
Definition checkName (path : string) (topLevel : bool) (seenNames : gmap string string) (field : option Field)
  : W (gmap string string) :=
  match field with
  | None => nilInScope path
  | Some f =>
      let nm := name (meta f) in
      let fieldPath := joinPath path nm in
      match validateIdentifier nm with
      | Err e => unsupportedFieldW fieldPath e
      | _ =>
          if HasPrefix nm reservedNamePrefix then
            unsupportedFieldW fieldPath
              ("storage name " +:+ Quote nm +:+ " uses the ClickHouse renderer's reserved " +:+
               Quote reservedNamePrefix +:+ " namespace")
          else if negb topLevel && String.eqb nm "null" then
            unsupportedFieldW fieldPath ("ClickHouse reserves the Tuple element name " +:+ Quote "null")
          else match seenNames !! nm with
               | Some previous =>
                   let message := "storage names " +:+ Quote previous +:+ " and " +:+ Quote fieldPath +:+
                                  " collide as ClickHouse identifier " +:+ Quote nm in
                   unsupportedW fieldPath message ("clickhouse: " +:+ message)
               | None => mret (<[nm := fieldPath]> seenNames)
               end
      end
  end.

Record oneofGroup : Type := mkGroup {
  g_name : string;
  g_caseName : string;
  g_fieldPath : string;
  g_members : list Field;
  g_numbers : list N;
  g_firstIndex : nat
}.

(** [numberPath[len(numberPath)-1]]: the callers have checked that the path is not
    empty. *)
Definition lastNumber (numberPath : list N) : N := List.last numberPath 0%N.

(** The group a member joins, created when it is the first. *)
Definition groupOf (path fieldPath : string) (index : nat) (groups : gmap string oneofGroup) (m : FieldMeta)
  : W oneofGroup :=
  match groups !! oneof m with
  | Some group => mret group
  | None =>
      let caseName := oneofCaseName (oneof m) in
      match validateIdentifier caseName with
      | Err e => unsupportedFieldW fieldPath ("derived oneof discriminator: " +:+ e)
      | _ => mret (mkGroup (oneof m) caseName (joinPath path (oneof m)) [] [] index)
      end
  end.

(** Second loop: the oneofs of the scope. *)
Definition addMember (path : string) (seenNames : gmap string string) (state : nat * gmap string oneofGroup)
  (field : option Field) : W (nat * gmap string oneofGroup) :=
  let '(index, groups) := state in
  match field with
  | None => nilInScope path
  | Some f =>
      let m := meta f in
      let fieldPath := joinPath path (name m) in
      if String.eqb (oneof m) "" then
        if bool_decide (presence m = PRESENCE_ONEOF)
        then unsupportedFieldW fieldPath "oneof presence is missing its oneof name"
        else mret (S index, groups)
      else if negb (bool_decide (presence m = PRESENCE_ONEOF)) || negb (nullable m) then
        unsupportedFieldW fieldPath
          ("oneof member must have oneof presence and nullable=true, got " +:+ Presence_String (presence m) +:+
           " and nullable=" +:+ FormatBool (nullable m))
      else
        group ← groupOf path fieldPath index groups m;
        match seenNames !! g_caseName group with
        | Some previous =>
            let message := "oneof " +:+ Quote (g_name group) +:+ " discriminator " +:+ Quote (g_caseName group) +:+
                           " collides with storage field " +:+ Quote previous in
            unsupportedW (g_fieldPath group) message ("clickhouse: " +:+ message)
        | None =>
            let number := lastNumber (proto_number_path m) in
            if (length (proto_number_path m) =? 0) || (number =? 0)%N then
              unsupportedFieldW fieldPath "oneof member has no protobuf field number"
            else if decide (number ∈ g_numbers group) then
              unsupportedFieldW fieldPath
                ("oneof " +:+ Quote (g_name group) +:+ " repeats protobuf field number " +:+ FormatUint number)
            else
              mret (S index,
                    <[oneof m := mkGroup (g_name group) (g_caseName group) (g_fieldPath group)
                                   (g_members group ++ [f]) (g_numbers group ++ [number]) (g_firstIndex group)]> groups)
        end
  end.

Record emission : Type := mkEmission {
  em_index : nat;
  em_emitted : gset string;
  em_declarations : list fieldDeclaration;
  em_validations : list validation
}.

(** The discriminator column of a oneof and its constraint. *)
Definition discriminator (topLevel : bool) (group : oneofGroup) : fieldDeclaration * validation :=
  let members := map (fun f => FormatUint (lastNumber (proto_number_path (meta f))) +:+ "=" +:+ name (meta f))
                   (g_members group) in
  let allowed := "0" :: map FormatUint (merge_sort N.le (g_numbers group)) in
  (mkDeclaration (g_caseName group) "Int32" "0"
     ("Invariant oneof discriminator for " +:+ g_name group +:+ ": 0=unset, " +:+ Join members ", ")
     (g_fieldPath group) 0 true,
   mkValidation (g_fieldPath group) "oneof_case"
     (scopeElementExpression (g_caseName group) topLevel +:+ " IN (" +:+ Join allowed ", " +:+ ")")).

Definition emitDiscriminator (topLevel : bool) (groups : gmap string oneofGroup) (m : FieldMeta) (state : emission)
  : emission :=
  match groups !! oneof m with
  | Some group =>
      if negb (bool_decide (g_name group ∈ em_emitted state)) && (g_firstIndex group =? em_index state) then
        let '(declaration, check) := discriminator topLevel group in
        mkEmission (em_index state) ({[g_name group]} ∪ em_emitted state)
          (em_declarations state ++ [declaration]) (em_validations state ++ [check])
      else state
  | None => state
  end.

(** The link between the discriminator and the presence of a member. *)
Definition presenceCheck (topLevel : bool) (groups : gmap string oneofGroup) (m : FieldMeta) (fieldPath : string)
  : list validation :=
  match groups !! oneof m with
  | Some group =>
      let selected := scopeElementExpression (g_caseName group) topLevel +:+ " = " +:+
                      FormatUint (lastNumber (proto_number_path m)) in
      [mkValidation fieldPath "oneof_presence"
         ("(" +:+ selected +:+ ") = " +:+
          tupleElementExpression (scopeElementExpression (name m) topLevel) "present")]
  | None => []
  end.

(** Third loop: the declaration of a field and its constraints. *)
Definition emitField (mapField : Field -> string -> Result mappedField) (path : string) (topLevel : bool)
  (groups : gmap string oneofGroup) (state : emission) (field : option Field) : W emission :=
  match field with
  | None => nilInScope path
  | Some f =>
      let m := meta f in
      let fieldPath := joinPath path (name m) in
      let state := emitDiscriminator topLevel groups m state in
      mapped ← liftResult (mapField f fieldPath);
      let replaced := map (mapExpression (fun e => replaceValue e (scopeElementExpression (name m) topLevel)))
                        (mf_validations mapped) in
      mret (mkEmission (S (em_index state)) (em_emitted state)
              (em_declarations state ++
                 [mkDeclaration (name m) (mf_sqlType mapped) (mf_defaultExpression mapped) (description m) fieldPath
                    (stable_id m) false])
              (em_validations state ++ presenceCheck topLevel groups m fieldPath ++ replaced))
  end.

Definition mapScope (mapField : Field -> string -> Result mappedField) (fields : list (option Field)) (path : string)
  (topLevel : bool) : Result (list fieldDeclaration * list validation) :=
  (seenNames ← foldW (checkName path topLevel) fields ∅;
   groups ← foldW (addMember path seenNames) fields (0, ∅);
   emitted ← foldW (emitField mapField path topLevel groups.2) fields (mkEmission 0 ∅ [] []);
   mret (em_declarations emitted, em_validations emitted)) [].

(** The error of a field, under its own diagnostic. *)
Definition fieldResult (path : string) (below : list MappingDiagnostic)
  (result : Outcome (mappedField * MappingCompatibility * string)) : Result mappedField :=
  match result with
  | Ok (mapped, compat, msg) => (mkDiagnostic path compat msg :: below, Ok mapped)
  | Err e => (unsupportedDiagnostic path e :: below, Err ("clickhouse: field " +:+ Quote path +:+ ": " +:+ e))
  | Panic e => (below, Panic e)
  | NoFuel => (below, NoFuel)
  end.

Fixpoint mapField (field : Field) (path : string) {struct field} : Result mappedField :=
  match field with
  | mkField _ None => unsupportedField path "field has no logical type"
  | mkField m (Some t) =>
      match validateText (description m) with
      | Err e => unsupported path ("description: " +:+ e) ("clickhouse: field " +:+ Quote path +:+ " description: " +:+ e)
      | _ =>
          let '(below, mapped) := mapType t path in
          fieldResult path below (mapped ← mapped; applyPresence m (Some t) path mapped)
      end
  end
with mapType (t : DataType) (path : string) {struct t} : Result mappedType :=
  match t with
  | mkDataType _ kind =>
      match kind with
      | DataType_Struct None => ([], Err "invalid struct logical type")
      | DataType_Struct (Some fields) =>
          let '(diagnostics, scope) := mapScope mapField fields path false in
          (diagnostics, scope ← scope; Ok (structType path scope))
      | DataType_List (Some (Some element, fixedLength)) =>
          let '(diagnostics, mapped) := mapField element (path +:+ "[]") in
          (diagnostics, mapped ← mapped; Ok (listType path fixedLength mapped))
      | DataType_List _ => ([], Err "list is missing its element")
      | DataType_Map (Some (Some key, Some value)) =>
          match mapField key (path +:+ ".key") with
          | (keyDiagnostics, Ok key) =>
              let '(valueDiagnostics, value) := mapField value (path +:+ ".value") in
              (keyDiagnostics ++ valueDiagnostics, value ← value; mapType_ path key value)
          | (keyDiagnostics, Err e) => (keyDiagnostics, Err e)
          | (keyDiagnostics, Panic e) => (keyDiagnostics, Panic e)
          | (keyDiagnostics, NoFuel) => (keyDiagnostics, NoFuel)
          end
      | DataType_Map _ => ([], Err "map is missing its key or value")
      | k => ([], mapLeaf k path)
      end
  end.

(** ** The table *)

(** The constraints, with distinct names. *)
Fixpoint nameConstraints (validations : list validation) (seenConstraints : gmap string string)
  : Outcome (list Constraint) :=
  match validations with
  | [] => Ok []
  | check :: validations =>
      let nm := "invariant." +:+ v_fieldPath check +:+ "." +:+ v_kind check in
      match seenConstraints !! nm with
      | Some previous =>
          Err ("clickhouse: constraints for " +:+ Quote previous +:+ " and " +:+ Quote (v_fieldPath check) +:+
               " have the same name " +:+ Quote nm)
      | None =>
          rest ← nameConstraints validations (<[nm := v_fieldPath check]> seenConstraints);
          Ok (mkConstraint nm (v_expression check) (v_fieldPath check) :: rest)
      end
  end.

Definition columnOf (field : fieldDeclaration) : Column :=
  mkColumn (fd_name field) (fd_sqlType field) (fd_defaultExpression field) (fd_comment field) (fd_fieldPath field)
    (fd_stableID field) (fd_synthetic field).

(** A table needs a column. *)
Definition withUnit (scope : list fieldDeclaration * list validation) : list fieldDeclaration * list validation :=
  match scope.1 with
  | [] => ([mkDeclaration "__invariant_unit" "Bool" "false" "" "<dataset>" 0 true],
           scope.2 ++ [unitValidation "<dataset>" (quoteIdentifier "__invariant_unit")])
  | _ => scope
  end.

Definition Schema (dataset : option DatasetSchema) : Result TableSchema :=
  match dataset with
  | None => ([], Err "clickhouse: nil dataset schema")
  | Some ds =>
      (_ ← liftW (wrapErr "clickhouse: dataset name: " (validateIdentifier (ds_name ds)));
       _ ← liftW (wrapErr "clickhouse: dataset description: " (validateText (ds_description ds)));
       scope ← liftResult (mapScope mapField (ds_fields ds) "" true);
       let '(fields, validations) := withUnit scope in
       constraints ← liftW (nameConstraints validations ∅);
       mret (mkTableSchema (ds_name ds) (source_message ds) (ds_description ds) (map columnOf fields) constraints)) []
  end.

Definition columnDeclaration (c : Column) : string :=
  "  " +:+ quoteIdentifier (Name c) +:+ " " +:+ Type_ c +:+
  (if decide (DefaultExpression c = "") then "" else " DEFAULT " +:+ DefaultExpression c) +:+
  (if decide (Comment c = "") then "" else " COMMENT " +:+ quoteLiteral (Comment c)).
Definition constraintDeclaration (c : Constraint) : string :=
  "  CONSTRAINT " +:+ quoteIdentifier (con_Name c) +:+ " CHECK " +:+ con_Expression c.

Definition ColumnDeclarations (schema : option TableSchema) : string :=
  match schema with
  | None => ""
  | Some s => Join (map columnDeclaration (Columns s) ++ map constraintDeclaration (Constraints s))
                (String "," (str1 LF))
  end.
End ClickHouse.
