(* ===== verification/ClickHouseFacts.v ===== *)
(** * Facts on the ClickHouse renderer

    Constraint expressions as templates over the value they constrain, and what the
    three loops of a scope compute: distinct valid names, the groups of the oneofs,
    and the columns and constraints each field adds. *)
From S2P Require Import Prelude GoStrings StringFacts Utf8Facts Schema WellFormed.
From S2P Require Import Render ClickHouse.
Import ClickHouse.

(** ** Templates

    A constraint expression is text without NUL bytes with placeholders in between. *)
Inductive token : Type := Lit (s : string) | Hole.
Definition fill (value : string) (t : token) : string := match t with Lit s => s | Hole => value end.
Definition render (value : string) (ts : list token) : string := foldr (fun t acc => fill value t +:+ acc) "" ts.
Definition plainToken (t : token) : Prop := match t with Lit s => noByte NUL s = true | Hole => True end.
Definition Template (e : string) : Prop :=
  exists ts, Forall plainToken ts /\ e = render constraintValuePlaceholder ts.

Lemma replaceFrom_skip old new s t :
  replaceFrom (String.length s) old new (s +:+ t) = replaceFrom 0 old new t.
Proof. induction s as [|c s IH]; [done|]. rewrite append_cons. simpl. exact IH. Qed.

(** A match at the front, and a byte that starts no match. *)
Lemma ReplaceAll_match c p t new :
  ReplaceAll (String c p +:+ t) (String c p) new = new +:+ ReplaceAll t (String c p) new.
Proof.
  pose proof (HasPrefix_append (String c p) t) as Hp. rewrite append_cons in *. unfold ReplaceAll.
  cbn [replaceFrom]. rewrite Hp. cbn [String.length Nat.pred]. by rewrite replaceFrom_skip.
Qed.
Lemma ReplaceAll_skip c p d t new :
  d <> c -> ReplaceAll (String d t) (String c p) new = String d (ReplaceAll t (String c p) new).
Proof.
  intros Hd. unfold ReplaceAll. cbn [replaceFrom].
  assert (HasPrefix (String d t) (String c p) = false) as ->; [|done].
  apply not_true_is_false. intros (u&Hu)%HasPrefix_spec. rewrite append_cons in Hu. by injection Hu.
Qed.

Lemma replace_lit s t new :
  noByte NUL s = true ->
  ReplaceAll (s +:+ t) constraintValuePlaceholder new = s +:+ ReplaceAll t constraintValuePlaceholder new.
Proof.
  induction s as [|c s IH]; [done|]. intros [Hc Hs]%noByte_cons. rewrite !append_cons.
  unfold constraintValuePlaceholder. rewrite ReplaceAll_skip by done. f_equal. by apply IH.
Qed.

Lemma replace_hole t new :
  ReplaceAll (constraintValuePlaceholder +:+ t) constraintValuePlaceholder new =
  new +:+ ReplaceAll t constraintValuePlaceholder new.
Proof. apply ReplaceAll_match. Qed.

Lemma replaceValue_render ts new :
  Forall plainToken ts -> replaceValue (render constraintValuePlaceholder ts) new = render new ts.
Proof.
  unfold replaceValue. induction 1 as [|[s|] ts Ht _ IH]; [done| |]; simpl.
  - by rewrite replace_lit, IH.
  - by rewrite replace_hole, IH.
Qed.

Lemma render_app v ts us : render v (ts ++ us) = render v ts +:+ render v us.
Proof. induction ts as [|t ts IH]; [done|]. simpl. by rewrite IH, append_assoc. Qed.

Lemma Template_lit s : noByte NUL s = true -> Template s.
Proof. exists [Lit s]. split; [by repeat constructor|]. simpl. by rewrite append_nil_r. Qed.
Lemma Template_hole : Template constraintValuePlaceholder.
Proof. exists [Hole]. split; [by repeat constructor|]. simpl. by rewrite append_nil_r. Qed.
Lemma Template_app e e' : Template e -> Template e' -> Template (e +:+ e').
Proof.
  intros (ts&Hts&->) (us&Hus&->). exists (ts ++ us). rewrite render_app. split; [|done]. by apply list.Forall_app.
Qed.
Lemma Template_replace e new : Template e -> Template new -> Template (replaceValue e new).
Proof.
  intros (ts&Hts&->) (us&Hus&->). rewrite replaceValue_render by done.
  induction Hts as [|[s|] ts Ht _ IH]; simpl.
  - by apply Template_lit.
  - apply Template_app; [by apply Template_lit|done].
  - apply Template_app; [by exists us|done].
Qed.

(** Filling a template with text leaves no NUL byte, so no placeholder. *)
Lemma replaceValue_plain e new : Template e -> noByte NUL new = true -> noByte NUL (replaceValue e new) = true.
Proof.
  intros (ts&Hts&->) Hn. rewrite replaceValue_render by done.
  induction Hts as [|[s|] ts Ht _ IH]; simpl; rewrite ?noByte_append, ?andb_true_iff; done.
Qed.

(** ** Text without NUL bytes *)

Lemma noByte_mapBytes b f s :
  (forall c, c <> b -> noByte b (f c) = true) -> noByte b s = true -> noByte b (mapBytes f s) = true.
Proof.
  intros Hf. induction s as [|c s IH]; [done|]. intros [Hc Hs]%noByte_cons. simpl.
  by rewrite noByte_append, Hf, IH.
Qed.
Lemma noByte_str1 b c : c <> b -> noByte b (str1 c) = true.
Proof. intros Hc. by apply noByte_cons. Qed.

Lemma quoteLiteral_plain s : noByte NUL s = true -> noByte NUL (quoteLiteral s) = true.
Proof.
  intros Hs. unfold quoteLiteral. rewrite !noByte_append, !andb_true_iff. split_and!; [done| |done].
  apply noByte_mapBytes; [|done]. intros c Hc. unfold escapeLiteral. repeat case_match; try done. by apply noByte_str1.
Qed.
Lemma quoteIdentifier_plain s : noByte NUL s = true -> noByte NUL (quoteIdentifier s) = true.
Proof.
  intros Hs. unfold quoteIdentifier. rewrite !noByte_append, !andb_true_iff. split_and!; [done| |done].
  apply noByte_mapBytes; [|done]. intros c Hc. unfold escapeIdentifier. repeat case_match; try done. by apply noByte_str1.
Qed.

Lemma noByte_Join b l sep :
  noByte b sep = true -> Forall (fun s => noByte b s = true) l -> noByte b (Join l sep) = true.
Proof.
  intros Hsep. induction 1 as [|x l Hx Hl IH]; [done|]. simpl. destruct l; [done|].
  by rewrite !noByte_append, Hx, Hsep, IH.
Qed.
Lemma FormatUint_plain n : noByte NUL (FormatUint n) = true.
Proof. apply digit_not; [done|]. apply FormatUint_digits. Qed.
Lemma FormatInt_plain z : noByte NUL (FormatInt z) = true.
Proof. by apply FormatInt_noByte. Qed.

Lemma validateIdentifier_plain s : validateIdentifier s = Ok tt -> noByte NUL s = true.
Proof.
  unfold validateIdentifier. case_decide; [done|]. destruct (runes s) as [rs|] eqn:Hs; [|done].
  intros Hc%failIf_Ok. apply (runes_low_byte s rs NUL Hs); [done|]. apply list.Forall_forall. intros r Hr He.
  assert (existsb (fun r => IsControl r.1) rs = true) as Ht; [|congruence].
  apply existsb_exists. exists r. split; [by apply list_elem_of_In|]. by rewrite He.
Qed.

Create HintDb template discriminated.
#[export] Hint Resolve Template_hole Template_app Template_replace quoteLiteral_plain quoteIdentifier_plain
  FormatUint_plain FormatInt_plain : template.
#[export] Hint Extern 5 (Template _) => apply Template_lit : template.
#[export] Hint Extern 6 (noByte NUL _ = true) => vm_compute; reflexivity : template.

(** ** The loops of a scope *)

Lemma foldW_inv {A S} (f : S -> A -> W S) (I : list A -> S -> list MappingDiagnostic -> Prop) l s d s' d' :
  I [] s d ->
  (forall done x s d s' d', I done s d -> f s x d = (d', Ok s') -> I (done ++ [x]) s' d') ->
  foldW f l s d = (d', Ok s') -> I l s' d'.
Proof.
  intros H0 Hstep. change l with ([] ++ l) at 2. revert H0. generalize (@nil A) as done. revert s d.
  induction l as [|x l IH]; intros s d done H0 Hf; cbn [foldW] in Hf.
  - apply wret_Ok in Hf as [<- ->]. by rewrite app_nil_r.
  - apply W_bind_Ok in Hf as (s1&d1&Hx&Hf). rewrite cons_middle, app_assoc. eapply IH; [|exact Hf].
    by eapply Hstep.
Qed.

Definition nameOk (topLevel : bool) (f : Field) : Prop :=
  validateIdentifier (fieldName f) = Ok tt /\ HasPrefix (fieldName f) reservedNamePrefix = false /\
  (topLevel = false -> fieldName f <> "null").

Lemma validateIdentifier_cases s : validateIdentifier s = Ok tt \/ exists e, validateIdentifier s = Err e.
Proof.
  unfold validateIdentifier. case_decide; [eauto|]. destruct (runes s); [|eauto].
  unfold failIf. case_match; eauto.
Qed.

Lemma unsupportedW_Ok {A} p m e d d' (a : A) : unsupportedW p m e d <> (d', Ok a).
Proof. unfold unsupportedW. congruence. Qed.

(** First loop: valid, distinct names. *)
Definition NamesOk (topLevel : bool) (d : list MappingDiagnostic) (fields : list (option Field))
  (seen : gmap string string) (d' : list MappingDiagnostic) : Prop :=
  d' = d /\ exists fs, fields = map Some fs /\ Forall (nameOk topLevel) fs /\ NoDup (map fieldName fs) /\
    forall n, is_Some (seen !! n) <-> n ∈ map fieldName fs.

Lemma checkNames_Ok path topLevel fields d d' seen :
  foldW (checkName path topLevel) fields ∅ d = (d', Ok seen) -> NamesOk topLevel d fields seen d'.
Proof.
  apply foldW_inv.
  - split; [done|]. exists []. split_and!; [done|constructor|constructor|]. intros n. rewrite lookup_empty. simpl.
    split; [by intros []|by intros ?%not_elem_of_nil].
  - intros pre [f|] s d0 s' d1 (->&fs&->&Hok&Hnd&Hdom) Hf; cbn [checkName] in Hf;
      [|by apply unsupportedW_Ok in Hf].
    fold (fieldName f) in Hf. destruct (validateIdentifier_cases (fieldName f)) as [Hv|[e Hv]]; rewrite Hv in Hf;
      [|by apply unsupportedW_Ok in Hf].
    destruct (HasPrefix (fieldName f) reservedNamePrefix) eqn:Hp; [by apply unsupportedW_Ok in Hf|].
    destruct (negb topLevel && String.eqb (fieldName f) "null")%bool eqn:Hnull; [by apply unsupportedW_Ok in Hf|].
    destruct (s !! fieldName f) eqn:Hs; [by apply unsupportedW_Ok in Hf|].
    apply wret_Ok in Hf as [<- ->]. split; [done|]. exists (fs ++ [f]). rewrite !map_app. cbn [map]. split_and!; [done| | |].
    + apply list.Forall_app. split; [done|]. constructor; [|constructor]. split_and!; [done|done|].
      intros -> Hn. rewrite Hn in Hnull. done.
    + apply list.NoDup_app. split_and!; [done| |apply NoDup_singleton].
      intros n Hn ->%list_elem_of_singleton. apply Hdom in Hn as [? Hn]. congruence.
    + intros n. rewrite elem_of_app, list_elem_of_singleton, <- Hdom.
      destruct (decide (n = fieldName f)) as [->|Hne].
      * rewrite lookup_insert_eq. naive_solver.
      * rewrite lookup_insert_ne by done. naive_solver.
Qed.

(** Second loop: the group of a oneof holds its members in order, with distinct
    non-zero numbers, and knows the index of the first. *)
Definition number (f : Field) : N := lastNumber (proto_number_path (meta f)).

Record GroupOk (path : string) (fs : list Field) (o : string) (g : oneofGroup) : Prop := mkGroupOk {
  go_nonempty : o <> "";
  go_name : g_name g = o;
  go_case : g_caseName g = oneofCaseName o;
  go_valid : validateIdentifier (oneofCaseName o) = Ok tt;
  go_path : g_fieldPath g = joinPath path o;
  go_members : g_members g = filter (fun f => oneof (meta f) = o) fs;
  go_numbers : g_numbers g = map number (g_members g);
  go_distinct : NoDup (g_numbers g);
  go_nonzero : Forall (fun n => n <> 0%N) (g_numbers g);
  go_first : exists f, fs !! g_firstIndex g = Some f /\ oneof (meta f) = o;
  go_least : forall j f, fs !! j = Some f -> oneof (meta f) = o -> g_firstIndex g <= j
}.

Definition GroupsOk (path : string) (d : list MappingDiagnostic) (fields : list (option Field))
  (state : nat * gmap string oneofGroup) (d' : list MappingDiagnostic) : Prop :=
  d' = d /\ exists fs, fields = map Some fs /\ state.1 = length fs /\
    (forall o g, state.2 !! o = Some g -> GroupOk path fs o g) /\
    (forall f, f ∈ fs -> oneof (meta f) <> "" ->
       is_Some (state.2 !! oneof (meta f)) /\ presence (meta f) = PRESENCE_ONEOF /\ nullable (meta f) = true).

(** A field outside the group changes nothing. *)
Lemma GroupOk_other path fs o g f : GroupOk path fs o g -> oneof (meta f) <> o -> GroupOk path (fs ++ [f]) o g.
Proof.
  intros [Hne Hn Hc Hv Hp Hm Hnum Hd Hz (f0&Hf0&Ho) Hl] Hf. constructor; try done.
  - rewrite list.filter_app, Hm. cbn. by rewrite decide_False, app_nil_r.
  - exists f0. split; [|done]. by apply lookup_app_l_Some.
  - intros j f' Hj Ho'. apply lookup_app_Some in Hj as [Hj|[_ Hj]]; [by eapply Hl|].
    apply list_lookup_singleton_Some in Hj as [_ <-]. done.
Qed.

(** The group a member joins. *)
Lemma groupOf_Ok path fieldPath fs groups m d d' g :
  groupOf path fieldPath (length fs) groups m d = (d', Ok g) -> oneof m <> "" ->
  (forall o g, groups !! o = Some g -> GroupOk path fs o g) ->
  (forall f, f ∈ fs -> oneof (meta f) <> "" -> is_Some (groups !! oneof (meta f))) ->
  d' = d /\ (GroupOk path fs (oneof m) g \/
    Forall (fun f => oneof (meta f) <> oneof m) fs /\ validateIdentifier (oneofCaseName (oneof m)) = Ok tt /\
    g = mkGroup (oneof m) (oneofCaseName (oneof m)) (joinPath path (oneof m)) [] [] (length fs)).
Proof.
  unfold groupOf. intros Hg Hne Hok Hall. destruct (groups !! oneof m) as [g0|] eqn:E.
  - apply wret_Ok in Hg as [<- ->]. split; [done|]. left. by apply Hok.
  - destruct (validateIdentifier_cases (oneofCaseName (oneof m))) as [Hv|[e Hv]]; rewrite Hv in Hg;
      [|by apply unsupportedW_Ok in Hg].
    apply wret_Ok in Hg as [<- ->]. split; [done|]. right. split_and!; [|done|done].
    apply list.Forall_forall. intros f Hf Ho. destruct (Hall f Hf) as [? Hs]; [congruence|].
    rewrite Ho in Hs. congruence.
Qed.

(** The group after its new member. *)
Lemma GroupOk_member path fs f g :
  oneof (meta f) <> "" -> number f <> 0%N -> number f ∉ g_numbers g ->
  (GroupOk path fs (oneof (meta f)) g \/
    Forall (fun f' => oneof (meta f') <> oneof (meta f)) fs /\
    validateIdentifier (oneofCaseName (oneof (meta f))) = Ok tt /\
    g = mkGroup (oneof (meta f)) (oneofCaseName (oneof (meta f))) (joinPath path (oneof (meta f))) [] [] (length fs)) ->
  GroupOk path (fs ++ [f]) (oneof (meta f))
    (mkGroup (g_name g) (g_caseName g) (g_fieldPath g) (g_members g ++ [f]) (g_numbers g ++ [number f]) (g_firstIndex g)).
Proof.
  intros Hne Hz Hnew [[_ Hn Hc Hv Hp Hm Hnum Hd Hzs (f0&Hf0&Ho) Hl]|(Hno&Hv&->)]; constructor; simpl; try done.
  - rewrite list.filter_app, Hm. cbn. by rewrite decide_True.
  - by rewrite map_app, Hnum.
  - apply list.NoDup_app. split_and!; [done| |apply NoDup_singleton].
    intros n Hin ->%list_elem_of_singleton. done.
  - apply list.Forall_app. split; [done|]. by constructor.
  - exists f0. split; [|done]. by apply lookup_app_l_Some.
  - intros j f' Hj Ho'. apply lookup_app_Some in Hj as [Hj|[Hlen _]]; [by eapply Hl|].
    apply lookup_lt_Some in Hf0. lia.
  - rewrite list.filter_app. cbn. rewrite decide_True by done.
    assert (filter (fun f' => oneof (meta f') = oneof (meta f)) fs = []) as ->; [|done].
    clear -Hno. induction Hno as [|f' fs Hf' _ IH]; [done|]. cbn. by rewrite decide_False.
  - apply NoDup_singleton.
  - by constructor.
  - exists f. split; [|done]. apply list_lookup_middle. done.
  - intros j f' Hj Ho'. destruct (decide (j < length fs)) as [Hlt|]; [|lia].
    rewrite lookup_app_l in Hj by done. rewrite list.Forall_forall in Hno.
    destruct (Hno f'); [by eapply list_elem_of_lookup_2|done].
Qed.

Lemma addMembers_Ok path seen fields d d' state :
  foldW (addMember path seen) fields (0, ∅) d = (d', Ok state) -> GroupsOk path d fields state d'.
Proof.
  apply foldW_inv.
  - split; [done|]. exists []. split_and!; try done; simpl.
    by intros f ?%not_elem_of_nil.
  - intros pre [f|] [i groups] d0 s' d1 (->&fs&->&Hi&Hok&Hall) Hf; cbn [addMember] in Hf;
      [|by apply unsupportedW_Ok in Hf]. simpl in Hi, Hok, Hall. subst i.
    destruct (String.eqb_spec (oneof (meta f)) "") as [Hempty|Hne].
    + case_match; [by apply unsupportedW_Ok in Hf|]. apply wret_Ok in Hf as [<- ->]. split; [done|].
      exists (fs ++ [f]). rewrite map_app, length_app. split_and!; [done|simpl; lia| |]; simpl.
      * intros o g Hg. apply GroupOk_other; [by apply Hok|]. rewrite Hempty. intros <-.
        by destruct (go_nonempty _ _ _ _ (Hok _ _ Hg)).
      * intros f' Hf' Hn. apply elem_of_app in Hf' as [Hf'|Hf'%list_elem_of_singleton]; [by apply Hall|by subst].
    + case_match eqn:Hpn; [by apply unsupportedW_Ok in Hf|].
      apply orb_false_iff in Hpn as [Hpres%negb_false_iff%bool_decide_eq_true Hnull%negb_false_iff].
      apply W_bind_Ok in Hf as (g&d2&Hg&Hf).
      apply groupOf_Ok with (fs := fs) in Hg as [-> Hg]; [|done|done|intros f' Hf' Hn'; by apply Hall].
      destruct (seen !! g_caseName g); [by apply unsupportedW_Ok in Hf|].
      destruct ((length (proto_number_path (meta f)) =? 0) || (lastNumber (proto_number_path (meta f)) =? 0)%N)%bool eqn:Hz;
        [by apply unsupportedW_Ok in Hf|]. apply orb_false_iff in Hz as [_ Hz%N.eqb_neq].
      case_decide as Hin; [by apply unsupportedW_Ok in Hf|]. apply wret_Ok in Hf as [<- ->]. split; [done|].
      exists (fs ++ [f]). rewrite map_app, length_app. split_and!; [done|simpl; lia| |]; simpl.
      * intros o g'. destruct (decide (o = oneof (meta f))) as [->|Hne'].
        -- rewrite lookup_insert_eq. intros [= <-]. by apply GroupOk_member.
        -- rewrite lookup_insert_ne by done. intros Hg'. apply GroupOk_other; [by apply Hok|done].
      * intros f' Hf' Hn. apply elem_of_app in Hf' as [Hf'|Hf'%list_elem_of_singleton].
        -- destruct (Hall f' Hf' Hn) as ([g0 Hg0]&?&?). split_and!; [|done|done].
           destruct (decide (oneof (meta f') = oneof (meta f))) as [->|]; [rewrite lookup_insert_eq; eauto|].
           rewrite lookup_insert_ne by done. eauto.
        -- subst f'. rewrite lookup_insert_eq. eauto.
Qed.

(** Third loop: what each field adds to the scope. *)
Section Emission.
Variables (mf : Field -> string -> Result mappedField) (path : string) (topLevel : bool)
  (groups : gmap string oneofGroup).
Hypothesis group_names : forall o g, groups !! o = Some g -> g_name g = o.

Definition pathOf (f : Field) : string := joinPath path (fieldName f).

Definition discriminators (i : nat) (f : Field) : list (fieldDeclaration * validation) :=
  match groups !! oneof (meta f) with
  | Some g => if g_firstIndex g =? i then [discriminator topLevel g] else []
  | None => []
  end.
Definition fieldColumn (fm : Field * mappedField) : fieldDeclaration :=
  mkDeclaration (fieldName fm.1) (mf_sqlType fm.2) (mf_defaultExpression fm.2) (description (meta fm.1))
    (pathOf fm.1) (stable_id (meta fm.1)) false.
Definition fieldChecks (fm : Field * mappedField) : list validation :=
  presenceCheck topLevel groups (meta fm.1) (pathOf fm.1) ++
  map (mapExpression (fun e => replaceValue e (scopeElementExpression (fieldName fm.1) topLevel)))
    (mf_validations fm.2).
Definition itemColumns (i : nat) (fm : Field * mappedField) : list fieldDeclaration :=
  map fst (discriminators i fm.1) ++ [fieldColumn fm].
Definition itemChecks (i : nat) (fm : Field * mappedField) : list validation :=
  map snd (discriminators i fm.1) ++ fieldChecks fm.

Record Emits (d : list MappingDiagnostic) (fields : list (option Field)) (fms : list (Field * mappedField))
  (state : emission) (d' : list MappingDiagnostic) : Prop := mkEmits {
  e_fields : fields = map Some (map fst fms);
  e_mapped : Forall (fun fm => (mf fm.1 (pathOf fm.1)).2 = Ok fm.2) fms;
  e_diagnostics : d' = d ++ concat (map (fun fm => (mf fm.1 (pathOf fm.1)).1) fms);
  e_index : em_index state = length fms;
  e_emitted : forall o, o ∈ em_emitted state -> exists g, groups !! o = Some g /\ g_firstIndex g < length fms;
  e_columns : em_declarations state = concat (imap itemColumns fms);
  e_checks : em_validations state = concat (imap itemChecks fms)
}.

Lemma emitDiscriminator_eq f state :
  (forall o, o ∈ em_emitted state -> exists g, groups !! o = Some g /\ g_firstIndex g < em_index state) ->
  let new := discriminators (em_index state) f in
  exists emitted,
    emitDiscriminator topLevel groups (meta f) state =
      mkEmission (em_index state) emitted (em_declarations state ++ map fst new) (em_validations state ++ map snd new) /\
    forall o, o ∈ emitted -> exists g, groups !! o = Some g /\ g_firstIndex g < S (em_index state).
Proof.
  intros Hem. unfold emitDiscriminator, discriminators. destruct (groups !! oneof (meta f)) as [g|] eqn:Hg.
  - destruct (Nat.eqb_spec (g_firstIndex g) (em_index state)) as [He|He].
    + rewrite bool_decide_eq_false_2.
      * cbn [negb andb]. destruct (discriminator topLevel g) as [decl check]. eexists. split; [reflexivity|].
        intros o Ho. apply elem_of_union in Ho as [Ho%elem_of_singleton|Ho].
        -- subst o. rewrite (group_names _ _ Hg). exists g. split; [done|lia].
        -- destruct (Hem o Ho) as (g'&?&?). exists g'. split; [done|lia].
      * intros Hin. destruct (Hem _ Hin) as (g'&Hg'&Hlt). rewrite (group_names _ _ Hg) in Hg'.
        rewrite Hg in Hg'. injection Hg' as <-. lia.
    + rewrite andb_false_r. exists (em_emitted state). cbn [map]. rewrite !app_nil_r. split; [by destruct state|].
      intros o Ho. destruct (Hem o Ho) as (g'&?&?). exists g'. split; [done|lia].
  - exists (em_emitted state). cbn [map]. rewrite !app_nil_r. split; [by destruct state|].
    intros o Ho. destruct (Hem o Ho) as (g'&?&?). exists g'. split; [done|lia].
Qed.

Lemma concat_imap_snoc {A B} (h : nat -> A -> list B) l x :
  concat (imap h (l ++ [x])) = concat (imap h l) ++ h (length l) x.
Proof. rewrite imap_app, concat_app. simpl. by rewrite Nat.add_0_r, app_nil_r. Qed.

Lemma emitFields_Ok fields d d' state :
  foldW (emitField mf path topLevel groups) fields (mkEmission 0 ∅ [] []) d = (d', Ok state) ->
  exists fms, Emits d fields fms state d'.
Proof.
  apply (foldW_inv _ (fun fields state d' => exists fms, Emits d fields fms state d')).
  - exists []. constructor; simpl; rewrite ?app_nil_r; done.
  - intros pre [f|] s d0 s' d1 (fms&[-> Hm -> Hi He Hc Hv]) Hf; cbn [emitField] in Hf;
      [|by apply unsupportedW_Ok in Hf].
    destruct (emitDiscriminator_eq f s) as (emitted&Heq&Hem); [rewrite Hi; exact He|].
    rewrite Heq in Hf. apply W_bind_Ok in Hf as (mapped&d2&Hf&[<- ->]%wret_Ok).
    unfold liftResult in Hf. change (joinPath path (name (meta f))) with (pathOf f) in Hf.
    injection Hf as <- Hmapped. exists (fms ++ [(f, mapped)]). constructor; cbn [em_index em_emitted em_declarations em_validations].
    + by rewrite !map_app.
    + apply list.Forall_app. split; [done|]. by constructor.
    + rewrite map_app, concat_app. simpl. by rewrite app_nil_r, app_assoc.
    + rewrite length_app, Hi. simpl. lia.
    + intros o Ho. destruct (Hem o Ho) as (g&Hg&Hlt). exists g. split; [done|]. rewrite length_app. simpl. lia.
    + rewrite concat_imap_snoc, Hc, Hi. unfold itemColumns. by rewrite <- app_assoc.
    + rewrite concat_imap_snoc, Hv, Hi. unfold itemChecks, fieldChecks. by rewrite <- !app_assoc.
Qed.
End Emission.

(** A scope that is accepted. *)
Record ScopeOk (mf : Field -> string -> Result mappedField) (fields : list (option Field)) (path : string)
  (topLevel : bool) (d : list MappingDiagnostic) (declarations : list fieldDeclaration)
  (validations : list validation) (groups : gmap string oneofGroup) (fms : list (Field * mappedField)) : Prop := mkScopeOk {
  s_fields : fields = map Some (map fst fms);
  s_mapped : Forall (fun fm => (mf fm.1 (pathOf path fm.1)).2 = Ok fm.2) fms;
  s_diagnostics : d = concat (map (fun fm => (mf fm.1 (pathOf path fm.1)).1) fms);
  s_names : Forall (nameOk topLevel) (map fst fms);
  s_distinct : NoDup (map fieldName (map fst fms));
  s_groups : forall o g, groups !! o = Some g -> GroupOk path (map fst fms) o g;
  s_members : forall f, f ∈ map fst fms -> oneof (meta f) <> "" -> is_Some (groups !! oneof (meta f));
  s_columns : declarations = concat (imap (itemColumns path topLevel groups) fms);
  s_checks : validations = concat (imap (itemChecks path topLevel groups) fms)
}.

Lemma mapScope_Ok mf fields path topLevel d declarations validations :
  mapScope mf fields path topLevel = (d, Ok (declarations, validations)) ->
  exists groups fms, ScopeOk mf fields path topLevel d declarations validations groups fms.
Proof.
  unfold mapScope. intros Hs. apply W_bind_Ok in Hs as (seen&d1&Hs1&Hs). apply W_bind_Ok in Hs as ([n groups]&d2&Hs2&Hs).
  apply W_bind_Ok in Hs as (st&d3&Hs3&[Heq ->]%wret_Ok). injection Heq as <- <-.
  apply checkNames_Ok in Hs1 as (->&fs&Hfs&Hok&Hnd&_). apply addMembers_Ok in Hs2 as (->&fs'&Hfs'&_&Hg&Hmem).
  simpl in Hg, Hmem, Hs3. apply emitFields_Ok in Hs3 as (fms&[He Hm -> Hi _ Hc Hv]); [|intros o g Hgo; by apply (go_name _ _ _ _ (Hg _ _ Hgo))].
  subst fields. apply (inj (fmap Some)) in Hfs', He. subst fs' fs. exists groups, fms. constructor; try done.
  intros f Hf Ho. by apply Hmem.
Qed.
