(* ===== verification/ClickHouseSpec.v ===== *)
(** * What the ClickHouse renderer guarantees

    Identifiers and literals are read back exactly; a constraint of the table never
    keeps a placeholder; columns and constraints have distinct names; every logical
    field yields one diagnostic; and each oneof gets one discriminator. *)
From S2P Require Import Prelude GoStrings StringFacts Utf8Facts Schema WellFormed Compiler Examples CompileSpec.
From S2P Require Import Render ClickHouse ClickHouseFacts.
Import ClickHouse.

(** ** Expressions of a scope: closed at the top level, templates below *)

#[local] Opaque quoteLiteral quoteIdentifier replaceValue constraintValuePlaceholder.

Definition Good (topLevel : bool) (e : string) : Prop :=
  if topLevel then noByte NUL e = true else Template e.

Lemma Good_app topLevel e e' : Good topLevel e -> Good topLevel e' -> Good topLevel (e +:+ e').
Proof. destruct topLevel; simpl; [|apply Template_app]. intros He He'. by rewrite noByte_append, He, He'. Qed.
Lemma Good_lit topLevel e : noByte NUL e = true -> Good topLevel e.
Proof. destruct topLevel; simpl; [done|apply Template_lit]. Qed.
Lemma Good_replace topLevel e e' : Template e -> Good topLevel e' -> Good topLevel (replaceValue e e').
Proof. destruct topLevel; simpl; [apply replaceValue_plain|apply Template_replace]. Qed.
Lemma Good_tuple topLevel e nm : Good topLevel e -> noByte NUL nm = true -> Good topLevel (tupleElementExpression e nm).
Proof.
  intros He Hn. unfold tupleElementExpression. repeat apply Good_app; try done; apply Good_lit; auto with template.
Qed.
Lemma Good_scope topLevel nm : noByte NUL nm = true -> Good topLevel (scopeElementExpression nm topLevel).
Proof.
  intros Hn. unfold scopeElementExpression. destruct topLevel; simpl; [by apply quoteIdentifier_plain|].
  apply (Good_tuple false); [apply Template_hole|done].
Qed.
#[local] Opaque tupleElementExpression scopeElementExpression.
#[export] Hint Resolve Good_app Good_replace Good_tuple Good_scope : template.
#[export] Hint Extern 5 (Good _ _) => apply Good_lit : template.

Definition checksGood (topLevel : bool) (l : list validation) : Prop :=
  Forall (fun v => Good topLevel (v_expression v)) l.

Lemma checksGood_map topLevel g l :
  (forall e, Template e -> Good topLevel (g e)) -> checksGood false l -> checksGood topLevel (map (mapExpression g) l).
Proof. intros Hg Hl. apply List.Forall_map. eapply list.Forall_impl; [exact Hl|]. intros v Hv. by apply Hg. Qed.

Lemma discriminator_good topLevel path fs o g :
  GroupOk path fs o g -> Good topLevel (v_expression (discriminator topLevel g).2).
Proof.
  intros Hg. unfold discriminator. cbn [snd v_expression].
  pose proof (validateIdentifier_plain _ (go_valid _ _ _ _ Hg)) as Hv. rewrite <- (go_case _ _ _ _ Hg) in Hv.
  apply Good_app; [by apply Good_scope|]. apply Good_lit. rewrite !noByte_append, !andb_true_iff. split_and!; [done| |done].
  apply noByte_Join; [done|]. constructor; [done|]. apply List.Forall_map, list.Forall_forall.
  intros. apply FormatUint_plain.
Qed.

Lemma fieldChecks_good path topLevel groups fs fm :
  (forall o g, groups !! o = Some g -> GroupOk path fs o g) -> nameOk topLevel fm.1 ->
  checksGood false (mf_validations fm.2) -> checksGood topLevel (fieldChecks path topLevel groups fm).
Proof.
  intros Hg (Hn%validateIdentifier_plain&_) Hm. unfold fieldChecks. apply list.Forall_app. split.
  - unfold presenceCheck. destruct (groups !! oneof (meta fm.1)) as [g|] eqn:E; [|constructor].
    pose proof (validateIdentifier_plain _ (go_valid _ _ _ _ (Hg _ _ E))) as Hv.
    rewrite <- (go_case _ _ _ _ (Hg _ _ E)) in Hv. constructor; [|constructor]. cbn [v_expression].
    repeat apply Good_app; try (apply Good_lit; auto with template; done); [by apply Good_scope|].
    apply Good_tuple; [by apply Good_scope|done].
  - apply checksGood_map; [|done]. intros e He. apply Good_replace; [done|]. by apply Good_scope.
Qed.

Lemma Forall_concat_imap {A B} (P : B -> Prop) (h : nat -> A -> list B) l :
  (forall i x, x ∈ l -> Forall P (h i x)) -> Forall P (concat (imap h l)).
Proof.
  revert h. induction l as [|x l IH]; intros h Hl; simpl; [constructor|].
  apply list.Forall_app. split; [apply Hl; left|]. apply IH. intros i y Hy. apply Hl. by right.
Qed.

Lemma scope_good mf fields path topLevel d decls vals groups fms :
  ScopeOk mf fields path topLevel d decls vals groups fms ->
  Forall (fun fm => checksGood false (mf_validations fm.2)) fms -> checksGood topLevel vals.
Proof.
  intros Hs Hm. rewrite (s_checks _ _ _ _ _ _ _ _ _ Hs). apply Forall_concat_imap. intros i fm Hfm.
  rewrite list.Forall_forall in Hm. pose proof (s_names _ _ _ _ _ _ _ _ _ Hs) as Hn. rewrite List.Forall_map, list.Forall_forall in Hn.
  unfold itemChecks. apply list.Forall_app. split.
  - unfold discriminators. destruct (groups !! oneof (meta fm.1)) as [g|] eqn:E; [|constructor].
    case_match; [|constructor]. constructor; [|constructor].
    eapply discriminator_good. by apply (s_groups _ _ _ _ _ _ _ _ _ Hs).
  - eapply fieldChecks_good; [by apply (s_groups _ _ _ _ _ _ _ _ _ Hs)|by apply Hn|by apply Hm].
Qed.

(** ** Constraints of types and presence *)

Lemma mapLeaf_good k path mt : mapLeaf k path = Ok mt -> checksGood false (mt_validations mt).
Proof.
  unfold mapLeaf, mapEnum. intros Hm. destruct k as [|p|e|s|l|mp|ts|u|j|d|u|n]; try done.
  - apply bind_Ok in Hm as (r&_&Hm). injection Hm as <-. cbn [mt_validations]. case_decide; [|constructor].
    repeat constructor. simpl. auto with template.
  - case_match; [done|]. case_match; [|injection Hm as <-; constructor].
    apply bind_Ok in Hm as (numbers&_&Hm). injection Hm as <-. repeat constructor. simpl.
    repeat apply Template_app; auto with template. apply Template_lit. apply noByte_Join; [done|].
    apply List.Forall_map, list.Forall_forall. intros. apply FormatInt_plain.
  - case_match; [done|]. injection Hm as <-. constructor.
  - case_match; [done|]. injection Hm as <-. constructor.
  - case_match; [done|]. injection Hm as <-. repeat constructor. simpl. auto with template.
  - apply bind_Ok in Hm as (r&_&Hm). injection Hm as <-. constructor.
  - case_match; [done|]. injection Hm as <-. constructor.
  - apply bind_Ok in Hm as (r&_&Hm). injection Hm as <-. constructor.
Qed.

Lemma forAll_template var array e : noByte NUL var = true -> Template array -> Template e -> Template (forAll var array e).
Proof. intros Hv Ha He. unfold forAll. auto 10 with template. Qed.
Lemma present_template : Template present.
Proof. apply (Good_tuple false); [apply Template_hole|done]. Qed.
Lemma guardPresent_template e : Template e -> Template (guardPresent e).
Proof.
  intros He. unfold guardPresent. pose proof present_template as Hp. pose proof (Good_tuple false _ "value" Template_hole eq_refl) as Ht.
  simpl in Ht. auto 10 with template.
Qed.
Lemma guardNull_template e : Template e -> Template (guardNull e).
Proof. intros He. unfold guardNull. auto 12 with template. Qed.

Lemma applyPresence_good m t path mapped mf compat msg :
  applyPresence m t path mapped = Ok (mf, compat, msg) -> checksGood false (mt_validations mapped) ->
  checksGood false (mf_validations mf).
Proof.
  unfold applyPresence. intros Ha Hc.
  destruct (presence m); try done; apply bind_Ok in Ha as (?&_&Ha); try case_match; injection Ha as <- _ _; try done;
    cbn [mf_validations]; try (constructor; [apply present_template|]); apply checksGood_map;
    first [done|exact guardPresent_template|exact guardNull_template].
Qed.

Lemma structType_good path decls vals : checksGood false vals -> checksGood false (mt_validations (structType path (decls, vals))).
Proof.
  intros Hv. destruct decls; [|done]. apply list.Forall_app. split; [done|]. constructor; [|constructor].
  apply Template_app; [apply (Good_tuple false); [apply Template_hole|done]|by apply Template_lit].
Qed.

Lemma listType_good path n e : checksGood false (mf_validations e) -> checksGood false (mt_validations (listType path n e)).
Proof.
  intros He. unfold listType. cbn [mt_validations]. apply list.Forall_app. split.
  - case_match; [|constructor]. constructor; [|constructor]. simpl. auto 6 with template.
  - apply checksGood_map; [|done]. intros e' He'. apply forAll_template; [done|apply Template_hole|done].
Qed.

Lemma mapType_good path k v mt :
  mapType_ path k v = Ok mt -> checksGood false (mf_validations k) -> checksGood false (mf_validations v) ->
  checksGood false (mt_validations mt).
Proof.
  unfold mapType_. intros Hm Hk Hv. case_match; [done|]. injection Hm as <-. cbn [mt_validations].
  constructor; [simpl; auto 12 with template|]. apply list.Forall_app. split; apply checksGood_map; try done;
    intros e He; (apply forAll_template; [done| |done]); auto with template.
Qed.

(** ** Inversion of the mapping *)

Lemma mapField_Ok m t path dg mf :
  mapField (mkField m (Some t)) path = (dg, Ok mf) ->
  exists below mapped compat msg, mapType t path = (below, Ok mapped) /\
    applyPresence m (Some t) path mapped = Ok (mf, compat, msg) /\ dg = mkDiagnostic path compat msg :: below.
Proof.
  cbn [mapField]. intros Hm. assert (exists below mapped, mapType t path = (below, mapped) /\
    fieldResult path below (mapped ← mapped; applyPresence m (Some t) path mapped) = (dg, Ok mf)) as (below&mapped&Ht&Hr).
  { destruct (validateText (description m)); [|done|..]; destruct (mapType t path) as [below mapped]; by exists below, mapped. }
  exists below. unfold fieldResult in Hr.
  destruct (mapped ≫= _) as [[[mf' compat] msg]| | |] eqn:E; try done. injection Hr as <- <-.
  apply bind_Ok in E as (mt&->&Ha). by exists mt, compat, msg.
Qed.

(** A collection or message is mapped through its children. *)
Lemma mapType_struct_Ok p fields path dg mt :
  mapType (mkDataType p (DataType_Struct (Some fields))) path = (dg, Ok mt) ->
  exists decls vals groups fms, ScopeOk mapField fields path false dg decls vals groups fms /\
    mt = structType path (decls, vals).
Proof.
  cbn [mapType]. destruct (mapScope mapField fields path false) as [dg' [[decls vals]| | |]] eqn:E; try done.
  intros [= -> <-]. apply mapScope_Ok in E as (groups&fms&Hs). by exists decls, vals, groups, fms.
Qed.
Lemma mapType_list_Ok p l path dg mt :
  mapType (mkDataType p (DataType_List l)) path = (dg, Ok mt) ->
  exists e n mf, l = Some (Some e, n) /\ mapField e (path +:+ "[]") = (dg, Ok mf) /\ mt = listType path n mf.
Proof.
  destruct l as [[[e|] n]|]; try done. cbn [mapType].
  destruct (mapField e (path +:+ "[]")) as [dg' [mf| | |]] eqn:E; try done. intros [= -> <-]. by exists e, n, mf.
Qed.
Lemma mapType_map_Ok p l path dg mt :
  mapType (mkDataType p (DataType_Map l)) path = (dg, Ok mt) ->
  exists k v kd vd kf vf, l = Some (Some k, Some v) /\ mapField k (path +:+ ".key") = (kd, Ok kf) /\
    mapField v (path +:+ ".value") = (vd, Ok vf) /\ dg = kd ++ vd /\ mapType_ path kf vf = Ok mt.
Proof.
  destruct l as [[[k|] [v|]]|]; try done. cbn [mapType].
  destruct (mapField k (path +:+ ".key")) as [kd [kf| | |]] eqn:E; try done.
  destruct (mapField v (path +:+ ".value")) as [vd [vf| | |]] eqn:E'; try done.
  cbn [mbind outcome_bind]. intros [= <- Hm]. by exists k, v, kd, vd, kf, vf.
Qed.

(** Every constraint below a field is a template over the value of the field. *)
Lemma mapField_good f path dg mf : mapField f path = (dg, Ok mf) -> checksGood false (mf_validations mf).
Proof.
  revert f path dg mf. apply (Field_tree_ind
    (fun f => forall path dg mf, mapField f path = (dg, Ok mf) -> checksGood false (mf_validations mf))
    (fun o => forall f, o = Some f -> forall path dg mf, mapField f path = (dg, Ok mf) ->
       checksGood false (mf_validations mf))); [done|by intros f IH g [= ->]|].
  intros m [t|] IH path dg mf Hm; [|done]. apply mapField_Ok in Hm as (below&mapped&compat&msg&Ht&Ha&_).
  eapply applyPresence_good; [exact Ha|]. rewrite list.Forall_forall in IH.
  destruct t as [p k]. cbn [GetKind kindOf] in IH.
  destruct k as [|pk|e|[fs|]|l|mp|ts|u|j|d|u|n]; try discriminate Ht;
    try exact (mapLeaf_good _ _ _ (f_equal snd Ht)).
  - apply mapType_struct_Ok in Ht as (decls&vals&groups&fms&Hs&->). apply structType_good.
    eapply scope_good; [exact Hs|]. apply list.Forall_forall. intros fm Hfm.
    pose proof (s_mapped _ _ _ _ _ _ _ _ _ Hs) as Hmap. rewrite list.Forall_forall in Hmap. specialize (Hmap fm Hfm).
    destruct (mapField fm.1 (pathOf path fm.1)) as [dg' r] eqn:E. simpl in Hmap. subst r.
    eapply (IH (Some fm.1)); [|done|exact E]. simpl. rewrite (s_fields _ _ _ _ _ _ _ _ _ Hs).
    apply list_elem_of_fmap_2. by apply list_elem_of_fmap_2.
  - apply mapType_list_Ok in Ht as (e&n&mf'&->&He&->). apply listType_good. eapply (IH (Some e)); [left|done|exact He].
  - apply mapType_map_Ok in Ht as (k&v&kd&vd&kf&vf&->&Hk&Hv&_&Hmt). eapply mapType_good; [exact Hmt| |].
    + eapply (IH (Some k)); [left|done|exact Hk].
    + eapply (IH (Some v)); [right; left|done|exact Hv].
Qed.

(** ** The table *)

Definition constraintOf (v : validation) : Constraint :=
  mkConstraint ("invariant." +:+ v_fieldPath v +:+ "." +:+ v_kind v) (v_expression v) (v_fieldPath v).

Lemma nameConstraints_Ok vals seen cs :
  nameConstraints vals seen = Ok cs ->
  cs = map constraintOf vals /\ NoDup (map con_Name cs) /\ Forall (fun n => seen !! n = None) (map con_Name cs).
Proof.
  revert seen cs. induction vals as [|v vals IH]; intros seen cs Hn; cbn [nameConstraints] in Hn.
  - injection Hn as <-. split_and!; by constructor.
  - destruct (seen !! _) eqn:E; [done|]. apply bind_Ok in Hn as (rest&Hr&Hn). injection Hn as <-.
    apply IH in Hr as (->&Hnd&Hfree). cbn [map con_Name]. rewrite list.Forall_forall in Hfree. split_and!; [done| |].
    + constructor; [|done]. intros Hin. specialize (Hfree _ Hin). by rewrite lookup_insert_eq in Hfree.
    + constructor; [done|]. apply list.Forall_forall. intros n Hin. specialize (Hfree _ Hin).
      by apply lookup_insert_None in Hfree as [? _].
Qed.

Lemma Schema_Ok ds d t :
  Schema (Some ds) = (d, Ok t) ->
  exists decls vals groups fms, ScopeOk mapField (ds_fields ds) "" true d decls vals groups fms /\
    Columns t = map columnOf (withUnit (decls, vals)).1 /\
    nameConstraints (withUnit (decls, vals)).2 ∅ = Ok (Constraints t).
Proof.
  unfold Schema. intros Hs. apply W_bind_Ok in Hs as (?&d1&[_ ->]%liftW_Ok&Hs).
  apply W_bind_Ok in Hs as (?&d2&[_ ->]%liftW_Ok&Hs). apply W_bind_Ok in Hs as ([decls vals]&d3&Hm&Hs).
  unfold liftResult in Hm. destruct (mapScope mapField (ds_fields ds) "" true) as [d0 r] eqn:E.
  injection Hm as <- ->. destruct (withUnit (decls, vals)) as [fields vals'] eqn:Eu.
  apply W_bind_Ok in Hs as (cs&d4&[Hn ->]%liftW_Ok&[<- ->]%wret_Ok).
  apply mapScope_Ok in E as (groups&fms&Hsc). exists decls, vals, groups, fms. by rewrite Eu.
Qed.

Lemma withUnit_good decls vals : checksGood true vals -> checksGood true (withUnit (decls, vals)).2.
Proof.
  intros Hv. unfold withUnit. destruct decls; [|done]. apply list.Forall_app. split; [done|].
  constructor; [|constructor]. apply (Good_app true); [|done]. by apply quoteIdentifier_plain.
Qed.

(** C15: no constraint of a table contains a NUL byte: every placeholder, at
    whatever depth it was introduced, has been replaced by an expression over the
    columns. *)
Theorem clickhouse_no_placeholder ds d t :
  Schema (Some ds) = (d, Ok t) -> Forall (fun c => noByte NUL (con_Expression c) = true) (Constraints t).
Proof.
  intros Hs. apply Schema_Ok in Hs as (decls&vals&groups&fms&Hsc&_&Hn).
  apply nameConstraints_Ok in Hn as (->&_). apply List.Forall_map. apply (withUnit_good decls vals). eapply scope_good; [exact Hsc|].
  eapply list.Forall_impl; [exact (s_mapped _ _ _ _ _ _ _ _ _ Hsc)|]. intros fm Hfm. simpl in Hfm.
  destruct (mapField fm.1 (pathOf "" fm.1)) as [dg r] eqn:E. simpl in Hfm. subst r. by eapply mapField_good.
Qed.

(** ** Names *)

Lemma oneofCaseName_reserved o : HasPrefix (oneofCaseName o) reservedNamePrefix = true.
Proof. apply HasPrefix_append. Qed.
Lemma oneofCaseName_inj o o' : oneofCaseName o = oneofCaseName o' -> o = o'.
Proof.
  unfold oneofCaseName. intros H%append_inv_head%append_inv_head. revert o' H.
  induction o as [|c o IH]; intros [|c' o'] H; [done| | |].
  - exfalso. apply (f_equal String.length) in H. rewrite !length_append in H. simpl in H. lia.
  - exfalso. apply (f_equal String.length) in H. rewrite !length_append in H. simpl in H. lia.
  - rewrite !append_cons in H. injection H as -> H. f_equal. by apply IH.
Qed.

(** The names a scope declares, field by field. *)
Definition caseNames (groups : gmap string oneofGroup) (i : nat) (f : Field) : list string :=
  match groups !! oneof (meta f) with
  | Some g => if g_firstIndex g =? i then [oneofCaseName (oneof (meta f))] else []
  | None => []
  end.

Lemma caseNames_elem groups i f n :
  n ∈ caseNames groups i f ->
  n = oneofCaseName (oneof (meta f)) /\ exists g, groups !! oneof (meta f) = Some g /\ g_firstIndex g = i.
Proof.
  unfold caseNames. destruct (groups !! oneof (meta f)) as [g|] eqn:E; [|by intros ?%not_elem_of_nil].
  destruct (Nat.eqb_spec (g_firstIndex g) i); [|by intros ?%not_elem_of_nil].
  intros ->%list_elem_of_singleton. eauto.
Qed.
Lemma caseNames_NoDup groups i f : NoDup (caseNames groups i f).
Proof. unfold caseNames. repeat case_match; auto using NoDup_singleton, NoDup_nil_2. Qed.

Lemma item_names path topLevel groups i fm :
  (forall o g, groups !! o = Some g -> g_caseName g = oneofCaseName o) ->
  map fd_name (itemColumns path topLevel groups i fm) = caseNames groups i fm.1 ++ [fieldName fm.1].
Proof.
  intros Hc. unfold itemColumns, discriminators, caseNames. rewrite !map_app. f_equal.
  destruct (groups !! oneof (meta fm.1)) as [g|] eqn:E; [|done]. case_match; [|done]. simpl. by rewrite (Hc _ _ E).
Qed.

Section Names.
Variables (path : string) (topLevel : bool) (groups : gmap string oneofGroup) (fms : list (Field * mappedField)).
Hypothesis Hcase : forall o g, groups !! o = Some g -> g_caseName g = oneofCaseName o.
Hypothesis Hok : Forall (nameOk topLevel) (map fst fms).
Hypothesis Hnd : NoDup (map fieldName (map fst fms)).

Definition namesUpTo (k : nat) : list string :=
  map fd_name (concat (imap (itemColumns path topLevel groups) (take k fms))).

Lemma namesUpTo_S k fm : fms !! k = Some fm -> namesUpTo (S k) = namesUpTo k ++ caseNames groups k fm.1 ++ [fieldName fm.1].
Proof.
  intros Hfm. unfold namesUpTo. pose proof (lookup_lt_Some _ _ _ Hfm).
  rewrite (take_S_r _ _ _ Hfm), concat_imap_snoc, map_app, item_names, length_take, Nat.min_l by (done || lia). done.
Qed.

Lemma field_not_reserved fm : fm ∈ fms -> HasPrefix (fieldName fm.1) reservedNamePrefix = false.
Proof. intros Hfm. rewrite List.Forall_map, list.Forall_forall in Hok. by apply Hok. Qed.

(** Where a declared name comes from. *)
Lemma namesUpTo_origin k n :
  k <= length fms -> n ∈ namesUpTo k ->
  n ∈ map fieldName (map fst (take k fms)) \/
  exists o g, groups !! o = Some g /\ g_firstIndex g < k /\ n = oneofCaseName o.
Proof.
  induction k as [|k IH]; intros Hk Hn; [by apply not_elem_of_nil in Hn|].
  destruct (lookup_lt_is_Some_2 fms k) as [fm Hfm]; [lia|]. rewrite (namesUpTo_S _ _ Hfm) in Hn.
  rewrite (take_S_r _ _ _ Hfm), !map_app. apply elem_of_app in Hn as [Hn|Hn].
  - destruct IH as [?|(o&g&?&?&?)]; [lia|done|left; apply elem_of_app; by left|].
    right. exists o, g. split_and!; [done|lia|done].
  - apply elem_of_app in Hn as [(->&g&Hg&Hi)%caseNames_elem|Hn].
    + right. exists (oneof (meta fm.1)), g. split_and!; [done|lia|done].
    + apply list_elem_of_singleton in Hn as ->. left. apply elem_of_app. right. left.
Qed.

Lemma take_fields_not_reserved k n :
  n ∈ map fieldName (map fst (take k fms)) -> HasPrefix n reservedNamePrefix = false.
Proof.
  rewrite map_map. intros (fm&->&Hin)%list_elem_of_fmap. apply field_not_reserved.
  apply elem_of_take in Hin as (?&?&_). by eapply list_elem_of_lookup_2.
Qed.

Lemma namesUpTo_NoDup k : k <= length fms -> NoDup (namesUpTo k).
Proof.
  induction k as [|k IH]; intros Hk; [constructor|]. destruct (lookup_lt_is_Some_2 fms k) as [fm Hfm]; [lia|].
  rewrite (namesUpTo_S _ _ Hfm). pose proof (field_not_reserved fm ltac:(by eapply list_elem_of_lookup_2)) as Hres.
  apply list.NoDup_app. split_and!; [apply IH; lia| |].
  - intros n Hn Hx. apply namesUpTo_origin in Hn; [|lia].
    apply elem_of_app in Hx as [(->&g&Hg&Hi)%caseNames_elem|Hx%list_elem_of_singleton].
    + destruct Hn as [Hr%take_fields_not_reserved|(o&g'&Hg'&Hlt&Ho%oneofCaseName_inj)].
      * by rewrite oneofCaseName_reserved in Hr.
      * subst o. rewrite Hg in Hg'. injection Hg' as <-. lia.
    + subst n. destruct Hn as [Hn|(o&g'&_&_&Ho)]; [|by rewrite Ho, oneofCaseName_reserved in Hres].
      pose proof Hnd as Hnd'. rewrite <- (take_drop_middle _ _ _ Hfm), !map_app in Hnd'. cbn [map] in Hnd'.
      apply list.NoDup_app in Hnd' as (_&Hd&_). apply (Hd _ Hn). left.
  - apply list.NoDup_app. split_and!; [apply caseNames_NoDup| |apply NoDup_singleton].
    intros n (->&_)%caseNames_elem Hx%list_elem_of_singleton. by rewrite <- Hx, oneofCaseName_reserved in Hres.
Qed.
End Names.

(** The columns of a table have distinct names (the discriminators of the
    oneofs included), and so do its constraints. *)
Theorem clickhouse_names_distinct ds d t :
  Schema (Some ds) = (d, Ok t) -> NoDup (map Name (Columns t)) /\ NoDup (map con_Name (Constraints t)).
Proof.
  intros Hs. apply Schema_Ok in Hs as (decls&vals&groups&fms&Hsc&Hc&Hn). split.
  - rewrite Hc, map_map. cbn [Name columnOf]. unfold withUnit. cbn [fst].
    assert (NoDup (map fd_name decls)) as Hd; [|by destruct decls; [apply NoDup_singleton|]].
    rewrite (s_columns _ _ _ _ _ _ _ _ _ Hsc), <- (take_ge fms (length fms)) by done.
    apply (namesUpTo_NoDup "" true groups fms); [|apply (s_names _ _ _ _ _ _ _ _ _ Hsc)|apply (s_distinct _ _ _ _ _ _ _ _ _ Hsc)|done].
    intros o g Ho. apply (go_case _ _ _ _ (s_groups _ _ _ _ _ _ _ _ _ Hsc _ _ Ho)).
  - by apply nameConstraints_Ok in Hn as (_&?&_).
Qed.

(** ** Diagnostics *)

Lemma leaf_paths p k path dg mt :
  mapType (mkDataType p k) path = (dg, Ok mt) ->
  match k with DataType_Struct (Some _) | DataType_List _ | DataType_Map _ => False | _ => True end -> dg = [].
Proof. intros Hm Hc. destruct k as [| | |[s|]|l|mp| | | | | |]; try done; exact (eq_sym (f_equal fst Hm)). Qed.

Lemma scope_paths fields path d decls vals groups fms g :
  ScopeOk mapField fields path g d decls vals groups fms ->
  (forall fm dg, fm ∈ fms -> mapField fm.1 (pathOf path fm.1) = (dg, Ok fm.2) ->
     map field_path dg = fieldPaths (pathOf path fm.1) fm.1) ->
  map field_path d = concat (map (fun f => fieldPaths (pathOf path f) f) (map fst fms)).
Proof.
  intros Hs Hp. rewrite (s_diagnostics _ _ _ _ _ _ _ _ _ Hs). pose proof (s_mapped _ _ _ _ _ _ _ _ _ Hs) as Hm.
  clear Hs. induction Hm as [|fm fms Hfm _ IH]; [done|]. simpl. rewrite map_app, IH by (intros; apply Hp; [by right|done]).
  f_equal. simpl in Hfm. destruct (mapField fm.1 (pathOf path fm.1)) as [dg r] eqn:E. simpl in Hfm. subst r.
  apply Hp; [left|done].
Qed.

Lemma struct_childPaths path fs :
  path <> "" ->
  concat (map (fun f => fieldPaths (pathOf path f) f) fs) =
  concat (map pathsOf (childPaths path (DataType_Struct (Some (map Some fs))))).
Proof.
  intros Hp. simpl. rewrite !map_map. f_equal. apply map_ext. intros f. unfold pathOf, pathsOf. simpl.
  by rewrite joinPath_nonempty.
Qed.

Lemma mapField_paths f path dg mf :
  path <> "" -> mapField f path = (dg, Ok mf) -> map field_path dg = fieldPaths path f.
Proof.
  revert f path dg mf. apply (Field_tree_ind
    (fun f => forall path dg mf, path <> "" -> mapField f path = (dg, Ok mf) -> map field_path dg = fieldPaths path f)
    (fun o => forall f, o = Some f -> forall path dg mf, path <> "" -> mapField f path = (dg, Ok mf) ->
       map field_path dg = fieldPaths path f)); [done|by intros f IH g [= ->]|].
  intros m [[p k]|] IH path dg mf Hp Hm; [|done]. apply mapField_Ok in Hm as (below&mapped&compat&msg&Ht&_&->).
  rewrite fieldPaths_unfold. cbn [map field_path GetKind kindOf] in *. f_equal. rewrite list.Forall_forall in IH.
  destruct k as [|pk|e|[fs|]|l|mp|ts|u|j|d|u|n];
    try (apply leaf_paths in Ht; [by rewrite Ht|done]).
  - apply mapType_struct_Ok in Ht as (decls&vals&groups&fms&Hs&_).
    rewrite (scope_paths _ _ _ _ _ _ _ _ Hs), struct_childPaths, <- (s_fields _ _ _ _ _ _ _ _ _ Hs); [done|done|].
    intros fm dg Hfm Hm. eapply (IH (Some fm.1)); [|done| |exact Hm].
    + simpl. rewrite (s_fields _ _ _ _ _ _ _ _ _ Hs). apply list_elem_of_fmap_2. by apply list_elem_of_fmap_2.
    + unfold pathOf. rewrite joinPath_nonempty by done. by intros [_ ?]%append_eq_nil.
  - apply mapType_list_Ok in Ht as (e&n&mf'&->&He&_). unfold pathsOf. simpl. rewrite app_nil_r.
    eapply (IH (Some e)); [left|done| |exact He]. by intros [_ ?]%append_eq_nil.
  - apply mapType_map_Ok in Ht as (key&v&kd&vd&kf&vf&->&Hk&Hv&->&_). unfold pathsOf. simpl.
    rewrite app_nil_r, map_app. f_equal.
    + eapply (IH (Some key)); [left|done| |exact Hk]. by intros [_ ?]%append_eq_nil.
    + eapply (IH (Some v)); [right; left|done| |exact Hv]. by intros [_ ?]%append_eq_nil.
Qed.

(** Whatever the dataset, a table that is produced comes with exactly one
    diagnostic per logical field, collection children included, in preorder. *)
Theorem clickhouse_diagnostics ds d t :
  Schema (Some ds) = (d, Ok t) -> map field_path d = datasetPaths ds.
Proof.
  intros Hs. apply Schema_Ok in Hs as (decls&vals&groups&fms&Hsc&_).
  rewrite (scope_paths _ _ _ _ _ _ _ _ Hsc).
  - unfold datasetPaths. rewrite (s_fields _ _ _ _ _ _ _ _ _ Hsc). clear. induction fms as [|fm fms IH]; [done|].
    simpl. by rewrite IH.
  - intros fm dg Hfm Hm. eapply mapField_paths; [|exact Hm]. unfold pathOf, joinPath. simpl.
    pose proof (s_names _ _ _ _ _ _ _ _ _ Hsc) as Hn. rewrite List.Forall_map, list.Forall_forall in Hn.
    destruct (Hn fm Hfm) as (Hv&_). intros He. by rewrite He in Hv.
Qed.

(** ** Oneofs *)

#[local] Transparent tupleElementExpression scopeElementExpression.

Lemma elem_of_concat_imap {A B} (h : nat -> A -> list B) l i x y :
  l !! i = Some x -> y ∈ h i x -> y ∈ concat (imap h l).
Proof.
  revert h i. induction l as [|z l IH]; intros h i Hi Hy; [done|]. simpl. apply elem_of_app.
  destruct i as [|i]; simpl in Hi; [injection Hi as <-; by left|]. right. by apply (IH (h ∘ S) i).
Qed.

Lemma withUnit_incl decls vals : decls ⊆ (withUnit (decls, vals)).1 /\ vals ⊆ (withUnit (decls, vals)).2.
Proof. unfold withUnit. destruct decls; simpl; set_solver. Qed.

(** A oneof of the table has one Int32 discriminator column that defaults to
    0, a constraint that confines it to 0 and the distinct non-zero numbers of the
    members, and for each member a constraint that equates "the discriminator
    selects the member" with "the member is present". *)
Theorem clickhouse_oneof ds d t f :
  Schema (Some ds) = (d, Ok t) -> Some f ∈ ds_fields ds -> oneof (meta f) <> "" ->
  let o := oneof (meta f) in
  let numbers := map number (filter (fun g => oneof (meta g) = o) (omap id (ds_fields ds))) in
  let case := quoteIdentifier (oneofCaseName o) in
  NoDup numbers /\ Forall (fun n => n <> 0%N) numbers /\ number f ∈ numbers /\
  (exists comment, mkColumn (oneofCaseName o) "Int32" "0" comment o 0 true ∈ Columns t) /\
  mkConstraint ("invariant." +:+ o +:+ ".oneof_case")
    (case +:+ " IN (" +:+ Join ("0" :: map FormatUint (merge_sort N.le numbers)) ", " +:+ ")") o ∈ Constraints t /\
  mkConstraint ("invariant." +:+ fieldName f +:+ ".oneof_presence")
    ("(" +:+ (case +:+ " = " +:+ FormatUint (number f)) +:+ ") = " +:+
     tupleElementExpression (quoteIdentifier (fieldName f)) "present") (fieldName f) ∈ Constraints t.
Proof.
  intros Hs Hf Hne o numbers case. apply Schema_Ok in Hs as (decls&vals&groups&fms&Hsc&Hc&Hn).
  assert (omap id (ds_fields ds) = map fst fms) as Hom.
  { rewrite (s_fields _ _ _ _ _ _ _ _ _ Hsc). clear. induction (map fst fms); [done|]. simpl. by f_equal. }
  rewrite (s_fields _ _ _ _ _ _ _ _ _ Hsc) in Hf. apply list_elem_of_fmap in Hf as (f'&[= <-]&Hf).
  destruct (s_members _ _ _ _ _ _ _ _ _ Hsc f Hf Hne) as [g Hg]. pose proof (s_groups _ _ _ _ _ _ _ _ _ Hsc _ _ Hg) as Hgo.
  assert (numbers = g_numbers g) as Hnum.
  { unfold numbers. by rewrite Hom, (go_numbers _ _ _ _ Hgo), (go_members _ _ _ _ Hgo). }
  destruct (withUnit_incl decls vals) as [Hdi Hvi]. apply nameConstraints_Ok in Hn as (Hcs&_).
  destruct (go_first _ _ _ _ Hgo) as (f0&Hf0&Ho0). rewrite list_lookup_fmap in Hf0.
  apply fmap_Some in Hf0 as (fm0&Hfm0&->).
  assert (discriminator true g ∈ discriminators true groups (g_firstIndex g) fm0.1) as Hdisc.
  { unfold discriminators. rewrite Ho0, Hg, Nat.eqb_refl. left. }
  split_and!.
  - rewrite Hnum. apply (go_distinct _ _ _ _ Hgo).
  - rewrite Hnum. apply (go_nonzero _ _ _ _ Hgo).
  - unfold numbers. rewrite Hom. apply list_elem_of_fmap_2. by apply list_elem_of_filter.
  - eexists. rewrite Hc. apply (list_elem_of_fmap_2' columnOf _ (discriminator true g).1).
    + apply Hdi. rewrite (s_columns _ _ _ _ _ _ _ _ _ Hsc). eapply elem_of_concat_imap; [exact Hfm0|].
      apply elem_of_app. left. by apply list_elem_of_fmap_2.
    + unfold columnOf, discriminator. simpl. by rewrite (go_case _ _ _ _ Hgo), (go_path _ _ _ _ Hgo).
  - rewrite Hcs. apply (list_elem_of_fmap_2' constraintOf _ (discriminator true g).2).
    + apply Hvi. rewrite (s_checks _ _ _ _ _ _ _ _ _ Hsc). eapply elem_of_concat_imap; [exact Hfm0|].
      apply elem_of_app. left. by apply list_elem_of_fmap_2.
    + unfold constraintOf, discriminator. simpl. by rewrite (go_case _ _ _ _ Hgo), (go_path _ _ _ _ Hgo), Hnum.
  - apply list_elem_of_fmap in Hf as (fm&->&Hfm). apply list_elem_of_lookup in Hfm as [i Hi]. rewrite Hcs.
    apply (list_elem_of_fmap_2' constraintOf _ (mkValidation (fieldName fm.1) "oneof_presence"
      ("(" +:+ (case +:+ " = " +:+ FormatUint (number fm.1)) +:+ ") = " +:+
       tupleElementExpression (quoteIdentifier (fieldName fm.1)) "present"))); [|done].
    apply Hvi. rewrite (s_checks _ _ _ _ _ _ _ _ _ Hsc). eapply elem_of_concat_imap; [exact Hi|].
    unfold itemChecks, fieldChecks, presenceCheck. rewrite Hg, (go_case _ _ _ _ Hgo). apply elem_of_app. right. left.
Qed.

(** ** Quoting *)

(** ClickHouse reads a quoted token: a backslash escapes the next byte, a doubled
    quote stands for the quote. *)
Definition unescape (c : ascii) : ascii :=
  if Ascii.eqb c "n" then LF else if Ascii.eqb c "r" then CR else if Ascii.eqb c "t" then TAB else c.
Fixpoint scanEscaped (q : ascii) (s : string) : option (string * string) :=
  match s with
  | EmptyString => None
  | String c s' =>
      if Ascii.eqb c q then
        match s' with
        | String d s'' =>
            if Ascii.eqb d q
            then match scanEscaped q s'' with Some (v, rest) => Some (String q v, rest) | None => None end
            else Some (EmptyString, s')
        | EmptyString => Some (EmptyString, EmptyString)
        end
      else if Ascii.eqb c BACKSLASH then
        match s' with
        | String d s'' => match scanEscaped q s'' with Some (v, rest) => Some (String (unescape d) v, rest) | None => None end
        | EmptyString => None
        end
      else match scanEscaped q s' with Some (v, rest) => Some (String c v, rest) | None => None end
  end.
Definition lexEscaped (q : ascii) (s : string) : option (string * string) :=
  match s with
  | String c s => if Ascii.eqb c q then scanEscaped q s else None
  | EmptyString => None
  end.

(** An escape that the lexer undoes. *)
Definition escapes (q : ascii) (g : ascii -> string) : Prop :=
  forall c, g c = str1 c /\ c <> q /\ c <> BACKSLASH \/
            exists d, g c = String BACKSLASH (str1 d) /\ unescape d = c.

Lemma scanEscaped_escaped q g s rest :
  q <> BACKSLASH -> escapes q g -> startsWith q rest = false ->
  scanEscaped q (mapBytes g s +:+ str1 q +:+ rest) = Some (s, rest).
Proof.
  intros Hq Hg Hr. induction s as [|c s IH].
  - cbn [mapBytes]. rewrite append_nil_l. unfold str1. rewrite append_cons, append_nil_l. cbn [scanEscaped].
    rewrite Ascii.eqb_refl. destruct rest as [|d rest]; [done|]. simpl in Hr. by rewrite Hr.
  - cbn [mapBytes]. rewrite append_assoc. destruct (Hg c) as [(->&Hcq&Hcb)|(d&->&Hd)].
    + unfold str1 at 1. rewrite append_cons, append_nil_l. cbn [scanEscaped].
      rewrite (proj2 (Ascii.eqb_neq c q) Hcq), (proj2 (Ascii.eqb_neq c BACKSLASH) Hcb). by rewrite IH.
    + unfold str1 at 1. rewrite !append_cons, append_nil_l. cbn [scanEscaped].
      rewrite (proj2 (Ascii.eqb_neq BACKSLASH q)), Ascii.eqb_refl by done. by rewrite IH, Hd.
Qed.

Lemma escapeIdentifier_escapes : escapes BACKTICK escapeIdentifier.
Proof.
  intros c. unfold escapeIdentifier. destruct (Ascii.eqb_spec c BACKSLASH) as [->|]; [by right; exists BACKSLASH|].
  destruct (Ascii.eqb_spec c BACKTICK) as [->|]; [by right; exists BACKTICK|]. by left.
Qed.
Lemma escapeLiteral_escapes : escapes SQUOTE escapeLiteral.
Proof.
  intros c. unfold escapeLiteral. destruct (Ascii.eqb_spec c BACKSLASH) as [->|]; [by right; exists BACKSLASH|].
  destruct (Ascii.eqb_spec c SQUOTE) as [->|]; [by right; exists SQUOTE|].
  destruct (Ascii.eqb_spec c LF) as [->|]; [by right; exists "n"%char|].
  destruct (Ascii.eqb_spec c CR) as [->|]; [by right; exists "r"%char|].
  destruct (Ascii.eqb_spec c TAB) as [->|]; [by right; exists "t"%char|]. by left.
Qed.

#[local] Transparent quoteLiteral quoteIdentifier.

(** A quoted identifier and a quoted literal are read back exactly, whatever
    bytes they contain and whatever follows them. *)
Theorem clickhouse_quoting s rest :
  startsWith BACKTICK rest = false -> startsWith SQUOTE rest = false ->
  lexEscaped BACKTICK (quoteIdentifier s +:+ rest) = Some (s, rest) /\
  lexEscaped SQUOTE (quoteLiteral s +:+ rest) = Some (s, rest).
Proof.
  intros Hb Hs. unfold quoteIdentifier, quoteLiteral. rewrite !append_assoc. unfold str1 at 1 3.
  rewrite !append_cons, !append_nil_l. unfold lexEscaped. rewrite !Ascii.eqb_refl. split.
  - apply scanEscaped_escaped; [done|apply escapeIdentifier_escapes|done].
  - apply scanEscaped_escaped; [done|apply escapeLiteral_escapes|done].
Qed.

(** ** Witnesses *)

(** A table with a oneof of a text and a list inside a message. *)
Definition choiceTable : DatasetSchema :=
  let field num nm id pres nl o t :=
    Some (mkField (mkFieldMeta ("m." +:+ nm) num nm id pres nl o "" (if decide (nm = "element")
      then SYNTHETIC_ROLE_LIST_ELEMENT else SYNTHETIC_ROLE_PROTO_FIELD) false "" nm nm) (Some (mkDataType "" t))) in
  mkDatasetSchema "m" "m" ""
    [field [1%N] "label" 1%Z PRESENCE_ONEOF true "choice" (DataType_Primitive (Some PRIMITIVE_KIND_STRING));
     field [2%N] "items" 2%Z PRESENCE_ONEOF true "choice" (DataType_Struct (Some
       [field [2%N; 1%N] "tags" 3%Z PRESENCE_REPEATED false "" (DataType_List (Some
          (field [2%N; 1%N] "element" 4%Z PRESENCE_NOT_APPLICABLE false ""
             (DataType_Primitive (Some PRIMITIVE_KIND_STRING)), 0%N)))]))] 4 [].
Definition choiceSchema : TableSchema :=
  match (Schema (Some choiceTable)).2 with Ok t => t | _ => mkTableSchema "" "" "" [] [] end.
Definition choiceDiagnostics : list MappingDiagnostic := (Schema (Some choiceTable)).1.

Lemma clickhouse_no_placeholder_witness :
  Forall (fun c => noByte NUL (con_Expression c) = true) (Constraints choiceSchema).
Proof. apply (clickhouse_no_placeholder choiceTable choiceDiagnostics). vm_compute. reflexivity. Defined.

Lemma clickhouse_names_distinct_witness :
  NoDup (map Name (Columns choiceSchema)) /\ NoDup (map con_Name (Constraints choiceSchema)).
Proof. apply (clickhouse_names_distinct choiceTable choiceDiagnostics). vm_compute. reflexivity. Defined.

Lemma clickhouse_diagnostics_witness : map field_path choiceDiagnostics = datasetPaths choiceTable.
Proof. apply (clickhouse_diagnostics choiceTable choiceDiagnostics choiceSchema). vm_compute. reflexivity. Defined.

Definition choiceLabel : Field :=
  match ds_fields choiceTable with Some f :: _ => f | _ => mkField zeroMeta None end.
Lemma clickhouse_oneof_witness :
  mkConstraint "invariant.label.oneof_presence"
    "(`__invariant_oneof_choice_case` = 1) = tupleElement(`label`, 'present')" "label" ∈ Constraints choiceSchema.
Proof.
  refine (proj2 (proj2 (proj2 (proj2 (proj2 (clickhouse_oneof choiceTable choiceDiagnostics choiceSchema choiceLabel _ _ _)))))).
  - vm_compute. reflexivity.
  - left.
  - done.
Defined.

Lemma clickhouse_quoting_witness :
  lexEscaped BACKTICK (quoteIdentifier "a`b\" +:+ ")") = Some ("a`b\", ")") /\
  lexEscaped SQUOTE (quoteLiteral "a`b\" +:+ ")") = Some ("a`b\", ")").
Proof. apply clickhouse_quoting; reflexivity. Defined.
