(* ===== verification/Projection.v ===== *)
(** * From ClickHouse to Iceberg (src/go/data/clickhouse/projection.go)

    A conversion plan: for each logical field the physical ClickHouse type, the
    Iceberg target type, and the expressions that say when the field is present
    and what its value is.  The Iceberg targets are found by stable id; the lookup
    and the text of a type belong to iceberg-go and are operations of the class
    [IcebergRuntime]. *)
From S2P Require Import Prelude GoStrings StringFacts Schema WellFormed Json Render Iceberg ClickHouse.
Import ClickHouse.

Module Projection.

Class IcebergRuntime : Type := {
  FindFieldByID : Iceberg.IcebergSchema -> Z -> option Iceberg.Type_;
  TypeName : Iceberg.Type_ -> string
}.

(** The lookup finds every id of the schema, at any depth. *)
Class IcebergRuntimeLaws `{IcebergRuntime} : Prop := {
  FindFieldByID_found s id :
    id ∈ concat (map Iceberg.fieldIDs (Iceberg.schema_fields s)) -> is_Some (FindFieldByID s id)
}.

Definition ProjectionVersion : N := 2.

Inductive IcebergFieldProjection : Type := mkFieldProjection {
  FieldPath_ : string;
  Name_ : string;
  StableID_ : Z;
  ClickHouseType : string;
  IcebergType : string;
  PresenceExpression : string;
  ValueExpression : string;
  FixedLength : N;
  Discriminator : string;
  ProtobufFieldNumber : N;
  Children : list IcebergFieldProjection
}.
Record IcebergProjection : Type := mkProjection {
  Version : N;
  Dataset_ : string;
  SourceMessage_ : string;
  Fields : list IcebergFieldProjection
}.

Definition conversionExpression (t : option DataType) (value : string) : string :=
  match GetKind t with
  | DataType_Primitive p =>
      match GetPrimitiveKind p with
      | PRIMITIVE_KIND_UINT64 | PRIMITIVE_KIND_FIXED64 => "accurateCast(" +:+ value +:+ ", 'Decimal(20, 0)')"
      | PRIMITIVE_KIND_UINT32 | PRIMITIVE_KIND_FIXED32 => "toInt64(" +:+ value +:+ ")"
      | _ => value
      end
  | DataType_Timestamp _ => "toUnixTimestamp64Nano(" +:+ value +:+ ")"
  | _ => value
  end.

(** How a publisher reads the presence and the value of a field. *)
Record reading : Type := mkReading {
  r_presence : string;
  r_value : string;
  r_discriminator : string;
  r_number : N
}.

Definition readPresence (m : FieldMeta) (composite : bool) (path : string) : Outcome reading :=
  let tuplePresent := tupleElementExpression projectionValuePlaceholder "present" in
  let tupleValue := tupleElementExpression projectionValuePlaceholder "value" in
  match presence m with
  | PRESENCE_EXPLICIT =>
      if composite then Ok (mkReading tuplePresent tupleValue "" 0)
      else Ok (mkReading ("isNotNull(" +:+ projectionValuePlaceholder +:+ ")")
                 ("assumeNotNull(" +:+ projectionValuePlaceholder +:+ ")") "" 0)
  | PRESENCE_REQUIRED => Ok (mkReading tuplePresent tupleValue "" 0)
  | PRESENCE_ONEOF =>
      if (length (proto_number_path m) =? 0) then
        Err ("clickhouse: projection oneof field " +:+ Quote path +:+ " has no protobuf field number")
      else
        let fieldNumber := lastNumber (proto_number_path m) in
        Ok (mkReading (tuplePresent +:+ " AND {case} = " +:+ FormatUint fieldNumber) tupleValue
              (oneofCaseName (oneof m)) fieldNumber)
  | PRESENCE_IMPLICIT | PRESENCE_REPEATED | PRESENCE_MAP | PRESENCE_NOT_APPLICABLE =>
      Ok (mkReading "true" projectionValuePlaceholder "" 0)
  | p => Err ("clickhouse: projection field " +:+ Quote path +:+ " has unsupported presence " +:+ Presence_String p)
  end.

Section WithRuntime.
Context `{IcebergRuntime}.

Definition findTarget (finder : Iceberg.IcebergSchema) (id : Z) (path : string) : Outcome string :=
  match FindFieldByID finder id with
  | Some t => Ok (TypeName t)
  | None => Err ("clickhouse: Iceberg target is missing stable_id " +:+ FormatInt id +:+ " for field " +:+ Quote path)
  end.

(** The node itself, without its children. *)
Definition projectNode (field : Field) (path icebergType : string) : Outcome IcebergFieldProjection :=
  match typ field with
  | None => Err ("clickhouse: projection field " +:+ Quote path +:+ " has no logical type")
  | Some t =>
      physical ← (mapField field path).2;
      mapped ← wrapErr ("clickhouse: projection field " +:+ Quote path +:+ ": ") (mapType t path).2;
      r ← readPresence (meta field) (mt_composite mapped) path;
      Ok (mkFieldProjection path (name (meta field)) (stable_id (meta field)) (mf_sqlType physical) icebergType
            (r_presence r) (conversionExpression (Some t) (r_value r)) (GetFixedLength (GetList (Some t)))
            (r_discriminator r) (r_number r) [])
  end.

Definition withChildren (p : IcebergFieldProjection) (children : list IcebergFieldProjection)
  : IcebergFieldProjection :=
  mkFieldProjection (FieldPath_ p) (Name_ p) (StableID_ p) (ClickHouseType p) (IcebergType p) (PresenceExpression p)
    (ValueExpression p) (FixedLength p) (Discriminator p) (ProtobufFieldNumber p) children.

Fixpoint projectField (finder : Iceberg.IcebergSchema) (field : Field) (path icebergType : string) {struct field}
  : Outcome IcebergFieldProjection :=
  let appendChild (c : option Field) (childPath : string) : Outcome IcebergFieldProjection :=
    match c with
    | None => Err ("clickhouse: projection field " +:+ Quote path +:+ " contains a nil child")
    | Some child =>
        target ← findTarget finder (stable_id (meta child)) childPath;
        projectField finder child childPath target
    end in
  projected ← projectNode field path icebergType;
  match field with
  | mkField _ (Some (mkDataType _ kind)) =>
      match kind with
      | DataType_Struct (Some fields) =>
          children ← mapOutcome (fun c => appendChild c (joinPath path (name (metaOf c)))) fields;
          Ok (withChildren projected children)
      | DataType_List (Some (element, _)) =>
          child ← appendChild element (path +:+ "[]");
          Ok (withChildren projected [child])
      | DataType_List None => appendChild None (path +:+ "[]")
      | DataType_Map (Some (key, value)) =>
          k ← appendChild key (path +:+ ".key");
          v ← appendChild value (path +:+ ".value");
          Ok (withChildren projected [k; v])
      | DataType_Map None => appendChild None (path +:+ ".key")
      | _ => Ok projected
      end
  | _ => Ok projected
  end.

Definition projectTop (finder : Iceberg.IcebergSchema) (field : option Field) : Outcome IcebergFieldProjection :=
  let m := metaOf field in
  target ← findTarget finder (stable_id m) (name m);
  match field with
  | Some f => projectField finder f (name m) target
  | None => Err ("clickhouse: projection field " +:+ Quote (name m) +:+ " has no logical type")
  end.

Definition ProjectToIceberg (dataset : option DatasetSchema) : Result IcebergProjection :=
  match dataset with
  | None => ([], Err "clickhouse: nil dataset schema")
  | Some ds =>
      match ClickHouse.Schema (Some ds) with
      | (clickhouseDiagnostics, Ok _) =>
          let '(icebergDiagnostics, icebergSchema) := Iceberg.Schema (Some ds) in
          (clickhouseDiagnostics ++ icebergDiagnostics,
           finder ← wrapErr "clickhouse: build Iceberg target schema: " icebergSchema;
           fields ← mapOutcome (projectTop finder) (ds_fields ds);
           Ok (mkProjection ProjectionVersion (ds_name ds) (source_message ds) fields))
      | (clickhouseDiagnostics, Err e) =>
          (clickhouseDiagnostics, Err ("clickhouse: build native schema before Iceberg projection: " +:+ e))
      | (clickhouseDiagnostics, Panic e) => (clickhouseDiagnostics, Panic e)
      | (clickhouseDiagnostics, NoFuel) => (clickhouseDiagnostics, NoFuel)
      end
  end.
End WithRuntime.

(** ** JSON *)

Definition omitZero (key : string) (value : N) : list (string * JsonValue) :=
  if (value =? 0)%N then [] else [(key, JInt (Z.of_N value))].

Fixpoint fieldJSON (p : IcebergFieldProjection) : JsonValue :=
  match p with
  | mkFieldProjection path nm id ch ice pres value fixedLength disc number children =>
      JObject
        ([("field_path", JString path); ("name", JString nm); ("stable_id", JInt id);
          ("clickhouse_type", JString ch); ("iceberg_type", JString ice);
          ("presence_expression", JString pres); ("value_expression", JString value)]
         ++ omitZero "fixed_length" fixedLength ++ omitEmpty "discriminator" disc
         ++ omitZero "protobuf_field_number" number
         ++ match children with [] => [] | _ => [("children", JArray (map fieldJSON children))] end)
  end.

Definition ProjectionJSON (projection : option IcebergProjection) : Outcome string :=
  match projection with
  | None => Err "clickhouse: nil Iceberg projection"
  | Some p =>
      Ok (Marshal (JObject
            [("version", JInt (Z.of_N (Version p))); ("dataset", JString (Dataset_ p));
             ("source_message", JString (SourceMessage_ p)); ("fields", JArray (map fieldJSON (Fields p)))]))
  end.

(** The nodes of a plan, in preorder. *)
Fixpoint planNodes (p : IcebergFieldProjection) : list IcebergFieldProjection :=
  p :: (fix go (l : list IcebergFieldProjection) := match l with [] => [] | c :: l => planNodes c ++ go l end) (Children p).
End Projection.
