(* ===== verification/ProjectionSpec.v ===== *)
(** * What the ClickHouse-to-Iceberg projection guarantees

    A dataset both renderers accept has a plan: every target is found, and the
    plan has one node per logical field, with its path and its stable id. *)
From S2P Require Import Prelude GoStrings StringFacts Utf8Facts Schema WellFormed Compiler Examples CompileSpec.
From S2P Require Import Json Render Iceberg IcebergSpec ClickHouse ClickHouseFacts ClickHouseSpec Projection.
Import ClickHouse Projection.

(** ** The ids of an Iceberg schema *)

Lemma iceberg_mapLeaf_ids k path t ch cp ms : Iceberg.mapLeaf k path = Ok (t, ch, cp, ms) -> Iceberg.typeIDs t = [].
Proof.
  unfold Iceberg.mapLeaf. intros Hm. destruct k as [|p|e|s|l|mp|ts|u|j|d|u|n]; try done.
  - apply bind_Ok in Hm as ([[t' cp'] ms']&Ht%wrapErr_Ok&Hm). injection Hm as <- _ _ _.
    destruct (GetPrimitiveKind p); simpl in Ht; by simplify_eq.
  - case_match; by simplify_eq.
  - case_match; by simplify_eq.
  - case_match; by simplify_eq.
  - by simplify_eq.
  - apply bind_Ok in Hm as ([p s]&_&Hm). by simplify_eq.
  - case_match; by simplify_eq.
  - apply bind_Ok in Hm as (w&_&Hm). by simplify_eq.
Qed.

Lemma iceberg_mapField_ids f path nf ds : Iceberg.mapField f path = Ok (nf, ds) -> Iceberg.fieldIDs nf = idsOf f.
Proof.
  revert f path nf ds. apply (Field_tree_ind
    (fun f => forall path nf ds, Iceberg.mapField f path = Ok (nf, ds) -> Iceberg.fieldIDs nf = idsOf f)
    (fun o => forall f, o = Some f -> forall path nf ds, Iceberg.mapField f path = Ok (nf, ds) ->
       Iceberg.fieldIDs nf = idsOf f)); [done|by intros f IH g [= ->]|].
  intros m [t|] IH path nf ds Hm; [|done]. cbn [Iceberg.mapField] in Hm.
  apply bind_Ok in Hm as ([[[mt ch] cp] ms]&Ht&Hm). apply bind_Ok in Hm as ([d1 d2]&_&Hm).
  injection Hm as <- _. unfold idsOf. rewrite subFields_unfold. cbn [Iceberg.fieldIDs map meta GetKind] in *. f_equal.
  destruct t as [p k]. cbn [kindOf] in *. rewrite list.Forall_forall in IH.
  destruct k as [|pk|e|[fs|]|[[[e|] n]|]|[[[key|] [v|]]|]|ts|u|j|d|u|n]; try discriminate Ht;
    try exact (iceberg_mapLeaf_ids _ _ _ _ _ _ Ht).
  - apply bind_Ok in Ht as (rs&Hrs&Ht). injection Ht as <- _ _ _. rewrite typeIDs_struct. apply mapOutcome_Ok in Hrs.
    change (childrenOf (DataType_Struct (Some fs))) with fs in *. clear -Hrs IH.
    induction Hrs as [|[f|] [nf ds] l rs Ho _ IHl]; [done| |done]. rewrite childSubFields_cons, map_app. cbn [map concat].
    rewrite IHl by (intros o Hin; apply IH; by right). f_equal. eapply (IH (Some f)); [left|done|exact Ho].
  - injection Ht as <- _ _ _. done.
  - apply bind_Ok in Ht as ([nf dg]&He&Ht). destruct (Iceberg.listMessage n). injection Ht as <- _ _ _.
    cbn [childrenOf GetListElement]. rewrite childSubFields_cons, app_nil_r. cbn [Iceberg.typeIDs fst].
    rewrite <- fieldIDs_eq. eapply (IH (Some e)); [left|done|exact He].
  - apply bind_Ok in Ht as ([nf dg]&He&Ht). apply bind_Ok in Ht as ([nf' dg']&He'&Ht). injection Ht as <- _ _ _.
    cbn [childrenOf GetMapKey GetMapValue]. rewrite !childSubFields_cons, app_nil_r, map_app. cbn [Iceberg.typeIDs fst].
    rewrite <- !fieldIDs_eq. f_equal.
    + eapply (IH (Some key)); [left|done|exact He].
    + eapply (IH (Some v)); [right; left|done|exact He'].
  - by apply bind_Ok in Ht as (?&_&Ht).
Qed.

(** A schema that is produced holds the stable ids of the dataset, in preorder. *)
Lemma iceberg_schema_ids ds d s :
  Iceberg.Schema (Some ds) = (d, Ok s) ->
  concat (map Iceberg.fieldIDs (Iceberg.schema_fields s)) =
  map (fun f => stable_id (meta f)) (childSubFields (ds_fields ds)).
Proof.
  unfold Iceberg.Schema. intros Hs. apply W_bind_Ok in Hs as (?&d1&_&Hs). apply W_bind_Ok in Hs as (fields&d2&Hf&[<- _]%wret_Ok).
  cbn [Iceberg.schema_fields]. change Iceberg.mapTopLevel with (collect (fun field =>
    match field with Some f => Iceberg.mapField f (name (meta f)) | None => Iceberg.noType "" end)) in Hf.
  apply foldW_collect in Hf as (rs&Hrs&_&->). apply mapOutcome_Ok in Hrs. simpl.
  induction Hrs as [|[f|] [nf dg] l rs Ho _ IH]; [done| |done]. rewrite childSubFields_cons, map_app. cbn [map concat].
  rewrite IH. f_equal. by eapply iceberg_mapField_ids.
Qed.

(** ** Fields the ClickHouse renderer accepted *)

Definition Ready (f : Field) (path : string) : Prop :=
  (exists dg mf, mapField f path = (dg, Ok mf)) /\ (presence (meta f) = PRESENCE_ONEOF -> number f <> 0%N).

Lemma scope_ready fields path topLevel d decls vals groups fms :
  ScopeOk mapField fields path topLevel d decls vals groups fms ->
  Forall (fun f => Ready f (pathOf path f)) (map fst fms).
Proof.
  intros Hs. apply list.Forall_forall. intros f Hf. pose proof Hf as Hin. apply list_elem_of_fmap in Hf as (fm&->&Hfm).
  pose proof (s_mapped _ _ _ _ _ _ _ _ _ Hs) as Hm. rewrite list.Forall_forall in Hm. specialize (Hm fm Hfm).
  destruct (mapField fm.1 (pathOf path fm.1)) as [dg r] eqn:E. simpl in Hm. subst r. split; [by exists dg, fm.2|].
  intros Hp. assert (oneof (meta fm.1) <> "") as Ho.
  { destruct fm as [[m [t|]] mf]; [|done]. apply mapField_Ok in E as (?&?&?&?&_&Ha&_). unfold applyPresence in Ha.
    simpl in *. rewrite Hp in Ha. apply bind_Ok in Ha as (?&Hg%failIf_Ok&_).
    apply orb_false_iff in Hg as [Hg%String.eqb_neq _]. done. }
  destruct (s_members _ _ _ _ _ _ _ _ _ Hs _ Hin Ho) as [g Hg]. pose proof (s_groups _ _ _ _ _ _ _ _ _ Hs _ _ Hg) as Hgo.
  pose proof (go_nonzero _ _ _ _ Hgo) as Hz. rewrite list.Forall_forall in Hz. apply Hz.
  rewrite (go_numbers _ _ _ _ Hgo), (go_members _ _ _ _ Hgo). apply list_elem_of_fmap_2. by apply list_elem_of_filter.
Qed.

(** A synthetic child is never a oneof member. *)
Lemma synthetic_ready g role path dg mf :
  wfTree g -> synthetic_role (meta g) = role -> role <> SYNTHETIC_ROLE_PROTO_FIELD ->
  mapField g path = (dg, Ok mf) -> Ready g path.
Proof.
  intros Hwf Hr Hne Hm. split; [eauto|]. intros Hp. destruct g as [m t]. apply wfTree_node in Hwf as (_&_&Hpr).
  unfold wfPresence in Hpr. simpl in *. rewrite Hp in Hpr. naive_solver.
Qed.

Lemma children_ready m t path dg mf :
  wfTree (mkField m (Some t)) -> path <> "" -> mapField (mkField m (Some t)) path = (dg, Ok mf) ->
  Forall (fun c => exists g, c.1 = Some g /\ Ready g c.2) (childPaths path (kindOf t)).
Proof.
  intros Hwf Hp Hm. pose proof (wfTree_children _ _ Hwf) as Hch. apply wfTree_node in Hwf as (_&Hk&_).
  apply mapField_Ok in Hm as (below&mapped&compat&msg&Ht&_). destruct t as [p k]. cbn [GetKind kindOf typ] in *.
  destruct k as [|pk|e|[fs|]|l|mp|ts|u|j|d|u|n]; try constructor.
  - apply mapType_struct_Ok in Ht as (decls&vals&groups&fms&Hs&_). pose proof (scope_ready _ _ _ _ _ _ _ _ Hs) as Hr.
    simpl. rewrite (s_fields _ _ _ _ _ _ _ _ _ Hs). rewrite !List.Forall_map in *.
    eapply list.Forall_impl; [exact Hr|]. intros fm Hfm. exists fm.1. split; [done|]. simpl.
    unfold pathOf in Hfm. by rewrite joinPath_nonempty in Hfm.
  - apply mapType_list_Ok in Ht as (e&n&mf'&->&He&_). exists e. split; [done|]. destruct Hk as [(e'&[= <-]&Hr) _].
    apply list.Forall_cons in Hch as [(e'&[= <-]&Hwe) _]. by eapply synthetic_ready.
  - constructor.
  - apply mapType_map_Ok in Ht as (key&v&kd&vd&kf&vf&->&Hkk&Hv&_). exists key. split; [done|].
    destruct Hk as ((e'&[= <-]&Hr)&_). apply list.Forall_cons in Hch as [(e'&[= <-]&Hwe) _]. by eapply synthetic_ready.
  - apply mapType_map_Ok in Ht as (key&v&kd&vd&kf&vf&->&Hkk&Hv&_). constructor; [|constructor]. exists v. split; [done|].
    destruct Hk as (_&(e'&[= <-]&Hr)&_). apply list.Forall_cons in Hch as [_ Hch].
    apply list.Forall_cons in Hch as [(e'&[= <-]&Hwe) _]. by eapply synthetic_ready.
Qed.

(** ** The plan *)

Section WithRuntime.
Context `{IcebergRuntimeLaws}.

Definition projectChild (finder : Iceberg.IcebergSchema) (parent : string) (c : option Field * string)
  : Outcome IcebergFieldProjection :=
  match c.1 with
  | None => Err ("clickhouse: projection field " +:+ Quote parent +:+ " contains a nil child")
  | Some child =>
      target ← findTarget finder (stable_id (meta child)) c.2;
      projectField finder child c.2 target
  end.

Lemma projectField_unfold finder m t path ity node :
  path <> "" -> projectNode (mkField m (Some t)) path ity = Ok node ->
  projectField finder (mkField m (Some t)) path ity =
  (children ← mapOutcome (projectChild finder path) (childPaths path (kindOf t)); Ok (withChildren node children)).
Proof.
  intros Hp Hn. cbn [projectField]. rewrite Hn. cbn [mbind outcome_bind].
  assert (withChildren node [] = node) as Hw.
  { unfold projectNode in Hn. simpl in Hn. repeat (apply bind_Ok in Hn as (?&_&Hn)). by injection Hn as <-. }
  destruct t as [p [| | |[fs|]|[[e n]|]|[[k v]|]| | | | | |]]; cbn [kindOf childPaths mapOutcome mbind outcome_bind];
    rewrite ?Hw; try done.
  - cbn [GetStructFields default]. rewrite mapOutcome_fmap. erewrite mapOutcome_ext; [reflexivity|].
    intros c. unfold projectChild. simpl. rewrite joinPath_nonempty by done. by destruct c.
  - simpl. by rewrite Hw.
  - unfold projectChild. simpl. destruct e as [f|]; [|done]. by destruct (findTarget _ _ _ ≫= _).
  - unfold projectChild. simpl. destruct k as [f|]; [|done]. destruct (findTarget _ _ _ ≫= _); try done. simpl.
    destruct v as [g|]; [|done]. by destruct (findTarget finder (stable_id (meta g)) _ ≫= _).
Qed.

Lemma projectNode_total f path ity :
  Ready f path -> exists node, projectNode f path ity = Ok node /\ FieldPath_ node = path /\
    StableID_ node = stable_id (meta f) /\ Children node = [].
Proof.
  intros [(dg&mf&Hm) Hone]. destruct f as [m [t|]]; [|done]. pose proof Hm as Hm'.
  apply mapField_Ok in Hm' as (below&mapped&compat&msg&Ht&Ha&_).
  unfold projectNode. cbn [typ meta]. rewrite Hm, Ht. cbn [snd wrapErr mbind outcome_bind].
  assert (exists r, readPresence m (mt_composite mapped) path = Ok r) as [r ->]; [|by eexists].
  unfold readPresence, applyPresence in *. simpl in Hone. destruct (presence m); try done; try (by eexists).
  - case_match; by eexists.
  - unfold number in Hone. simpl in Hone. destruct (proto_number_path m); [by destruct Hone|]. by eexists.
Qed.

Definition allFound (finder : Iceberg.IcebergSchema) (l : list Field) : Prop :=
  Forall (fun f => is_Some (FindFieldByID finder (stable_id (meta f)))) l.

Lemma planNodes_eq p : planNodes p = p :: concat (map planNodes (Children p)).
Proof.
  destruct p as [? ? ? ? ? ? ? ? ? ? l]. cbn [planNodes Children]. f_equal. induction l as [|c l IH]; [done|].
  simpl. by rewrite IH.
Qed.

(** What projecting a child yields. *)
Definition Projected (c : option Field * string) (p : IcebergFieldProjection) : Prop :=
  map FieldPath_ (planNodes p) = pathsOf c /\
  map StableID_ (planNodes p) = match c.1 with Some f => idsOf f | None => [] end.

Lemma Projected_concat l ps :
  Forall2 Projected l ps ->
  map FieldPath_ (concat (map planNodes ps)) = concat (map pathsOf l) /\
  map StableID_ (concat (map planNodes ps)) = map (fun f => stable_id (meta f)) (childSubFields (map fst l)).
Proof.
  induction 1 as [|[o q] p l ps [Hp Hi] _ [IHp IHi]]; [done|]. simpl. rewrite !map_app, Hp, Hi, IHp, IHi.
  split; [done|]. simpl. destruct o as [f|]; [|done]. by rewrite childSubFields_cons, map_app.
Qed.

Lemma projectField_total finder f :
  wfTree f -> forall path ity, path <> "" -> Ready f path -> allFound finder (subFields f) ->
  exists p, projectField finder f path ity = Ok p /\ Projected (Some f, path) p.
Proof.
  revert f. apply (wfTree_ind (fun f => forall path ity, path <> "" -> Ready f path -> allFound finder (subFields f) ->
    exists p, projectField finder f path ity = Ok p /\ Projected (Some f, path) p)).
  intros m t Hnode Hch IH path ity Hp Hready Hfound. destruct (projectNode_total _ path ity Hready) as (node&Hn&Hpath&Hid&_).
  pose proof Hnode as ([ft Ht]&Hk&_). cbn [typ] in Ht. subst t. cbn [typ GetKind] in *.
  rewrite (projectField_unfold _ _ _ _ _ _ Hp Hn).
  rewrite subFields_unfold in Hfound. apply list.Forall_cons in Hfound as [_ Hfound]. cbn [GetKind] in Hfound.
  assert (wfTree (mkField m (Some ft))) as Hwf.
  { unfold wfTree. rewrite subFields_unfold. constructor; [done|]. apply Forall_childSubFields. intros g Hg.
    rewrite list.Forall_forall in Hch. by destruct (Hch _ Hg) as (?&[= <-]&?). }
  destruct Hready as [(dg&mf&Hm) _]. pose proof (children_ready _ _ _ _ _ Hwf Hp Hm) as Hready.
  destruct (mapOutcome_each (projectChild finder path) Projected (childPaths path (kindOf ft))) as (ps&Hps&Hall).
  { apply list.Forall_forall. intros [o q] Hc. rewrite list.Forall_forall in Hready.
    destruct (Hready _ Hc) as (g&Heq&Hg). simpl in Heq. subst o. rewrite <- (childPaths_fst path) in IH, Hfound.
    rewrite List.Forall_map, list.Forall_forall in IH. destruct (IH _ Hc) as (g'&[= <-]&IHg).
    unfold allFound in Hfound. rewrite Forall_childSubFields in Hfound.
    assert (allFound finder (subFields g)) as Hsub by (apply Hfound; by apply (list_elem_of_fmap_2 fst) in Hc).
    unfold projectChild, findTarget. simpl. assert (is_Some (FindFieldByID finder (stable_id (meta g)))) as [target ->].
    { destruct g as [gm gt]. rewrite subFields_unfold in Hsub. by apply list.Forall_cons in Hsub as [? _]. }
    simpl. apply IHg; [by apply (childPaths_nonempty path (kindOf ft) (Some g, q))|done|done]. }
  rewrite Hps. cbn [mbind outcome_bind]. eexists. split; [reflexivity|].
  destruct (Projected_concat _ _ Hall) as [Hpp Hii]. unfold Projected. rewrite planNodes_eq. cbn [map Children withChildren].
  rewrite Hpp, Hii, childPaths_fst. cbn [FieldPath_ StableID_ withChildren fst]. rewrite Hpath, Hid.
  unfold pathsOf, idsOf. cbn [fst snd]. by rewrite fieldPaths_unfold, subFields_unfold.
Qed.

Lemma childSubFields_In f g l : f ∈ l -> g ∈ subFields f -> g ∈ childSubFields (map Some l).
Proof.
  intros Hf Hg. induction Hf as [f l|f f' l Hf IH]; cbn [map]; rewrite childSubFields_cons; apply elem_of_app;
    [by left|right; by apply IH].
Qed.

(** C16: a well-formed dataset that both renderers accept has a plan: no target
    lookup fails, the plan has one node per logical field, in preorder, each with
    the path and the stable id of its field, and the diagnostics are those of the
    two renderers, in that order. *)
Theorem projection_total ds d1 t d2 s :
  wfDataset ds -> ClickHouse.Schema (Some ds) = (d1, Ok t) -> Iceberg.Schema (Some ds) = (d2, Ok s) ->
  exists plan, ProjectToIceberg (Some ds) = (d1 ++ d2, Ok plan) /\
    map FieldPath_ (concat (map planNodes (Fields plan))) = datasetPaths ds /\
    map StableID_ (concat (map planNodes (Fields plan))) = map (fun f => stable_id (meta f)) (childSubFields (ds_fields ds)).
Proof.
  intros Hwf Hc Hi. pose proof (iceberg_schema_ids _ _ _ Hi) as Hids.
  destruct (wfDataset_split _ Hwf) as (fs&Hfs&Ht&Hn). pose proof Hc as Hc'.
  apply Schema_Ok in Hc' as (decls&vals&groups&fms&Hsc&_). pose proof (scope_ready _ _ _ _ _ _ _ _ Hsc) as Hready.
  rewrite (s_fields _ _ _ _ _ _ _ _ _ Hsc) in Hfs. apply (inj (fmap Some)) in Hfs.
  destruct (mapOutcome_each (projectTop s) (fun o p => Projected (o, name (metaOf o)) p) (ds_fields ds)) as (ps&Hps&Hall).
  { rewrite (s_fields _ _ _ _ _ _ _ _ _ Hsc), Hfs in *. apply List.Forall_map, list.Forall_forall. intros f Hf.
    rewrite list.Forall_forall in Hready, Ht, Hn. unfold projectTop, findTarget. simpl.
    assert (allFound s (subFields f)) as Hfound.
    { apply list.Forall_forall. intros g Hg. apply FindFieldByID_found. rewrite Hids.
      apply (list_elem_of_fmap_2 (fun f => stable_id (meta f))). by apply (childSubFields_In f). }
    assert (is_Some (FindFieldByID s (stable_id (meta f)))) as [target ->].
    { destruct f as [m ty]. rewrite subFields_unfold in Hfound. by apply list.Forall_cons in Hfound as [? _]. }
    simpl. apply projectField_total; [by apply Ht|by apply Hn|by apply Hready|done]. }
  exists (mkProjection ProjectionVersion (ds_name ds) (source_message ds) ps). split_and!.
  - unfold ProjectToIceberg. rewrite Hc, Hi. cbn [wrapErr mbind outcome_bind]. rewrite Hps. done.
  - cbn [Fields]. assert (Forall2 Projected (map (fun o => (o, name (metaOf o))) (ds_fields ds)) ps) as Hall'
      by (clear -Hall; induction Hall; by constructor).
    destruct (Projected_concat _ _ Hall') as [-> _]. unfold datasetPaths.
    rewrite (s_fields _ _ _ _ _ _ _ _ _ Hsc). clear. induction (map fst fms) as [|f l IH]; [done|]. simpl. by rewrite IH.
  - cbn [Fields]. assert (Forall2 Projected (map (fun o => (o, name (metaOf o))) (ds_fields ds)) ps) as Hall'
      by (clear -Hall; induction Hall; by constructor).
    destruct (Projected_concat _ _ Hall') as [_ ->]. by rewrite map_map, map_id.
Qed.
End WithRuntime.

(** ** Witnesses *)

(** A lookup over the ids of the schema. *)
#[export] Instance plainIceberg : IcebergRuntime := {|
  FindFieldByID := fun s id =>
    if decide (id ∈ concat (map Iceberg.fieldIDs (Iceberg.schema_fields s))) then Some Iceberg.Int64 else None;
  TypeName := fun _ => "type"
|}.
#[export] Instance plainIcebergLaws : IcebergRuntimeLaws.
Proof. constructor. intros s id Hid. simpl. by rewrite decide_True. Qed.

Definition orderTable : TableSchema :=
  match (ClickHouse.Schema (Some orderV2)).2 with Ok t => t | _ => mkTableSchema "" "" "" [] [] end.
Definition orderIceberg : Iceberg.IcebergSchema :=
  match (Iceberg.Schema (Some orderV2)).2 with Ok s => s | _ => Iceberg.NewSchema 0 [] end.

Lemma projection_total_witness :
  exists plan, ProjectToIceberg (Some orderV2) =
      ((ClickHouse.Schema (Some orderV2)).1 ++ (Iceberg.Schema (Some orderV2)).1, Ok plan) /\
    map FieldPath_ (concat (map planNodes (Fields plan))) = datasetPaths orderV2 /\
    map StableID_ (concat (map planNodes (Fields plan))) =
      map (fun f => stable_id (meta f)) (childSubFields (ds_fields orderV2)).
Proof.
  apply (projection_total orderV2 _ orderTable _ orderIceberg).
  - apply (Run_wfDataset_of shop2 4 Order2 (Some orderV1) orderV2 shop2_wf Order2_wf).
    vm_compute. reflexivity.
  - vm_compute. reflexivity.
  - vm_compute. reflexivity.
Defined.
