(* ===== verification/ParsedDescriptor.v ===== *)
(** * Parsing descriptors (src/go/descriptor.go)

    A FileDescriptorSet is flattened into three maps, from the fully-qualified
    names of services, messages and enums to what the projections need of them.
    The descriptor messages (google.protobuf.FileDescriptorProto and below) are
    records of the members the code reads, with the values their getters return. *)
From S2P Require Import Prelude GoStrings StringFacts.

(** ** google.protobuf descriptors *)

Record EnumValueDescriptorProto : Type := mkEnumValueProto { evp_name : string; evp_number : Z }.
Record EnumDescriptorProto : Type := mkEnumProto { ep_name : string; ep_value : list EnumValueDescriptorProto }.
Record FieldDescriptorProto : Type := mkFieldProto {
  fp_name : string;
  fp_json_name : string;
  fp_number : Z;
  fp_type : Z;
  fp_type_name : string;
  fp_label : Z;
  fp_oneof_index : option Z;
  fp_proto3_optional : bool
}.
Inductive DescriptorProto : Type := mkDescriptorProto {
  dp_name : string;
  dp_enum_type : list EnumDescriptorProto;
  dp_nested_type : list DescriptorProto;
  dp_oneof_decl : list string;
  dp_field : list FieldDescriptorProto;
  dp_options : option bool
}.
Record MethodDescriptorProto : Type := mkMethodProto {
  mp_name : string;
  mp_input_type : string;
  mp_output_type : string;
  mp_client_streaming : bool;
  mp_server_streaming : bool
}.
Record ServiceDescriptorProto : Type := mkServiceProto { sp_name : string; sp_method : list MethodDescriptorProto }.
Record Location : Type := mkLocation { loc_path : list Z; loc_leading : string; loc_trailing : string }.
Record FileDescriptorProto : Type := mkFileProto {
  file_package : string;
  file_syntax : string;
  file_enum_type : list EnumDescriptorProto;
  file_message_type : list DescriptorProto;
  file_service : list ServiceDescriptorProto;
  file_source_code_info : option (list Location)
}.
Definition FileDescriptorSet : Type := list FileDescriptorProto.

(** ** What the parser produces (invariant.v1) *)

Record EnumValueInfo : Type := mkEnumValueInfo { evi_Name : string; evi_Number : Z; evi_Comment : string }.
Record EnumInfo : Type := mkEnumInfo {
  ei_Name : string;
  ei_FullName : string;
  ei_Values : list EnumValueInfo;
  ei_Comment : string
}.
Record FieldInfo : Type := mkFieldInfo {
  fi_Name : string;
  fi_JsonName : string;
  fi_Number : Z;
  fi_Type : Z;
  fi_TypeName : string;
  fi_Label : Z;
  fi_Comment : string;
  fi_OneofIndex : option Z;
  fi_Optional : bool
}.
Record OneofInfo : Type := mkOneofInfo { oi_Name : string; oi_Comment : string; oi_FieldNames : list string }.
Record MessageInfo : Type := mkMessageInfo {
  mi_Name : string;
  mi_FullName : string;
  mi_Fields : list FieldInfo;
  mi_Oneofs : list OneofInfo;
  mi_Comment : string;
  mi_IsMapEntry : bool
}.
Record MethodInfo : Type := mkMethodInfo {
  meth_Name : string;
  meth_InputType : string;
  meth_OutputType : string;
  meth_Comment : string;
  meth_ClientStreaming : bool;
  meth_ServerStreaming : bool
}.
Record ServiceInfo : Type := mkServiceInfo {
  si_Name : string;
  si_FullName : string;
  si_Methods : gmap string MethodInfo;
  si_Comment : string
}.
Record ParsedDescriptor : Type := mkParsed {
  Services : gmap string ServiceInfo;
  Messages : gmap string MessageInfo;
  Enums : gmap string EnumInfo
}.

Definition setService (name : string) (s : ServiceInfo) (pd : ParsedDescriptor) : ParsedDescriptor :=
  mkParsed (<[name := s]> (Services pd)) (Messages pd) (Enums pd).
Definition setMessage (name : string) (m : MessageInfo) (pd : ParsedDescriptor) : ParsedDescriptor :=
  mkParsed (Services pd) (<[name := m]> (Messages pd)) (Enums pd).
Definition setEnum (name : string) (e : EnumInfo) (pd : ParsedDescriptor) : ParsedDescriptor :=
  mkParsed (Services pd) (Messages pd) (<[name := e]> (Enums pd)).

(** ** Names, paths and comments *)

Definition qualifiedName (pkg name : string) : string := if decide (pkg = "") then name else pkg +:+ "." +:+ name.

(** [int32(i)] of an index. *)
Definition index32 (i : nat) : Z := ((Z.of_nat i + 2147483648) mod 4294967296 - 2147483648)%Z.

Definition pathKey (path : list Z) : string := Join (map FormatInt path) ",".

Notation Comments := (gmap string string).
(** A missing key of a Go map reads as the zero value. *)
Definition commentAt (comments : Comments) (path : list Z) : string := default "" (comments !! pathKey path).

Definition addLocation (comments : Comments) (loc : Location) : Comments :=
  let leading := TrimSpace (loc_leading loc) in
  let comment := if decide (leading = "") then TrimSpace (loc_trailing loc) else leading in
  if decide (comment = "") then comments else <[pathKey (loc_path loc) := comment]> comments.

Definition extractComments (file : FileDescriptorProto) : Comments :=
  match file_source_code_info file with
  | None => ∅
  | Some locations => foldl addLocation ∅ locations
  end.

(** ** Enums and messages *)

Definition parseEnum (enumProto : EnumDescriptorProto) (fullName : string) (comments : Comments)
    (pathPrefix : list Z) : EnumInfo :=
  let values := imap (fun i val =>
    mkEnumValueInfo (evp_name val) (evp_number val) (commentAt comments (pathPrefix ++ [2%Z; index32 i])))
    (ep_value enumProto) in
  mkEnumInfo (ep_name enumProto) fullName values (commentAt comments pathPrefix).

Definition addEnums (enums : list EnumDescriptorProto) (nameOf : string -> string) (comments : Comments)
    (pathOf : nat -> list Z) (pd : ParsedDescriptor) : ParsedDescriptor :=
  foldl (fun pd ie => let '(i, e) := ie : nat * EnumDescriptorProto in
    setEnum (nameOf (ep_name e)) (parseEnum e (nameOf (ep_name e)) comments (pathOf i)) pd)
    pd (imap pair enums).

Definition LABEL_OPTIONAL : Z := 1.

Definition parseField (comments : Comments) (pathPrefix : list Z) (fileSyntax : string) (i : nat)
    (fieldProto : FieldDescriptorProto) : FieldInfo :=
  let oneofIdx := match fp_oneof_index fieldProto with
                  | Some idx => if fp_proto3_optional fieldProto then None else Some idx
                  | None => None
                  end in
  let optional := fp_proto3_optional fieldProto
    || ((bool_decide (fileSyntax = "") || bool_decide (fileSyntax = "proto2"))
        && (fp_label fieldProto =? LABEL_OPTIONAL)%Z) in
  mkFieldInfo (fp_name fieldProto) (fp_json_name fieldProto) (fp_number fieldProto) (fp_type fieldProto)
    (TrimPrefix (fp_type_name fieldProto) ".") (fp_label fieldProto)
    (commentAt comments (pathPrefix ++ [2%Z; index32 i])) oneofIdx optional.

(** A member is appended to its oneof; a negative index is out of range. *)
Definition addMember (oneofs : list OneofInfo) (field : FieldInfo) : Outcome (list OneofInfo) :=
  match fi_OneofIndex field with
  | None => Ok oneofs
  | Some idx =>
      if (idx <? Z.of_nat (length oneofs))%Z then
        if (idx <? 0)%Z then Panic "index out of range"
        else Ok (alter (fun o => mkOneofInfo (oi_Name o) (oi_Comment o) (oi_FieldNames o ++ [fi_Name field]))
                   (Z.to_nat idx) oneofs)
      else Ok oneofs
  end.

(** The entry of a message: its oneofs, its fields and the flags. *)
Definition messageInfo (msgProto : DescriptorProto) (fullName : string) (comments : Comments)
    (pathPrefix : list Z) (fileSyntax : string) : Outcome MessageInfo :=
  let oneofs := imap (fun i nm => mkOneofInfo nm (commentAt comments (pathPrefix ++ [8%Z; index32 i])) [])
                  (dp_oneof_decl msgProto) in
  let fields := imap (parseField comments pathPrefix fileSyntax) (dp_field msgProto) in
  oneofs ← foldOutcome addMember fields oneofs;
  Ok (mkMessageInfo (dp_name msgProto) fullName fields oneofs (commentAt comments pathPrefix)
        (default false (dp_options msgProto))).

(** A loop over indices and elements that threads a state. *)
Definition foldIndexed {A S} (f : nat -> A -> S -> Outcome S) : nat -> list A -> S -> Outcome S :=
  fix go i l s :=
  match l with
  | [] => Ok s
  | x :: l => s ← f i x s; go (Datatypes.S i) l s
  end.

(** Nested enums, nested messages, then the message itself. *)
Fixpoint parseMessage (msgProto : DescriptorProto) (fullName : string) (comments : Comments)
    (pathPrefix : list Z) (fileSyntax : string) (pd : ParsedDescriptor) {struct msgProto}
  : Outcome ParsedDescriptor :=
  match msgProto with
  | mkDescriptorProto nm enums nested oneofs fields options =>
      let pd := addEnums enums (fun n => fullName +:+ "." +:+ n) comments
                  (fun i => pathPrefix ++ [4%Z; index32 i]) pd in
      pd ← foldIndexed (fun i d pd =>
             parseMessage d (fullName +:+ "." +:+ dp_name d) comments (pathPrefix ++ [3%Z; index32 i]) fileSyntax pd)
             0 nested pd;
      info ← messageInfo (mkDescriptorProto nm enums nested oneofs fields options) fullName comments
               pathPrefix fileSyntax;
      Ok (setMessage fullName info pd)
  end.

(** ** Services and files *)

Definition parseMethod (comments : Comments) (i j : nat) (methodProto : MethodDescriptorProto) : MethodInfo :=
  mkMethodInfo (mp_name methodProto) (TrimPrefix (mp_input_type methodProto) ".")
    (TrimPrefix (mp_output_type methodProto) ".")
    (commentAt comments [6%Z; index32 i; 2%Z; index32 j])
    (mp_client_streaming methodProto) (mp_server_streaming methodProto).

Definition parseService (comments : Comments) (fullName : string) (i : nat) (svcProto : ServiceDescriptorProto)
  : ServiceInfo :=
  mkServiceInfo (sp_name svcProto) fullName
    (foldl (fun methods jm => let '(j, mp) := jm : nat * MethodDescriptorProto in
       <[mp_name mp := parseMethod comments i j mp]> methods) ∅ (imap pair (sp_method svcProto)))
    (commentAt comments [6%Z; index32 i]).

Definition addServices (file : FileDescriptorProto) (comments : Comments) (pd : ParsedDescriptor)
  : ParsedDescriptor :=
  foldl (fun pd iv => let '(i, s) := iv : nat * ServiceDescriptorProto in
    let fullName := qualifiedName (file_package file) (sp_name s) in
    setService fullName (parseService comments fullName i s) pd) pd (imap pair (file_service file)).

Definition parseFile (pd : ParsedDescriptor) (file : FileDescriptorProto) : Outcome ParsedDescriptor :=
  let comments := extractComments file in
  let pkg := file_package file in
  let pd := addEnums (file_enum_type file) (qualifiedName pkg) comments (fun i => [5%Z; index32 i]) pd in
  pd ← foldIndexed (fun i m pd =>
         parseMessage m (qualifiedName pkg (dp_name m)) comments [4%Z; index32 i] (file_syntax file) pd)
         0 (file_message_type file) pd;
  Ok (addServices file comments pd).

Definition emptyParsed : ParsedDescriptor := mkParsed ∅ ∅ ∅.

Definition parseFileDescriptorSet (fds : FileDescriptorSet) : Outcome ParsedDescriptor :=
  foldOutcome parseFile fds emptyParsed.

(** [ParseDescriptorBytes] and [parseDescriptorFile]: the wire decoder and the file system are parameters. *)
Definition ParseDescriptorBytes (unmarshal : string -> FileDescriptorSet + string) (data : string)
  : Outcome ParsedDescriptor :=
  match unmarshal data with
  | inr e => Err ("unmarshal FileDescriptorSet: " +:+ e)
  | inl fds => parseFileDescriptorSet fds
  end.

Definition parseDescriptorFile (readFile : string -> string + string)
    (unmarshal : string -> FileDescriptorSet + string) (path : string) : Outcome ParsedDescriptor :=
  match readFile path with
  | inr e => Err ("read descriptor file: " +:+ e)
  | inl data => ParseDescriptorBytes unmarshal data
  end.
