(* ===== verification/ParsedSpec.v ===== *)
(** * What the parsed descriptor contains

    The declarations of a descriptor set, at any depth, listed with the names they
    are known by; the three maps of the parser are those lists. *)
From S2P Require Import Prelude GoStrings StringFacts ParsedDescriptor.

(** ** Insertion in order: the last one wins *)

Definition insertAll {A} (l : list (string * A)) (m : gmap string A) : gmap string A :=
  foldl (fun m kv => <[kv.1 := kv.2]> m) m l.

Lemma insertAll_cons {A} k (v : A) l m : insertAll ((k, v) :: l) m = insertAll l (<[k := v]> m).
Proof. done. Qed.

Lemma insertAll_app {A} (l l' : list (string * A)) m : insertAll (l ++ l') m = insertAll l' (insertAll l m).
Proof. unfold insertAll. by rewrite foldl_app. Qed.

Lemma insertAll_notin {A} (l : list (string * A)) m k : k ∉ l.*1 -> insertAll l m !! k = m !! k.
Proof.
  revert m. induction l as [|[k' v] l IH]; intros m Hk; [done|]. simpl in Hk. apply not_elem_of_cons in Hk as [Hne Hk].
  rewrite insertAll_cons, IH by done. by apply lookup_insert_ne.
Qed.

Lemma insertAll_lookup {A} (l : list (string * A)) m k v :
  NoDup l.*1 -> insertAll l m !! k = Some v <-> (k, v) ∈ l \/ k ∉ l.*1 /\ m !! k = Some v.
Proof.
  revert m. induction l as [|[k' v'] l IH]; intros m Hnd.
  - split; [intros H; right; split; [apply not_elem_of_nil|done]|]. intros [H|[_ H]]; [by apply not_elem_of_nil in H|done].
  - simpl in Hnd. apply list.NoDup_cons in Hnd as [Hn Hnd]. rewrite insertAll_cons, IH by done.
    assert (forall v0, (k', v0) ∉ l) as Hnl
      by (intros v0 Hv0; apply Hn; by apply (list_elem_of_fmap_2 fst) in Hv0).
    simpl. rewrite elem_of_cons, not_elem_of_cons. destruct (decide (k = k')) as [->|Hne].
    + rewrite lookup_insert_eq. naive_solver.
    + rewrite lookup_insert_ne by done. naive_solver.
Qed.

(** ** Declarations *)

Definition enumList (enums : list EnumDescriptorProto) (nameOf : string -> string) (comments : Comments)
    (pathOf : nat -> list Z) : list (string * EnumInfo) :=
  imap (fun i e => (nameOf (ep_name e), parseEnum e (nameOf (ep_name e)) comments (pathOf i))) enums.

(** A loop over indices and elements that collects lists. *)
Definition concatIndexed {A B} (f : nat -> A -> list B) : nat -> list A -> list B :=
  fix go i l :=
  match l with
  | [] => []
  | x :: l => f i x ++ go (S i) l
  end.

Fixpoint enumDecls (comments : Comments) (d : DescriptorProto) (fullName : string) (path : list Z) {struct d}
  : list (string * EnumInfo) :=
  match d with
  | mkDescriptorProto _ enums nested _ _ _ =>
      enumList enums (fun n => fullName +:+ "." +:+ n) comments (fun i => path ++ [4%Z; index32 i])
      ++ concatIndexed (fun i d => enumDecls comments d (fullName +:+ "." +:+ dp_name d) (path ++ [3%Z; index32 i]))
           0 nested
  end.

Fixpoint messageDecls (comments : Comments) (syntax : string) (d : DescriptorProto) (fullName : string)
    (path : list Z) {struct d} : list (string * Outcome MessageInfo) :=
  match d with
  | mkDescriptorProto nm enums nested oneofs fields options =>
      concatIndexed (fun i d => messageDecls comments syntax d (fullName +:+ "." +:+ dp_name d)
                                  (path ++ [3%Z; index32 i])) 0 nested
      ++ [(fullName, messageInfo (mkDescriptorProto nm enums nested oneofs fields options) fullName comments path syntax)]
  end.

Definition fileEnums (file : FileDescriptorProto) : list (string * EnumInfo) :=
  enumList (file_enum_type file) (qualifiedName (file_package file)) (extractComments file) (fun i => [5%Z; index32 i])
  ++ concatIndexed (fun i m => enumDecls (extractComments file) m (qualifiedName (file_package file) (dp_name m))
                                 [4%Z; index32 i]) 0 (file_message_type file).

Definition fileMessages (file : FileDescriptorProto) : list (string * Outcome MessageInfo) :=
  concatIndexed (fun i m => messageDecls (extractComments file) (file_syntax file) m
                              (qualifiedName (file_package file) (dp_name m)) [4%Z; index32 i])
    0 (file_message_type file).

Definition fileServices (file : FileDescriptorProto) : list (string * ServiceInfo) :=
  imap (fun i s => let fullName := qualifiedName (file_package file) (sp_name s) in
          (fullName, parseService (extractComments file) fullName i s)) (file_service file).

Definition allEnums (fds : FileDescriptorSet) : list (string * EnumInfo) := concat (map fileEnums fds).
Definition allMessages (fds : FileDescriptorSet) : list (string * Outcome MessageInfo) := concat (map fileMessages fds).
Definition allServices (fds : FileDescriptorSet) : list (string * ServiceInfo) := concat (map fileServices fds).

(** ** The parser inserts the declarations, in order *)

Definition Parsed (decls : list (string * Outcome MessageInfo)) (infos : list (string * MessageInfo)) : Prop :=
  Forall2 (fun d i => d = (i.1, Ok i.2)) decls infos.

Lemma Parsed_app l l' infos : Parsed (l ++ l') infos <->
  exists i i', infos = i ++ i' /\ Parsed l i /\ Parsed l' i'.
Proof.
  unfold Parsed. split.
  - intros H. apply Forall2_app_inv_l in H as (i&i'&H1&H2&->). eauto.
  - intros (i&i'&->&H1&H2). by apply Forall2_app.
Qed.

Definition extend (pd : ParsedDescriptor) services messages enums : ParsedDescriptor :=
  mkParsed (insertAll services (Services pd)) (insertAll messages (Messages pd)) (insertAll enums (Enums pd)).

Lemma extend_extend pd s m e s' m' e' :
  extend (extend pd s m e) s' m' e' = extend pd (s ++ s') (m ++ m') (e ++ e').
Proof. unfold extend. simpl. by rewrite !insertAll_app. Qed.

Lemma setMessage_extend k v pd : setMessage k v pd = extend pd [] [(k, v)] [].
Proof. done. Qed.

Lemma foldl_pairs {A B S} (f : S -> nat * A -> S) (g : nat -> A -> B) (h : S -> B -> S) l s :
  (forall s i a, f s (i, a) = h s (g i a)) -> foldl f s (imap pair l) = foldl h s (imap g l).
Proof.
  intros Hf. enough (forall (c : nat -> nat) s, foldl f s (imap (fun i a => (c i, a)) l) = foldl h s (imap (fun i a => g (c i) a) l))
    as H by apply (H id). clear s. induction l as [|a l IH]; intros c s; [done|]. simpl. rewrite Hf.
  apply (IH (fun i => c (Datatypes.S i))).
Qed.

Lemma addEnums_extend enums nameOf comments pathOf pd :
  addEnums enums nameOf comments pathOf pd = extend pd [] [] (enumList enums nameOf comments pathOf).
Proof.
  unfold addEnums, enumList.
  rewrite (foldl_pairs _ (fun i e => (nameOf (ep_name e), parseEnum e (nameOf (ep_name e)) comments (pathOf i)))
             (fun pd kv => setEnum kv.1 kv.2 pd)) by done.
  generalize (imap (fun i e => (nameOf (ep_name e), parseEnum e (nameOf (ep_name e)) comments (pathOf i))) enums).
  intros l. revert pd. induction l as [|[k v] l IH]; intros [s m e]; [done|]. simpl. by rewrite IH.
Qed.

Lemma addServices_extend file pd :
  addServices file (extractComments file) pd = extend pd (fileServices file) [] [].
Proof.
  unfold addServices, fileServices.
  rewrite (foldl_pairs _ (fun i s => (qualifiedName (file_package file) (sp_name s),
             parseService (extractComments file) (qualifiedName (file_package file) (sp_name s)) i s))
             (fun pd kv => setService kv.1 kv.2 pd)) by done.
  match goal with |- foldl _ _ ?l = _ => generalize l end.
  intros l. revert pd. induction l as [|[k v] l IH]; intros [s m e]; [done|]. simpl. by rewrite IH.
Qed.

(** Induction through the nested messages. *)
Lemma DescriptorProto_nested (P : DescriptorProto -> Prop) :
  (forall nm enums nested oneofs fields options, Forall P nested ->
     P (mkDescriptorProto nm enums nested oneofs fields options)) -> forall d, P d.
Proof.
  intros H. fix IH 1. intros [nm enums nested oneofs fields options]. apply H.
  induction nested as [|d l IHl]; constructor; [apply IH|exact IHl].
Qed.

(** A step that inserts the declarations of its element. *)
Definition Extends {A} (f : nat -> A -> ParsedDescriptor -> Outcome ParsedDescriptor)
    (ms : nat -> A -> list (string * Outcome MessageInfo)) (es : nat -> A -> list (string * EnumInfo)) (a : A) : Prop :=
  forall i pd pd', f i a pd = Ok pd' <-> exists infos, Parsed (ms i a) infos /\ pd' = extend pd [] infos (es i a).

Lemma foldIndexed_extend {A} f ms es (l : list A) : Forall (Extends f ms es) l -> forall i pd pd',
  foldIndexed f i l pd = Ok pd' <->
  exists infos, Parsed (concatIndexed ms i l) infos /\ pd' = extend pd [] infos (concatIndexed es i l).
Proof.
  induction 1 as [|a l Ha _ IH]; intros i pd pd'; cbn [foldIndexed concatIndexed].
  - split.
    + intros [= <-]. exists []. split; [constructor|by destruct pd].
    + intros (infos&Hp&->). inversion Hp; subst. by destruct pd.
  - rewrite bind_Ok. split.
    + intros (p1&(i1&Hi1&->)%Ha&(i2&Hi2&->)%IH). exists (i1 ++ i2). rewrite extend_extend. split; [|done].
      apply Parsed_app. eauto.
    + intros (infos&(i1&i2&->&H1&H2)%Parsed_app&->). exists (extend pd [] i1 (es i a)). split; [apply Ha; eauto|].
      apply IH. exists i2. by rewrite extend_extend.
Qed.

Lemma parseMessage_extend d comments syntax fullName path pd pd' :
  parseMessage d fullName comments path syntax pd = Ok pd' <->
  exists infos, Parsed (messageDecls comments syntax d fullName path) infos /\
    pd' = extend pd [] infos (enumDecls comments d fullName path).
Proof.
  revert fullName path pd pd'. induction d as [nm enums nested oneofs fields options IH] using DescriptorProto_nested.
  intros fullName path pd pd'. cbn [parseMessage messageDecls enumDecls]. rewrite addEnums_extend, bind_Ok.
  assert (Forall (Extends
      (fun i d pd => parseMessage d (fullName +:+ "." +:+ dp_name d) comments (path ++ [3%Z; index32 i]) syntax pd)
      (fun i d => messageDecls comments syntax d (fullName +:+ "." +:+ dp_name d) (path ++ [3%Z; index32 i]))
      (fun i d => enumDecls comments d (fullName +:+ "." +:+ dp_name d) (path ++ [3%Z; index32 i]))) nested) as Hl
    by (eapply list.Forall_impl; [exact IH|]; intros d Hd i p p'; apply Hd).
  pose proof (foldIndexed_extend _ _ _ _ Hl 0) as Hloop. split.
  - intros (p1&(i1&Hi1&->)%Hloop&Hrest). apply bind_Ok in Hrest as (info&Hinfo&[= <-]).
    exists (i1 ++ [(fullName, info)]). split.
    + apply Parsed_app. eexists i1, [_]. split_and!; [done|done|]. constructor; [|constructor]. simpl. by rewrite Hinfo.
    + by rewrite setMessage_extend, !extend_extend, !app_nil_r.
  - intros (infos&(i1&i2&->&H1&H2)%Parsed_app&->). inversion H2 as [|? [k info] ? ? Heq H3]; subst.
    inversion H3; subst. cbn [fst snd] in Heq. injection Heq as <- Hinfo. rewrite Hinfo.
    eexists. split; [apply Hloop; eauto|]. cbn [mbind outcome_bind]. f_equal.
    by rewrite setMessage_extend, !extend_extend, !app_nil_r.
Qed.

Lemma parseFile_extend file pd pd' :
  parseFile pd file = Ok pd' <->
  exists infos, Parsed (fileMessages file) infos /\ pd' = extend pd (fileServices file) infos (fileEnums file).
Proof.
  unfold parseFile. cbv zeta. rewrite addEnums_extend, bind_Ok.
  assert (forall p p', foldIndexed (fun i m pd => parseMessage m (qualifiedName (file_package file) (dp_name m))
      (extractComments file) [4%Z; index32 i] (file_syntax file) pd) 0 (file_message_type file) p = Ok p' <->
    exists infos, Parsed (fileMessages file) infos /\ p' = extend p [] infos
      (concatIndexed (fun i m => enumDecls (extractComments file) m (qualifiedName (file_package file) (dp_name m))
                        [4%Z; index32 i]) 0 (file_message_type file))) as Hloop.
  { apply foldIndexed_extend. apply list.Forall_forall. intros m _ i p p'. apply parseMessage_extend. }
  split.
  - intros (p1&(infos&Hi&->)%Hloop&[= <-]). exists infos. split; [done|]. rewrite addServices_extend, !extend_extend.
    by rewrite !app_nil_r.
  - intros (infos&Hi&->). eexists. split; [apply Hloop; eauto|]. f_equal. rewrite addServices_extend, !extend_extend.
    by rewrite !app_nil_r.
Qed.

Lemma parse_extend fds pd pd' :
  foldOutcome parseFile fds pd = Ok pd' <->
  exists infos, Parsed (allMessages fds) infos /\ pd' = extend pd (allServices fds) infos (allEnums fds).
Proof.
  revert pd. induction fds as [|file fds IH]; intros pd; cbn [foldOutcome].
  - split; [intros [= <-]; exists []; split; [constructor|by destruct pd]|].
    intros (infos&Hp&->). inversion Hp; subst. by destruct pd.
  - unfold allMessages, allServices, allEnums. cbn [map concat]. rewrite bind_Ok. split.
    + intros (p1&(i1&Hi1&->)%parseFile_extend&(i2&Hi2&->)%IH). exists (i1 ++ i2). rewrite extend_extend.
      split; [|done]. apply Parsed_app. eauto.
    + intros (infos&(i1&i2&->&H1&H2)%Parsed_app&->). eexists. split; [apply parseFile_extend; eauto|].
      apply IH. exists i2. by rewrite extend_extend.
Qed.

(** ** No declaration is lost, none is invented *)

Lemma Parsed_fst l infos : Parsed l infos -> infos.*1 = l.*1.
Proof. induction 1 as [|d i l infos -> _ IH]; [done|]. simpl. by f_equal. Qed.

Lemma Parsed_elem l infos n info : Parsed l infos -> (n, info) ∈ infos <-> (n, Ok info) ∈ l.
Proof.
  induction 1 as [|d [k v] l infos -> _ IH]; [by rewrite !elem_of_nil|]. rewrite !elem_of_cons, IH. simpl. naive_solver.
Qed.

Lemma insertAll_empty {A} (l : list (string * A)) k v : NoDup l.*1 -> insertAll l ∅ !! k = Some v <-> (k, v) ∈ l.
Proof. intros Hnd. rewrite insertAll_lookup, lookup_empty by done. naive_solver. Qed.

Lemma parse_maps fds pd :
  NoDup (allMessages fds).*1 -> NoDup (allEnums fds).*1 -> NoDup (allServices fds).*1 ->
  parseFileDescriptorSet fds = Ok pd ->
  (forall n info, Messages pd !! n = Some info <-> (n, Ok info) ∈ allMessages fds) /\
  (forall n info, Enums pd !! n = Some info <-> (n, info) ∈ allEnums fds) /\
  (forall n info, Services pd !! n = Some info <-> (n, info) ∈ allServices fds).
Proof.
  intros Hm He Hs (infos&Hp&->)%parse_extend. split_and!; intros n info; cbn [extend Messages Enums Services emptyParsed].
  - rewrite insertAll_empty by (by rewrite (Parsed_fst _ _ Hp)). by apply Parsed_elem.
  - by rewrite insertAll_empty.
  - by rewrite insertAll_empty.
Qed.

(** ** When the parser returns *)

Definition nonnegOneof (f : FieldDescriptorProto) : bool :=
  match fp_oneof_index f with Some i => fp_proto3_optional f || (0 <=? i)%Z | None => true end.

Fixpoint nonnegOneofs (d : DescriptorProto) : bool :=
  match d with
  | mkDescriptorProto _ _ nested _ fields _ => forallb nonnegOneof fields && forallb nonnegOneofs nested
  end.

Lemma addMember_nonneg oneofs f :
  isOk (addMember oneofs f) = match fi_OneofIndex f with Some i => (0 <=? i)%Z | None => true end.
Proof.
  unfold addMember. destruct (fi_OneofIndex f) as [i|]; [|done]. destruct (Z.ltb_spec i (Z.of_nat (length oneofs))).
  - destruct (Z.ltb_spec i 0); simpl; symmetry; [apply Z.leb_gt|apply Z.leb_le]; lia.
  - simpl. symmetry. apply Z.leb_le. lia.
Qed.

Lemma addMember_fold fields oneofs :
  isOk (foldOutcome addMember fields oneofs) =
  forallb (fun f => match fi_OneofIndex f with Some i => (0 <=? i)%Z | None => true end) fields.
Proof.
  revert oneofs. induction fields as [|f fields IH]; intros oneofs; [done|]. cbn [foldOutcome forallb].
  rewrite <- (addMember_nonneg oneofs). destruct (addMember oneofs f) as [o| | |] eqn:E; try done. apply IH.
Qed.

Lemma forallb_imap {A B} (p : B -> bool) (q : A -> bool) (g : nat -> A -> B) l :
  (forall i a, p (g i a) = q a) -> forallb p (imap g l) = forallb q l.
Proof. intros Hg. revert g Hg. induction l as [|a l IH]; intros g Hg; [done|]. simpl. rewrite Hg. f_equal. apply (IH (g ∘ S)). intros i b. apply Hg. Qed.

Lemma messageInfo_isOk d fullName comments path syntax :
  isOk (messageInfo d fullName comments path syntax) = forallb nonnegOneof (dp_field d).
Proof.
  unfold messageInfo. cbv zeta. transitivity (isOk (foldOutcome addMember
    (imap (parseField comments path syntax) (dp_field d))
    (imap (fun i nm => mkOneofInfo nm (commentAt comments (path ++ [8%Z; index32 i])) []) (dp_oneof_decl d)))).
  { by destruct (foldOutcome _ _ _). }
  rewrite addMember_fold. apply forallb_imap. intros i f. unfold parseField, nonnegOneof. simpl.
  by destruct (fp_oneof_index f), (fp_proto3_optional f).
Qed.

Lemma forallb_concatIndexed {A B} (p : B -> bool) (q : A -> bool) (g : nat -> A -> list B) l :
  Forall (fun a => forall i, forallb p (g i a) = q a) l -> forall i, forallb p (concatIndexed g i l) = forallb q l.
Proof. induction 1 as [|a l Ha _ IH]; intros i; [done|]. simpl. by rewrite forallb_app, Ha, IH. Qed.

Lemma messageDecls_isOk comments syntax d fullName path :
  forallb (fun e => isOk e.2) (messageDecls comments syntax d fullName path) = nonnegOneofs d.
Proof.
  revert fullName path. induction d as [nm enums nested oneofs fields options IH] using DescriptorProto_nested.
  intros fullName path. cbn [messageDecls nonnegOneofs]. rewrite forallb_app. cbn [forallb snd].
  rewrite messageInfo_isOk, andb_true_r, andb_comm. cbn [dp_field]. f_equal. apply forallb_concatIndexed.
  eapply list.Forall_impl; [exact IH|]. intros d Hd i. apply Hd.
Qed.

Lemma Parsed_exists l : forallb (fun e => isOk e.2) l = true -> exists infos, Parsed l infos.
Proof.
  induction l as [|[k [v| | |]] l IH]; simpl; intros H; try done; [by exists []; constructor|].
  destruct (IH H) as [infos Hi]. exists ((k, v) :: infos). by constructor.
Qed.

(** The parser returns on every descriptor set without a negative oneof index. *)
Lemma parse_returns fds :
  forallb (fun f => forallb nonnegOneofs (file_message_type f)) fds = true ->
  exists pd, parseFileDescriptorSet fds = Ok pd.
Proof.
  intros H. destruct (Parsed_exists (allMessages fds)) as [infos Hi].
  - unfold allMessages. revert H. induction fds as [|f fds IH]; [done|]. cbn [map concat forallb].
    intros [Hf H]%andb_true_iff. rewrite forallb_app, (IH H), andb_true_r. rewrite <- Hf. unfold fileMessages.
    apply forallb_concatIndexed. apply list.Forall_forall. intros d _ i. apply messageDecls_isOk.
  - eexists. apply parse_extend. eauto.
Qed.

(** ** Comments *)

Lemma pathKey_inj : Inj (=) (=) pathKey.
Proof.
  assert (forall p x l, p <> x :: l -> p = [] -> pathKey p = pathKey (x :: l) -> False) as Hnil.
  { intros p x l _ -> Heq. unfold pathKey in Heq. simpl in Heq. destruct (map FormatInt l); simpl in Heq.
    - by apply (FormatInt_nonempty x).
    - symmetry in Heq. apply append_eq_nil in Heq as [Hx _]. by apply (FormatInt_nonempty x). }
  intros p q Heq. destruct (decide (p = [])) as [Hp|Hp], (decide (q = [])) as [Hq|Hq]; subst; try done.
  - destruct q as [|x q]; [done|]. exfalso. by apply (Hnil [] x q).
  - destruct p as [|x p]; [done|]. exfalso. by apply (Hnil [] x p).
  - pose proof FormatInt_inj. apply (inj (fmap FormatInt)). change (fmap FormatInt) with (map FormatInt). rewrite <- (Split_Join "," (map FormatInt p)), <- (Split_Join "," (map FormatInt q)).
    + by f_equal.
    + apply List.Forall_map, list.Forall_forall. intros. by apply FormatInt_noByte.
    + by destruct q.
    + apply List.Forall_map, list.Forall_forall. intros. by apply FormatInt_noByte.
    + by destruct p.
Qed.

(** The comment of a location: the leading one, or the trailing one. *)
Definition locationComment (path : list Z) (loc : Location) : option string :=
  let leading := TrimSpace (loc_leading loc) in
  let comment := if decide (leading = "") then TrimSpace (loc_trailing loc) else leading in
  if decide (loc_path loc = path /\ comment <> "") then Some comment else None.

Definition pathComment (path : list Z) (locations : list Location) : option string :=
  list.last (omap (locationComment path) locations).

Lemma extractComments_exact file path :
  commentAt (extractComments file) path =
  default "" (pathComment path (default [] (file_source_code_info file))).
Proof.
  unfold commentAt, extractComments. f_equal. destruct (file_source_code_info file) as [locs|]; [|done]. simpl.
  unfold pathComment. induction locs as [|loc locs IH] using rev_ind; [done|].
  rewrite foldl_app, list.omap_app. cbn [foldl]. unfold addLocation at 1. cbn [omap list_omap].
  unfold locationComment at 2. cbv zeta.
  set (comment := if decide (TrimSpace (loc_leading loc) = "") then _ else _).
  destruct (decide (comment = "")) as [He|He].
  - rewrite decide_False by naive_solver. by rewrite app_nil_r.
  - destruct (decide (loc_path loc = path)) as [<-|Hne].
    + rewrite decide_True by done. etransitivity; [apply lookup_insert_eq|]. by rewrite list.last_snoc.
    + rewrite decide_False by naive_solver. rewrite app_nil_r. etransitivity; [|exact IH].
      apply lookup_insert_ne. by intros ?%pathKey_inj.
Qed.

(** ** What is declared

    The messages, enums and services of a file at any depth, each with its
    fully-qualified name and its path in the descriptor, whose elements are int32. *)

Definition scoped (pkg nm : string) : string := match pkg with EmptyString => nm | _ => pkg +:+ "." +:+ nm end.
Definition wrap32 (z : Z) : Z := ((z + 2 ^ 31) mod 2 ^ 32 - 2 ^ 31)%Z.
Definition at_ (path : list Z) (tag : Z) (i : nat) : list Z := path ++ [tag; wrap32 (Z.of_nat i)].

Fixpoint messagesIn (d : DescriptorProto) (n : string) (p : list Z) {struct d} : list (string * (list Z * DescriptorProto)) :=
  match d with
  | mkDescriptorProto _ _ nested _ _ _ =>
      concatIndexed (fun i e => messagesIn e (n +:+ "." +:+ dp_name e) (at_ p 3 i)) 0 nested ++ [(n, (p, d))]
  end.
Definition declaredMessages (file : FileDescriptorProto) : list (string * (list Z * DescriptorProto)) :=
  concatIndexed (fun i m => messagesIn m (scoped (file_package file) (dp_name m)) (at_ [] 4 i)) 0 (file_message_type file).

Definition enumsOf (enums : list EnumDescriptorProto) (nameOf : string -> string) (pathOf : nat -> list Z)
    : list (string * (list Z * EnumDescriptorProto)) := imap (fun i e => (nameOf (ep_name e), (pathOf i, e))) enums.
Fixpoint enumsIn (d : DescriptorProto) (n : string) (p : list Z) {struct d} : list (string * (list Z * EnumDescriptorProto)) :=
  match d with
  | mkDescriptorProto _ enums nested _ _ _ =>
      enumsOf enums (fun e => n +:+ "." +:+ e) (at_ p 4)
      ++ concatIndexed (fun i e => enumsIn e (n +:+ "." +:+ dp_name e) (at_ p 3 i)) 0 nested
  end.
Definition declaredEnums (file : FileDescriptorProto) : list (string * (list Z * EnumDescriptorProto)) :=
  enumsOf (file_enum_type file) (scoped (file_package file)) (at_ [] 5)
  ++ concatIndexed (fun i m => enumsIn m (scoped (file_package file) (dp_name m)) (at_ [] 4 i)) 0 (file_message_type file).

Definition declaredServices (file : FileDescriptorProto) : list (string * (list Z * ServiceDescriptorProto)) :=
  imap (fun i s => (scoped (file_package file) (sp_name s), (at_ [] 6 i, s))) (file_service file).

(** ** What is recorded of a declaration *)

(** The comment of a path: that of the last location of the path that has one. *)
Definition commentOf (file : FileDescriptorProto) (path : list Z) : string :=
  default "" (pathComment path (default [] (file_source_code_info file))).
(** A type name without the dot that marks it absolute. *)
Definition relative (full short : string) : Prop := full = "." +:+ short \/ full = short /\ HasPrefix full "." = false.

Record describesField (file : FileDescriptorProto) (p : list Z) (i : nat) (fp : FieldDescriptorProto) (fi : FieldInfo) : Prop := {
  df_same : (fi_Name fi, fi_JsonName fi, fi_Number fi, fi_Type fi, fi_Label fi)
            = (fp_name fp, fp_json_name fp, fp_number fp, fp_type fp, fp_label fp);
  df_type : relative (fp_type_name fp) (fi_TypeName fi);
  df_comment : fi_Comment fi = commentOf file (at_ p 2 i);
  df_oneof : forall k, fi_OneofIndex fi = Some k <-> fp_oneof_index fp = Some k /\ fp_proto3_optional fp = false;
  df_optional : fi_Optional fi = true <->
    fp_proto3_optional fp = true \/ (file_syntax file = "" \/ file_syntax file = "proto2") /\ fp_label fp = 1%Z
}.
(** A member of the oneof of an index, but not the one of a proto3 optional field. *)
Definition memberOf (k : nat) (fp : FieldDescriptorProto) : bool :=
  negb (fp_proto3_optional fp) && bool_decide (fp_oneof_index fp = Some (Z.of_nat k)).
Record describesMessage (file : FileDescriptorProto) (p : list Z) (n : string) (d : DescriptorProto) (info : MessageInfo) : Prop := {
  dm_names : (mi_Name info, mi_FullName info) = (dp_name d, n);
  dm_comment : mi_Comment info = commentOf file p;
  dm_map : mi_IsMapEntry info = true <-> dp_options d = Some true;
  dm_count : length (mi_Fields info) = length (dp_field d) /\ length (mi_Oneofs info) = length (dp_oneof_decl d);
  dm_fields : forall i fp fi, dp_field d !! i = Some fp -> mi_Fields info !! i = Some fi -> describesField file p i fp fi;
  dm_oneofs : forall k nm o, dp_oneof_decl d !! k = Some nm -> mi_Oneofs info !! k = Some o ->
    o = mkOneofInfo nm (commentOf file (at_ p 8 k)) (map fp_name (List.filter (memberOf k) (dp_field d)))
}.
Record describesEnum (file : FileDescriptorProto) (p : list Z) (n : string) (e : EnumDescriptorProto) (info : EnumInfo) : Prop := {
  de_names : (ei_Name info, ei_FullName info) = (ep_name e, n);
  de_comment : ei_Comment info = commentOf file p;
  de_count : length (ei_Values info) = length (ep_value e);
  de_values : forall i v w, ep_value e !! i = Some v -> ei_Values info !! i = Some w ->
    w = mkEnumValueInfo (evp_name v) (evp_number v) (commentOf file (at_ p 2 i))
}.
Record describesMethod (file : FileDescriptorProto) (p : list Z) (m : MethodDescriptorProto) (info : MethodInfo) : Prop := {
  dh_same : (meth_Name info, meth_ClientStreaming info, meth_ServerStreaming info)
            = (mp_name m, mp_client_streaming m, mp_server_streaming m);
  dh_types : relative (mp_input_type m) (meth_InputType info) /\ relative (mp_output_type m) (meth_OutputType info);
  dh_comment : meth_Comment info = commentOf file p
}.
Record describesService (file : FileDescriptorProto) (p : list Z) (n : string) (s : ServiceDescriptorProto) (info : ServiceInfo) : Prop := {
  dv_names : (si_Name info, si_FullName info) = (sp_name s, n);
  dv_comment : si_Comment info = commentOf file p;
  dv_domain : forall k, is_Some (si_Methods info !! k) <-> k ∈ map mp_name (sp_method s);
  dv_methods : forall j m, sp_method s !! j = Some m ->
    exists i, si_Methods info !! mp_name m = Some i /\ describesMethod file (at_ p 2 j) m i
}.

(** A map that holds exactly the declarations, described. *)
Definition indexes {A B} (declared : FileDescriptorProto -> list (string * (list Z * A)))
    (describes : FileDescriptorProto -> list Z -> string -> A -> B -> Prop) (fds : FileDescriptorSet) (m : gmap string B) : Prop :=
  (forall file n p d, file ∈ fds -> (n, (p, d)) ∈ declared file -> exists info, m !! n = Some info /\ describes file p n d info) /\
  (forall n, is_Some (m !! n) -> exists file, file ∈ fds /\ n ∈ (declared file).*1).
(** What a compiler of protobuf files guarantees of a descriptor set: no two
    declarations of a kind share a name, nor two methods of a service. *)
Record distinctNames (fds : FileDescriptorSet) : Prop := {
  dn_messages : NoDup (concat (map (fun f => (declaredMessages f).*1) fds));
  dn_enums : NoDup (concat (map (fun f => (declaredEnums f).*1) fds));
  dn_services : NoDup (concat (map (fun f => (declaredServices f).*1) fds));
  dn_methods : forall f s, f ∈ fds -> s ∈ file_service f -> NoDup (map mp_name (sp_method s))
}.
(** ** The parser records the declarations *)

Lemma index32_wrap i : index32 i = wrap32 (Z.of_nat i).
Proof. reflexivity. Qed.
Lemma qualifiedName_scoped pkg n : qualifiedName pkg n = scoped pkg n.
Proof. unfold qualifiedName. by destruct pkg; case_decide. Qed.
Lemma concatIndexed_map {A B C} (f : nat -> A -> list B) (g : nat -> A -> list C) (h : B -> C) l :
  Forall (fun a => forall i, g i a = map h (f i a)) l -> forall i, concatIndexed g i l = map h (concatIndexed f i l).
Proof. induction 1 as [|a l Ha _ IH]; intros i; [done|]. cbn. by rewrite map_app, Ha, IH. Qed.
Lemma imap_map {A B C} (f : nat -> A -> B) (g : nat -> A -> C) (h : B -> C) l :
  (forall i a, g i a = h (f i a)) -> imap g l = map h (imap f l).
Proof. intros Hg. change (map h) with (fmap h : list B -> list C). rewrite fmap_imap. by apply imap_ext. Qed.

Definition recordMessage (file : FileDescriptorProto) (e : string * (list Z * DescriptorProto)) : string * Outcome MessageInfo :=
  (e.1, messageInfo e.2.2 e.1 (extractComments file) e.2.1 (file_syntax file)).
Definition recordEnum (file : FileDescriptorProto) (e : string * (list Z * EnumDescriptorProto)) : string * EnumInfo :=
  (e.1, parseEnum e.2.2 e.1 (extractComments file) e.2.1).

Lemma messageDecls_declared file d n p :
  messageDecls (extractComments file) (file_syntax file) d n p = map (recordMessage file) (messagesIn d n p).
Proof.
  revert n p. induction d as [nm enums nested oneofs fields options IH] using DescriptorProto_nested. intros n p.
  cbn [messageDecls messagesIn]. rewrite map_app. f_equal. apply concatIndexed_map. eapply list.Forall_impl; [exact IH|]. intros d Hd i. apply Hd.
Qed.
Lemma fileMessages_declared file : fileMessages file = map (recordMessage file) (declaredMessages file).
Proof. apply concatIndexed_map, list.Forall_forall. intros d _ i. rewrite <- qualifiedName_scoped. apply messageDecls_declared. Qed.
Lemma enumList_declared file enums nameOf pathOf :
  enumList enums nameOf (extractComments file) pathOf = map (recordEnum file) (enumsOf enums nameOf pathOf).
Proof. by apply imap_map. Qed.
Lemma enumDecls_declared file d n p : enumDecls (extractComments file) d n p = map (recordEnum file) (enumsIn d n p).
Proof.
  revert n p. induction d as [nm enums nested oneofs fields options IH] using DescriptorProto_nested. intros n p.
  cbn [enumDecls enumsIn]. rewrite map_app. f_equal; [apply enumList_declared|]. apply concatIndexed_map.
  eapply list.Forall_impl; [exact IH|]. intros d Hd i. apply Hd.
Qed.
Lemma fileEnums_declared file : fileEnums file = map (recordEnum file) (declaredEnums file).
Proof.
  unfold fileEnums, declaredEnums. rewrite map_app, <- enumList_declared. f_equal.
  - apply imap_ext. intros i e _. by rewrite qualifiedName_scoped.
  - apply concatIndexed_map, list.Forall_forall. intros d _ i. rewrite <- qualifiedName_scoped. apply enumDecls_declared.
Qed.

(** *** Their contents *)

Lemma TrimPrefix_relative s : relative s (TrimPrefix s ".").
Proof.
  destruct (HasPrefix s ".") eqn:E; [left|right].
  - apply HasPrefix_spec in E as [t ->]. by rewrite TrimPrefix_append.
  - unfold TrimPrefix. by rewrite E.
Qed.
Lemma commentAt_commentOf file path : commentAt (extractComments file) path = commentOf file path.
Proof. apply extractComments_exact. Qed.
Lemma parseField_describes file p i fp : describesField file p i fp (parseField (extractComments file) p (file_syntax file) i fp).
Proof.
  split; cbn.
  - done.
  - apply TrimPrefix_relative.
  - apply commentAt_commentOf.
  - intros k. destruct (fp_oneof_index fp), (fp_proto3_optional fp); naive_solver.
  - rewrite orb_true_iff, andb_true_iff, orb_true_iff, !bool_decide_eq_true, Z.eqb_eq. done.
Qed.
Lemma parseEnum_describes file p n e : describesEnum file p n e (parseEnum e n (extractComments file) p).
Proof.
  split; cbn; [done|apply commentAt_commentOf|apply length_imap|]. intros i v w Hv. rewrite list_lookup_imap, Hv. intros [= <-].
  by rewrite commentAt_commentOf.
Qed.
Lemma addMember_members fields oneofs oneofs' : foldOutcome addMember fields oneofs = Ok oneofs' ->
  length oneofs' = length oneofs /\
  forall k o, oneofs !! k = Some o -> oneofs' !! k = Some (mkOneofInfo (oi_Name o) (oi_Comment o)
    (oi_FieldNames o ++ map fi_Name (List.filter (fun f => bool_decide (fi_OneofIndex f = Some (Z.of_nat k))) fields))).
Proof.
  revert oneofs. induction fields as [|f fields IH]; intros oneofs; cbn [foldOutcome List.filter].
  { intros [= <-]. split; [done|]. intros k [] Hk. cbn. by rewrite app_nil_r. }
  intros (o1&Ha&[Hl Hr]%IH)%bind_Ok. unfold addMember in Ha.
  destruct (fi_OneofIndex f) as [idx|] eqn:E; [|injection Ha as <-; split; [done|]; intros k o Hk; by rewrite (Hr k o Hk)].
  destruct (Z.ltb_spec idx (Z.of_nat (length oneofs))) as [Hlt|Hge].
  - destruct (Z.ltb_spec idx 0) as [|Hpos]; [done|]. injection Ha as <-. rewrite length_alter in Hl. split; [done|]. intros k o Hk.
    case_bool_decide as Hc.
    + injection Hc as ->. rewrite Nat2Z.id in *. specialize (Hr k). rewrite list_lookup_alter_eq, Hk in Hr. specialize (Hr _ eq_refl).
      rewrite Hr. cbn. by rewrite <- app_assoc.
    + specialize (Hr k o). rewrite list_lookup_alter_ne in Hr by (intros <-; apply Hc; by rewrite Z2Nat.id). by apply Hr.
  - injection Ha as <-. split; [done|]. intros k o Hk. rewrite bool_decide_eq_false_2; [by apply Hr|].
    intros [= ->]. apply lookup_lt_Some in Hk. lia.
Qed.
Lemma filter_imap {A B C} (q : B -> bool) (r : A -> bool) (name : B -> C) (name' : A -> C) (f : nat -> A -> B) l :
  (forall i a, q (f i a) = r a) -> (forall i a, name (f i a) = name' a) ->
  map name (List.filter q (imap f l)) = map name' (List.filter r l).
Proof.
  intros Hq Hn. revert f Hq Hn. induction l as [|a l IH]; intros f Hq Hn; [done|]. cbn. rewrite Hq.
  assert (map name (List.filter q (imap (f ∘ S) l)) = map name' (List.filter r l)) as Hl by (apply IH; intros; [apply Hq|apply Hn]).
  destruct (r a); cbn; rewrite ?Hn; by rewrite Hl.
Qed.
Lemma messageInfo_describes file p n d info :
  messageInfo d n (extractComments file) p (file_syntax file) = Ok info -> describesMessage file p n d info.
Proof.
  unfold messageInfo. intros (oneofs&Ho&[= <-])%bind_Ok. apply addMember_members in Ho as [Hl Ho]. rewrite length_imap in Hl.
  split; cbn; [done|apply commentAt_commentOf| | | |].
  - destruct (dp_options d) as [[]|]; naive_solver.
  - by rewrite length_imap.
  - intros i fp fi Hfp. rewrite list_lookup_imap, Hfp. intros [= <-]. apply parseField_describes.
  - intros k nm o Hk Hs. specialize (Ho k). rewrite list_lookup_imap, Hk in Ho. specialize (Ho _ eq_refl). rewrite Hs in Ho. injection Ho as ->.
    cbn. rewrite <- commentAt_commentOf. f_equal. apply filter_imap; [|done]. intros i fp. unfold memberOf. cbn.
    destruct (fp_proto3_optional fp), (fp_oneof_index fp); cbn; done.
Qed.
Lemma methods_insertAll comments i l :
  foldl (fun methods jm => let '(j, mp) := jm : nat * MethodDescriptorProto in <[mp_name mp := parseMethod comments i j mp]> methods) ∅ (imap pair l)
  = insertAll (imap (fun j mp => (mp_name mp, parseMethod comments i j mp)) l) ∅.
Proof. by apply foldl_pairs. Qed.
Lemma parseService_describes file i n s : NoDup (map mp_name (sp_method s)) ->
  describesService file (at_ [] 6 i) n s (parseService (extractComments file) n i s).
Proof.
  intros Hnd. assert ((imap (fun j mp => (mp_name mp, parseMethod (extractComments file) i j mp)) (sp_method s)).*1 = map mp_name (sp_method s)) as Hfst.
  { rewrite fmap_imap. apply (imap_const mp_name). }
  split; cbn [si_Name si_FullName si_Comment si_Methods parseService]; [done|apply commentAt_commentOf|..]; rewrite methods_insertAll.
  - intros k. rewrite <- Hfst. split.
    + intros [v Hv]. apply insertAll_lookup in Hv; [|by rewrite Hfst]. destruct Hv as [Hv|[_ Hv]]; [|by rewrite lookup_empty in Hv].
      by apply (list_elem_of_fmap_2 fst) in Hv.
    + intros ([k' v]&->&Hv)%list_elem_of_fmap. exists v. apply insertAll_lookup; [by rewrite Hfst|]. by left.
  - intros j m Hm. exists (parseMethod (extractComments file) i j m). split.
    + apply insertAll_lookup; [by rewrite Hfst|]. left. apply list_elem_of_lookup. exists j. by rewrite list_lookup_imap, Hm.
    + split; [done|split; apply TrimPrefix_relative|apply commentAt_commentOf].
Qed.

(** ** The parser *)

Lemma names_declared {A B} (decl : FileDescriptorProto -> list (string * A)) (record : FileDescriptorProto -> string * A -> string * B)
    (listed : FileDescriptorProto -> list (string * B)) fds :
  (forall f e, (record f e).1 = e.1) -> (forall f, listed f = map (record f) (decl f)) ->
  (concat (map listed fds)).*1 = concat (map (fun f => (decl f).*1) fds).
Proof.
  intros Hr Hl. induction fds as [|f fds IH]; [done|]. cbn. rewrite fmap_app, IH, Hl. f_equal.
  change (map (record f)) with (fmap (record f) : list (string * A) -> list (string * B)).
  rewrite <- list_fmap_compose. apply list_fmap_ext. intros. apply Hr.
Qed.
Lemma elem_of_listed {A B} (listed : FileDescriptorProto -> list (string * B)) (decl : FileDescriptorProto -> list (string * A)) record fds x :
  (forall f, listed f = map (record f) (decl f)) ->
  x ∈ concat (map listed fds) <-> exists f e, f ∈ fds /\ e ∈ decl f /\ x = record f e.
Proof.
  intros Hl. rewrite list_elem_of_In, in_concat. setoid_rewrite in_map_iff. split.
  - intros (l&(f&<-&Hf)&Hx). rewrite Hl in Hx. apply in_map_iff in Hx as (e&<-&He). exists f, e. by rewrite !list_elem_of_In.
  - intros (f&e&Hf&He&->). exists (listed f). rewrite !list_elem_of_In in *. split; [by exists f|]. rewrite Hl. apply in_map_iff. by exists e.
Qed.

Definition recordService (file : FileDescriptorProto) (e : string * (nat * ServiceDescriptorProto)) : string * ServiceInfo :=
  (e.1, parseService (extractComments file) e.1 e.2.1 e.2.2).
Definition numberedServices (file : FileDescriptorProto) : list (string * (nat * ServiceDescriptorProto)) :=
  imap (fun i s => (scoped (file_package file) (sp_name s), (i, s))) (file_service file).
Lemma fileServices_declared file : fileServices file = map (recordService file) (numberedServices file).
Proof. apply imap_map. intros i s. by rewrite qualifiedName_scoped. Qed.
Lemma numberedServices_declared file :
  declaredServices file = map (fun e => (e.1, (at_ [] 6 e.2.1, e.2.2))) (numberedServices file).
Proof. by apply imap_map. Qed.
Lemma numberedServices_names file : (numberedServices file).*1 = (declaredServices file).*1.
Proof. unfold declaredServices, numberedServices. by rewrite !fmap_imap. Qed.
Lemma numberedServices_service file n i s : (n, (i, s)) ∈ numberedServices file -> s ∈ file_service file.
Proof.
  intros (k&Hk)%list_elem_of_lookup. unfold numberedServices in Hk. rewrite list_lookup_imap in Hk.
  destruct (file_service file !! k) as [s'|] eqn:E; [|done]. injection Hk as _ _ <-. by eapply list_elem_of_lookup_2.
Qed.

(** C17: parsing succeeds on every descriptor set that a protobuf compiler can make, one
    without a negative oneof index whose declarations have distinct names, and the three
    maps then index it: every message and enum at any depth and every service is there
    under its fully-qualified name, with its fields, oneofs and their members, values,
    methods, types without their leading dot, presence and comments, and nothing else is. *)
Theorem parse_exact fds :
  distinctNames fds -> forallb (fun f => forallb nonnegOneofs (file_message_type f)) fds = true ->
  exists pd, parseFileDescriptorSet fds = Ok pd /\
    indexes declaredMessages describesMessage fds (Messages pd) /\
    indexes declaredEnums describesEnum fds (Enums pd) /\
    indexes declaredServices describesService fds (Services pd).
Proof.
  intros [Hm He Hs Hmeth] Hn. destruct (parse_returns _ Hn) as [pd Hp]. exists pd. split; [done|].
  rewrite <- (names_declared _ recordMessage fileMessages) in Hm by (done || apply fileMessages_declared).
  rewrite <- (names_declared _ recordEnum fileEnums) in He by (done || apply fileEnums_declared).
  assert (NoDup (allServices fds).*1) as Hs'.
  { unfold allServices. rewrite (names_declared _ recordService fileServices) by (done || apply fileServices_declared).
    erewrite map_ext; [exact Hs|]. apply numberedServices_names. }
  pose proof Hp as Hret. destruct (parse_maps fds pd Hm He Hs' Hp) as (HM&HE&HS). apply parse_extend in Hret as (infos&Hpar&_). split_and!; split.
  - intros file n p d Hf Hd. assert ((n, messageInfo d n (extractComments file) p (file_syntax file)) ∈ allMessages fds) as Hin.
    { apply (elem_of_listed _ declaredMessages recordMessage); [apply fileMessages_declared|]. by exists file, (n, (p, d)). }
    pose proof Hin as Hok. apply list_elem_of_lookup in Hok as [k Hk]. destruct (Forall2_lookup_l _ _ _ _ _ Hpar Hk) as ([n' info]&_&[= <- Hinfo]).
    exists info. rewrite HM, <- Hinfo. split; [done|by apply messageInfo_describes].
  - intros n [info (f&e&Hf&Hd&[= -> _])%HM%(elem_of_listed _ declaredMessages recordMessage _ _ fileMessages_declared)].
    exists f. split; [done|]. by apply list_elem_of_fmap_2.
  - intros file n p d Hf Hd. exists (parseEnum d n (extractComments file) p). split; [|apply parseEnum_describes].
    apply HE, (elem_of_listed _ declaredEnums recordEnum); [apply fileEnums_declared|]. by exists file, (n, (p, d)).
  - intros n [info (f&e&Hf&Hd&[= -> _])%HE%(elem_of_listed _ declaredEnums recordEnum _ _ fileEnums_declared)].
    exists f. split; [done|]. by apply list_elem_of_fmap_2.
  - intros file n p s Hf Hd. rewrite numberedServices_declared in Hd. apply list_elem_of_In, in_map_iff in Hd as ([n' [i s']]&[= <- <- <-]&Hd%list_elem_of_In).
    exists (parseService (extractComments file) n' i s'). cbn [fst snd]. split.
    + apply HS, (elem_of_listed _ numberedServices recordService); [apply fileServices_declared|]. by exists file, (n', (i, s')).
    + apply parseService_describes. eapply Hmeth; [exact Hf|]. by eapply numberedServices_service.
  - intros n [info (f&e&Hf&Hd&[= -> _])%HS%(elem_of_listed _ numberedServices recordService _ _ fileServices_declared)].
    exists f. split; [done|]. rewrite <- numberedServices_names. by apply list_elem_of_fmap_2.
Qed.

(** A negative oneof index is not an error but a panic, before the descriptors are
    validated. *)
Definition negativeOneof : FileDescriptorSet :=
  [mkFileProto "shop" "proto3" []
     [mkDescriptorProto "Bad" [] [] ["choice"] [mkFieldProto "a" "a" 1 9 "" 1 (Some (-1)%Z) false] None] [] None].

Lemma negative_oneof_panics : parseFileDescriptorSet negativeOneof = Panic "index out of range".
Proof. vm_compute. reflexivity. Qed.

(** ** Witnesses *)

Definition shopFile : FileDescriptorProto :=
  mkFileProto "shop" "proto3" [mkEnumProto "Status" [mkEnumValueProto "OPEN" 0; mkEnumValueProto "DONE" 1]]
    [mkDescriptorProto "Order" [mkEnumProto "Kind" [mkEnumValueProto "NEW" 0]]
       [mkDescriptorProto "TagsEntry" [] [] [] [mkFieldProto "key" "key" 1 9 "" 1 None false;
          mkFieldProto "value" "value" 2 9 "" 1 None false] (Some true)]
       ["choice"; "_note"]
       [mkFieldProto "order_id" "orderId" 1 9 "" 1 None false;
        mkFieldProto "tags" "tags" 2 11 ".shop.Order.TagsEntry" 3 None false;
        mkFieldProto "card" "card" 3 9 "" 1 (Some 0%Z) false;
        mkFieldProto "note" "note" 4 9 "" 1 (Some 1%Z) true;
        mkFieldProto "parent" "parent" 5 11 ".shop.Order" 1 None false] None;
     mkDescriptorProto "Ack" [] [] [] [] None]
    [mkServiceProto "Orders" [mkMethodProto "Place" ".shop.Order" ".shop.Ack" false false;
       mkMethodProto "Watch" ".shop.Order" ".shop.Ack" false true]]
    (Some [mkLocation [6; 0]%Z " The orders. " ""; mkLocation [4; 0; 2; 0]%Z "" "Its id"]).

Lemma parse_exact_witness :
  exists pd, parseFileDescriptorSet [shopFile] = Ok pd /\
    is_Some (Messages pd !! "shop.Order.TagsEntry") /\ is_Some (Enums pd !! "shop.Order.Kind") /\
    is_Some (Services pd !! "shop.Orders").
Proof.
  assert (distinctNames [shopFile]) as Hd.
  { split; [by_computation..|]. intros f s ->%list_elem_of_singleton ->%list_elem_of_singleton. by_computation. }
  destruct (parse_exact [shopFile] Hd eq_refl) as (pd&Hp&[HM _]&[HE _]&[HS _]). exists pd. split; [exact Hp|].
  split_and!.
  - edestruct (HM shopFile) as (info&Hi&_); [by left|apply list_elem_of_lookup_2 with 0; vm_compute; reflexivity|by exists info].
  - edestruct (HE shopFile) as (info&Hi&_); [by left|apply list_elem_of_lookup_2 with 1; vm_compute; reflexivity|by exists info].
  - edestruct (HS shopFile) as (info&Hi&_); [by left|apply list_elem_of_lookup_2 with 0; vm_compute; reflexivity|by exists info].
Defined.
