(* ===== verification/JsonSchema.v ===== *)
(** * JSON Schemas of messages (src/go/schema.go)

    A tool's input schema is generated from the parsed descriptor.  The generator
    keeps a set of the message types it is inside of, to cut recursive types; the
    set is threaded through every call, as the code mutates it.  [map[string]any]
    values are association lists with distinct keys. *)
From S2P Require Import Prelude GoStrings StringFacts ParsedDescriptor ParsedSpec.

(** ** [map[string]any] *)

Inductive Any : Type :=
  | AString (s : string)
  | ABool (b : bool)
  | AInt (z : Z)
  | AStrings (l : list string)
  | AList (l : list Any)
  | AMap (l : list (string * Any)).

(** [m[k] = v]. *)
Fixpoint setKey {A} (k : string) (v : A) (l : list (string * A)) : list (string * A) :=
  match l with
  | [] => [(k, v)]
  | (k', v') :: l => if decide (k = k') then (k, v) :: l else (k', v') :: setKey k v l
  end.

Definition setEntry (k : string) (v : Any) (a : Any) : Any :=
  match a with AMap l => AMap (setKey k v l) | _ => a end.

(** ** Constants *)

Definition typeDouble : Z := 1.
Definition typeFloat : Z := 2.
Definition typeInt64 : Z := 3.
Definition typeUint64 : Z := 4.
Definition typeInt32 : Z := 5.
Definition typeFixed64 : Z := 6.
Definition typeFixed32 : Z := 7.
Definition typeBool : Z := 8.
Definition typeString : Z := 9.
Definition typeMessage : Z := 11.
Definition typeBytes : Z := 12.
Definition typeUint32 : Z := 13.
Definition typeEnum : Z := 14.
Definition typeSfixed32 : Z := 15.
Definition typeSfixed64 : Z := 16.
Definition typeSint32 : Z := 17.
Definition typeSint64 : Z := 18.
Definition labelRepeated : Z := 3.

Definition signedPattern : string := "^(0|-?[1-9][0-9]*)$".
Definition unsignedPattern : string := "^(0|[1-9][0-9]*)$".
Definition durationPattern : string := "^-?(?:0|[1-9][0-9]*)(?:" +:+ str1 BACKSLASH +:+ ".[0-9]{1,9})?s$".

Definition ofType (t : string) : Any := AMap [("type", AString t)].
Definition objectAny : Any := ofType "object".

Definition wkt : list (string * Any) := [
  ("google.protobuf.Timestamp", AMap [("type", AString "string"); ("format", AString "date-time")]);
  ("google.protobuf.Duration", AMap [("type", AString "string"); ("pattern", AString durationPattern)]);
  ("google.protobuf.Any", objectAny);
  ("google.protobuf.Struct", objectAny);
  ("google.protobuf.Value", AMap []);
  ("google.protobuf.Int64Value", AMap [("type", AString "string"); ("pattern", AString signedPattern)]);
  ("google.protobuf.UInt64Value", AMap [("type", AString "string"); ("pattern", AString unsignedPattern)]);
  ("google.protobuf.Int32Value", ofType "integer");
  ("google.protobuf.UInt32Value", AMap [("type", AString "integer"); ("minimum", AInt 0)]);
  ("google.protobuf.BoolValue", ofType "boolean");
  ("google.protobuf.StringValue", ofType "string");
  ("google.protobuf.BytesValue", AMap [("type", AString "string"); ("contentEncoding", AString "base64")]);
  ("google.protobuf.FieldMask", ofType "string");
  ("google.protobuf.ListValue", AMap [("type", AString "array"); ("items", AMap [])]);
  ("google.protobuf.Empty", AMap [("type", AString "object"); ("additionalProperties", ABool false)])].

Definition protoJSONFloatSchema : Any :=
  AMap [("oneOf", AList [ofType "number";
    AMap [("type", AString "string"); ("enum", AStrings ["NaN"; "Infinity"; "-Infinity"])]])].

(** ** The generator *)

(** A computation over the set [visiting]. *)
Definition SG (A : Type) : Type := gset string -> Outcome (A * gset string).
Definition ret {A} (a : A) : SG A := fun v => Ok (a, v).
Definition bindSG {A B} (m : SG A) (f : A -> SG B) : SG B := fun v =>
  match m v with
  | Ok (a, v) => f a v
  | Err e => Err e
  | Panic e => Panic e
  | NoFuel => NoFuel
  end.

Section Generator.
Context (parsed : ParsedDescriptor).

Definition enumSchema (typeName : string) : Any :=
  if decide (typeName = "google.protobuf.NullValue") then ofType "null"
  else match Enums parsed !! typeName with
       | None => ofType "string"
       | Some enumInfo => AMap [("type", AString "string"); ("enum", AStrings (map evi_Name (ei_Values enumInfo)))]
       end.

Definition isMapField (field : FieldInfo) : bool :=
  if negb (fi_Label field =? labelRepeated)%Z || negb (fi_Type field =? typeMessage)%Z then false
  else match Messages parsed !! fi_TypeName field with
       | Some msg => mi_IsMapEntry msg
       | None => false
       end.

(** The last field of that name. *)
Definition namedField (name : string) (fields : list FieldInfo) : option FieldInfo :=
  foldl (fun found f => if decide (fi_Name f = name) then Some f else found) None fields.

Section WithMessages.
(** [messageTypeSchema], tied below. *)
Context (messageTypeSchema : string -> SG Any).

Definition fieldTypeSchema (field : FieldInfo) : SG Any :=
  let t := fi_Type field in
  let among (l : list Z) : bool := existsb (Z.eqb t) l in
  if among [typeDouble; typeFloat] then ret protoJSONFloatSchema
  else if among [typeInt32; typeSint32; typeSfixed32] then ret (ofType "integer")
  else if among [typeInt64; typeSint64; typeSfixed64] then
    ret (AMap [("type", AString "string"); ("pattern", AString signedPattern)])
  else if among [typeUint32; typeFixed32] then ret (AMap [("type", AString "integer"); ("minimum", AInt 0)])
  else if among [typeUint64; typeFixed64] then
    ret (AMap [("type", AString "string"); ("pattern", AString unsignedPattern)])
  else if among [typeBool] then ret (ofType "boolean")
  else if among [typeString] then ret (ofType "string")
  else if among [typeBytes] then ret (AMap [("type", AString "string"); ("contentEncoding", AString "base64")])
  else if among [typeEnum] then ret (enumSchema (fi_TypeName field))
  else if among [typeMessage] then messageTypeSchema (fi_TypeName field)
  else ret (AMap []).

Definition mapSchema (mapEntryMsg : MessageInfo) : SG Any :=
  match namedField "value" (mi_Fields mapEntryMsg) with
  | None => ret objectAny
  | Some valueField =>
      bindSG (fieldTypeSchema valueField) (fun value =>
        let schema := [("type", AString "object"); ("additionalProperties", value)] in
        ret (match namedField "key" (mi_Fields mapEntryMsg) with
             | None => AMap schema
             | Some keyField =>
                 let among (l : list Z) : bool := existsb (Z.eqb (fi_Type keyField)) l in
                 if among [typeBool] then
                   AMap (setKey "propertyNames" (AMap [("enum", AStrings ["false"; "true"])]) schema)
                 else if among [typeInt32; typeInt64; typeSint32; typeSint64; typeSfixed32; typeSfixed64] then
                   AMap (setKey "propertyNames" (AMap [("pattern", AString signedPattern)]) schema)
                 else if among [typeUint32; typeUint64; typeFixed32; typeFixed64] then
                   AMap (setKey "propertyNames" (AMap [("pattern", AString unsignedPattern)]) schema)
                 else AMap schema
             end))
  end.

Definition propertyName (field : FieldInfo) : string :=
  if decide (fi_JsonName field = "") then fi_Name field else fi_JsonName field.

Definition propertySchema (field : FieldInfo) : SG Any :=
  bindSG
    (if isMapField field then
       match Messages parsed !! fi_TypeName field with
       | Some mapMsg => mapSchema mapMsg
       | None => ret objectAny
       end
     else if (fi_Label field =? labelRepeated)%Z then
       bindSG (fieldTypeSchema field) (fun items => ret (AMap [("type", AString "array"); ("items", items)]))
     else fieldTypeSchema field)
    (fun prop => ret (if decide (fi_Comment field = "") then prop
                      else setEntry "description" (AString (fi_Comment field)) prop)).

Definition oneofFields (msg : MessageInfo) : list string := concat (map oi_FieldNames (mi_Oneofs msg)).

Definition requiredField (msg : MessageInfo) (field : FieldInfo) : bool :=
  negb (fi_Label field =? labelRepeated)%Z
  && negb (bool_decide (fi_Name field ∈ oneofFields msg))
  && negb (bool_decide (is_Some (fi_OneofIndex field)))
  && negb (fi_Optional field).

Fixpoint messageFields (msg : MessageInfo) (fields : list FieldInfo) (properties : list (string * Any))
    (required : list string) : SG (list (string * Any) * list string) :=
  match fields with
  | [] => ret (properties, required)
  | field :: fields =>
      bindSG (propertySchema field) (fun prop =>
        messageFields msg fields (setKey (propertyName field) prop properties)
          (if requiredField msg field then required ++ [propertyName field] else required))
  end.

Definition objectSchema (properties : list (string * Any)) (required : list string) : Any :=
  AMap ([("type", AString "object"); ("properties", AMap properties); ("additionalProperties", ABool false)]
        ++ match required with [] => [] | _ => [("required", AStrings required)] end).

Definition messageSchema (msg : MessageInfo) : SG Any :=
  bindSG (messageFields msg (mi_Fields msg) [] []) (fun pr => ret (objectSchema pr.1 pr.2)).
End WithMessages.

Fixpoint messageTypeSchema (fuel : nat) (typeName : string) : SG Any := fun visiting =>
  match fuel with
  | 0 => NoFuel
  | S fuel =>
      if decide (typeName = "google.protobuf.DoubleValue" \/ typeName = "google.protobuf.FloatValue")
      then Ok (protoJSONFloatSchema, visiting)
      else match assoc typeName wkt with
      | Some w => Ok (w, visiting)
      | None =>
          if decide (typeName ∈ visiting) then Ok (objectAny, visiting)
          else match Messages parsed !! typeName with
          | None => Ok (objectAny, visiting)
          | Some msg =>
              bindSG (messageSchema (messageTypeSchema fuel) msg)
                (fun schema visiting => Ok (schema, visiting ∖ {[typeName]}))
                ({[typeName]} ∪ visiting)
          end
      end
  end.

(** The root is not itself marked as visited. *)
Definition MessageToSchema (fuel : nat) (fullName : string) : Outcome Any :=
  match Messages parsed !! fullName with
  | None => Ok objectAny
  | Some msg =>
      match messageSchema (messageTypeSchema fuel) msg ∅ with
      | Ok (schema, _) => Ok schema
      | Err e => Err e
      | Panic e => Panic e
      | NoFuel => NoFuel
      end
  end.
End Generator.

(** The recursion is bounded by the number of messages. *)
Definition schemaFuel (parsed : ParsedDescriptor) : nat := S (size (Messages parsed)).

(** ** The schema generator always returns

    Marking and unmarking visited messages is balanced, so the set is the same
    before and after every call; each nested message strictly enlarges it, so the
    recursion is no deeper than the number of messages and its result does not
    depend on the fuel. *)
(** Two computations that return the same value and leave the set as it was. *)
Definition Agree {A} (visiting : gset string) (m1 m2 : SG A) : Prop :=
  exists a, m1 visiting = Ok (a, visiting) /\ m2 visiting = Ok (a, visiting).

Create HintDb schema discriminated.

Lemma Agree_ret {A} V (a : A) : Agree V (ret a) (ret a).
Proof. by exists a. Qed.

Lemma Agree_bind {A B} V (m1 m2 : SG A) (f1 f2 : A -> SG B) :
  Agree V m1 m2 -> (forall a, Agree V (f1 a) (f2 a)) -> Agree V (bindSG m1 f1) (bindSG m2 f2).
Proof. intros (a&H1&H2) Hf. unfold Agree, bindSG. rewrite H1, H2. apply Hf. Qed.
#[export] Hint Resolve Agree_ret Agree_bind : schema.

Lemma Agree_left {A} V (m1 m2 : SG A) : Agree V m1 m2 -> Agree V m1 m1.
Proof. intros (a&H1&_). by exists a. Qed.

Section Agreement.
Context (parsed : ParsedDescriptor) (V : gset string) (rec1 rec2 : string -> SG Any).
Hypothesis Hrec : forall n, Agree V (rec1 n) (rec2 n).

Lemma fieldTypeSchema_agree f : Agree V (fieldTypeSchema parsed rec1 f) (fieldTypeSchema parsed rec2 f).
Proof. unfold fieldTypeSchema. cbv zeta. repeat case_match; auto with schema. Qed.

Lemma mapSchema_agree m : Agree V (mapSchema parsed rec1 m) (mapSchema parsed rec2 m).
Proof.
  unfold mapSchema. case_match; auto with schema. apply Agree_bind; [apply fieldTypeSchema_agree|auto with schema].
Qed.

Lemma propertySchema_agree f : Agree V (propertySchema parsed rec1 f) (propertySchema parsed rec2 f).
Proof.
  unfold propertySchema. apply Agree_bind; [|auto with schema]. repeat case_match; auto with schema.
  - apply mapSchema_agree.
  - apply Agree_bind; [apply fieldTypeSchema_agree|auto with schema].
  - apply fieldTypeSchema_agree.
Qed.

Lemma messageFields_agree msg fields props req :
  Agree V (messageFields parsed rec1 msg fields props req) (messageFields parsed rec2 msg fields props req).
Proof.
  revert props req. induction fields as [|f fields IH]; intros props req; [apply Agree_ret|].
  cbn [messageFields]. apply Agree_bind; [apply propertySchema_agree|]. intros a. apply IH.
Qed.

Lemma messageSchema_agree msg : Agree V (messageSchema parsed rec1 msg) (messageSchema parsed rec2 msg).
Proof. unfold messageSchema. apply Agree_bind; [apply messageFields_agree|auto with schema]. Qed.
End Agreement.

Lemma messageTypeSchema_agree parsed n f1 f2 V :
  V ⊆ dom (Messages parsed) -> size (Messages parsed) < f1 + size V -> size (Messages parsed) < f2 + size V ->
  Agree V (messageTypeSchema parsed f1 n) (messageTypeSchema parsed f2 n).
Proof.
  revert f2 V n. induction f1 as [|f1 IH]; intros f2 V n HV H1 H2.
  - apply subseteq_size in HV. rewrite size_dom in HV. lia.
  - destruct f2 as [|f2]; [apply subseteq_size in HV; rewrite size_dom in HV; lia|].
    unfold Agree. cbn [messageTypeSchema]. case_decide; [by eexists|].
    destruct (assoc n wkt); [by eexists|]. case_decide as Hin; [by eexists|].
    destruct (Messages parsed !! n) as [msg|] eqn:Hm; [|by eexists].
    assert (size ({[n]} ∪ V) = S (size V)) as Hs.
    { rewrite size_union by set_solver. by rewrite size_singleton. }
    destruct (messageSchema_agree parsed ({[n]} ∪ V) (messageTypeSchema parsed f1) (messageTypeSchema parsed f2))
      with (msg := msg) as (a&Ha1&Ha2).
    + intros m. apply IH; [|rewrite Hs; lia..]. apply elem_of_dom_2 in Hm. set_solver.
    + exists a. unfold bindSG. rewrite Ha1, Ha2. assert (({[n]} ∪ V) ∖ {[n]} = V) as -> by set_solver. done.
Qed.

(** ** The properties of an object *)

Lemma setKey_elem {A} k (v : A) l : NoDup l.*1 ->
  NoDup (setKey k v l).*1 /\ forall k' v', (k', v') ∈ setKey k v l <-> k' = k /\ v' = v \/ k' <> k /\ (k', v') ∈ l.
Proof.
  induction l as [|[k0 v0] l IH]; intros Hnd; cbn.
  - split; [apply NoDup_singleton|]. intros k' v'. rewrite list_elem_of_singleton, elem_of_nil. naive_solver.
  - apply list.NoDup_cons in Hnd as [Hk0 Hnd]. destruct (IH Hnd) as [Hn He]. case_decide as Hk; cbn.
    + subst. split; [by apply list.NoDup_cons|]. intros k' v'. rewrite !elem_of_cons. split; [|naive_solver].
      intros [[= -> ->]|Hin]; [by left|]. right. split; [|by right]. intros ->. apply Hk0. by apply (list_elem_of_fmap_2 fst) in Hin.
    + split.
      * apply list.NoDup_cons. split; [|done]. intros ([k' v']&Hk'&[[-> ->]|[_ Hin]]%He)%list_elem_of_fmap; cbn in Hk'; subst; [done|].
        apply Hk0. by apply (list_elem_of_fmap_2 fst) in Hin.
      * intros k' v'. rewrite !elem_of_cons, He. naive_solver.
Qed.

(** The name of a property: the JSON name of the field, or its own. *)
Definition jsonNameOf (f : FieldInfo) : string := match fi_JsonName f with EmptyString => fi_Name f | n => n end.
Lemma propertyName_jsonNameOf f : propertyName f = jsonNameOf f.
Proof. unfold propertyName, jsonNameOf. by destruct (fi_JsonName f). Qed.
(** The field a name stands for: the last, should several have it. *)
Definition fieldNamed (k : string) (fields : list FieldInfo) : option FieldInfo := list.last (filter (fun f => jsonNameOf f = k) fields).
(** A field every value has: singular, without presence of its own. *)
Definition mandatory (msg : MessageInfo) (f : FieldInfo) : Prop :=
  fi_Label f <> 3%Z /\ fi_Optional f = false /\ fi_OneofIndex f = None /\ forall o, o ∈ mi_Oneofs msg -> fi_Name f ∉ oi_FieldNames o.
Lemma requiredField_mandatory msg f : requiredField msg f = true <-> mandatory msg f.
Proof.
  unfold requiredField, mandatory, oneofFields. rewrite !andb_true_iff, !negb_true_iff, !bool_decide_eq_false, Z.eqb_neq, eq_None_not_Some.
  assert (fi_Name f ∈ concat (map oi_FieldNames (mi_Oneofs msg)) <-> exists o, o ∈ mi_Oneofs msg /\ fi_Name f ∈ oi_FieldNames o) as ->; [|naive_solver].
  rewrite list_elem_of_In, in_concat. setoid_rewrite in_map_iff. setoid_rewrite list_elem_of_In. naive_solver.
Qed.

Lemma messageFields_exact parsed rec V msg fields props req r :
  (forall n, Agree V (rec n) (rec n)) -> NoDup props.*1 ->
  messageFields parsed rec msg fields props req V = Ok (r, V) ->
  r.2 = req ++ map propertyName (List.filter (requiredField msg) fields) /\ NoDup r.1.*1 /\
  (forall k, k ∈ props.*1 \/ is_Some (fieldNamed k fields) -> k ∈ r.1.*1) /\
  (forall k v, (k, v) ∈ r.1 ->
    match fieldNamed k fields with Some f => propertySchema parsed rec f V = Ok (v, V) | None => (k, v) ∈ props end).
Proof.
  intros Hrec. revert props req. induction fields as [|f fields IH]; intros props req Hnd Hr.
  - injection Hr as <-. rewrite app_nil_r. split_and!; [done|done| |done]. intros k [?|[? ?]]; done.
  - cbn [messageFields] in Hr. destruct (propertySchema_agree parsed V rec rec Hrec f) as (p&Hp&_). unfold bindSG in Hr. rewrite Hp in Hr.
    destruct (setKey_elem (propertyName f) p props Hnd) as [Hn1 He1]. apply IH in Hr as (Hr2&Hn&Hin&Hval); [|done].
    assert (forall k, fieldNamed k (f :: fields) =
      match fieldNamed k fields with Some g => Some g | None => if decide (jsonNameOf f = k) then Some f else None end) as Hlast.
    { intros k. unfold fieldNamed. rewrite filter_cons. destruct (decide (jsonNameOf f = k)); [|by destruct (list.last _)].
      rewrite last_cons. by destruct (list.last _). }
    split_and!; [|done| |].
    + rewrite Hr2. cbn [List.filter]. destruct (requiredField msg f); [|done]. by rewrite <- app_assoc.
    + intros k Hk. apply Hin. rewrite Hlast in Hk. destruct (fieldNamed k fields); [right; by eexists|].
      destruct (decide (jsonNameOf f = k)) as [<-|Hne]; [|destruct Hk as [Hk|[? ?]]; [|done]].
      * left. apply (list_elem_of_fmap_2 fst _ (jsonNameOf f, p)), He1. left. by rewrite propertyName_jsonNameOf.
      * left. apply list_elem_of_fmap in Hk as ([k' v]&->&Hkv). apply (list_elem_of_fmap_2 fst _ (k', v)), He1. right.
        by rewrite propertyName_jsonNameOf.
    + intros k v Hkv%Hval. rewrite Hlast. destruct (fieldNamed k fields) as [g|]; [done|].
      apply He1 in Hkv as [[-> ->]|[Hne Hkv]]; rewrite <- propertyName_jsonNameOf in *; [by rewrite decide_True|by rewrite decide_False].
Qed.

(** The fields of a schema of a message. *)
Definition schemaOf (parsed : ParsedDescriptor) (msg : MessageInfo) (schema : Any) : Prop :=
  exists props required, schema = objectSchema props required /\ NoDup props.*1 /\
    (forall k, k ∈ props.*1 <-> k ∈ map jsonNameOf (mi_Fields msg)) /\
    (forall k, k ∈ required <-> exists f, f ∈ mi_Fields msg /\ mandatory msg f /\ k = jsonNameOf f) /\
    (forall k v, (k, v) ∈ props -> exists f, fieldNamed k (mi_Fields msg) = Some f /\
       forall fuel, size (Messages parsed) < fuel -> propertySchema parsed (messageTypeSchema parsed fuel) f ∅ = Ok (v, ∅)).
Lemma fieldNamed_is_Some k fields : is_Some (fieldNamed k fields) <-> k ∈ map jsonNameOf fields.
Proof.
  unfold fieldNamed. rewrite last_is_Some, list_elem_of_In, in_map_iff. split.
  - intros Hne. destruct (filter _ fields) as [|f l] eqn:E; [done|]. assert (f ∈ filter (fun f => jsonNameOf f = k) fields) as Hf by (rewrite E; left).
    apply list_elem_of_filter in Hf as [Hk Hf]. exists f. by rewrite <- list_elem_of_In.
  - intros (f&Hk&Hf%list_elem_of_In) Hnil. assert (f ∈ filter (fun f => jsonNameOf f = k) fields) as Hin by (by apply list_elem_of_filter).
    rewrite Hnil in Hin. by apply elem_of_nil in Hin.
Qed.

(** C18: the generator returns for every name and every parsed descriptor, whatever cycles
    its messages have: with fuel above the number of messages the result does not depend
    on the fuel, and the set of open messages is as it was.  An unknown name gives a free
    object.  A message gives a closed object whose properties are the names of its fields,
    each once, with the schema of the last field of the name, and whose required
    names are those of the fields that are neither repeated, nor optional, nor in a oneof. *)
Theorem schema_total parsed name : exists schema,
  (forall fuel, size (Messages parsed) < fuel -> MessageToSchema parsed fuel name = Ok schema) /\
  match Messages parsed !! name with
  | None => schema = AMap [("type", AString "object")]
  | Some msg => schemaOf parsed msg schema
  end.
Proof.
  unfold MessageToSchema. destruct (Messages parsed !! name) as [msg|]; [|by eexists].
  assert (forall f1 f2, size (Messages parsed) < f1 -> size (Messages parsed) < f2 ->
    forall n, Agree ∅ (messageTypeSchema parsed f1 n) (messageTypeSchema parsed f2 n)) as Hrec.
  { intros f1 f2 H1 H2 n. apply messageTypeSchema_agree; [set_solver|rewrite size_empty; lia..]. }
  set (f0 := schemaFuel parsed). assert (size (Messages parsed) < f0) as Hf0 by (unfold f0, schemaFuel; lia).
  destruct (messageFields_agree parsed ∅ _ _ (Hrec f0 f0 Hf0 Hf0) msg (mi_Fields msg) [] []) as ([props required]&Hr&_).
  exists (objectSchema props required). split.
  { intros fuel Hf. destruct (messageFields_agree parsed ∅ _ _ (Hrec f0 fuel Hf0 Hf) msg (mi_Fields msg) [] []) as (r'&Hr1&Hr2).
    rewrite Hr1 in Hr. injection Hr as ->. unfold messageSchema, bindSG. by rewrite Hr2. }
  apply messageFields_exact in Hr as (Hreq&Hnd&Hin&Hval); [|by apply Hrec|constructor]. cbn [fst snd app] in *.
  exists props, required. split_and!; [done|done| | |].
  - intros k. rewrite <- fieldNamed_is_Some. split; [|intros; apply Hin; by right].
    intros ([k' v]&->&Hkv)%list_elem_of_fmap. specialize (Hval _ _ Hkv). cbn. destruct (fieldNamed k' _); [by eexists|by apply elem_of_nil in Hval].
  - intros k. rewrite Hreq, list_elem_of_In, in_map_iff. setoid_rewrite filter_In. setoid_rewrite requiredField_mandatory.
    setoid_rewrite propertyName_jsonNameOf. setoid_rewrite list_elem_of_In. naive_solver.
  - intros k v Hkv. specialize (Hval _ _ Hkv). destruct (fieldNamed k _) as [f|]; [|by apply elem_of_nil in Hval]. exists f. split; [done|].
    intros fuel Hf. destruct (propertySchema_agree parsed ∅ _ _ (Hrec f0 fuel Hf0 Hf) f) as (a&H1&H2). rewrite Hval in H1. by injection H1 as <-.
Qed.

(** ** Witnesses *)

Definition shopParsed : ParsedDescriptor :=
  match parseFileDescriptorSet [shopFile] with Ok pd => pd | _ => emptyParsed end.

(** [Order] has a map field and a field of its own type. *)
Example order_schema :
  match MessageToSchema shopParsed 10 "shop.Order" with
  | Ok (AMap l) => List.find (fun e => String.eqb e.1 "required") l = Some ("required", AStrings ["orderId"; "parent"])
  | _ => False
  end.
Proof. vm_compute. reflexivity. Qed.
