(* ===== verification/Reachable.v ===== *)
(** * Descriptor graphs (src/go/registration.go)

    The files a service or a message depends on by value are collected by a depth
    first search over its message types, and two such collections are compared file
    by file.  Descriptors belong to protoreflect; here they are the data the search
    reads: the defining file of a message and, for each field, the message or the
    enum it refers to. *)
From S2P Require Import Prelude GoStrings StringFacts.

Record FileDescriptor : Type := mkFile { Path : string; Content : string }.
#[export] Instance FileDescriptor_eq_dec : EqDecision FileDescriptor.
Proof. solve_decision. Defined.

(** The kind of a field, as far as the search is concerned. *)
Inductive FieldRef : Type :=
  | MessageRef (name : string)
  | EnumRef (file : FileDescriptor)
  | ScalarRef.
Record MessageNode : Type := mkMessageNode { ParentFile : FileDescriptor; FieldRefs : list FieldRef }.
Notation Graph := (gmap string MessageNode).

Record ServiceNode : Type := mkServiceNode {
  sn_ParentFile : FileDescriptor;
  sn_Methods : list (string * (string * string))
}.
Notation Files := (gmap string FileDescriptor).
Definition addFile (file : FileDescriptor) (files : Files) : Files := <[Path file := file]> files.

(** ** The search *)

(** The maps the code mutates: the files collected and the messages seen. *)
Notation Search := (Files * gset string)%type.

Section Search.
Context (graph : Graph).

Fixpoint addReachableMessageFiles (fuel : nat) (message : string) (s : Search) : Outcome Search :=
  match fuel with
  | 0 => NoFuel
  | S fuel =>
      let '(files, seen) := s in
      if decide (message ∈ seen) then Ok (files, seen)
      else match graph !! message with
      | None => Panic "nil message descriptor"
      | Some node =>
          foldOutcome (fun s field =>
            match field with
            | MessageRef name => addReachableMessageFiles fuel name s
            | EnumRef file => Ok (addFile file s.1, s.2)
            | ScalarRef => Ok s
            end) (FieldRefs node) (addFile (ParentFile node) files, {[message]} ∪ seen)
      end
  end.

Definition reachableMessageFiles (fuel : nat) (message : string) : Outcome Files :=
  s ← addReachableMessageFiles fuel message (∅, ∅);
  Ok s.1.

Definition reachableServiceFiles (fuel : nat) (service : ServiceNode) : Outcome Files :=
  s ← foldOutcome (fun s method =>
        s ← addReachableMessageFiles fuel method.2.1 s;
        addReachableMessageFiles fuel method.2.2 s)
        (sn_Methods service) (addFile (sn_ParentFile service) ∅, ∅);
  Ok s.1.
End Search.

(** ** Comparison *)

Section Compare.
(** [proto.Equal] of the two file descriptors, their SourceCodeInfo removed. *)
Context (sameFile : FileDescriptor -> FileDescriptor -> bool).

Fixpoint firstMismatch (generated runtime : Files) (paths : list string) : string :=
  match paths with
  | [] => ""
  | path :: paths =>
      match generated !! path, runtime !! path with
      | Some g, Some r => if sameFile g r then firstMismatch generated runtime paths else path
      | _, _ => path
      end
  end.

Definition descriptorGraphMismatch (generated runtime : Files) : string :=
  if negb (size generated =? size runtime) then "<reachable graph>"
  else firstMismatch generated runtime (sortStrings (map fst (map_to_list generated))).
End Compare.

(** ** What the search computes *)

(** A message reached from another one through its fields. *)
Inductive Reaches (graph : Graph) : string -> string -> Prop :=
  | reaches_refl m : is_Some (graph !! m) -> Reaches graph m m
  | reaches_step m node n k :
      graph !! m = Some node -> MessageRef n ∈ FieldRefs node -> Reaches graph n k -> Reaches graph m k.

(** The file of a message, or of an enum one of its fields has. *)
Definition fileOf (graph : Graph) (message : string) (file : FileDescriptor) : Prop :=
  exists node, graph !! message = Some node /\ (file = ParentFile node \/ EnumRef file ∈ FieldRefs node).

(** Every message a field refers to is in the graph. *)
Definition closed (graph : Graph) : Prop :=
  forall m node n, graph !! m = Some node -> MessageRef n ∈ FieldRefs node -> is_Some (graph !! n).

(** A path names one file. *)
Definition onePerPath (graph : Graph) : Prop :=
  forall m m' f f', fileOf graph m f -> fileOf graph m' f' -> Path f = Path f' -> f = f'.
