(* ===== verification/ReachableSpec.v ===== *)
(** * The search collects exactly the reachable files *)
From S2P Require Import Prelude GoStrings StringFacts Reachable.

Lemma Reaches_dom graph m k : Reaches graph m k -> is_Some (graph !! k).
Proof. by induction 1. Qed.

Section Correct.
Context (graph : Graph).
(** The files of the registry: a path names one of them. *)
Context (known : FileDescriptor -> Prop).
Hypothesis known_path : forall f f', known f -> known f' -> Path f = Path f' -> f = f'.
Hypothesis graph_known : forall m f, fileOf graph m f -> known f.
Hypothesis graph_closed : closed graph.

Definition wfFiles (files : Files) : Prop := forall p f, files !! p = Some f -> Path f = p /\ known f.

(** What a part of the search adds: the messages reached from the roots, each with
    its successors and its files, and the files of [extra]. *)
Record Grew (roots : string -> Prop) (extra : FileDescriptor -> Prop) (s s' : Search) : Prop := {
  g_seen : s.2 ⊆ s'.2;
  g_files : s.1 ⊆ s'.1;
  g_roots m : roots m -> m ∈ s'.2;
  g_new m : m ∈ s'.2 -> m ∉ s.2 -> exists r, roots r /\ Reaches graph r m;
  g_closed m node n : m ∈ s'.2 -> m ∉ s.2 -> graph !! m = Some node -> MessageRef n ∈ FieldRefs node -> n ∈ s'.2;
  g_all m f : m ∈ s'.2 -> m ∉ s.2 -> fileOf graph m f -> s'.1 !! Path f = Some f;
  g_extra f : extra f -> s'.1 !! Path f = Some f;
  g_only p f : s'.1 !! p = Some f ->
    s.1 !! p = Some f \/ extra f \/ exists m, m ∈ s'.2 /\ m ∉ s.2 /\ fileOf graph m f
}.

Lemma addFile_mono files f : wfFiles files -> known f -> files ⊆ addFile f files.
Proof.
  intros Hw Hf. apply map_subseteq_spec. intros p g Hg. unfold addFile. destruct (Hw _ _ Hg) as [Hp Hk].
  destruct (decide (Path f = p)) as [<-|Hne]; [|by rewrite lookup_insert_ne].
  rewrite lookup_insert_eq. f_equal. by apply known_path.
Qed.

Lemma addFile_wf files f : wfFiles files -> known f -> wfFiles (addFile f files).
Proof.
  intros Hw Hf p g. unfold addFile. destruct (decide (Path f = p)) as [<-|Hne].
  - rewrite lookup_insert_eq. by intros [= <-].
  - rewrite lookup_insert_ne by done. apply Hw.
Qed.

Lemma Grew_refl s : Grew (fun _ => False) (fun _ => False) s s.
Proof. constructor; naive_solver. Qed.

Lemma Grew_trans R E R' E' s1 s2 s3 :
  Grew R E s1 s2 -> Grew R' E' s2 s3 -> Grew (fun m => R m \/ R' m) (fun f => E f \/ E' f) s1 s3.
Proof.
  clear dependent known. clear graph_closed. intros H1 H2. pose proof (g_seen _ _ _ _ H1). pose proof (g_seen _ _ _ _ H2).
  pose proof (g_files _ _ _ _ H1) as Hf1. pose proof (g_files _ _ _ _ H2) as Hf2. rewrite map_subseteq_spec in Hf2.
  constructor.
  - set_solver.
  - etrans; [exact Hf1|]. by apply map_subseteq_spec.
  - intros m [Hm|Hm]; [|by eapply g_roots]. pose proof (g_roots _ _ _ _ H1 m Hm). set_solver.
  - intros m Hm Hn. destruct (decide (m ∈ s2.2)) as [H2m|H2m].
    + destruct (g_new _ _ _ _ H1 m H2m Hn) as (r&?&?). eauto.
    + destruct (g_new _ _ _ _ H2 m Hm H2m) as (r&?&?). eauto.
  - intros m node n Hm Hn. destruct (decide (m ∈ s2.2)) as [H2m|H2m]; intros Hg Hr.
    + pose proof (g_closed _ _ _ _ H1 m node n H2m Hn Hg Hr). set_solver.
    + by eapply (g_closed _ _ _ _ H2).
  - intros m f Hm Hn Hf. destruct (decide (m ∈ s2.2)) as [H2m|H2m].
    + apply Hf2. by eapply (g_all _ _ _ _ H1).
    + by eapply (g_all _ _ _ _ H2).
  - intros f [He|He]; [|by eapply (g_extra _ _ _ _ H2)]. apply Hf2. by eapply (g_extra _ _ _ _ H1).
  - intros p f Hf. destruct (g_only _ _ _ _ H2 p f Hf) as [Hp|[He|(m&Hm&Hn&Hfo)]].
    + destruct (g_only _ _ _ _ H1 p f Hp) as [?|[?|(m&Hm&Hn&Hfo)]]; [by left|by right; left; left|].
      right. right. exists m. set_solver.
    + right. left. by right.
    + right. right. exists m. set_solver.
Qed.

Lemma Grew_equiv (R R' : string -> Prop) (E E' : FileDescriptor -> Prop) s s' :
  (forall m, R m <-> R' m) -> (forall f, E f <-> E' f) -> Grew R E s s' -> Grew R' E' s s'.
Proof.
  intros HR HE H. destruct H as [H1 H2 H3 H4 H5 H6 H7 H8]. constructor; try done.
  - intros m Hm. by apply H3, HR.
  - intros m Hm Hn. destruct (H4 m Hm Hn) as (r&Hr%HR&?). eauto.
  - intros f Hf. by apply H7, HE.
  - intros p f Hf. destruct (H8 p f Hf) as [?|[?%HE|?]]; auto.
Qed.

Lemma Grew_enum s f : wfFiles s.1 -> known f -> Grew (fun _ => False) (eq f) s (addFile f s.1, s.2).
Proof.
  intros Hw Hf. constructor; simpl; try naive_solver.
  - by apply addFile_mono.
  - intros ? <-. apply lookup_insert_eq.
  - intros p g. unfold addFile. destruct (decide (Path f = p)) as [<-|Hne].
    + rewrite lookup_insert_eq. intros [= <-]. auto.
    + rewrite lookup_insert_ne by done. auto.
Qed.

(** A message that is entered, then its fields. *)
Lemma Grew_node m node files seen s' :
  graph !! m = Some node -> m ∉ seen -> wfFiles files ->
  Grew (fun n => MessageRef n ∈ FieldRefs node) (fun f => EnumRef f ∈ FieldRefs node)
    (addFile (ParentFile node) files, {[m]} ∪ seen) s' ->
  Grew (eq m) (fun _ => False) (files, seen) s'.
Proof.
  intros Hm Hseen Hw H. pose proof (g_seen _ _ _ _ H) as Hs. pose proof (g_files _ _ _ _ H) as Hf.
  rewrite map_subseteq_spec in Hf. simpl in *.
  assert (fileOf graph m (ParentFile node)) as Hp by (exists node; auto).
  assert (forall n, n ∈ s'.2 -> n ∉ seen -> n = m \/ n ∉ {[m]} ∪ seen) as Hnew
    by (intros n _ Hn; destruct (decide (n = m)); set_solver).
  constructor; simpl.
  - set_solver.
  - etrans; [apply addFile_mono; eauto|]. by apply map_subseteq_spec.
  - intros ? <-. set_solver.
  - intros n Hn Hns. exists m. split; [done|]. destruct (Hnew n Hn Hns) as [->|Hns']; [by constructor|].
    destruct (g_new _ _ _ _ H n Hn Hns') as (r&Hr&?). by eapply reaches_step.
  - intros n nd k Hn Hns Hg Hk. destruct (Hnew n Hn Hns) as [->|Hns'].
    + assert (nd = node) as -> by congruence. by apply (g_roots _ _ _ _ H).
    + by eapply (g_closed _ _ _ _ H).
  - intros n f Hn Hns Hfo. destruct (Hnew n Hn Hns) as [->|Hns']; [|by eapply (g_all _ _ _ _ H)].
    destruct Hfo as (nd&Hg&[->|He]); assert (nd = node) as -> by congruence.
    + apply Hf. apply lookup_insert_eq.
    + by apply (g_extra _ _ _ _ H).
  - done.
  - intros p f Hpf. destruct (g_only _ _ _ _ H p f Hpf) as [Hp1|[He|(n&Hn&Hns&Hfo)]]; simpl in *.
    + unfold addFile in Hp1. destruct (decide (Path (ParentFile node) = p)) as [<-|Hne].
      * rewrite lookup_insert_eq in Hp1. injection Hp1 as <-. right. right. exists m. set_solver.
      * rewrite lookup_insert_ne in Hp1 by done. by left.
    + right. right. exists m. split_and!; [set_solver|done|]. exists node. auto.
    + right. right. exists n. set_solver.
Qed.

(** The fields of a message, given that entering one of them is correct. *)
Lemma fields_grow (inv : gset string -> Prop) (step : string -> Search -> Outcome Search) refs :
  (forall R E s s', Grew R E s s' -> inv s.2 -> inv s'.2) ->
  (forall n s, MessageRef n ∈ refs -> wfFiles s.1 -> inv s.2 ->
     exists s', step n s = Ok s' /\ wfFiles s'.1 /\ Grew (eq n) (fun _ => False) s s') ->
  Forall (fun r => match r with EnumRef f => known f | _ => True end) refs ->
  forall s, wfFiles s.1 -> inv s.2 ->
  exists s', foldOutcome (fun s field =>
      match field with
      | MessageRef name => step name s
      | EnumRef file => Ok (addFile file s.1, s.2)
      | ScalarRef => Ok s
      end) refs s = Ok s' /\ wfFiles s'.1 /\
    Grew (fun n => MessageRef n ∈ refs) (fun f => EnumRef f ∈ refs) s s'.
Proof.
  intros Hinv. induction refs as [|r refs IH]; intros Hstep Hk s Hw Hi.
  - exists s. split_and!; [done..|]. eapply Grew_equiv; [..|apply Grew_refl]; intros x; by rewrite elem_of_nil.
  - apply list.Forall_cons in Hk as [Hr Hk]. cbn [foldOutcome].
    assert (exists s1, match r with
              | MessageRef name => step name s
              | EnumRef file => Ok (addFile file s.1, s.2)
              | ScalarRef => Ok s end = Ok s1 /\ wfFiles s1.1 /\
            Grew (fun n => MessageRef n = r) (fun f => EnumRef f = r) s s1) as (s1&->&Hw1&Hg1).
    { destruct r as [n|f|].
      - destruct (Hstep n s) as (s1&->&Hw1&Hg); [by left|done..|]. exists s1. split_and!; [done..|].
        eapply Grew_equiv; [..|exact Hg]; naive_solver.
      - eexists. split_and!; [done|by apply addFile_wf|]. eapply Grew_equiv; [..|by apply Grew_enum]; naive_solver.
      - exists s. split_and!; [done..|]. eapply Grew_equiv; [..|apply Grew_refl]; naive_solver. }
    cbn [mbind outcome_bind]. destruct (IH ltac:(intros n s0 Hn; apply Hstep; by right) Hk s1 Hw1 (Hinv _ _ _ _ Hg1 Hi)) as (s2&->&Hw2&Hg2).
    exists s2. split_and!; [done..|]. eapply Grew_equiv; [..|exact (Grew_trans _ _ _ _ _ _ _ Hg1 Hg2)];
      intros x; by rewrite elem_of_cons.
Qed.

Lemma Grew_dom R E s s' : Grew R E s s' -> s.2 ⊆ dom graph -> s'.2 ⊆ dom graph.
Proof.
  intros H Hs m Hm. destruct (decide (m ∈ s.2)) as [Hin|Hin]; [by apply Hs|].
  destruct (g_new _ _ _ _ H m Hm Hin) as (r&_&Hr). apply elem_of_dom. by eapply Reaches_dom.
Qed.

Lemma addReachable_grows fuel m s :
  is_Some (graph !! m) -> s.2 ⊆ dom graph -> size graph < fuel + size s.2 -> wfFiles s.1 ->
  exists s', addReachableMessageFiles graph fuel m s = Ok s' /\ wfFiles s'.1 /\ Grew (eq m) (fun _ => False) s s'.
Proof.
  revert m s. induction fuel as [|fuel IH]; intros m [files seen] Hm Hd Hf Hw; simpl in *.
  { apply subseteq_size in Hd. rewrite size_dom in Hd. lia. }
  case_decide as Hin.
  { eexists. split_and!; [done..|]. destruct (Grew_refl (files, seen)). constructor; naive_solver. }
  destruct Hm as [node Hm]. rewrite Hm.
  destruct (fields_grow (fun seen' => {[m]} ∪ seen ⊆ seen' /\ seen' ⊆ dom graph)
              (addReachableMessageFiles graph fuel) (FieldRefs node))
    with (s := (addFile (ParentFile node) files, {[m]} ∪ seen)) as (s'&Hs'&Hw'&Hg').
  - intros R E s1 s2 Hg [H1 H2]. split; [etrans; [exact H1|by eapply g_seen]|by eapply Grew_dom].
  - intros n s1 Hn Hw1 [H1 H2]. apply IH; [by eapply graph_closed|done| |done].
    apply subseteq_size in H1. rewrite size_union, size_singleton in H1 by set_solver. lia.
  - apply list.Forall_forall. intros [n|f|] Hr; [done| |done]. apply (graph_known m). exists node. auto.
  - apply addFile_wf; [done|]. apply (graph_known m). exists node. auto.
  - split; [done|]. apply union_subseteq. split; [|done]. apply singleton_subseteq_l. by eapply elem_of_dom_2.
  - exists s'. split_and!; [exact Hs'|done|by eapply Grew_node].
Qed.
End Correct.

(** ** Messages *)

Lemma wfFiles_empty known : wfFiles known ∅.
Proof. intros p f Hf. by rewrite lookup_empty in Hf. Qed.

(** A search from nothing has seen exactly what the roots reach. *)
Lemma Grew_reaches graph R E s files : 
  (forall m, R m -> is_Some (graph !! m)) -> Grew graph R E (files, ∅) s ->
  forall m, m ∈ s.2 <-> exists r, R r /\ Reaches graph r m.
Proof.
  intros HR H m. split; [intros Hm; by apply (g_new _ _ _ _ _ H); [|set_solver]|].
  intros (r&Hr&Hm). apply (g_roots _ _ _ _ _ H) in Hr. clear HR. induction Hm as [m Hd|m node n k Hm Hn _ IH]; [done|].
  apply IH. apply (g_closed _ _ _ _ _ H m node n); [done|set_solver|done|done].
Qed.

Lemma Grew_files graph R E s files p f :
  wfFiles (fun _ => True) s.1 ->
  (forall m, R m -> is_Some (graph !! m)) -> Grew graph R E (files, ∅) s ->
  s.1 !! p = Some f <-> files !! p = Some f \/
    Path f = p /\ (E f \/ exists r m, R r /\ Reaches graph r m /\ fileOf graph m f).
Proof.
  intros Hw HR H. pose proof (Grew_reaches _ _ _ _ _ HR H) as Hs. split.
  - intros Hf. destruct (Hw _ _ Hf) as [Hp _]. destruct (g_only _ _ _ _ _ H p f Hf) as [?|[?|(m&Hm&_&?)]]; [by left|..]; right.
    + auto.
    + split; [done|]. right. apply Hs in Hm as (r&?&?). eauto.
  - pose proof (g_files _ _ _ _ _ H) as Hfs. rewrite map_subseteq_spec in Hfs. intros [Hf|[<- [He|(r&m&Hr&Hm&Hf)]]].
    + by apply Hfs.
    + by apply (g_extra _ _ _ _ _ H).
    + apply (g_all _ _ _ _ _ H m); [apply Hs; eauto|set_solver|done].
Qed.

Lemma wfFiles_weaken known files : wfFiles known files -> wfFiles (fun _ => True) files.
Proof. intros H p f Hf. split; [|done]. by apply (H p f). Qed.

Section Results.
Context (graph : Graph) (Hclosed : closed graph).

Lemma reachableMessage_exact fuel m :
  onePerPath graph -> is_Some (graph !! m) -> size graph < fuel ->
  exists files, reachableMessageFiles graph fuel m = Ok files /\
    forall p f, files !! p = Some f <-> Path f = p /\ exists n, Reaches graph m n /\ fileOf graph n f.
Proof.
  intros Hone Hm Hfuel. set (known := fun f => exists m, fileOf graph m f).
  destruct (addReachable_grows graph known) with (fuel := fuel) (m := m) (s := (∅ : Files, ∅ : gset string))
    as (s&Hs&Hw&Hg); try done.
  - intros f f' [? ?] [? ?]. by eapply Hone.
  - intros n f Hf. by exists n.
  - lia.
  - exists s.1. unfold reachableMessageFiles. rewrite Hs. split; [done|]. intros p f.
    pose proof (Grew_files graph (eq m) _ s ∅ p f (wfFiles_weaken _ _ Hw) ltac:(by intros ? <-) Hg) as ->.
    rewrite lookup_empty. naive_solver.
Qed.

(** The methods of a service share the messages already seen. *)
Lemma methods_grow known fuel (methods : list (string * (string * string))) :
  (forall f f', known f -> known f' -> Path f = Path f' -> f = f') -> (forall m f, fileOf graph m f -> known f) ->
  Forall (fun x => is_Some (graph !! x.2.1) /\ is_Some (graph !! x.2.2)) methods -> size graph < fuel ->
  forall s : Search, s.2 ⊆ dom graph -> wfFiles known s.1 ->
  exists s', foldOutcome (fun s method =>
        s ← addReachableMessageFiles graph fuel method.2.1 s;
        addReachableMessageFiles graph fuel method.2.2 s) methods s = Ok s' /\ wfFiles known s'.1 /\
    Grew graph (fun m => exists x, x ∈ methods /\ (m = x.2.1 \/ m = x.2.2)) (fun _ => False) s s'.
Proof.
  intros Hkp Hgk Hm Hfuel. induction Hm as [|[nm [i o]] methods [Hi Ho] _ IH]; intros s Hd Hw.
  - exists s. split_and!; [done..|]. eapply Grew_equiv; [..|apply Grew_refl]; [|done]. intros m. split; [done|].
    intros (x&Hx&_). by apply elem_of_nil in Hx.
  - cbn [foldOutcome fst snd] in *.
    destruct (addReachable_grows graph known Hkp Hgk Hclosed fuel i s Hi Hd ltac:(lia) Hw) as (s1&->&Hw1&Hg1).
    cbn [mbind outcome_bind].
    destruct (addReachable_grows graph known Hkp Hgk Hclosed fuel o s1 Ho (Grew_dom _ _ _ _ _ Hg1 Hd) ltac:(lia) Hw1)
      as (s2&->&Hw2&Hg2).
    pose proof (Grew_trans _ _ _ _ _ _ _ _ Hg1 Hg2) as Hg. cbn [mbind outcome_bind].
    destruct (IH s2 (Grew_dom _ _ _ _ _ Hg Hd) Hw2) as (s3&->&Hw3&Hg3).
    exists s3. split_and!; [done..|]. eapply Grew_equiv; [..|exact (Grew_trans _ _ _ _ _ _ _ _ Hg Hg3)]; [|naive_solver].
    intros m. split.
    + intros [[<-|<-]|(x&Hx&?)].
      * eexists. split; [by left|]. auto.
      * eexists. split; [by left|]. auto.
      * exists x. split; [by right|done].
    + intros (x&Hx&Hxm). apply elem_of_cons in Hx as [->|Hx]; [|eauto].
      left. destruct Hxm as [-> | ->]; auto.
Qed.

(** The files of the values a service exchanges, and its own. *)
Definition serviceFile (service : ServiceNode) (f : FileDescriptor) : Prop :=
  f = sn_ParentFile service \/
  exists method root m, method ∈ sn_Methods service /\ (root = method.2.1 \/ root = method.2.2) /\
    Reaches graph root m /\ fileOf graph m f.

Lemma reachableService_exact fuel service :
  (forall f f', f = sn_ParentFile service \/ (exists m, fileOf graph m f) ->
     f' = sn_ParentFile service \/ (exists m, fileOf graph m f') -> Path f = Path f' -> f = f') ->
  Forall (fun x => is_Some (graph !! x.2.1) /\ is_Some (graph !! x.2.2)) (sn_Methods service) ->
  size graph < fuel ->
  exists files, reachableServiceFiles graph fuel service = Ok files /\
    forall p f, files !! p = Some f <-> Path f = p /\ serviceFile service f.
Proof.
  intros Hone Hm Hfuel. set (known := fun f => f = sn_ParentFile service \/ exists m, fileOf graph m f) in *.
  assert (wfFiles known (addFile (sn_ParentFile service) ∅)) as Hw0
    by (apply addFile_wf; [apply wfFiles_empty|by left]).
  destruct (methods_grow known fuel (sn_Methods service) Hone) with (s := (addFile (sn_ParentFile service) ∅, ∅ : gset string))
    as (s&Hs&Hw&Hg); try done.
  { intros m f Hf. right. by exists m. }
  exists s.1. unfold reachableServiceFiles. rewrite Hs. split; [done|]. intros p f.
  assert (forall m, (exists x, x ∈ sn_Methods service /\ (m = x.2.1 \/ m = x.2.2)) -> is_Some (graph !! m)) as HR
    by (intros m (x&Hx&Hxm); rewrite list.Forall_forall in Hm; destruct (Hm x Hx); naive_solver).
  rewrite (Grew_files graph _ _ s _ p f (wfFiles_weaken _ _ Hw) HR Hg).
  unfold serviceFile, addFile. split.
  - intros [Hf|[Hp [[]|(r&m&(x&Hx&?)&?&?)]]].
    + destruct (decide (Path (sn_ParentFile service) = p)) as [<-|Hne].
      * rewrite lookup_insert_eq in Hf. injection Hf as <-. auto.
      * rewrite lookup_insert_ne, lookup_empty in Hf by done. done.
    + split; [done|]. right. by exists x, r, m.
  - intros [Hp [->|(x&r&m&?&?&?&?)]].
    + left. subst p. apply lookup_insert_eq.
    + right. split; [done|]. right. exists r, m. split_and!; [by exists x|done|done].
Qed.
End Results.

(** ** Comparison *)

Section Compare.
Context (sameFile : FileDescriptor -> FileDescriptor -> bool).

(** The same paths, with files that agree. *)
Definition SameFiles (a b : Files) : Prop :=
  forall p, match a !! p, b !! p with
            | Some f, Some g => sameFile f g = true
            | None, None => True
            | _, _ => False
            end.

Lemma firstMismatch_ok a b paths :
  "" ∉ paths ->
  firstMismatch sameFile a b paths = "" <->
  Forall (fun p => exists f g, a !! p = Some f /\ b !! p = Some g /\ sameFile f g = true) paths.
Proof.
  induction paths as [|p paths IH]; intros Hne; [by split; [constructor|]|].
  apply not_elem_of_cons in Hne as [Hp Hne]. cbn [firstMismatch]. rewrite list.Forall_cons.
  destruct (a !! p) as [f|], (b !! p) as [g|]; try (split; [by intros ->|by intros [(?&?&?&?&?) _]]).
  destruct (sameFile f g) eqn:E; [rewrite IH by done|].
  - split; [intros H; split; [by exists f, g|done]|by intros [_ ?]].
  - split; [by intros ->|]. intros [(f'&g'&[= <-]&[= <-]&?) _]. congruence.
Qed.

Lemma dom_size_eq (a b : Files) : dom a ⊆ dom b -> size a = size b -> dom a = dom b.
Proof.
  intros Hd Hs. apply set_eq. intros p. split; [by apply Hd|]. intros Hp.
  destruct (decide (p ∈ dom a)) as [?|Hn]; [done|]. exfalso.
  assert (size ({[p]} ∪ dom a) <= size (dom b)) as Hle by (apply subseteq_size; set_solver).
  rewrite size_union, size_singleton, !size_dom in Hle by set_solver. lia.
Qed.

Lemma mismatch_exact a b :
  a !! "" = None -> descriptorGraphMismatch sameFile a b = "" <-> SameFiles a b.
Proof.
  intros Hempty. unfold descriptorGraphMismatch.
  assert (forall p, p ∈ sortStrings (map fst (map_to_list a)) <-> is_Some (a !! p)) as Hin.
  { intros p. unfold sortStrings. rewrite merge_sort_Permutation. change (map fst) with (fmap (M:=list) (@fst string FileDescriptor)).
    rewrite list_elem_of_fmap. split.
    - intros ([k f]&->&Hk%elem_of_map_to_list). by exists f.
    - intros [f Hf]. exists (p, f). split; [done|]. by apply elem_of_map_to_list. }
  split.
  - destruct (Nat.eqb_spec (size a) (size b)) as [Hs|Hs]; [|done]. cbn [negb]. rewrite firstMismatch_ok.
    2: { rewrite Hin, Hempty. by intros [? ?]. }
    rewrite list.Forall_forall. intros Hall. assert (dom a = dom b) as Hd.
    { apply dom_size_eq; [|done]. intros p Hp%elem_of_dom%Hin. destruct (Hall p Hp) as (f&g&_&Hg&_).
      by eapply elem_of_dom_2. }
    intros p. destruct (a !! p) as [f|] eqn:Ha.
    + destruct (Hall p) as (f'&g&Hf&->&Hsame); [by apply Hin; rewrite Ha|]. congruence.
    + destruct (b !! p) as [g|] eqn:Hb; [|done]. apply elem_of_dom_2 in Hb. rewrite <- Hd in Hb.
      apply elem_of_dom in Hb. rewrite Ha in Hb. by destruct Hb.
  - intros Hsame. assert (dom a = dom b) as Hd.
    { apply set_eq. intros p. rewrite !elem_of_dom. specialize (Hsame p). by destruct (a !! p), (b !! p). }
    rewrite <- (size_dom a), <- (size_dom b), Hd, Nat.eqb_refl. cbn [negb]. apply firstMismatch_ok.
    { rewrite Hin, Hempty. by intros [? ?]. }
    apply list.Forall_forall. intros p [f Hf]%Hin. specialize (Hsame p). rewrite Hf in Hsame.
    destruct (b !! p) as [g|]; [|done]. by exists f, g.
Qed.
End Compare.

(** ** The agreement of two registries on a service *)

(** A registry that holds a service: closed, one file per path, no empty path. *)
Record wfService (graph : Graph) (service : ServiceNode) : Prop := {
  ws_closed : closed graph;
  ws_paths f f' : f = sn_ParentFile service \/ (exists m, fileOf graph m f) ->
    f' = sn_ParentFile service \/ (exists m, fileOf graph m f') -> Path f = Path f' -> f = f';
  ws_named f : serviceFile graph service f -> Path f <> "";
  ws_methods : Forall (fun x => is_Some (graph !! x.2.1) /\ is_Some (graph !! x.2.2)) (sn_Methods service)
}.

(** C19: with fuel above the sizes of the two registries, both searches return, and
    the comparison reports no mismatch exactly when every file the service reaches
    in one registry is reached in the other, under the same path and with the same
    content. *)
Theorem service_agreement sameFile linked runtime ls rs fuel :
  wfService linked ls -> wfService runtime rs -> size linked < fuel -> size runtime < fuel ->
  exists lf rf, reachableServiceFiles linked fuel ls = Ok lf /\ reachableServiceFiles runtime fuel rs = Ok rf /\
    (descriptorGraphMismatch sameFile lf rf = "" <->
     (forall f, serviceFile linked ls f ->
        exists g, serviceFile runtime rs g /\ Path g = Path f /\ sameFile f g = true) /\
     (forall g, serviceFile runtime rs g ->
        exists f, serviceFile linked ls f /\ Path f = Path g /\ sameFile f g = true)).
Proof.
  intros Hl Hr Hfl Hfr.
  destruct (reachableService_exact linked (ws_closed _ _ Hl) fuel ls (ws_paths _ _ Hl) (ws_methods _ _ Hl) Hfl) as (lf&El&HL).
  destruct (reachableService_exact runtime (ws_closed _ _ Hr) fuel rs (ws_paths _ _ Hr) (ws_methods _ _ Hr) Hfr) as (rf&Er&HR).
  exists lf, rf. split_and!; [done..|]. rewrite mismatch_exact.
  2: { destruct (lf !! "") as [f|] eqn:E; [|done]. apply HL in E as [Hp Hf]. by apply (ws_named _ _ Hl) in Hf. }
  unfold SameFiles. split.
  - intros Hsame. split.
    + intros f Hf. pose proof (proj2 (HL _ _) (conj eq_refl Hf)) as E. specialize (Hsame (Path f)). rewrite E in Hsame.
      destruct (rf !! Path f) as [g|] eqn:Eg; [|done]. apply HR in Eg as [Hp Hg]. by exists g.
    + intros g Hg. pose proof (proj2 (HR _ _) (conj eq_refl Hg)) as E. specialize (Hsame (Path g)). rewrite E in Hsame.
      destruct (lf !! Path g) as [f|] eqn:Ef; [|done]. apply HL in Ef as [Hp Hf]. by exists f.
  - intros [H1 H2] p. destruct (lf !! p) as [f|] eqn:Ef.
    + apply HL in Ef as [<- Hf]. destruct (H1 _ Hf) as (g&Hg&Hp&Hs).
      by rewrite (proj2 (HR _ _) (conj Hp Hg)).
    + destruct (rf !! p) as [g|] eqn:Eg; [|done]. apply HR in Eg as [<- Hg]. destruct (H2 _ Hg) as (f&Hf&Hp&_).
      by rewrite (proj2 (HL _ _) (conj Hp Hf)) in Ef.
Qed.

(** ** Witnesses *)

Definition fileA : FileDescriptor := mkFile "shop/order.proto" "order".
Definition fileB : FileDescriptor := mkFile "shop/common.proto" "common".
(** [Node] refers to itself and to [Order]; [Order] has an enum of another file. *)
Definition shopGraph : Graph := list_to_map
  [("shop.Order", mkMessageNode fileA [ScalarRef; EnumRef fileB; MessageRef "shop.Node"]);
   ("shop.Node", mkMessageNode fileA [MessageRef "shop.Node"; MessageRef "shop.Order"])].
Definition shopService : ServiceNode := mkServiceNode fileA [("Place", ("shop.Order", "shop.Node"))].
Definition sameContent (f g : FileDescriptor) : bool := bool_decide (f = g).

Lemma shopGraph_lookup m node : shopGraph !! m = Some node ->
  node = mkMessageNode fileA [ScalarRef; EnumRef fileB; MessageRef "shop.Node"] \/
  node = mkMessageNode fileA [MessageRef "shop.Node"; MessageRef "shop.Order"].
Proof.
  intros H. apply elem_of_list_to_map_2 in H. apply elem_of_cons in H as [[= -> ->]|H]; [by left|].
  apply list_elem_of_singleton in H as [= -> ->]. by right.
Qed.

Lemma shopService_wf : wfService shopGraph shopService.
Proof.
  assert (forall m f, fileOf shopGraph m f -> f = fileA \/ f = fileB) as Hf.
  { intros m f (node&Hm&Hn). apply shopGraph_lookup in Hm as [-> | ->]; simpl in Hn; set_solver. }
  constructor.
  - intros m node n Hm Hn. apply shopGraph_lookup in Hm as [-> | ->]; simpl in Hn; rewrite !elem_of_cons in Hn.
    + destruct Hn as [?|[?|[[= ->]|Hn%elem_of_nil]]]; try done; by eexists.
    + destruct Hn as [[= ->]|[[= ->]|Hn%elem_of_nil]]; try done; by eexists.
  - intros f f' Hff Hff' Hp.
    assert (forall g, g = sn_ParentFile shopService \/ (exists m, fileOf shopGraph m g) -> g = fileA \/ g = fileB) as Hk
      by (intros g [-> |[m Hm]]; [by left|by eapply Hf]).
    apply Hk in Hff as [-> | ->], Hff' as [-> | ->]; done.
  - intros f [-> |(?&?&m&_&_&_&Hm)]; [done|]. by apply Hf in Hm as [-> | ->].
  - apply list.Forall_cons. split; [|constructor]. split; by eexists.
Qed.

Lemma service_agreement_witness :
  exists files, reachableServiceFiles shopGraph 5 shopService = Ok files /\
    descriptorGraphMismatch sameContent files files = "".
Proof.
  destruct (service_agreement sameContent shopGraph shopGraph shopService shopService 5 shopService_wf shopService_wf)
    as (lf&rf&El&Er&Hiff); [vm_compute; lia..|].
  assert (lf = rf) as -> by congruence. exists rf. split; [exact Er|]. apply Hiff. split.
  - intros f Hf. exists f. split_and!; [exact Hf|reflexivity|]. unfold sameContent. by apply bool_decide_true.
  - intros f Hf. exists f. split_and!; [exact Hf|reflexivity|]. unfold sameContent. by apply bool_decide_true.
Defined.
