(* ===== verification/Server.v ===== *)
(** * The server (src/go/server.go, src/go/registration.go)

    Configuration, the projection filters, and the registration of services as
    tools.  The state is explicit: an operation takes the server and returns it with
    an outcome, [Err] for a returned error and [Panic] for a configuration call that
    panics.  What the process provides is a [World]: the parsed descriptor, the
    descriptor registries (the image's and the one generated code links into the
    binary), the environment's filters and the comparison of file descriptors. *)
From S2P Require Import Prelude GoStrings StringFacts ParsedDescriptor JsonSchema Reachable.

Module Server.

(** ** grpc-go's descriptions of a service *)

Record MethodDesc : Type := mkMethodDesc { MethodName : string; md_Handler : bool }.
Record StreamDesc : Type := mkStreamDesc {
  StreamName : string;
  sd_Handler : bool;
  ClientStreams : bool;
  ServerStreams : bool
}.
(** [HandlerType], as [reflect] sees it; [ProjectedService] is the interface of remote proxies. *)
Inductive HandlerType : Type :=
  | NilHandlerType
  | NotInterfacePointer
  | InterfacePointer (name : string)
  | ProjectedService.
#[export] Instance HandlerType_eq_dec : EqDecision HandlerType.
Proof. solve_decision. Defined.
Record ServiceDesc : Type := mkServiceDesc {
  ServiceName : string;
  sd_HandlerType : HandlerType;
  Methods : list MethodDesc;
  Streams : list StreamDesc
}.
Record Impl : Type := mkImpl { impl_type : string; impl_implements : list string }.
Definition implements (i : Impl) (h : HandlerType) : bool :=
  match h with
  | InterfacePointer name => bool_decide (name ∈ impl_implements i)
  | ProjectedService => true
  | _ => false
  end.
Definition handlerName (h : HandlerType) : string :=
  match h with InterfacePointer name => name | _ => "invariant.projectedGRPCService" end.

(** A registration before validation: both pointers may be nil. *)
Record registeredService : Type := mkRegistered { rs_desc : option ServiceDesc; rs_service : option Impl }.

(** ** Tools and configuration *)

Record Tool : Type := mkTool {
  Name : string;
  Description : string;
  InputSchema : Any;
  InputType : string;
  OutputType : string;
  ServiceFullName : string;
  ToolMethod : string;
  ServerStreaming : bool;
  unaryDesc : option MethodDesc;
  streamDesc : option StreamDesc;
  newRequest : bool;
  FullMethod : string
}.

Record MethodConfig : Type := mkMethodConfig {
  MaxUnaryRequestBytes : Z;
  MaxUnaryResponseBytes : Z;
  MaxStreamRequestBytes : Z;
  MaxStreamResponseBytes : Z
}.

Definition defaultHTTPMaxUnaryRequest : Z := Z.shiftl 16 20.
Definition defaultHTTPMaxUnaryResponse : Z := Z.shiftl 16 20.
Definition defaultConnectStreamMaxRequest : Z := Z.shiftl 16 20.
Definition defaultConnectStreamMaxResponse : Z := Z.shiftl 16 20.
(** In nanoseconds. *)
Definition defaultHTTPShutdownTimeout : Z := 5 * 1000000000.

(** ** The process *)

Record Registry : Type := mkRegistry {
  reg_messages : Graph;
  reg_services : gmap string ServiceNode;
  reg_other : gset string
}.
(** What [protoregistry.GlobalTypes] says of a message name. *)
Inductive LinkedType : Type := LinkedMessage | LinkedNotFound | LinkedError (e : string).

Record World : Type := mkWorld {
  parsed : ParsedDescriptor;
  runtimeFiles : Registry;
  linkedFiles : Registry;
  linkedType : string -> LinkedType;
  sameFile : FileDescriptor -> FileDescriptor -> bool;
  notFound : string;
  env_include : string;
  env_exclude : string;
  reflectionServices : list string
}.

(** [FindDescriptorByName]: the service of that name, another descriptor, or an error. *)
Definition FindService (r : Registry) (name : string) : option (option ServiceNode) :=
  match reg_services r !! name with
  | Some s => Some (Some s)
  | None => if decide (name ∈ reg_other r \/ is_Some (reg_messages r !! name)) then Some None else None
  end.

(** The bounds of the two searches. *)
Definition registryFuel (w : World) : nat :=
  S (Nat.max (size (reg_messages (runtimeFiles w))) (size (reg_messages (linkedFiles w)))).

Section Server.
Context {UnaryInterceptor StreamInterceptor HeaderProvider MetadataMapper : Type}.

Record Server : Type := mkServer {
  tools : gmap string Tool;
  interceptors : list UnaryInterceptor;
  streamInterceptors : list StreamInterceptor;
  httpHeaderProvider : option HeaderProvider;
  httpMetadataMapper : option MetadataMapper;
  includes : list string;
  excludes : list string;
  httpMaxUnaryRequest : Z;
  httpMaxUnaryResponse : Z;
  connectStreamMaxRequest : Z;
  connectStreamMaxResponse : Z;
  httpShutdownTimeout : Z;
  methodConfigs : gmap string MethodConfig;
  frozen : bool;
  frozenFast : bool;
  nativeServices : gset string;
  registeredServices : gmap string (ServiceDesc * Impl)
}.

(** What an operation does to the state, and what it returns. *)
Definition Step (A : Type) : Type := Server -> Server * Outcome A.

(** Assignments to fields. *)
Definition setTools v (s : Server) : Server :=
  mkServer v (interceptors s) (streamInterceptors s) (httpHeaderProvider s) (httpMetadataMapper s) (includes s)
    (excludes s) (httpMaxUnaryRequest s) (httpMaxUnaryResponse s) (connectStreamMaxRequest s)
    (connectStreamMaxResponse s) (httpShutdownTimeout s) (methodConfigs s) (frozen s) (frozenFast s)
    (nativeServices s) (registeredServices s).
Definition setInterceptors v (s : Server) : Server :=
  mkServer (tools s) v (streamInterceptors s) (httpHeaderProvider s) (httpMetadataMapper s) (includes s)
    (excludes s) (httpMaxUnaryRequest s) (httpMaxUnaryResponse s) (connectStreamMaxRequest s)
    (connectStreamMaxResponse s) (httpShutdownTimeout s) (methodConfigs s) (frozen s) (frozenFast s)
    (nativeServices s) (registeredServices s).
Definition setStreamInterceptors v (s : Server) : Server :=
  mkServer (tools s) (interceptors s) v (httpHeaderProvider s) (httpMetadataMapper s) (includes s)
    (excludes s) (httpMaxUnaryRequest s) (httpMaxUnaryResponse s) (connectStreamMaxRequest s)
    (connectStreamMaxResponse s) (httpShutdownTimeout s) (methodConfigs s) (frozen s) (frozenFast s)
    (nativeServices s) (registeredServices s).
Definition setHeaderProvider v (s : Server) : Server :=
  mkServer (tools s) (interceptors s) (streamInterceptors s) v (httpMetadataMapper s) (includes s)
    (excludes s) (httpMaxUnaryRequest s) (httpMaxUnaryResponse s) (connectStreamMaxRequest s)
    (connectStreamMaxResponse s) (httpShutdownTimeout s) (methodConfigs s) (frozen s) (frozenFast s)
    (nativeServices s) (registeredServices s).
Definition setMetadataMapper v (s : Server) : Server :=
  mkServer (tools s) (interceptors s) (streamInterceptors s) (httpHeaderProvider s) v (includes s)
    (excludes s) (httpMaxUnaryRequest s) (httpMaxUnaryResponse s) (connectStreamMaxRequest s)
    (connectStreamMaxResponse s) (httpShutdownTimeout s) (methodConfigs s) (frozen s) (frozenFast s)
    (nativeServices s) (registeredServices s).
Definition setFilters i e (s : Server) : Server :=
  mkServer (tools s) (interceptors s) (streamInterceptors s) (httpHeaderProvider s) (httpMetadataMapper s) i
    e (httpMaxUnaryRequest s) (httpMaxUnaryResponse s) (connectStreamMaxRequest s)
    (connectStreamMaxResponse s) (httpShutdownTimeout s) (methodConfigs s) (frozen s) (frozenFast s)
    (nativeServices s) (registeredServices s).
Definition setLimits ureq uresp sreq sresp timeout (s : Server) : Server :=
  mkServer (tools s) (interceptors s) (streamInterceptors s) (httpHeaderProvider s) (httpMetadataMapper s) (includes s)
    (excludes s) ureq uresp sreq sresp timeout (methodConfigs s) (frozen s) (frozenFast s)
    (nativeServices s) (registeredServices s).
Definition setMethodConfigs v (s : Server) : Server :=
  mkServer (tools s) (interceptors s) (streamInterceptors s) (httpHeaderProvider s) (httpMetadataMapper s) (includes s)
    (excludes s) (httpMaxUnaryRequest s) (httpMaxUnaryResponse s) (connectStreamMaxRequest s)
    (connectStreamMaxResponse s) (httpShutdownTimeout s) v (frozen s) (frozenFast s)
    (nativeServices s) (registeredServices s).
Definition setFrozen f fast (s : Server) : Server :=
  mkServer (tools s) (interceptors s) (streamInterceptors s) (httpHeaderProvider s) (httpMetadataMapper s) (includes s)
    (excludes s) (httpMaxUnaryRequest s) (httpMaxUnaryResponse s) (connectStreamMaxRequest s)
    (connectStreamMaxResponse s) (httpShutdownTimeout s) (methodConfigs s) f fast
    (nativeServices s) (registeredServices s).
Definition setServices native registered (s : Server) : Server :=
  mkServer (tools s) (interceptors s) (streamInterceptors s) (httpHeaderProvider s) (httpMetadataMapper s) (includes s)
    (excludes s) (httpMaxUnaryRequest s) (httpMaxUnaryResponse s) (connectStreamMaxRequest s)
    (connectStreamMaxResponse s) (httpShutdownTimeout s) (methodConfigs s) (frozen s) (frozenFast s)
    native registered.

(** ** Configuration *)

Definition updateConfiguration (subject : string) (update : Server -> Server) : Step unit := fun s =>
  if frozen s then (s, Panic ("invariant: " +:+ subject +:+ " cannot be changed after serving begins"))
  else (update s, Ok tt).

Definition updateProjectionFilters (subject : string) (update : Server -> Server) : Step unit := fun s =>
  if frozen s then (s, Panic ("invariant: " +:+ subject +:+ " cannot be changed after serving begins"))
  else if negb (size (registeredServices s) =? 0) then
    (s, Panic ("invariant: " +:+ subject +:+ " must be configured before service registration"))
  else (update s, Ok tt).

(** A limit: negative panics, zero resets to the default. *)
Definition limitSetter (what : string) (dflt : Z) (update : Z -> Server -> Server) (n : Z) : Step unit := fun s =>
  if (n <? 0)%Z then (s, Panic ("invariant: " +:+ what +:+ " must be non-negative"))
  else updateConfiguration what (update (if (n =? 0)%Z then dflt else n)) s.

Definition SetMaxUnaryRequestBytes : Z -> Step unit :=
  limitSetter "HTTP unary request limit" defaultHTTPMaxUnaryRequest (fun n s =>
    setLimits n (httpMaxUnaryResponse s) (connectStreamMaxRequest s) (connectStreamMaxResponse s) (httpShutdownTimeout s) s).
Definition SetMaxUnaryResponseBytes : Z -> Step unit :=
  limitSetter "HTTP unary response limit" defaultHTTPMaxUnaryResponse (fun n s =>
    setLimits (httpMaxUnaryRequest s) n (connectStreamMaxRequest s) (connectStreamMaxResponse s) (httpShutdownTimeout s) s).
Definition SetMaxStreamRequestBytes : Z -> Step unit :=
  limitSetter "HTTP stream request limit" defaultConnectStreamMaxRequest (fun n s =>
    setLimits (httpMaxUnaryRequest s) (httpMaxUnaryResponse s) n (connectStreamMaxResponse s) (httpShutdownTimeout s) s).
Definition SetMaxStreamResponseBytes : Z -> Step unit :=
  limitSetter "HTTP stream response limit" defaultConnectStreamMaxResponse (fun n s =>
    setLimits (httpMaxUnaryRequest s) (httpMaxUnaryResponse s) (connectStreamMaxRequest s) n (httpShutdownTimeout s) s).
Definition SetHTTPShutdownTimeout : Z -> Step unit :=
  limitSetter "HTTP shutdown timeout" defaultHTTPShutdownTimeout (fun n s =>
    setLimits (httpMaxUnaryRequest s) (httpMaxUnaryResponse s) (connectStreamMaxRequest s) (connectStreamMaxResponse s) n s).

Definition ConfigureMethod (methodPath : string) (cfg : MethodConfig) : Step unit := fun s =>
  if (MaxUnaryRequestBytes cfg <? 0)%Z || (MaxUnaryResponseBytes cfg <? 0)%Z
     || (MaxStreamRequestBytes cfg <? 0)%Z || (MaxStreamResponseBytes cfg <? 0)%Z
  then (s, Panic "invariant: method byte limits must be non-negative")
  else updateConfiguration "method configuration"
         (fun s => setMethodConfigs (<[methodPath := cfg]> (methodConfigs s)) s) s.

Definition methodPath (t : Tool) : string := "/" +:+ ServiceFullName t +:+ "/" +:+ ToolMethod t.

(** The cap of a method: its own if positive, the server's otherwise. *)
Definition methodCap (field : MethodConfig -> Z) (server : Server -> Z) (s : Server) (t : Tool) : Z :=
  match methodConfigs s !! methodPath t with
  | Some cfg => if (0 <? field cfg)%Z then field cfg else server s
  | None => server s
  end.
Definition methodUnaryCap : Server -> Tool -> Z := methodCap MaxUnaryRequestBytes httpMaxUnaryRequest.
Definition methodUnaryResponseCap : Server -> Tool -> Z := methodCap MaxUnaryResponseBytes httpMaxUnaryResponse.
Definition methodStreamCap : Server -> Tool -> Z := methodCap MaxStreamRequestBytes connectStreamMaxRequest.
Definition methodStreamResponseCap : Server -> Tool -> Z := methodCap MaxStreamResponseBytes connectStreamMaxResponse.

Definition Use (i : UnaryInterceptor) : Step unit :=
  updateConfiguration "shared unary interceptors" (fun s => setInterceptors (interceptors s ++ [i]) s).
Definition UseStream (i : StreamInterceptor) : Step unit :=
  updateConfiguration "shared stream interceptors" (fun s => setStreamInterceptors (streamInterceptors s ++ [i]) s).
Definition UseHTTPHeaderProvider (p : option HeaderProvider) : Step unit :=
  updateConfiguration "HTTP header provider" (setHeaderProvider p).
(** A nil mapper stands for [DefaultHTTPMetadataMapper]. *)
Definition UseHTTPMetadataMapper (dflt : MetadataMapper) (m : option MetadataMapper) : Step unit :=
  updateConfiguration "HTTP metadata mapper" (setMetadataMapper (Some (default dflt m))).
Definition Include (patterns : list string) : Step unit :=
  updateProjectionFilters "include filters" (fun s => setFilters (includes s ++ patterns) (excludes s) s).
Definition Exclude (patterns : list string) : Step unit :=
  updateProjectionFilters "exclude filters" (fun s => setFilters (includes s) (excludes s ++ patterns) s).

(** ** Filters *)

Definition STAR : ascii := "*"%char.

Fixpoint globMatch (pattern s : string) {struct pattern} : bool :=
  match pattern with
  | EmptyString => match s with EmptyString => true | _ => false end
  | String c pattern =>
      if Ascii.eqb c STAR then
        match pattern with
        | EmptyString => true
        | _ => (fix anywhere (s : string) : bool :=
                  globMatch pattern s || match s with EmptyString => false | String _ s => anywhere s end) s
        end
      else match s with
           | EmptyString => false
           | String d s => Ascii.eqb c d && globMatch pattern s
           end
  end.

Definition splitPatterns (s : string) : list string :=
  List.filter (fun p => negb (String.eqb p "")) (map TrimSpace (Split s ",")).

Section WithWorld.
Context (w : World).

Definition effectiveIncludes (s : Server) : list string :=
  includes s ++ (if decide (env_include w = "") then [] else splitPatterns (env_include w)).
Definition effectiveExcludes (s : Server) : list string :=
  excludes s ++ (if decide (env_exclude w = "") then [] else splitPatterns (env_exclude w)).

Definition shouldIncludeLocked (s : Server) (serviceFullName methodName : string) : bool :=
  let fullPath := serviceFullName +:+ "." +:+ methodName in
  let included := match effectiveIncludes s with
                  | [] => true
                  | patterns => existsb (fun p => globMatch p fullPath) patterns
                  end in
  included && negb (existsb (fun p => globMatch p fullPath) (effectiveExcludes s)).

(** ** Request types *)

Definition checkedMessageFactory (message : string) : Outcome unit :=
  match linkedType w message with
  | LinkedNotFound => Ok tt
  | LinkedError e => Err ("invariant: resolve linked generated message " +:+ Quote message +:+ ": " +:+ e)
  | LinkedMessage =>
      linked ← reachableMessageFiles (reg_messages (linkedFiles w)) (registryFuel w) message;
      runtime ← reachableMessageFiles (reg_messages (runtimeFiles w)) (registryFuel w) message;
      let mismatch := descriptorGraphMismatch (sameFile w) linked runtime in
      failIf (negb (String.eqb mismatch ""))
        ("invariant: linked generated message " +:+ Quote message +:+ " protobuf file " +:+ Quote mismatch +:+
         " disagrees with descriptor.binpb")
  end.

Definition findMessageDescriptor (fullName : string) : Outcome unit :=
  match reg_messages (runtimeFiles w) !! fullName with
  | Some _ => Ok tt
  | None =>
      if decide (fullName ∈ reg_other (runtimeFiles w) \/ is_Some (reg_services (runtimeFiles w) !! fullName))
      then Err (Quote fullName +:+ " is not a message descriptor")
      else Err ("message " +:+ Quote fullName +:+ " not found in descriptor: " +:+ notFound w)
  end.

(** Whether there is a factory; every error is a nil factory. *)
Definition messageFactory (fullName : string) : bool :=
  isOk (_ ← findMessageDescriptor fullName; checkedMessageFactory fullName).

(** ** Validation of a registration *)

Definition validateService (r : registeredService) : Outcome (ServiceDesc * Impl) :=
  match rs_desc r with
  | None => Err "invariant: cannot register a nil grpc.ServiceDesc"
  | Some desc =>
      _ ← failIf (String.eqb (ServiceName desc) "") "invariant: cannot register a service with an empty name";
      _ ← failIf (match sd_HandlerType desc with NilHandlerType | NotInterfacePointer => true | _ => false end)
            ("invariant: service " +:+ Quote (ServiceName desc) +:+ " has an invalid HandlerType");
      match rs_service r with
      | None => Err ("invariant: service " +:+ Quote (ServiceName desc) +:+ " has a nil implementation")
      | Some impl =>
          _ ← failIf (negb (implements impl (sd_HandlerType desc)))
                ("invariant: service " +:+ Quote (ServiceName desc) +:+ " implementation " +:+ impl_type impl +:+
                 " does not satisfy " +:+ handlerName (sd_HandlerType desc));
          Ok (desc, impl)
      end
  end.

Definition serviceErr (desc : ServiceDesc) (text : string) : string :=
  "invariant: service " +:+ Quote (ServiceName desc) +:+ text.
Definition generatedErr (desc : ServiceDesc) (method text : string) : string :=
  "invariant: generated service " +:+ Quote (ServiceName desc) +:+ " method " +:+ Quote method +:+ text.

(** The two loops over the generated methods; [seen] collects their names. *)
Definition checkUnary (desc : ServiceDesc) (svcInfo : ServiceInfo) (seen : gset string) (m : MethodDesc)
  : Outcome (gset string) :=
  let name := MethodName m in
  _ ← failIf (String.eqb name "" || negb (md_Handler m)) (serviceErr desc " has an invalid unary method descriptor");
  _ ← failIf (bool_decide (name ∈ seen)) (serviceErr desc (" has duplicate method " +:+ Quote name));
  match si_Methods svcInfo !! name with
  | None => Err (generatedErr desc name " is absent from descriptor.binpb")
  | Some methodInfo =>
      _ ← failIf (meth_ClientStreaming methodInfo || meth_ServerStreaming methodInfo)
            (generatedErr desc name " is unary but descriptor.binpb declares streaming");
      Ok ({[name]} ∪ seen)
  end.

Definition checkStream (desc : ServiceDesc) (svcInfo : ServiceInfo) (seen : gset string) (m : StreamDesc)
  : Outcome (gset string) :=
  let name := StreamName m in
  _ ← failIf (String.eqb name "" || negb (sd_Handler m)) (serviceErr desc " has an invalid stream method descriptor");
  _ ← failIf (bool_decide (name ∈ seen)) (serviceErr desc (" has duplicate method " +:+ Quote name));
  match si_Methods svcInfo !! name with
  | None => Err (generatedErr desc name " is absent from descriptor.binpb")
  | Some methodInfo =>
      _ ← failIf (negb (Bool.eqb (meth_ClientStreaming methodInfo) (ClientStreams m))
                  || negb (Bool.eqb (meth_ServerStreaming methodInfo) (ServerStreams m)))
            (generatedErr desc name " streaming cardinality disagrees with descriptor.binpb");
      Ok ({[name]} ∪ seen)
  end.

Definition checkLinkedMethod (desc : ServiceDesc) (linked : ServiceNode) (entry : string * MethodInfo) : Outcome unit :=
  let '(name, methodInfo) := entry in
  match assoc name (sn_Methods linked) with
  | None => Err ("invariant: linked generated service " +:+ Quote (ServiceName desc) +:+
                 " is missing descriptor.binpb method " +:+ Quote name)
  | Some (input, output) =>
      failIf (negb (String.eqb input (meth_InputType methodInfo)) || negb (String.eqb output (meth_OutputType methodInfo)))
        (generatedErr desc name " message types disagree with descriptor.binpb")
  end.

Definition validateDescriptorAgreement (desc : ServiceDesc) (svcInfo : ServiceInfo) : Outcome unit :=
  seen ← foldOutcome (checkUnary desc svcInfo) (Methods desc) ∅;
  seen ← foldOutcome (checkStream desc svcInfo) (Streams desc) seen;
  let missing := List.filter (fun n => negb (bool_decide (n ∈ seen))) (map fst (map_to_list (si_Methods svcInfo))) in
  _ ← failIf (negb (length missing =? 0))
        ("invariant: generated service " +:+ Quote (ServiceName desc) +:+ " is missing descriptor.binpb methods: " +:+
         Join (sortStrings missing) ", ");
  linkedService ←
    match FindService (linkedFiles w) (ServiceName desc) with
    | None => Err ("invariant: generated service " +:+ Quote (ServiceName desc) +:+
                   " has no linked protobuf descriptor: " +:+ notFound w)
    | Some None => Err ("invariant: linked descriptor " +:+ Quote (ServiceName desc) +:+ " is not a protobuf service")
    | Some (Some s) => Ok s
    end;
  _ ← forEach (checkLinkedMethod desc linkedService) (map_to_list (si_Methods svcInfo));
  runtimeService ←
    match FindService (runtimeFiles w) (ServiceName desc) with
    | None => Err ("invariant: service " +:+ Quote (ServiceName desc) +:+
                   " is absent from the runtime descriptor graph: " +:+ notFound w)
    | Some None => Err ("invariant: runtime descriptor " +:+ Quote (ServiceName desc) +:+ " is not a protobuf service")
    | Some (Some s) => Ok s
    end;
  linkedGraph ← reachableServiceFiles (reg_messages (linkedFiles w)) (registryFuel w) linkedService;
  runtimeGraph ← reachableServiceFiles (reg_messages (runtimeFiles w)) (registryFuel w) runtimeService;
  let mismatch := descriptorGraphMismatch (sameFile w) linkedGraph runtimeGraph in
  failIf (negb (String.eqb mismatch ""))
    ("invariant: generated service " +:+ Quote (ServiceName desc) +:+ " protobuf file " +:+ Quote mismatch +:+
     " disagrees with descriptor.binpb").

(** ** Tools of a service *)

Definition inputSchema (typeName : string) : Any :=
  match MessageToSchema (parsed w) (schemaFuel (parsed w)) typeName with Ok schema => schema | _ => objectAny end.

Definition registeredTool (svcInfo : ServiceInfo) (methodInfo : MethodInfo) (methodName : string)
    (unary : option MethodDesc) (stream : option StreamDesc) : Tool :=
  let toolName := si_FullName svcInfo +:+ "." +:+ methodName in
  let description := if decide (meth_Comment methodInfo = "") then toolName else meth_Comment methodInfo in
  mkTool toolName description (inputSchema (meth_InputType methodInfo)) (meth_InputType methodInfo)
    (meth_OutputType methodInfo) (si_FullName svcInfo) methodName (meth_ServerStreaming methodInfo)
    unary stream (messageFactory (meth_InputType methodInfo)) "".

Definition unaryTool (s : Server) (desc : ServiceDesc) (svcInfo : ServiceInfo) (m : MethodDesc) : option Tool :=
  match si_Methods svcInfo !! MethodName m with
  | Some methodInfo =>
      if meth_ClientStreaming methodInfo || meth_ServerStreaming methodInfo
         || negb (shouldIncludeLocked s (ServiceName desc) (MethodName m)) then None
      else Some (registeredTool svcInfo methodInfo (MethodName m) (Some m) None)
  | None => None
  end.

Definition streamTool (s : Server) (desc : ServiceDesc) (svcInfo : ServiceInfo) (m : StreamDesc) : option Tool :=
  match si_Methods svcInfo !! StreamName m with
  | Some methodInfo =>
      if meth_ClientStreaming methodInfo || negb (meth_ServerStreaming methodInfo)
         || negb (shouldIncludeLocked s (ServiceName desc) (StreamName m)) then None
      else Some (registeredTool svcInfo methodInfo (StreamName m) None (Some m))
  | None => None
  end.

Definition toolsForService (s : Server) (desc : ServiceDesc) : Outcome (list Tool) :=
  match Services (parsed w) !! ServiceName desc with
  | None => Ok []
  | Some svcInfo =>
      _ ← (if decide (sd_HandlerType desc = ProjectedService) then Ok tt else validateDescriptorAgreement desc svcInfo);
      Ok (omap (unaryTool s desc svcInfo) (Methods desc) ++ omap (streamTool s desc svcInfo) (Streams desc))
  end.

(** ** Commit *)

Definition addTool (t : Tool) : Step unit := fun s =>
  let owner := match tools s !! Name t with
               | Some existing => ServiceFullName existing
               | None => ServiceFullName t
               end in
  if negb (String.eqb owner (ServiceFullName t)) then
    (s, Err ("tool name collision: " +:+ Quote (Name t) +:+ " is registered by both " +:+ Quote owner +:+ " and " +:+
             Quote (ServiceFullName t)))
  else if ServerStreaming t && bool_decide (streamDesc t = None) then
    (s, Err ("streaming tool " +:+ Quote (Name t) +:+ " has no grpc.StreamDesc"))
  else if negb (ServerStreaming t) && bool_decide (unaryDesc t = None) then
    (s, Err ("unary tool " +:+ Quote (Name t) +:+ " has no grpc.MethodDesc"))
  else if negb (newRequest t || messageFactory (InputType t)) then
    (s, Err ("tool " +:+ Quote (Name t) +:+ " has no protobuf request type"))
  else
    let t' := mkTool (Name t) (Description t) (InputSchema t) (InputType t) (OutputType t) (ServiceFullName t)
                (ToolMethod t) (ServerStreaming t) (unaryDesc t) (streamDesc t) true (methodPath t) in
    (setTools (<[Name t := t']> (tools s)) s, Ok tt).

Fixpoint addTools (l : list Tool) : Step unit := fun s =>
  match l with
  | [] => (s, Ok tt)
  | t :: l =>
      match addTool t s with
      | (s, Ok _) => addTools l s
      | (s, e) => (s, e)
      end
  end.

(** One staged service: native registration, then its tools. *)
Fixpoint commit (staged : list (ServiceDesc * Impl * list Tool)) : Step unit := fun s =>
  match staged with
  | [] => (s, Ok tt)
  | (desc, impl, ts) :: staged =>
      let s := setServices ({[ServiceName desc]} ∪ nativeServices s)
                 (<[ServiceName desc := (desc, impl)]> (registeredServices s)) s in
      match addTools ts s with
      | (s, Ok _) => commit staged s
      | (s, e) => (s, e)
      end
  end.

(** ** Staging *)

Definition claimTool (owners : gmap string string) (t : Tool) : Outcome (gmap string string) :=
  match owners !! Name t with
  | Some owner =>
      Err ("tool name collision: " +:+ Quote (Name t) +:+ " is registered by both " +:+ Quote owner +:+ " and " +:+
           Quote (ServiceFullName t) +:+ "; configure Server.Include() before registration to scope to one")
  | None => Ok (<[Name t := ServiceFullName t]> owners)
  end.

(** The names of the group, the owners of tool names and what is staged so far. *)
Definition Staging : Type := gset string * gmap string string * list (ServiceDesc * Impl * list Tool).

Definition stageService (s : Server) (st : Staging) (service : ServiceDesc * Impl) : Outcome Staging :=
  let '(names, owners, staged) := st in
  let '(desc, impl) := service in
  let name := ServiceName desc in
  _ ← failIf (bool_decide (name ∈ names)) ("invariant: duplicate service registration for " +:+ Quote name);
  _ ← failIf (bool_decide (is_Some (registeredServices s !! name)))
        ("invariant: duplicate service registration for " +:+ Quote name);
  _ ← failIf (bool_decide (name ∈ nativeServices s))
        ("invariant: duplicate native gRPC service registration for " +:+ Quote name);
  ts ← toolsForService s desc;
  owners ← foldOutcome claimTool ts owners;
  Ok ({[name]} ∪ names, owners, staged ++ [(desc, impl, ts)]).

Definition frozenErr (subject : string) : string :=
  "invariant: service registration is frozen; cannot register " +:+ subject.

Definition registerServices (services : list registeredService) (subject : string) : Step unit := fun s =>
  match services with
  | [] => (s, Ok tt)
  | _ =>
      match mapOutcome validateService services with
      | Ok valid =>
          if frozen s then (s, Err (frozenErr subject))
          else match foldOutcome (stageService s) valid (∅, ServiceFullName <$> tools s, []) with
               | Ok (_, _, staged) => commit staged s
               | Err e => (s, Err e)
               | Panic e => (s, Panic e)
               | NoFuel => (s, NoFuel)
               end
      | Err e => (s, Err e)
      | Panic e => (s, Panic e)
      | NoFuel => (s, NoFuel)
      end
  end.

Definition registerService (desc : option ServiceDesc) (impl : option Impl) : Step unit :=
  let subject := match desc with
                 | Some d => if decide (ServiceName d = "") then "service" else Quote (ServiceName d)
                 | None => "service"
                 end in
  registerServices [mkRegistered desc impl] subject.

(** The method of [grpc.ServiceRegistrar] panics on an error. *)
Definition RegisterService (desc : option ServiceDesc) (impl : option Impl) : Step unit := fun s =>
  match registerService desc impl s with
  | (s, Err e) => (s, Panic e)
  | r => r
  end.

(** ** Remote services *)

Definition remoteProxyService : Impl := mkImpl "*invariant.remoteProxyService" [].

Definition ensureRegistrationOpen (subject : string) (s : Server) : Outcome unit := failIf (frozen s) (frozenErr subject).

(** The unary methods of a service, each with usable request and response types. *)
Definition proxyMethods (svcInfo : ServiceInfo) : Outcome (list MethodDesc) :=
  foldOutcome (fun methods entry => let '(name, info) := entry : string * MethodInfo in
    if meth_ClientStreaming info || meth_ServerStreaming info then Ok methods
    else
      _ ← findMessageDescriptor (meth_InputType info);
      _ ← findMessageDescriptor (meth_OutputType info);
      _ ← checkedMessageFactory (meth_InputType info);
      _ ← checkedMessageFactory (meth_OutputType info);
      Ok (methods ++ [mkMethodDesc name true])) (map_to_list (si_Methods svcInfo)) [].

Definition proxyService (name : string) (svcInfo : ServiceInfo) : Outcome (list registeredService) :=
  methods ← proxyMethods svcInfo;
  Ok (match methods with
      | [] => []
      | _ => [mkRegistered (Some (mkServiceDesc name ProjectedService methods [])) (Some remoteProxyService)]
      end).

Definition ConnectGRPC (conn : bool) : Step unit := fun s =>
  match (_ ← ensureRegistrationOpen "gRPC connection" s;
         _ ← failIf (negb conn) "connect requires a non-nil grpc.ClientConnInterface";
         registrations ← mapOutcome (fun name => proxyService name (default (mkServiceInfo "" "" ∅ "") (Services (parsed w) !! name)))
                           (sortStrings (map fst (map_to_list (Services (parsed w)))));
         Ok (concat registrations)) with
  | Ok registrations => registerServices registrations "gRPC connection" s
  | Err e => (s, Err e)
  | Panic e => (s, Panic e)
  | NoFuel => (s, NoFuel)
  end.

(** ** Serving *)

Definition freeze (s : Server) : Server := if frozenFast s then s else setFrozen true true s.

(** How a call by tool name is dispatched. *)
Inductive Dispatch : Type :=
  | Run (t : Tool)
  | NotFound
  | FailedPrecondition.

Definition Invoke (toolName : string) (s : Server) : Server * Dispatch :=
  let s := freeze s in
  (s, match tools s !! toolName with
      | None => NotFound
      | Some t => if ServerStreaming t then FailedPrecondition else Run t
      end).

Definition InvokeStream (toolName : string) (s : Server) : Server * Dispatch :=
  let s := freeze s in
  (s, match tools s !! toolName with
      | None => NotFound
      | Some t => if ServerStreaming t then Run t else FailedPrecondition
      end).

Definition catalogEntry (t : Tool) : Any :=
  AMap ([("name", AString (Name t)); ("description", AString (Description t)); ("inputSchema", InputSchema t)]
        ++ if ServerStreaming t then [("_meta", AMap [("streaming", ABool true)])] else []).

Definition ToolCatalog (s : Server) : list Any :=
  omap (fun name => catalogEntry <$> tools s !! name) (sortStrings (map fst (map_to_list (tools s)))).

Definition newServerWithFDS (mapper : MetadataMapper) : Server :=
  mkServer ∅ [] [] None (Some mapper) [] [] defaultHTTPMaxUnaryRequest defaultHTTPMaxUnaryResponse
    defaultConnectStreamMaxRequest defaultConnectStreamMaxResponse defaultHTTPShutdownTimeout ∅ false false
    (list_to_set (reflectionServices w)) ∅.
End WithWorld.
End Server.
End Server.
