(* ===== verification/ServerSpec.v ===== *)
(** * Invariants of the server

    A server is reached from a fresh one by any sequence of configuration calls,
    registrations and calls that freeze it. *)
From S2P Require Import Prelude GoStrings StringFacts ParsedDescriptor ParsedSpec JsonSchema Reachable Server.
Import Server.

(** ** The glob language *)

(** A pattern: literal bytes, and stars that stand for any text. *)
Inductive Glob : string -> string -> Prop :=
  | glob_nil : Glob "" ""
  | glob_byte c p s : c <> STAR -> Glob p s -> Glob (String c p) (String c s)
  | glob_star p t s : Glob p s -> Glob (String STAR p) (t +:+ s).

Lemma Glob_star_nil s : Glob (String STAR "") s.
Proof. rewrite <- (append_nil_r s). constructor. constructor. Qed.

Lemma Glob_star_inv p s : Glob (String STAR p) s -> exists t u, s = t +:+ u /\ Glob p u.
Proof. intros H. inversion H; subst; [done|]. eauto. Qed.

Definition anywhere (p : string) : string -> bool :=
  fix anywhere s := globMatch p s || match s with EmptyString => false | String _ s => anywhere s end.

Lemma anywhere_spec p s : anywhere p s = true <-> exists t u, s = t +:+ u /\ globMatch p u = true.
Proof.
  split.
  - induction s as [|d s IH]; cbn [anywhere]; rewrite orb_true_iff.
    + intros [H|H]; [|done]. by exists "", "".
    + intros [H|H]; [by exists "", (String d s)|]. destruct (IH H) as (t&u&->&Hu). by exists (String d t), u.
  - intros (t&u&->&Hu). induction t as [|d t IH].
    + rewrite append_nil_l. destruct u; cbn [anywhere]; by rewrite Hu.
    + rewrite append_cons. cbn [anywhere]. by rewrite IH, orb_true_r.
Qed.

Lemma globMatch_star p s : globMatch (String STAR p) s = anywhere p s.
Proof.
  destruct p as [|c p]; [|done]. cbn [globMatch]. rewrite Ascii.eqb_refl. symmetry. apply anywhere_spec.
  exists s, "". by rewrite append_nil_r.
Qed.

Lemma globMatch_exact p s : globMatch p s = true <-> Glob p s.
Proof.
  revert s. induction p as [|c p IH]; intros s.
  - split; [by destruct s; [constructor|]|]. intros H. by inversion H.
  - destruct (Ascii.eqb_spec c STAR) as [->|Hc].
    + rewrite globMatch_star, anywhere_spec. split.
      * intros (t&u&->&Hu). constructor. by apply IH.
      * intros (t&u&->&Hu)%Glob_star_inv. exists t, u. split; [done|]. by apply IH.
    + cbn [globMatch]. rewrite (proj2 (Ascii.eqb_neq c STAR) Hc). destruct s as [|d s].
      * split; [done|]. intros H. inversion H; subst; done.
      * rewrite andb_true_iff, Ascii.eqb_eq, IH. split.
        -- intros [-> H]. by constructor.
        -- intros H. inversion H; subst; done.
Qed.

Lemma omap_pointwise {A B} (f g : A -> option B) (l : list A) : (forall x, f x = g x) -> omap f l = omap g l.
Proof. intros H. induction l as [|x l IH]; [done|]. cbn [omap list_omap]. rewrite H.
  by destruct (g x); [f_equal|]. Qed.

(** ** The filter *)

Section WithWorld.
Context {UI SI HP MM : Type}.
Context (w : World).
Notation Srv := (@Server UI SI HP MM).

Lemma shouldInclude_exact (s : Srv) svc method :
  shouldIncludeLocked w s svc method = true <->
  (effectiveIncludes w s = [] \/ exists p, p ∈ effectiveIncludes w s /\ Glob p (svc +:+ "." +:+ method)) /\
  ~ (exists p, p ∈ effectiveExcludes w s /\ Glob p (svc +:+ "." +:+ method)).
Proof.
  assert (forall l, existsb (fun p => globMatch p (svc +:+ "." +:+ method)) l = true <->
    exists p, p ∈ l /\ Glob p (svc +:+ "." +:+ method)) as Hex.
  { intros l. rewrite existsb_exists. setoid_rewrite globMatch_exact. by setoid_rewrite <- list_elem_of_In. }
  unfold shouldIncludeLocked. cbv zeta. rewrite andb_true_iff, negb_true_iff, <- not_true_iff_false, Hex.
  apply and_iff_compat_r. destruct (effectiveIncludes w s) as [|p l]; [by split; [left|]|]. rewrite Hex. naive_solver.
Qed.

(** ** Steps *)

Inductive step (s : Srv) : Srv -> Prop :=
  | step_unary_request n : step s (SetMaxUnaryRequestBytes n s).1
  | step_unary_response n : step s (SetMaxUnaryResponseBytes n s).1
  | step_stream_request n : step s (SetMaxStreamRequestBytes n s).1
  | step_stream_response n : step s (SetMaxStreamResponseBytes n s).1
  | step_timeout n : step s (SetHTTPShutdownTimeout n s).1
  | step_configure path cfg : step s (ConfigureMethod path cfg s).1
  | step_use i : step s (Use i s).1
  | step_use_stream i : step s (UseStream i s).1
  | step_header_provider p : step s (UseHTTPHeaderProvider p s).1
  | step_metadata_mapper d m : step s (UseHTTPMetadataMapper d m s).1
  | step_include ps : step s (Include ps s).1
  | step_exclude ps : step s (Exclude ps s).1
  | step_register services subject : step s (registerServices w services subject s).1
  | step_connect conn : step s (ConnectGRPC w conn s).1
  | step_freeze : step s (freeze s)
  | step_invoke name : step s (Invoke name s).1
  | step_invoke_stream name : step s (InvokeStream name s).1.

Inductive Reached : Srv -> Prop :=
  | reached_new mapper : Reached (newServerWithFDS w mapper)
  | reached_step s s' : Reached s -> step s s' -> Reached s'.

(** ** The invariant *)

(** A tool of a server: it is a projected method of a registered service. *)
Record ToolOk (s : Srv) (n : string) (t : Tool) : Prop := {
  to_name : Name t = n /\ n = ServiceFullName t +:+ "." +:+ ToolMethod t;
  to_method : exists svcInfo methodInfo, Services (parsed w) !! ServiceFullName t = Some svcInfo /\
    si_Methods svcInfo !! ToolMethod t = Some methodInfo /\
    meth_ClientStreaming methodInfo = false /\ meth_ServerStreaming methodInfo = ServerStreaming t /\
    InputType t = meth_InputType methodInfo /\ OutputType t = meth_OutputType methodInfo;
  to_service : exists desc impl, registeredServices s !! ServiceFullName t = Some (desc, impl) /\
    if ServerStreaming t
    then exists m, streamDesc t = Some m /\ m ∈ Streams desc /\ StreamName m = ToolMethod t
    else exists m, unaryDesc t = Some m /\ m ∈ Methods desc /\ MethodName m = ToolMethod t;
  to_request : newRequest t = true /\ messageFactory w (InputType t) = true;
  to_path : FullMethod t = "/" +:+ ServiceFullName t +:+ "/" +:+ ToolMethod t;
  to_included : shouldIncludeLocked w s (ServiceFullName t) (ToolMethod t) = true
}.

Record Inv (s : Srv) : Prop := {
  inv_tools n t : tools s !! n = Some t -> ToolOk s n t;
  inv_native : nativeServices s = list_to_set (reflectionServices w) ∪ dom (registeredServices s);
  inv_registered n d i : registeredServices s !! n = Some (d, i) ->
    ServiceName d = n /\ n <> "" /\ implements i (sd_HandlerType d) = true /\ n ∉ reflectionServices w;
  inv_limits : (0 < httpMaxUnaryRequest s /\ 0 < httpMaxUnaryResponse s /\ 0 < connectStreamMaxRequest s /\
    0 < connectStreamMaxResponse s /\ 0 < httpShutdownTimeout s)%Z;
  inv_frozen : frozenFast s = frozen s
}.

(** ** Steps that only touch the configuration *)

(** The parts the invariant looks at are the same. *)
Definition sameRegistry (s s' : Srv) : Prop :=
  tools s' = tools s /\ registeredServices s' = registeredServices s /\ nativeServices s' = nativeServices s /\
  includes s' = includes s /\ excludes s' = excludes s.

Lemma ToolOk_same s s' n t : sameRegistry s s' -> ToolOk s n t -> ToolOk s' n t.
Proof.
  intros (_&Hr&_&Hi&He) [H1 H2 H3 H4 H5 H6]. constructor; try done.
  - by rewrite Hr.
  - revert H6. unfold shouldIncludeLocked, effectiveIncludes, effectiveExcludes. by rewrite Hi, He.
Qed.

Lemma Inv_same s s' :
  sameRegistry s s' ->
  (0 < httpMaxUnaryRequest s' /\ 0 < httpMaxUnaryResponse s' /\ 0 < connectStreamMaxRequest s' /\
    0 < connectStreamMaxResponse s' /\ 0 < httpShutdownTimeout s')%Z ->
  frozenFast s' = frozen s' -> Inv s -> Inv s'.
Proof.
  intros Hsame Hl Hf [H1 H2 H3 H4 H5]. pose proof Hsame as (Ht&Hr&Hn&_). constructor; try done.
  - intros n t. rewrite Ht. intros Hnt. eapply ToolOk_same; [done|by apply H1].
  - by rewrite Hr, Hn.
  - by rewrite Hr.
Qed.

Lemma Inv_update subject update s :
  Inv s -> (frozen s = false -> Inv (update s)) -> Inv (updateConfiguration subject update s).1.
Proof. unfold updateConfiguration. destruct (frozen s); simpl; auto. Qed.

Lemma Inv_limit what dflt update n s :
  Inv s -> (0 < dflt)%Z -> (forall k, (0 < k)%Z -> Inv (update k s)) -> Inv (limitSetter what dflt update n s).1.
Proof.
  intros Hs Hd Hu. unfold limitSetter. destruct (Z.ltb_spec n 0); [done|]. apply Inv_update; [done|]. intros _. apply Hu.
  destruct (Z.eqb_spec n 0); lia.
Qed.

Lemma Inv_filters subject update s :
  Inv s -> (tools s = ∅ -> registeredServices s = ∅ -> Inv (update s)) ->
  Inv (updateProjectionFilters subject update s).1.
Proof.
  intros Hs Hu. unfold updateProjectionFilters. destruct (frozen s); [done|].
  destruct (Nat.eqb_spec (size (registeredServices s)) 0) as [Hz|Hz]; [|done]. simpl. apply map_size_empty_inv in Hz.
  apply Hu; [|done]. apply map_empty. intros n. destruct (tools s !! n) as [t|] eqn:E; [|done].
  destruct (to_service _ _ _ (inv_tools _ Hs n t E)) as (d&i&Hd&_). by rewrite Hz, lookup_empty in Hd.
Qed.

Lemma Inv_freeze s : Inv s -> Inv (freeze s).
Proof.
  intros Hs. unfold freeze. destruct (frozenFast s) eqn:E; [done|]. apply (Inv_same s); try done. apply Hs.
Qed.

(** ** Registration *)

(** Filters and parsed methods do not change while a group is committed. *)
Lemma toolsForService_filters (s s' : Srv) desc :
  includes s' = includes s -> excludes s' = excludes s -> toolsForService w s' desc = toolsForService w s desc.
Proof.
  intros Hi He. unfold toolsForService. destruct (Services (parsed w) !! ServiceName desc) as [svcInfo|]; [|done].
  assert (forall a b, shouldIncludeLocked w s' a b = shouldIncludeLocked w s a b) as Hs
    by (intros; unfold shouldIncludeLocked, effectiveIncludes, effectiveExcludes; by rewrite Hi, He).
  destruct (if decide _ then _ else _) as [u| | |]; try done. cbn [mbind outcome_bind]. do 2 f_equal.
  - apply omap_pointwise. intros m. unfold unaryTool. by rewrite Hs.
  - apply omap_pointwise. intros m. unfold streamTool. by rewrite Hs.
Qed.

(** Every parsed service is known by its own name. *)
Definition wfParsed : Prop := forall n i, Services (parsed w) !! n = Some i -> si_FullName i = n.

(** The tools staged for a service: what [addTool] will accept. *)
Record StagedTool (s : Srv) (desc : ServiceDesc) (t : Tool) : Prop := {
  st_service : ServiceFullName t = ServiceName desc;
  st_name : Name t = ServiceFullName t +:+ "." +:+ ToolMethod t;
  st_method : exists svcInfo methodInfo, Services (parsed w) !! ServiceFullName t = Some svcInfo /\
    si_Methods svcInfo !! ToolMethod t = Some methodInfo /\
    meth_ClientStreaming methodInfo = false /\ meth_ServerStreaming methodInfo = ServerStreaming t /\
    InputType t = meth_InputType methodInfo /\ OutputType t = meth_OutputType methodInfo;
  st_desc : if ServerStreaming t
    then exists m, streamDesc t = Some m /\ m ∈ Streams desc /\ StreamName m = ToolMethod t
    else exists m, unaryDesc t = Some m /\ m ∈ Methods desc /\ MethodName m = ToolMethod t;
  st_request : newRequest t = messageFactory w (InputType t);
  st_included : shouldIncludeLocked w s (ServiceFullName t) (ToolMethod t) = true
}.

Lemma toolsForService_staged (s : Srv) desc ts :
  wfParsed -> toolsForService w s desc = Ok ts -> Forall (StagedTool s desc) ts.
Proof.
  intros Hwf. unfold toolsForService. destruct (Services (parsed w) !! ServiceName desc) as [svcInfo|] eqn:Hsvc.
  2: { intros [= <-]. constructor. }
  intros (u&_&[= <-])%bind_Ok. pose proof (Hwf _ _ Hsvc) as Hfull. apply list.Forall_app. split.
  - apply list.Forall_forall. intros t (m&Hm&Ht)%list_elem_of_omap. unfold unaryTool in Ht.
    destruct (si_Methods svcInfo !! MethodName m) as [mi|] eqn:Hmi; [|done].
    destruct (meth_ClientStreaming mi) eqn:Hc; [done|]. destruct (meth_ServerStreaming mi) eqn:Hss; [done|].
    destruct (shouldIncludeLocked w s (ServiceName desc) (MethodName m)) eqn:Hin; [|done]. injection Ht as <-.
    constructor; simpl; try done.
    + rewrite Hfull. exists svcInfo, mi. auto 10.
    + rewrite Hss. by exists m.
    + by rewrite Hfull.
  - apply list.Forall_forall. intros t (m&Hm&Ht)%list_elem_of_omap. unfold streamTool in Ht.
    destruct (si_Methods svcInfo !! StreamName m) as [mi|] eqn:Hmi; [|done].
    destruct (meth_ClientStreaming mi) eqn:Hc; [done|]. destruct (meth_ServerStreaming mi) eqn:Hss; [|done].
    destruct (shouldIncludeLocked w s (ServiceName desc) (StreamName m)) eqn:Hin; [|done]. injection Ht as <-.
    constructor; simpl; try done.
    + rewrite Hfull. exists svcInfo, mi. auto 10.
    + rewrite Hss. by exists m.
    + by rewrite Hfull.
Qed.

Lemma StagedTool_filters (s s' : Srv) desc t :
  includes s' = includes s -> excludes s' = excludes s -> StagedTool s desc t -> StagedTool s' desc t.
Proof.
  intros Hi He [H1 H2 H3 H4 H5 H6]. constructor; try done. revert H6.
  unfold shouldIncludeLocked, effectiveIncludes, effectiveExcludes. by rewrite Hi, He.
Qed.

(** What [addTool] stores. *)
Definition finished (t : Tool) : Tool :=
  mkTool (Name t) (Description t) (InputSchema t) (InputType t) (OutputType t) (ServiceFullName t)
    (ToolMethod t) (ServerStreaming t) (unaryDesc t) (streamDesc t) true (methodPath t).

Lemma addTool_cases t (s : Srv) :
  (addTool w t s).1 = s /\ (addTool w t s).2 <> Ok tt \/
  addTool w t s = (setTools (<[Name t := finished t]> (tools s)) s, Ok tt) /\
    (newRequest t || messageFactory w (InputType t)) = true.
Proof.
  unfold addTool. cbv zeta. repeat (match goal with |- context [if ?b then _ else _] => destruct b eqn:? end; [by left|]).
  right. split; [done|]. by apply negb_false_iff.
Qed.

Lemma ToolOk_finished (s : Srv) desc impl t :
  registeredServices s !! ServiceName desc = Some (desc, impl) -> StagedTool s desc t ->
  (newRequest t || messageFactory w (InputType t)) = true -> ToolOk s (Name t) (finished t).
Proof.
  intros Hreg [H1 H2 H3 H4 H5 H6] Hreq. constructor; simpl; try done.
  - rewrite H1, Hreg. exists desc, impl. split; [done|]. done.
  - split; [done|]. rewrite H5 in Hreq. by destruct (messageFactory w (InputType t)).
Qed.

Lemma Inv_setTools (s : Srv) m : Inv s -> (forall n t, m !! n = Some t -> ToolOk s n t) -> Inv (setTools m s).
Proof.
  intros [H1 H2 H3 H4 H5] Hm. constructor; try done. intros n t Hnt. destruct (Hm n t Hnt). by constructor.
Qed.

Lemma addTools_Inv desc impl ts (s : Srv) :
  Inv s -> registeredServices s !! ServiceName desc = Some (desc, impl) -> Forall (StagedTool s desc) ts ->
  Inv (addTools w ts s).1 /\ exists m, (addTools w ts s).1 = setTools m s.
Proof.
  revert s. induction ts as [|t ts IH]; intros s Hs Hreg Hst; cbn [addTools].
  { split; [done|]. exists (tools s). by destruct s. }
  apply list.Forall_cons in Hst as [Ht Hst]. destruct (addTool_cases t s) as [[He Hn]|[He Hreq]].
  - destruct (addTool w t s) as [s1 [u| | |]]; simpl in *; subst s1; [by destruct u|..]; split; try done;
      exists (tools s); by destruct s.
  - rewrite He. destruct (IH (setTools (<[Name t := finished t]> (tools s)) s)) as [Hi [m Hm]].
    + apply Inv_setTools; [done|]. intros n t'. destruct (decide (n = Name t)) as [->|Hne].
      * rewrite lookup_insert_eq. intros [= <-]. by eapply ToolOk_finished.
      * rewrite lookup_insert_ne by done. by apply Hs.
    + done.
    + eapply list.Forall_impl; [exact Hst|]. intros t' Ht'. by apply (StagedTool_filters s).
    + split; [done|]. exists m. by rewrite Hm.
Qed.

(** A service that may be committed. *)
Definition Committable (s : Srv) (x : ServiceDesc * Impl * list Tool) : Prop :=
  let '(desc, impl, ts) := x in
  registeredServices s !! ServiceName desc = None /\ ServiceName desc ∉ nativeServices s /\
  ServiceName desc <> "" /\ implements impl (sd_HandlerType desc) = true /\ Forall (StagedTool s desc) ts.
Definition stagedName (x : ServiceDesc * Impl * list Tool) : string := ServiceName x.1.1.

Definition registered (desc : ServiceDesc) (impl : Impl) (s : Srv) : Srv :=
  setServices ({[ServiceName desc]} ∪ nativeServices s) (<[ServiceName desc := (desc, impl)]> (registeredServices s)) s.

Lemma Inv_registered desc impl (s : Srv) ts : Inv s -> Committable s (desc, impl, ts) -> Inv (registered desc impl s).
Proof.
  intros [H1 H2 H3 H4 H5] (Hr&Hn&He&Hi&_). constructor; simpl; try done.
  - intros n t Hnt. destruct (H1 n t Hnt) as [T1 T2 T3 T4 T5 T6]. constructor; try done.
    destruct T3 as (d&i&Hd&Hrest). exists d, i. split; [|done]. simpl. rewrite lookup_insert_ne; [done|].
    intros Heq. by rewrite Heq, Hd in Hr.
  - rewrite H2, dom_insert_L. set_solver.
  - intros n d i. destruct (decide (n = ServiceName desc)) as [->|Hne].
    + rewrite lookup_insert_eq. intros [= <- <-]. split_and!; try done. intros Hin. apply Hn. rewrite H2.
      apply elem_of_union_l. by apply elem_of_list_to_set.
    + rewrite lookup_insert_ne by done. apply H3.
Qed.

Lemma Committable_next desc impl m (s : Srv) x :
  stagedName x <> ServiceName desc -> Committable s x -> Committable (setTools m (registered desc impl s)) x.
Proof.
  destruct x as [[d i] ts]. unfold stagedName. simpl. intros Hne (Hr&Hn&He&Hi&Hst). split_and!; try done.
  - by rewrite lookup_insert_ne.
  - set_solver.
  - eapply list.Forall_impl; [exact Hst|]. intros t Ht. by apply (StagedTool_filters s).
Qed.

Lemma commit_Inv staged (s : Srv) :
  Inv s -> NoDup (map stagedName staged) -> Forall (Committable s) staged -> Inv (commit w staged s).1.
Proof.
  revert s. induction staged as [|[[desc impl] ts] staged IH]; intros s Hs Hnd Hc; cbn [commit map] in *; [done|].
  apply list.NoDup_cons in Hnd as [Hni Hnd]. apply list.Forall_cons in Hc as [Hx Hc]. cbv zeta.
  change (setServices _ _ s) with (registered desc impl s).
  destruct (addTools_Inv desc impl ts (registered desc impl s)) as [Hi [m Hm]].
  - by eapply Inv_registered.
  - apply lookup_insert_eq.
  - destruct Hx as (_&_&_&_&Hst). eapply list.Forall_impl; [exact Hst|]. intros t Ht. by apply (StagedTool_filters s).
  - destruct (addTools w ts (registered desc impl s)) as [s1 [u| | |]]; try done. simpl in Hi, Hm. subst s1.
    apply IH; [done|done|]. apply list.Forall_forall. intros x Hx'. rewrite list.Forall_forall in Hc.
    apply Committable_next; [|by apply Hc]. intros Heq. apply Hni.
    change (stagedName (desc, impl, ts)) with (ServiceName desc). rewrite <- Heq. by apply list_elem_of_fmap_2.
Qed.

Lemma validateService_Ok r d i :
  validateService r = Ok (d, i) -> rs_desc r = Some d /\ rs_service r = Some i /\
    ServiceName d <> "" /\ implements i (sd_HandlerType d) = true.
Proof.
  unfold validateService. destruct (rs_desc r) as [d'|]; [|done]. intros H.
  apply bind_Ok in H as (?&Hn%failIf_Ok&H). apply bind_Ok in H as (?&_&H).
  destruct (rs_service r) as [i'|]; [|done]. apply bind_Ok in H as (?&Hi%failIf_Ok&[= <- <-]).
  apply String.eqb_neq in Hn. apply negb_false_iff in Hi. done.
Qed.

Lemma claimTools_Ok ts owners owners' :
  foldOutcome claimTool ts owners = Ok owners' ->
  NoDup (map Name ts) /\ (forall n, n ∈ map Name ts -> owners !! n = None) /\
  (forall n, owners' !! n = None -> owners !! n = None /\ n ∉ map Name ts).
Proof.
  revert owners. induction ts as [|t ts IH]; intros owners H; cbn [foldOutcome map] in *.
  - injection H as <-. split_and!; [constructor|by intros n Hn%elem_of_nil|]. intros n Hn. split; [done|apply not_elem_of_nil].
  - apply bind_Ok in H as (o&Ho&H). unfold claimTool in Ho. destruct (owners !! Name t) eqn:E; [done|].
    injection Ho as <-. destruct (IH _ H) as (Hnd&Hfree&Hrest). split_and!.
    + apply list.NoDup_cons. split; [|done]. intros Hin. apply Hfree in Hin. by rewrite lookup_insert_eq in Hin.
    + intros n [->|Hn]%elem_of_cons; [done|]. apply Hfree in Hn. by apply lookup_insert_None in Hn as [? _].
    + intros n Hn. destruct (Hrest n Hn) as [H1 H2]. apply lookup_insert_None in H1 as [H1 Hne]. split; [done|].
      apply not_elem_of_cons. by split.
Qed.

Definition toolNames (staged : list (ServiceDesc * Impl * list Tool)) : list string :=
  concat (map (fun x => map Name x.2) staged).

(** What staging a group establishes. *)
Lemma stage_Ok (s : Srv) valid names owners staged names' owners' staged' :
  foldOutcome (stageService w s) valid (names, owners, staged) = Ok (names', owners', staged') ->
  exists new, staged' = staged ++ new /\ map fst new = valid /\
    Forall (fun x => toolsForService w s x.1.1 = Ok x.2 /\ registeredServices s !! stagedName x = None /\
                     stagedName x ∉ nativeServices s /\ stagedName x ∉ names) new /\
    NoDup (map stagedName new) /\ NoDup (toolNames new) /\ (forall n, n ∈ toolNames new -> owners !! n = None).
Proof.
  revert names owners staged. induction valid as [|[desc impl] valid IH]; intros names owners staged H.
  - injection H as <- <- <-. exists []. rewrite app_nil_r. split_and!; try done; try constructor.
    by intros n Hn%elem_of_nil.
  - cbn [foldOutcome] in H. apply bind_Ok in H as ([[n1 o1] st1]&H1&H).
    unfold stageService in H1. cbv zeta beta in H1.
    apply bind_Ok in H1 as ([]&Ha%failIf_Ok%bool_decide_eq_false&H1).
    apply bind_Ok in H1 as ([]&Hb%failIf_Ok%bool_decide_eq_false&H1).
    apply bind_Ok in H1 as ([]&Hc%failIf_Ok%bool_decide_eq_false&H1).
    apply bind_Ok in H1 as (ts&Hts&H1). apply bind_Ok in H1 as (o&Ho&[= <- <- <-]).
    destruct (claimTools_Ok _ _ _ Ho) as (Hnd&Hfree&Hrest).
    apply IH in H as (new&->&Hv&Hall&Hnn&Htn&Hown). exists ((desc, impl, ts) :: new).
    rewrite <- app_assoc. split_and!; [done|by simpl; rewrite Hv| | | |].
    + constructor; [split_and!; try done; by apply eq_None_not_Some|]. eapply list.Forall_impl; [exact Hall|].
      intros x (?&?&?&Hx). split_and!; try done. set_solver.
    + cbn [map]. apply list.NoDup_cons. split; [|done]. intros (x&Heq&Hx)%list_elem_of_fmap.
      rewrite list.Forall_forall in Hall. destruct (Hall x Hx) as (_&_&_&Hxn). apply Hxn. rewrite <- Heq. set_solver.
    + unfold toolNames in *. cbn [map concat snd]. apply list.NoDup_app. split_and!; [done| |done].
      intros n Hn Hn'. apply Hown in Hn'. by apply Hrest in Hn' as [_ ?].
    + unfold toolNames in *. cbn [map concat snd]. intros n [Hn|Hn]%elem_of_app; [by apply Hfree|].
      apply Hown in Hn. by apply Hrest in Hn as [? _].
Qed.

Lemma stage_Committable (s : Srv) services valid names owners staged :
  wfParsed -> mapOutcome validateService services = Ok valid ->
  foldOutcome (stageService w s) valid (∅, ServiceFullName <$> tools s, []) = Ok (names, owners, staged) ->
  map fst staged = valid /\ Forall (Committable s) staged /\ NoDup (map stagedName staged) /\
  NoDup (toolNames staged) /\ (forall n, n ∈ toolNames staged -> tools s !! n = None) /\
  Forall (fun x => toolsForService w s x.1.1 = Ok x.2) staged.
Proof.
  intros Hwf Hv Hst. apply stage_Ok in Hst as (new&->&Hf&Hall&Hnn&Htn&Hown). cbn [app].
  split_and!; try done.
  - apply list.Forall_forall. intros [[d i] ts] Hx. rewrite list.Forall_forall in Hall.
    destruct (Hall _ Hx) as (Hts&Hr&Hn&_). simpl in *.
    assert ((d, i) ∈ valid) as Hin by (rewrite <- Hf; by apply (list_elem_of_fmap_2 fst) in Hx).
    apply mapOutcome_Ok in Hv. apply list_elem_of_lookup in Hin as [k Hk].
    apply (Forall2_lookup_r _ _ _ _ _ Hv) in Hk as (r&_&Hr'). apply validateService_Ok in Hr' as (_&_&?&?).
    split_and!; try done. by apply toolsForService_staged.
  - intros n Hn. apply Hown in Hn. rewrite lookup_fmap in Hn. by destruct (tools s !! n).
  - eapply list.Forall_impl; [exact Hall|]. naive_solver.
Qed.

Lemma registerServices_Inv services subject (s : Srv) :
  wfParsed -> Inv s -> Inv (registerServices w services subject s).1.
Proof.
  intros Hwf Hs. unfold registerServices. destruct services as [|r rs]; [done|].
  destruct (mapOutcome validateService (r :: rs)) as [valid| | |] eqn:Hv; try done.
  destruct (frozen s); [done|].
  destruct (foldOutcome _ _ _) as [[[names owners] staged]| | |] eqn:Hst; try done.
  destruct (stage_Committable _ _ _ _ _ _ Hwf Hv Hst) as (_&Hc&Hnn&_). by apply commit_Inv.
Qed.

Lemma ConnectGRPC_Inv conn (s : Srv) : wfParsed -> Inv s -> Inv (ConnectGRPC w conn s).1.
Proof. intros Hwf Hs. unfold ConnectGRPC. case_match; try done. by apply registerServices_Inv. Qed.

Ltac same_registry s := apply (Inv_same s); [by split_and!|by simpl; split_and!|done|done].

Lemma step_Inv (s s' : Srv) : wfParsed -> step s s' -> Inv s -> Inv s'.
Proof.
  intros Hwf Hstep Hs. pose proof (inv_limits _ Hs) as (?&?&?&?&?). pose proof (inv_frozen _ Hs).
  destruct Hstep; try (apply Inv_limit; [done|done|]; intros k Hk; same_registry s);
    try (apply Inv_update; [done|]; intros _; same_registry s).
  - unfold ConfigureMethod. destruct (_ || _); [done|]. apply Inv_update; [done|]. intros _.
    same_registry s.
  - apply Inv_filters; [done|]. intros Ht Hr. destruct Hs as [I1 I2 I3 I4 I5]. constructor; try done.
    intros n t. simpl. rewrite Ht, lookup_empty. done.
  - apply Inv_filters; [done|]. intros Ht Hr. destruct Hs as [I1 I2 I3 I4 I5]. constructor; try done.
    intros n t. simpl. rewrite Ht, lookup_empty. done.
  - by apply registerServices_Inv.
  - by apply ConnectGRPC_Inv.
  - by apply Inv_freeze.
  - by apply Inv_freeze.
  - by apply Inv_freeze.
Qed.

Lemma Inv_new mapper : Inv (newServerWithFDS w mapper : Srv).
Proof.
  constructor; simpl; try done. by rewrite dom_empty_L, (right_id_L ∅ (∪)).
Qed.

Lemma Reached_Inv (s : Srv) : wfParsed -> Reached s -> Inv s.
Proof. intros Hwf. induction 1 as [mapper|s s' _ IH Hstep]; [apply Inv_new|by eapply step_Inv]. Qed.
End WithWorld.
