(* ===== verification/RegistrationSpec.v ===== *)
(** * Registration is atomic, and serving freezes the server *)
From S2P Require Import Prelude GoStrings StringFacts ParsedDescriptor ParsedSpec JsonSchema Reachable ReachableSpec Server ServerSpec.
Import Server.

(** The services of a parsed descriptor are known by their own names. *)
Lemma parsed_names w fds : parseFileDescriptorSet fds = Ok (parsed w) -> wfParsed w.
Proof.
  intros (infos&_&Hpd)%parse_extend n i Hn. rewrite Hpd in Hn. cbn [extend Services emptyParsed] in Hn.
  assert (Forall (fun x => si_FullName x.2 = x.1) (allServices fds)) as Hall.
  { unfold allServices. clear. induction fds as [|f fds IH]; [constructor|]. cbn [map concat].
    apply list.Forall_app. split; [|exact IH]. unfold fileServices. apply list.Forall_forall.
    intros x Hx. apply list_elem_of_lookup in Hx as [k Hk]. rewrite list_lookup_imap in Hk.
    destruct (file_service f !! k); [|done]. by injection Hk as <-. }
  revert Hn Hall. generalize (allServices fds). intros l Hn Hall.
  induction l as [|[k v] l IH] using rev_ind; [done|]. rewrite insertAll_app in Hn.
  apply list.Forall_app in Hall as [Hl Hx]. apply list.Forall_cons in Hx as [Hx _]. cbn [insertAll foldl fst snd] in Hn, Hx.
  destruct (decide (n = k)) as [->|Hne].
  - rewrite lookup_insert_eq in Hn. by injection Hn as <-.
  - rewrite lookup_insert_ne in Hn by done. by apply IH.
Qed.

Section WithWorld.
Context {UI SI HP MM : Type}.
Context (w : World).
Notation Srv := (@Server UI SI HP MM).

(** ** What a commit does *)

Definition toolEntries (ts : list Tool) : list (string * Tool) := map (fun t => (Name t, finished t)) ts.

Definition afterCommit (staged : list (ServiceDesc * Impl * list Tool)) (s : Srv) : Srv :=
  setTools (insertAll (concat (map (fun x => toolEntries x.2) staged)) (tools s))
    (setServices (list_to_set (map stagedName staged) ∪ nativeServices s)
       (insertAll (map (fun x => (stagedName x, x.1)) staged) (registeredServices s)) s).

(** The request type of a tool has a factory. *)
Definition usable (t : Tool) : Prop := messageFactory w (InputType t) = true.
Definition noRequestType (t : Tool) : string := "tool " +:+ Quote (Name t) +:+ " has no protobuf request type".

Lemma addTool_fresh (s : Srv) desc t :
  StagedTool w s desc t -> tools s !! Name t = None ->
  addTool w t s = if messageFactory w (InputType t) then (setTools (<[Name t := finished t]> (tools s)) s, Ok tt)
                  else (s, Err (noRequestType t)).
Proof.
  intros [H1 H2 H3 H4 H5 H6] Hfree. unfold addTool, finished. cbv zeta. rewrite Hfree, String.eqb_refl. cbn [negb].
  rewrite H5, orb_diag. destruct (ServerStreaming t); destruct H4 as (m&->&_); cbn; by destruct (messageFactory w (InputType t)).
Qed.

(** Adding the tools of a service adds all of them, or those before the first that is
    not usable. *)
Lemma addTools_fresh ts (s : Srv) desc :
  Forall (StagedTool w s desc) ts -> NoDup (map Name ts) -> (forall n, n ∈ map Name ts -> tools s !! n = None) ->
  (Forall usable ts /\ addTools w ts s = (setTools (insertAll (toolEntries ts) (tools s)) s, Ok tt)) \/
  (exists a t b, ts = a ++ t :: b /\ Forall usable a /\ ~ usable t /\
     addTools w ts s = (setTools (insertAll (toolEntries a) (tools s)) s, Err (noRequestType t))).
Proof.
  revert s. induction ts as [|t ts IH]; intros s Hst Hnd Hfree; cbn [addTools toolEntries map] in *.
  { left. split; [constructor|by destruct s]. }
  apply list.Forall_cons in Hst as [Ht Hst]. apply list.NoDup_cons in Hnd as [Hni Hnd].
  rewrite (addTool_fresh s desc) by (try done; apply Hfree; by left).
  destruct (messageFactory w (InputType t)) eqn:Hu; [|right; exists [], t, ts; unfold usable; rewrite Hu; split_and!; [done|constructor|done|by destruct s]].
  destruct (IH (setTools (<[Name t := finished t]> (tools s)) s)) as [[Hall ->]|(a&t'&b&->&Ha&Hb&->)].
  - eapply list.Forall_impl; [exact Hst|]. intros t' Ht'. by apply (StagedTool_filters w s).
  - done.
  - intros n Hn. simpl. rewrite lookup_insert_ne by (intros Heq; apply Hni; by rewrite Heq). apply Hfree. by right.
  - left. split; [by constructor|done].
  - right. exists (t :: a), t', b. split_and!; [done|by constructor|done|done].
Qed.

Lemma afterCommit_cons desc impl ts staged (s : Srv) :
  afterCommit staged (setTools (insertAll (toolEntries ts) (tools s)) (registered desc impl s)) = afterCommit ((desc, impl, ts) :: staged) s.
Proof.
  unfold afterCommit. cbn [map concat snd fst list_to_set]. unfold stagedName at 3. cbn [fst].
  rewrite insertAll_app, insertAll_cons. unfold setTools, registered, setServices. simpl. f_equal. set_solver.
Qed.

(** A commit does all that was staged, or stops at the first tool that is not usable. *)
Definition committed (staged : list (ServiceDesc * Impl * list Tool)) (s s' : Srv) (result : Outcome unit) : Prop :=
  (Forall (fun x => Forall usable x.2) staged /\ result = Ok tt /\ s' = afterCommit staged s) \/
  (exists before desc impl a t b after, staged = before ++ (desc, impl, a ++ t :: b) :: after /\
     Forall (fun x => Forall usable x.2) before /\ Forall usable a /\ ~ usable t /\
     result = Err (noRequestType t) /\ s' = afterCommit (before ++ [(desc, impl, a)]) s).
Lemma commit_exact staged (s : Srv) :
  Forall (fun x => Forall (StagedTool w s x.1.1) x.2) staged -> NoDup (toolNames staged) ->
  (forall n, n ∈ toolNames staged -> tools s !! n = None) ->
  committed staged s (commit w staged s).1 (commit w staged s).2.
Proof.
  revert s. induction staged as [|[[desc impl] ts] staged IH]; intros s Hst Hnd Hfree; cbn [commit].
  { left. split_and!; [constructor|done|]. unfold afterCommit. simpl. rewrite (left_id_L ∅ (∪)). by destruct s. }
  apply list.Forall_cons in Hst as [Ht Hst]. unfold toolNames in *. cbn [map concat snd] in *.
  apply list.NoDup_app in Hnd as (Hn1&Hdisj&Hn2). cbv zeta. change (setServices _ _ s) with (registered desc impl s).
  destruct (addTools_fresh ts (registered desc impl s) desc) as [[Hu ->]|(a&t&b&->&Ha&Hb&->)].
  - eapply list.Forall_impl; [exact Ht|]. intros t Hxt. by apply (StagedTool_filters w s).
  - done.
  - intros n Hn. apply Hfree. apply elem_of_app. by left.
  - change (tools (registered desc impl s)) with (tools s).
    destruct (IH (setTools (insertAll (toolEntries ts) (tools s)) (registered desc impl s))) as [(Hall&->&->)|(before&d&i&a&t&b&after&->&Hall&Ha&Hb&->&->)].
    + apply list.Forall_forall. intros x Hx. rewrite list.Forall_forall in Hst. eapply list.Forall_impl; [exact (Hst x Hx)|].
      intros t Hxt. by apply (StagedTool_filters w s).
    + done.
    + intros n Hn. simpl. rewrite insertAll_notin.
      * apply Hfree. apply elem_of_app. by right.
      * intros Hin. apply (Hdisj n); [|done]. unfold toolEntries in Hin. by rewrite <- list_fmap_compose in Hin.
    + left. split_and!; [by constructor|done|apply afterCommit_cons].
    + right. exists ((desc, impl, ts) :: before), d, i, a, t, b, after. split_and!; [done|by constructor|done..|]. apply afterCommit_cons.
  - right. exists [], desc, impl, a, t, b, staged. split_and!; [done|constructor|done..|]. cbn [fst app]. rewrite <- afterCommit_cons.
    unfold afterCommit. simpl. rewrite (left_id_L ∅ (∪)). by destruct s.
Qed.

(** ** Frozen servers *)

Lemma frozen_step (s s' : Srv) : frozen s = true -> frozenFast s = true -> step w s s' -> s' = s.
Proof.
  intros Hf Hff Hstep. destruct Hstep; try (unfold updateConfiguration, updateProjectionFilters, limitSetter; done);
    try (unfold SetMaxUnaryRequestBytes, SetMaxUnaryResponseBytes, SetMaxStreamRequestBytes, SetMaxStreamResponseBytes,
           SetHTTPShutdownTimeout, ConfigureMethod, Use, UseStream, UseHTTPHeaderProvider, UseHTTPMetadataMapper,
           Include, Exclude, limitSetter, updateConfiguration, updateProjectionFilters; rewrite Hf; by repeat case_match).
  - unfold registerServices. rewrite Hf. by repeat case_match.
  - unfold ConnectGRPC, ensureRegistrationOpen. by rewrite Hf.
  - unfold freeze. by rewrite Hff.
  - unfold Invoke, freeze. by rewrite Hff.
  - unfold InvokeStream, freeze. by rewrite Hff.
Qed.
End WithWorld.

Section Claims.
Context {UI SI HP MM : Type}.
Context (w : World).
Notation Srv := (@Server UI SI HP MM).

(** C20: whatever sequence of configuration calls, registrations, connections and
    invocations led to a server, every tool is a unary or server-streaming method of
    a registered service, stored under its own name with a usable request type, and
    selected by the filters as they are now; the native services are the registered
    ones and the reflection services; the limits are positive. *)
Theorem server_invariant fds (s : Srv) :
  parseFileDescriptorSet fds = Ok (parsed w) -> Reached w s -> Inv w s.
Proof. intros Hp Hr. apply Reached_Inv; [by eapply parsed_names|done]. Qed.

(** Once a server is frozen, no configuration call, registration, connection or
    invocation changes it again, and every call that serves it freezes it. *)
Theorem frozen_forever fds (s s' : Srv) name :
  parseFileDescriptorSet fds = Ok (parsed w) -> Reached w s ->
  frozen (freeze s) = true /\ frozen (Invoke name s).1 = true /\ frozen (InvokeStream name s).1 = true /\
  (frozen s = true -> rtc (step w) s s' -> s' = s).
Proof.
  intros Hp Hr. assert (frozen (freeze s) = true) as Hf.
  { unfold freeze. destruct (frozenFast s) eqn:E; [|done]. apply Reached_Inv in Hr; [|by eapply parsed_names].
    by rewrite <- (inv_frozen _ _ Hr). }
  split_and!; [done..|]. intros Hfs Hrtc. apply Reached_Inv in Hr; [|by eapply parsed_names].
  pose proof (inv_frozen _ _ Hr) as Hff. rewrite Hfs in Hff. clear Hr.
  induction Hrtc as [s|s s1 s2 H1 _ IH]; [done|]. apply frozen_step in H1; [|done..]. subst s1. by apply IH.
Qed.


(** A method is projected exactly when its full name matches one of the include
    patterns, if there are any, and none of the exclude patterns, where a star of a
    pattern stands for any text and every other byte for itself. *)
Theorem filter_exact (s : Srv) svc method :
  shouldIncludeLocked w s svc method = true <->
  (effectiveIncludes w s = [] \/ exists p, p ∈ effectiveIncludes w s /\ Glob p (svc +:+ "." +:+ method)) /\
  ~ (exists p, p ∈ effectiveExcludes w s /\ Glob p (svc +:+ "." +:+ method)).
Proof. apply shouldInclude_exact. Qed.
End Claims.

(** ** Witnesses *)

Definition ordersFile : FileDescriptor := mkFile "shop/orders.proto" "orders".
Definition ordersRegistry : Registry := mkRegistry
  (list_to_map [("shop.Order", mkMessageNode ordersFile [ScalarRef; MessageRef "shop.Order.TagsEntry"; MessageRef "shop.Order"]);
                ("shop.Order.TagsEntry", mkMessageNode ordersFile [ScalarRef; ScalarRef]);
                ("shop.Ack", mkMessageNode ordersFile [])])
  (list_to_map [("shop.Orders", mkServiceNode ordersFile
      [("Place", ("shop.Order", "shop.Ack")); ("Watch", ("shop.Order", "shop.Ack"))])]) ∅.
Definition shopWorld : World :=
  mkWorld (match parseFileDescriptorSet [shopFile] with Ok pd => pd | _ => emptyParsed end)
    ordersRegistry ordersRegistry (fun _ => LinkedMessage) sameContent "proto: not found" "" "*.Internal*"
    ["grpc.reflection.v1.ServerReflection"].
Definition ordersDesc : ServiceDesc :=
  mkServiceDesc "shop.Orders" (InterfacePointer "OrdersServer") [mkMethodDesc "Place" true]
    [mkStreamDesc "Watch" true false true].
Definition ordersImpl : Impl := mkImpl "*main.orders" ["OrdersServer"].
Notation PlainServer := (@Server unit unit unit unit).
Definition freshServer : PlainServer := newServerWithFDS shopWorld tt.
Definition shopServer : PlainServer :=
  (registerServices shopWorld [mkRegistered (Some ordersDesc) (Some ordersImpl)] "orders" freshServer).1.

Lemma shopServer_reached : Reached shopWorld shopServer.
Proof. eapply reached_step; [apply (reached_new shopWorld tt)|apply step_register]. Qed.

(** The generated service is accepted and both of its methods are tools. *)
Lemma shopServer_tools : map fst (map_to_list (tools shopServer)) ≡ₚ ["shop.Orders.Place"; "shop.Orders.Watch"].
Proof. vm_compute. reflexivity || (by_computation). Qed.

Lemma server_invariant_witness : Inv shopWorld shopServer.
Proof. apply (server_invariant shopWorld [shopFile]); [vm_compute; reflexivity|exact shopServer_reached]. Defined.

Lemma frozen_forever_witness : frozen (Invoke "shop.Orders.Place" shopServer).1 = true.
Proof.
  apply (frozen_forever shopWorld [shopFile] shopServer shopServer "shop.Orders.Place");
    [vm_compute; reflexivity|exact shopServer_reached].
Defined.

Definition conflictWorld : World :=
  mkWorld (parsed shopWorld) ordersRegistry ordersRegistry (fun _ => LinkedError "wrong type") sameContent "proto: not found" "" "" [].
Example partial_registration :
  let r := registerServices conflictWorld [mkRegistered (Some ordersDesc) (Some ordersImpl)] "orders" freshServer in
  r.2 = Err (noRequestType (mkTool "shop.Orders.Place" "" (AMap []) "" "" "" "" false None None false "")) /\
  is_Some (registeredServices r.1 !! "shop.Orders") /\ tools r.1 = ∅.
Proof. split_and!; [vm_compute; reflexivity|vm_compute; by eexists|vm_compute; reflexivity]. Qed.
