(* ===== verification/Base64.v ===== *)
(** * encoding/base64

    The standard alphabet with padding ([StdEncoding]) and without ([RawStdEncoding]).
    Decoding skips line breaks and, as the package does by default, ignores the
    unused bits of the last group. *)
From S2P Require Import Prelude GoStrings StringFacts.

Definition encodeDigit (v : N) : ascii :=
  ascii_of_N (if v <? 26 then v + 65 else if v <? 52 then v + 71 else if v <? 62 then v - 4
              else if v =? 62 then 43 else 47)%N.

Definition decodeDigit (c : ascii) : option N :=
  let n := byteN c in
  if isUpper c then Some (n - 65)%N
  else if isLower c then Some (n - 71)%N
  else if isDigit c then Some (n + 4)%N
  else if (n =? 43)%N then Some 62%N
  else if (n =? 47)%N then Some 63%N
  else None.

Definition PAD : ascii := "="%char.

(** [EncodeToString]; the padding is empty for the raw encoding. *)
Fixpoint encode (pad1 pad2 : string) (s : string) : string :=
  match s with
  | EmptyString => EmptyString
  | String x EmptyString =>
      let x := byteN x in
      String (encodeDigit (x / 4)) (String (encodeDigit (x mod 4 * 16)) pad2)
  | String x (String y EmptyString) =>
      let x := byteN x in let y := byteN y in
      String (encodeDigit (x / 4)) (String (encodeDigit (x mod 4 * 16 + y / 16))
        (String (encodeDigit (y mod 16 * 4)) pad1))
  | String x (String y (String z s)) =>
      let x := byteN x in let y := byteN y in let z := byteN z in
      String (encodeDigit (x / 4)) (String (encodeDigit (x mod 4 * 16 + y / 16))
        (String (encodeDigit (y mod 16 * 4 + z / 64)) (String (encodeDigit (z mod 64)) (encode pad1 pad2 s))))
  end.
Definition RawEncodeToString : string -> string := encode "" "".
Definition StdEncodeToString : string -> string := encode (str1 PAD) (String PAD (str1 PAD)).

Definition byte1 (a b : N) : ascii := ascii_of_N (a * 4 + b / 16).
Definition byte2 (b c : N) : ascii := ascii_of_N (b mod 16 * 16 + c / 4).
Definition byte3 (c d : N) : ascii := ascii_of_N (c mod 4 * 64 + d).

(** Groups of four digits; [last] decodes the rest. *)
Fixpoint decodeGroups (last : string -> option string) (s : string) : option string :=
  match s with
  | String a (String b (String c (String d rest))) =>
      match decodeDigit a, decodeDigit b, decodeDigit c, decodeDigit d with
      | Some a, Some b, Some c, Some d =>
          (fun t => String (byte1 a b) (String (byte2 b c) (String (byte3 c d) t))) <$> decodeGroups last rest
      | _, _, _, _ => last s
      end
  | _ => last s
  end.

(** Fewer than four digits, without padding. *)
Definition rawLast (s : string) : option string :=
  match s with
  | EmptyString => Some EmptyString
  | String a (String b EmptyString) =>
      match decodeDigit a, decodeDigit b with
      | Some a, Some b => Some (str1 (byte1 a b))
      | _, _ => None
      end
  | String a (String b (String c EmptyString)) =>
      match decodeDigit a, decodeDigit b, decodeDigit c with
      | Some a, Some b, Some c => Some (String (byte1 a b) (str1 (byte2 b c)))
      | _, _, _ => None
      end
  | _ => None
  end.

(** A group closed by padding. *)
Definition stdLast (s : string) : option string :=
  match s with
  | EmptyString => Some EmptyString
  | String a (String b (String c (String d EmptyString))) =>
      if Ascii.eqb d PAD then
        match decodeDigit a, decodeDigit b with
        | Some a, Some b =>
            if Ascii.eqb c PAD then Some (str1 (byte1 a b))
            else match decodeDigit c with
                 | Some c => Some (String (byte1 a b) (str1 (byte2 b c)))
                 | None => None
                 end
        | _, _ => None
        end
      else None
  | _ => None
  end.

(** Line breaks are skipped wherever they are. *)
Definition skipBreaks (s : string) : string :=
  mapBytes (fun c => if Ascii.eqb c LF || Ascii.eqb c CR then EmptyString else str1 c) s.

Definition RawDecodeString (s : string) : option string := decodeGroups rawLast (skipBreaks s).
Definition StdDecodeString (s : string) : option string := decodeGroups stdLast (skipBreaks s).

(** ** Round trip *)

Lemma decode_encode_digit v : (v < 64)%N -> decodeDigit (encodeDigit v) = Some v.
Proof.
  intros Hv. assert (forallb (fun n => bool_decide (decodeDigit (encodeDigit (N.of_nat n)) = Some (N.of_nat n))) (seq 0 64) = true)
    as H by (vm_compute; reflexivity).
  rewrite forallb_forall in H. specialize (H (N.to_nat v)). rewrite N2Nat.id in H.
  apply (bool_decide_eq_true (decodeDigit (encodeDigit v) = Some v)). apply H. apply in_seq. lia.
Qed.

Lemma byteN_lt c : (byteN c < 256)%N.
Proof. apply N_ascii_bounded. Qed.

Lemma byteN_ascii c : ascii_of_N (byteN c) = c.
Proof. apply ascii_N_embedding. Qed.

Ltac Ndivmod := Z.div_mod_to_equations; lia.

Lemma byte1_of x y : (x < 256)%N -> (y < 16)%N -> (x / 4 * 4 + (x mod 4 * 16 + y) / 16 = x)%N.
Proof. intros. zify. Ndivmod. Qed.
Lemma byte2_of x y z : (y < 256)%N -> (z < 4)%N -> ((x mod 4 * 16 + y / 16) mod 16 * 16 + (y mod 16 * 4 + z) / 4 = y)%N.
Proof. intros. zify. Ndivmod. Qed.
Lemma byte3_of y z : (z < 256)%N -> ((y mod 16 * 4 + z / 64) mod 4 * 64 + z mod 64 = z)%N.
Proof. intros. zify. Ndivmod. Qed.

Lemma encodeDigit_plain v : (v < 64)%N -> encodeDigit v <> LF /\ encodeDigit v <> CR.
Proof.
  intros Hv. pose proof (decode_encode_digit v Hv) as H. split; intros Heq; rewrite Heq in H; done.
Qed.

(** Three bytes at a time. *)
Lemma bytes3_ind (P : string -> Prop) :
  P "" -> (forall x, P (str1 x)) -> (forall x y, P (String x (str1 y))) ->
  (forall x y z s, P s -> P (String x (String y (String z s)))) -> forall s, P s.
Proof.
  intros H0 H1 H2 H3. fix IH 1. intros [|x [|y [|z s]]]; [exact H0|apply H1|apply H2|apply H3, IH].
Qed.

Lemma digits_lt x y z : (x < 256)%N -> (y < 256)%N -> (z < 256)%N ->
  (x / 4 < 64)%N /\ (x mod 4 * 16 + y / 16 < 64)%N /\ (y mod 16 * 4 + z / 64 < 64)%N /\ (z mod 64 < 64)%N /\
  (x mod 4 * 16 < 64)%N /\ (y mod 16 * 4 < 64)%N.
Proof. intros. zify. split_and!; Ndivmod. Qed.

Lemma raw_groups s : decodeGroups rawLast (RawEncodeToString s) = Some s.
Proof.
  unfold RawEncodeToString. induction s as [|x|x y|x y z s IH] using bytes3_ind; [done|..].
  - destruct (digits_lt (byteN x) 0 0 (byteN_lt x)) as (H1&_&_&_&H2&_); [lia..|].
    cbn [encode str1 decodeGroups rawLast].
    rewrite !decode_encode_digit by done. unfold byte1. rewrite <- (N.add_0_r (byteN x mod 4 * 16)), byte1_of; [|apply byteN_lt|lia].
    by rewrite byteN_ascii.
  - destruct (digits_lt (byteN x) (byteN y) 0 (byteN_lt x) (byteN_lt y)) as (H1&H2&_&_&_&H3); [lia..|].
    cbn [encode str1 decodeGroups rawLast].
    rewrite !decode_encode_digit by done. unfold byte1, byte2. rewrite byte1_of; [|apply byteN_lt|pose proof (byteN_lt y); zify; Ndivmod].
    rewrite <- (N.add_0_r (byteN y mod 16 * 4)), byte2_of; [|apply byteN_lt|lia]. by rewrite !byteN_ascii.
  - destruct (digits_lt _ _ _ (byteN_lt x) (byteN_lt y) (byteN_lt z)) as (H1&H2&H3&H4&_).
    cbn [encode decodeGroups]. rewrite !decode_encode_digit by done. rewrite IH. cbn [fmap option_fmap option_map].
    unfold byte1, byte2, byte3.
    rewrite byte1_of by (try apply byteN_lt; pose proof (byteN_lt y); zify; Ndivmod).
    rewrite byte2_of by (try apply byteN_lt; pose proof (byteN_lt z); zify; Ndivmod).
    rewrite byte3_of by apply byteN_lt. by rewrite !byteN_ascii.
Qed.

Definition plainByte (c : ascii) : bool := negb (Ascii.eqb c LF || Ascii.eqb c CR).

Lemma skipBreaks_plain s : allBytes plainByte s = true -> skipBreaks s = s.
Proof.
  unfold skipBreaks. induction s as [|c s IH]; [done|]. cbn [allBytes mapBytes]. unfold plainByte at 1.
  intros [Hc Hs]%andb_true_iff. apply negb_true_iff in Hc. rewrite Hc, IH by done. done.
Qed.

Lemma encodeDigit_plainByte v : (v < 64)%N -> plainByte (encodeDigit v) = true.
Proof.
  intros Hv. destruct (encodeDigit_plain v Hv) as [H1 H2]. unfold plainByte.
  by rewrite (proj2 (Ascii.eqb_neq _ _) H1), (proj2 (Ascii.eqb_neq _ _) H2).
Qed.

(** The encoding is made of digits. *)
Lemma raw_bytes (p : ascii -> bool) s :
  (forall v, (v < 64)%N -> p (encodeDigit v) = true) -> allBytes p (RawEncodeToString s) = true.
Proof.
  intros Hp. unfold RawEncodeToString. induction s as [|x|x y|x y z s IH] using bytes3_ind; [done|..]; cbn [encode str1 allBytes].
  - destruct (digits_lt (byteN x) 0 0 (byteN_lt x)) as (H1&_&_&_&H2&_); [lia..|]. by rewrite !Hp.
  - destruct (digits_lt (byteN x) (byteN y) 0 (byteN_lt x) (byteN_lt y)) as (H1&H2&_&_&_&H3); [lia..|]. by rewrite !Hp.
  - destruct (digits_lt _ _ _ (byteN_lt x) (byteN_lt y) (byteN_lt z)) as (H1&H2&H3&H4&_). by rewrite !Hp, IH.
Qed.
Lemma raw_plain s : allBytes plainByte (RawEncodeToString s) = true.
Proof. apply raw_bytes, encodeDigit_plainByte. Qed.
Lemma raw_ascii s : allBytes (inRange 0 127) (RawEncodeToString s) = true.
Proof.
  apply raw_bytes. intros v Hv. unfold encodeDigit, inRange, byteN.
  rewrite N_ascii_embedding by (repeat case_match; lia). repeat case_match; lia.
Qed.

(** Decoding what was encoded gives it back, whatever the bytes. *)
Lemma raw_roundtrip s : RawDecodeString (RawEncodeToString s) = Some s.
Proof. unfold RawDecodeString. rewrite skipBreaks_plain by apply raw_plain. apply raw_groups. Qed.

Example std_examples :
  StdEncodeToString "light work" = "bGlnaHQgd29yaw==" /\ StdDecodeString "bGlnaHQgd29yaw==" = Some "light work" /\
  RawEncodeToString "light wor" = "bGlnaHQgd29y" /\ RawDecodeString "bGlnaHQgd29yaw==" = None.
Proof. split_and!; vm_compute; reflexivity. Qed.
