(* ===== verification/Metadata.v ===== *)
(** * HTTP metadata (src/go/http_metadata.go)

    Which request headers reach a handler as gRPC metadata, and which metadata a
    handler sends back as headers.  Metadata is a map from keys to lists of values.
    A Go map is iterated in any order, so the metadata a mapper returns is a list of
    entries in the order the loop meets them. *)
From S2P Require Import Prelude GoStrings StringFacts Base64.

Module Metadata.

Notation MD := (gmap string (list string)).
(** The entries of a map, in the order of one iteration. *)
Notation Entries := (list (string * list string)).

(** ** [strings.ToLower] on header names

    Besides the upper-case ASCII letters two runes have an ASCII letter as their lower
    case: KELVIN SIGN (k) and LATIN CAPITAL LETTER I WITH DOT ABOVE (i).  The lower
    case of any other rune outside ASCII is outside ASCII, which [validMetadataKey]
    refuses, and is left as it is here. *)
Fixpoint ToLowerKey (s : string) : string :=
  match s with
  | EmptyString => EmptyString
  | String a r =>
      match r with
      | String b r' =>
          if inRange 196 196 a && inRange 176 176 b then String "i" (ToLowerKey r')
          else match r' with
               | String c r'' =>
                   if inRange 226 226 a && inRange 132 132 b && inRange 170 170 c then String "k" (ToLowerKey r'')
                   else String (toLowerByte a) (ToLowerKey r)
               | EmptyString => String (toLowerByte a) (ToLowerKey r)
               end
      | EmptyString => String (toLowerByte a) (ToLowerKey r)
      end
  end.

(** ** Keys and values *)

Definition reservedPrefixes : list string :=
  ["grpc-"; "connect-"; "invariant-internal-"; "x-invariant-internal-"; "x-tenant"; "x-principal"; "x-role"; "x-user";
   "x-auth"; "x-internal-"; "internal-"; "tenant-"; "principal-"; "role-"; "user-"; "auth-"; "subject-"; "identity-"].
Definition reservedNames : list string :=
  ["authorization"; "proxy-authorization"; "cookie"; "set-cookie"; "authentication"; "api-key"; "x-api-key"; "tenant";
   "principal"; "role"; "user"; "subject"; "identity"; "te"; "host"; "connection"; "keep-alive"; "proxy-connection";
   "transfer-encoding"; "upgrade"; "content-length"; "content-type"; "trailer"].

Definition reservedInboundMetadata (key : string) : bool :=
  if existsb (HasPrefix key) reservedPrefixes then true
  else bool_decide (TrimSuffix key "-bin" ∈ reservedNames).

Definition reservedResponseMetadata (key : string) : bool :=
  existsb (HasPrefix key) ["grpc-"; "connect-"; "trailer-"; "invariant-internal-"; "x-invariant-internal-"]
  || bool_decide (key ∈ ["content-length"; "content-type"; "content-encoding"; "transfer-encoding"; "accept-encoding";
       "connection"; "keep-alive"; "proxy-connection"; "te"; "trailer"; "upgrade"; "host"]).

Definition keyByte (c : ascii) : bool :=
  isLower c || isDigit c || Ascii.eqb c "-" || Ascii.eqb c USCORE || Ascii.eqb c ".".
(** Over runes: a rune outside ASCII is refused, as each of its bytes is. *)
Definition validMetadataKey (key : string) : bool := negb (String.eqb key "") && allBytes keyByte key.
Definition validASCIIMetadataValue (value : string) : bool := allBytes (inRange 32 126) value.

Definition isBinary (key : string) : bool := HasSuffix key "-bin".

(** [out[key] = append(out[key], value)]. *)
Definition appendValue (key value : string) (out : MD) : MD := <[key := default [] (out !! key) ++ [value]]> out.

(** ** From a request *)

Definition decodeBin (value : string) : option string :=
  match RawDecodeString value with
  | Some d => Some d
  | None => StdDecodeString value
  end.

Definition inboundValue (key value : string) : option string :=
  if isBinary key then decodeBin value
  else if validASCIIMetadataValue value then Some value else None.

Definition inboundEntry (out : MD) (entry : string * list string) : MD :=
  let '(key, values) := entry in
  let key := ToLowerKey (TrimSpace key) in
  if String.eqb key "" || reservedInboundMetadata key then out
  else if negb (validMetadataKey key) then out
  else foldl (fun out value => match inboundValue key value with
                               | Some v => appendValue key v out
                               | None => out
                               end) out values.

(** [mapped] is what the configured mapper returned. *)
Definition incomingHTTPMetadata (mapped : Entries) : MD := foldl inboundEntry ∅ mapped.

(** The default mapper: [values] is [r.Header.Values]. *)
Definition DefaultHTTPMetadataMapper (values : string -> list string) : Entries :=
  omap (fun key => match values key with [] => None | vs => Some (key, vs) end)
    ["traceparent"; "tracestate"; "baggage"; "x-request-id"].

(** ** To a response *)

Definition outboundValue (key value : string) : option string :=
  if isBinary key then Some (RawEncodeToString value)
  else if validASCIIMetadataValue value then Some value else None.

Definition outboundEntry (add : string -> string -> MD -> MD) (out : MD) (entry : string * list string) : MD :=
  let '(key, values) := entry in
  let key := ToLowerKey key in
  if reservedResponseMetadata key || negb (validMetadataKey key) then out
  else foldl (fun out value => match outboundValue key value with
                               | Some v => add key v out
                               | None => out
                               end) out values.

(** The trailer of a stream's last envelope. *)
Definition connectEndStreamMetadata (md : Entries) : MD := foldl (outboundEntry appendValue) ∅ md.

(** [http.CanonicalHeaderKey]: a capital at the start and after a dash, small letters
    elsewhere; a key with another byte than a token's is left as it is. *)
Definition toUpperByte (c : ascii) : ascii := if isLower c then ascii_of_N (byteN c - 32) else c.
Definition tokenByte (c : ascii) : bool :=
  isLower c || isUpper c || isDigit c || negb (noByte c "!#$%&'*+-.^_`|~").
Fixpoint canonicalFrom (upper : bool) (key : string) : string :=
  match key with
  | EmptyString => EmptyString
  | String c key => String (if upper then toUpperByte c else toLowerByte c) (canonicalFrom (Ascii.eqb c "-") key)
  end.
Definition CanonicalHeaderKey (key : string) : string := if allBytes tokenByte key then canonicalFrom true key else key.

(** [strings.EqualFold] of two texts one of which is ASCII: the long s and the Kelvin
    sign fold to letters. *)
Fixpoint foldName (s : string) : string :=
  match s with
  | EmptyString => EmptyString
  | String a r =>
      match r with
      | String b r' =>
          if inRange 197 197 a && inRange 191 191 b then String "S" (foldName r')
          else match r' with
               | String c r'' =>
                   if inRange 226 226 a && inRange 132 132 b && inRange 170 170 c then String "K" (foldName r'')
                   else String (toUpperByte a) (foldName r)
               | EmptyString => String (toUpperByte a) (foldName r)
               end
      | EmptyString => String (toUpperByte a) (foldName r)
      end
  end.
Definition EqualFold (a b : string) : bool := String.eqb (foldName a) (foldName b).

(** [header] as it is before, the response's metadata added to it. *)
Definition writeConnectMetadataHeaders (header : MD) (md : Entries) (trailers : bool) : MD :=
  foldl (outboundEntry (fun key v => appendValue ((if trailers then "Trailer-" else "") +:+ CanonicalHeaderKey key) v))
    header md.

Definition writeUnaryProjectionMetadata (header : MD) (transport : option (Entries * Entries)) : MD :=
  match transport with
  | None => header
  | Some (leading, trailing) =>
      writeConnectMetadataHeaders (writeConnectMetadataHeaders header leading false) trailing true
  end.
End Metadata.
