(* ===== verification/MetadataSpec.v ===== *)
(** * What crosses the HTTP boundary *)
From S2P Require Import Prelude GoStrings StringFacts Base64 Metadata.
Import Metadata.

(** ** A loop that collects accepted values under normalized keys *)

Section Collect.
Context (norm : string -> string) (accept : string -> bool) (value : string -> string -> option string).

Definition collectEntry (out : MD) (entry : string * list string) : MD :=
  if accept (norm entry.1)
  then foldl (fun out v => match value (norm entry.1) v with
                           | Some x => appendValue (norm entry.1) x out
                           | None => out
                           end) out entry.2
  else out.

(** The values of one key, over all the entries. *)
Definition gathered (k : string) (l : Entries) : list string :=
  concat (map (fun e => if decide (norm e.1 = k) then omap (value k) e.2 else []) l).

(** Every list of the map is non-empty. *)
Definition nonempty (m : MD) : Prop := map_Forall (fun _ vs => vs <> []) m.

Lemma appendAll_lookup k vs out j :
  nonempty out ->
  let out' := foldl (fun out v => match value k v with Some x => appendValue k x out | None => out end) out vs in
  nonempty out' /\ default [] (out' !! j) = default [] (out !! j) ++ if decide (k = j) then omap (value k) vs else [].
Proof.
  revert out. induction vs as [|v vs IH]; intros out Hne; cbn [foldl].
  { split; [done|]. by destruct (decide (k = j)); rewrite app_nil_r. }
  assert (nonempty (match value k v with Some x => appendValue k x out | None => out end)) as Hne'.
  { destruct (value k v) as [x|]; [|done]. unfold appendValue. apply map_Forall_insert_2; [by destruct (default [] (out !! k))|done]. }
  destruct (IH _ Hne') as [H1 H2]. split; [done|]. rewrite H2. destruct (decide (k = j)) as [<-|Hj].
  - cbn [omap list_omap]. destruct (value k v) as [x|]; [|done]. unfold appendValue. rewrite lookup_insert_eq. simpl.
    by rewrite <- app_assoc.
  - rewrite !app_nil_r. destruct (value k v) as [x|]; [|done]. unfold appendValue. by rewrite lookup_insert_ne.
Qed.

Lemma collect_lookup l out j :
  nonempty out ->
  nonempty (foldl collectEntry out l) /\
  default [] (foldl collectEntry out l !! j) = default [] (out !! j) ++ if accept j then gathered j l else [].
Proof.
  revert out. induction l as [|[k vs] l IH]; intros out Hne; cbn [foldl].
  { split; [done|]. unfold gathered. cbn [map concat]. by destruct (accept j); rewrite app_nil_r. }
  destruct (accept (norm k)) eqn:Ha.
  - destruct (appendAll_lookup (norm k) vs out j Hne) as [H1 H2]. destruct (IH _ H1) as [H3 H4].
    assert (collectEntry out (k, vs) = foldl (fun out v => match value (norm k) v with
      | Some x => appendValue (norm k) x out | None => out end) out vs) as -> by (unfold collectEntry; simpl; by rewrite Ha).
    split; [done|]. rewrite H4, H2. unfold gathered. cbn [map concat fst snd]. destruct (decide (norm k = j)) as [<-|Hj].
    + rewrite Ha. by rewrite <- app_assoc.
    + by rewrite app_nil_r.
  - assert (collectEntry out (k, vs) = out) as -> by (unfold collectEntry; simpl; by rewrite Ha).
    destruct (IH _ Hne) as [H3 H4]. split; [done|]. rewrite H4. unfold gathered. cbn [map concat fst snd].
    destruct (decide (norm k = j)) as [<-|Hj]; [by rewrite Ha|done].
Qed.

Lemma collect_exact l j vs :
  foldl collectEntry ∅ l !! j = Some vs <-> vs <> [] /\ accept j = true /\ vs = gathered j l.
Proof.
  destruct (collect_lookup l ∅ j) as [Hne Hd]; [apply map_Forall_empty|]. rewrite lookup_empty in Hd. simpl in Hd. split.
  - intros H. pose proof (Hne _ _ H) as Hv. rewrite H in Hd. simpl in Hd. split; [done|].
    destruct (accept j); [done|]. by subst vs.
  - intros (Hv&Ha&->). rewrite Ha in Hd. destruct (foldl collectEntry ∅ l !! j) as [ws|]; simpl in Hd; by subst.
Qed.
End Collect.

(** ** The two directions are such loops *)

Definition acceptedInbound (k : string) : bool :=
  negb (reservedInboundMetadata k) && validMetadataKey k.
Definition acceptedOutbound (k : string) : bool :=
  negb (reservedResponseMetadata k) && validMetadataKey k.

Lemma inbound_collect mapped :
  incomingHTTPMetadata mapped = foldl (collectEntry (fun k => ToLowerKey (TrimSpace k)) acceptedInbound inboundValue) ∅ mapped.
Proof.
  unfold incomingHTTPMetadata. generalize (∅ : MD). induction mapped as [|[k vs] l IH]; intros out; [done|]. cbn [foldl].
  rewrite IH. f_equal. unfold inboundEntry, collectEntry, acceptedInbound. cbn [fst snd].
  set (key := ToLowerKey (TrimSpace k)). unfold validMetadataKey.
  destruct (String.eqb key ""), (reservedInboundMetadata key), (allBytes keyByte key); done.
Qed.

Lemma outbound_collect md :
  connectEndStreamMetadata md = foldl (collectEntry ToLowerKey acceptedOutbound outboundValue) ∅ md.
Proof.
  unfold connectEndStreamMetadata. generalize (∅ : MD). induction md as [|[k vs] l IH]; intros out; [done|]. cbn [foldl].
  rewrite IH. f_equal. unfold outboundEntry, collectEntry, acceptedOutbound. cbn [fst snd].
  by destruct (reservedResponseMetadata (ToLowerKey k)), (validMetadataKey (ToLowerKey k)).
Qed.

(** ** Normalization keeps a valid key *)

Lemma keyByte_lower c : keyByte c = true -> toLowerByte c = c.
Proof.
  assert (forallb (fun n => implb (keyByte (ascii_of_nat n)) (Ascii.eqb (toLowerByte (ascii_of_nat n)) (ascii_of_nat n)))
            (seq 0 256) = true) as H by (vm_compute; reflexivity).
  rewrite forallb_forall in H. intros Hc. specialize (H (nat_of_ascii c)). rewrite ascii_nat_embedding, Hc in H.
  apply Ascii.eqb_eq, H, in_seq. pose proof (nat_ascii_bounded c). lia.
Qed.

Lemma keyByte_low c : keyByte c = true -> (byteN c < 128)%N.
Proof.
  unfold keyByte, isLower, isDigit, inRange. rewrite !orb_true_iff, !andb_true_iff, !N.leb_le, !Ascii.eqb_eq.
  intros [[[[?|?]| ->]| ->]| ->]; try lia; vm_compute; done.
Qed.

Lemma ToLowerKey_valid s : allBytes keyByte s = true -> ToLowerKey s = s.
Proof.
  induction s as [|a s IH]; [done|]. cbn [allBytes]. intros [Ha Hs]%andb_true_iff. pose proof (keyByte_low _ Ha) as Hl.
  assert (inRange 196 196 a = false /\ inRange 226 226 a = false) as [H1 H2].
  { unfold inRange. split; apply andb_false_iff; left; apply N.leb_gt; lia. }
  cbn [ToLowerKey]. rewrite keyByte_lower, H1, H2, IH by done. cbn [andb]. by destruct s as [|b [|c s]].
Qed.

Lemma revAppend_spec s acc : revAppend s acc = revString s +:+ acc.
Proof.
  unfold revString. revert acc. induction s as [|c s IH]; intros acc; [done|]. cbn [revAppend].
  rewrite IH, (IH (String c "")). by rewrite append_assoc.
Qed.

Lemma revString_cons c s : revString (String c s) = revString s +:+ str1 c.
Proof. unfold revString at 1. cbn [revAppend]. by rewrite revAppend_spec. Qed.

Lemma revString_append s t : revString (s +:+ t) = revString t +:+ revString s.
Proof.
  induction s as [|c s IH]; [by rewrite append_nil_l, append_nil_r|]. rewrite append_cons, !revString_cons, IH.
  by rewrite append_assoc.
Qed.

Lemma revString_involutive s : revString (revString s) = s.
Proof. induction s as [|c s IH]; [done|]. by rewrite revString_cons, revString_append, IH. Qed.

Lemma allBytes_revString p s : allBytes p (revString s) = allBytes p s.
Proof.
  induction s as [|c s IH]; [done|]. rewrite revString_cons, allBytes_append, IH. cbn [allBytes str1].
  by rewrite andb_true_r, andb_comm.
Qed.

(** Stripping patterns none of which can start the text. *)
Lemma stripAll_none (p : ascii -> bool) fuel pats s :
  forallb (fun q => match q with String c _ => negb (p c) | EmptyString => false end) pats = true ->
  allBytes p s = true -> stripAll fuel pats s = s.
Proof.
  intros Hp Hs. destruct fuel; [done|]. cbn [stripAll]. destruct (List.find (HasPrefix s) pats) as [q|] eqn:E; [|done].
  apply find_some in E as [Hq Hpre]. rewrite forallb_forall in Hp. specialize (Hp q Hq). destruct q as [|c q]; [done|].
  destruct s as [|d s]; [done|]. cbn [HasPrefix allBytes] in *. apply andb_true_iff in Hpre as [Heq%Ascii.eqb_eq _]. subst d.
  apply andb_true_iff in Hs as [Hc _]. by rewrite Hc in Hp.
Qed.

Lemma TrimSpace_valid s : allBytes keyByte s = true -> TrimSpace s = s.
Proof.
  intros Hs. unfold TrimSpace, trimSpaceLeft. rewrite (stripAll_none keyByte _ spaceEncodings s) by done.
  rewrite (stripAll_none keyByte); [apply revString_involutive|vm_compute; reflexivity|by rewrite allBytes_revString].
Qed.

Lemma normalize_valid k : validMetadataKey k = true -> ToLowerKey k = k /\ ToLowerKey (TrimSpace k) = k.
Proof.
  unfold validMetadataKey. intros [_ Hk]%andb_true_iff. rewrite TrimSpace_valid by done. split; by apply ToLowerKey_valid.
Qed.

(** ** Inbound *)

(** What is protected: who the caller is, its credentials, and what belongs to the
    transport.  A name is protected with and without the binary suffix. *)
Definition identityNames : list string := ["tenant"; "principal"; "role"; "user"; "subject"; "identity"].
Definition credentialNames : list string :=
  ["authorization"; "proxy-authorization"; "authentication"; "cookie"; "set-cookie"; "api-key"; "x-api-key"].
Definition transportNames : list string :=
  ["te"; "host"; "connection"; "keep-alive"; "proxy-connection"; "transfer-encoding"; "upgrade"; "content-length"; "content-type"; "trailer"].
Definition identityPrefixes : list string :=
  ["x-tenant"; "x-principal"; "x-role"; "x-user"; "x-auth"; "tenant-"; "principal-"; "role-"; "user-"; "auth-"; "subject-"; "identity-"].
Definition transportPrefixes : list string :=
  ["grpc-"; "connect-"; "invariant-internal-"; "x-invariant-internal-"; "x-internal-"; "internal-"].
Definition protected (k : string) : Prop :=
  (exists p rest, p ∈ identityPrefixes ++ transportPrefixes /\ k = p +:+ rest) \/
  (exists n, n ∈ identityNames ++ credentialNames ++ transportNames /\ (k = n \/ k = n +:+ "-bin")).

(** The texts of a key and of a plain value, by their bytes. *)
Definition bytesOf (s : string) : list N := map byteN (String.list_ascii_of_string s).
Definition keyText (k : string) : Prop := k <> "" /\
  Forall (fun b => (97 <= b <= 122 \/ 48 <= b <= 57 \/ b = 45 \/ b = 95 \/ b = 46)%N) (bytesOf k).
Definition printable (v : string) : Prop := Forall (fun b => (32 <= b <= 126)%N) (bytesOf v).
(** What a header value means under a key: base64, padded or not, when the key is
    binary, and otherwise itself when it is printable ASCII. *)
Definition means (k value v : string) : Prop :=
  ((exists base, k = base +:+ "-bin") /\
     (RawDecodeString value = Some v \/ RawDecodeString value = None /\ StdDecodeString value = Some v)) \/
  (~ (exists base, k = base +:+ "-bin") /\ printable value /\ v = value).
(** The values that mean something, in order. *)
Inductive meanings (k : string) : list string -> list string -> Prop :=
  | meanings_nil : meanings k [] []
  | meanings_take value v values vs : means k value v -> meanings k values vs -> meanings k (value :: values) (v :: vs)
  | meanings_drop value values vs : (forall v, ~ means k value v) -> meanings k values vs -> meanings k (value :: values) vs.
(** The values under the spellings of a key. *)
Definition spelled (k : string) (mapped : Entries) : list string :=
  concat (map (fun e => if decide (ToLowerKey (TrimSpace e.1) = k) then e.2 else []) mapped).

Lemma HasSuffix_iff s p : HasSuffix s p = true <-> exists t, s = t +:+ p.
Proof.
  unfold HasSuffix. rewrite HasPrefix_spec. split; intros [t Ht]; exists (revString t).
  - by rewrite <- (revString_involutive s), Ht, revString_append, revString_involutive.
  - by rewrite Ht, revString_append.
Qed.
Lemma TrimSuffix_bin k n : HasSuffix n "-bin" = false -> TrimSuffix k "-bin" = n <-> k = n \/ k = n +:+ "-bin".
Proof.
  intros Hn. unfold TrimSuffix, TrimPrefix. fold (HasSuffix k "-bin"). destruct (HasSuffix k "-bin") eqn:E.
  - apply HasSuffix_iff in E as [t ->]. rewrite revString_append, dropBytes_append, revString_involutive. split.
    + intros ->. by right.
    + intros [Hk|Hk].
      * rewrite <- Hk in Hn. rewrite <- not_true_iff_false, HasSuffix_iff in Hn. destruct Hn. by exists t.
      * apply (f_equal revString) in Hk. rewrite !revString_append in Hk. apply append_inv_head, (f_equal revString) in Hk.
        by rewrite !revString_involutive in Hk.
  - rewrite revString_involutive. split; [intros ->; by left|]. intros [->| ->]; [done|].
    rewrite <- not_true_iff_false, HasSuffix_iff in E. destruct E. by exists n.
Qed.
Lemma reserved_protected k : reservedInboundMetadata k = true <-> protected k.
Proof.
  unfold reservedInboundMetadata, protected.
  assert (existsb (HasPrefix k) reservedPrefixes = true <-> exists p rest, p ∈ identityPrefixes ++ transportPrefixes /\ k = p +:+ rest) as Hp.
  { rewrite existsb_exists. setoid_rewrite HasPrefix_spec. setoid_rewrite <- list_elem_of_In.
    assert (reservedPrefixes ≡ₚ identityPrefixes ++ transportPrefixes) as Hperm by by_computation. setoid_rewrite Hperm. naive_solver. }
  assert (TrimSuffix k "-bin" ∈ reservedNames <->
    exists n, n ∈ identityNames ++ credentialNames ++ transportNames /\ (k = n \/ k = n +:+ "-bin")) as Hn.
  { assert (reservedNames ≡ₚ identityNames ++ credentialNames ++ transportNames) as Hperm by by_computation.
    assert (Forall (fun n => HasSuffix n "-bin" = false) (identityNames ++ credentialNames ++ transportNames)) as Hall by by_computation.
    rewrite Hperm. rewrite list.Forall_forall in Hall. split.
    - intros Hin. exists (TrimSuffix k "-bin"). split; [done|]. by apply TrimSuffix_bin; [apply Hall|].
    - intros (n&Hin&Hk). apply TrimSuffix_bin in Hk; [by rewrite Hk|by apply Hall]. }
  rewrite <- Hp, <- Hn. destruct (existsb (HasPrefix k) reservedPrefixes).
  - split; [by left|done].
  - rewrite bool_decide_eq_true. naive_solver.
Qed.
Lemma allBytes_bytesOf (p : ascii -> bool) (q : N -> Prop) s : (forall c, p c = true <-> q (byteN c)) -> allBytes p s = true <-> Forall q (bytesOf s).
Proof.
  intros Hpq. unfold bytesOf. induction s as [|c s IH]; cbn; [split; constructor|]. by rewrite andb_true_iff, list.Forall_cons, Hpq, IH.
Qed.
Lemma validMetadataKey_text k : validMetadataKey k = true <-> keyText k.
Proof.
  unfold validMetadataKey, keyText. rewrite andb_true_iff, negb_true_iff, String.eqb_neq.
  erewrite (allBytes_bytesOf keyByte); [done|]. intros c. unfold keyByte, isLower, isDigit, inRange.
  rewrite !orb_true_iff, !andb_true_iff, !N.leb_le, !Ascii.eqb_eq.
  assert (forall d, c = d <-> byteN c = byteN d) as Hc.
  { intros d. unfold byteN. split; [by intros ->|]. intros Heq. by rewrite <- (ascii_N_embedding c), Heq, ascii_N_embedding. }
  rewrite !Hc. change (byteN "-"%char) with 45%N. change (byteN USCORE) with 95%N. change (byteN "."%char) with 46%N. tauto.
Qed.
Lemma inboundValue_means k value v : inboundValue k value = Some v <-> means k value v.
Proof.
  unfold inboundValue, means, isBinary, decodeBin. rewrite <- HasSuffix_iff. destruct (HasSuffix k "-bin").
  - destruct (RawDecodeString value); naive_solver.
  - assert (validASCIIMetadataValue value = true <-> printable value) as Hp.
    { apply allBytes_bytesOf. intros c. unfold inRange. by rewrite andb_true_iff, !N.leb_le. }
    destruct (validASCIIMetadataValue value); naive_solver.
Qed.
Lemma omap_meanings k values vs : omap (inboundValue k) values = vs <-> meanings k values vs.
Proof.
  revert vs. induction values as [|value values IH]; intros vs; cbn [omap list_omap].
  { split; [intros <-; constructor|by inversion 1]. }
  destruct (inboundValue k value) as [v|] eqn:E.
  - apply inboundValue_means in E as Hm. split; [intros <-; constructor; [done|by apply IH]|]. inversion 1; subst; [|by edestruct H2].
    match goal with H : means k value _ |- _ => apply inboundValue_means in H; rewrite E in H; injection H as <- end. f_equal. by apply IH.
  - assert (forall v, ~ means k value v) as Hm by (intros v; rewrite <- inboundValue_means; congruence).
    split; [intros <-; constructor; [done|by apply IH]|]. inversion 1; subst; [by edestruct Hm|by apply IH].
Qed.
Lemma gathered_spelled k mapped :
  gathered (fun k => ToLowerKey (TrimSpace k)) inboundValue k mapped = omap (inboundValue k) (spelled k mapped).
Proof.
  unfold gathered, spelled. induction mapped as [|e l IH]; [done|]. cbn [map concat]. rewrite IH, list.omap_app. f_equal. by destruct (decide _).
Qed.

(** C22: the metadata a handler sees holds, for each key, exactly what the values mapped
    under a spelling of that key mean, in order: the decoded bytes of base64 for a binary
    key, printable ASCII as it is otherwise, and nothing for any other value.  A key is
    made of small letters, digits, dashes, underscores and dots; no spelling of a header
    asserts an identity, a credential or a transport header, with or without the binary
    suffix. *)
Theorem inbound_metadata mapped k vs :
  incomingHTTPMetadata mapped !! k = Some vs <->
  vs <> [] /\ keyText k /\ ~ protected k /\ meanings k (spelled k mapped) vs.
Proof.
  rewrite inbound_collect, collect_exact. unfold acceptedInbound. rewrite andb_true_iff, negb_true_iff, <- not_true_iff_false.
  rewrite reserved_protected, validMetadataKey_text, gathered_spelled, <- omap_meanings. naive_solver.
Qed.

(** ** Round trip *)

Lemma gathered_none norm value k (l : Entries) :
  k ∉ l.*1 -> Forall (fun e => norm e.1 = e.1) l -> gathered norm value k l = [].
Proof.
  intros Hni Hn. induction Hn as [|[j ws] l Hj _ IH]; [done|]. cbn [fmap list_fmap fst] in *.
  apply not_elem_of_cons in Hni as [Hne Hni]. unfold gathered in *. cbn [map concat fst].
  rewrite decide_False by (rewrite Hj; congruence). by apply IH.
Qed.

Lemma gathered_single norm value k vs (l : Entries) :
  NoDup l.*1 -> (k, vs) ∈ l -> Forall (fun e => norm e.1 = e.1) l -> gathered norm value k l = omap (value k) vs.
Proof.
  intros Hnd Hin Hn. induction Hn as [|[j ws] l Hj Hn IH]; [by apply elem_of_nil in Hin|].
  cbn [fmap list_fmap fst] in *. apply list.NoDup_cons in Hnd as [Hni Hnd]. unfold gathered in *. cbn [map concat fst snd].
  apply elem_of_cons in Hin as [[= <- <-]|Hin].
  - rewrite decide_True by done. fold (gathered norm value k l). rewrite (gathered_none _ _ _ _ Hni Hn). apply app_nil_r.
  - rewrite decide_False; [by apply IH|]. rewrite Hj. intros ->. apply Hni. by apply (list_elem_of_fmap_2 fst) in Hin.
Qed.

Lemma inbound_outbound k v x : outboundValue k v = Some x -> inboundValue k x = Some v.
Proof.
  unfold outboundValue, inboundValue, decodeBin. destruct (isBinary k).
  - intros [= <-]. by rewrite raw_roundtrip.
  - destruct (validASCIIMetadataValue v) eqn:E; [|done]. intros [= <-]. by rewrite E.
Qed.

Lemma omap_roundtrip k vs :
  Forall (fun v => is_Some (outboundValue k v)) vs -> omap (inboundValue k) (omap (outboundValue k) vs) = vs.
Proof.
  induction 1 as [|v vs [x Hx] _ IH]; [done|]. cbn [omap list_omap]. rewrite Hx. cbn [omap list_omap].
  rewrite (inbound_outbound _ _ _ Hx). f_equal. exact IH.
Qed.

(** What a handler sends is what the next server's handler sees: metadata whose
    keys are valid and not reserved on either side, encoded for the wire and decoded
    again, is unchanged, the bytes of binary values included; other values must be
    printable ASCII. *)
Theorem metadata_roundtrip (md : MD) k vs :
  (forall j ws, md !! j = Some ws -> validMetadataKey j = true) ->
  md !! k = Some vs -> vs <> [] -> reservedResponseMetadata k = false -> reservedInboundMetadata k = false ->
  (isBinary k = true \/ Forall (fun v => validASCIIMetadataValue v = true) vs) ->
  incomingHTTPMetadata (map_to_list (connectEndStreamMetadata (map_to_list md))) !! k = Some vs.
Proof.
  intros Hvalid Hk Hne Hro Hri Hvals.
  assert (Forall (fun v => is_Some (outboundValue k v)) vs) as Hout.
  { apply list.Forall_forall. intros v Hv. unfold outboundValue. destruct (isBinary k) eqn:E; [by eexists|].
    destruct Hvals as [?|Hvals]; [done|]. rewrite list.Forall_forall in Hvals. rewrite Hvals by done. by eexists. }
  assert (omap (outboundValue k) vs <> []) as Hne'.
  { intros E. apply Hne. rewrite <- (omap_roundtrip k vs Hout), E. done. }
  assert (connectEndStreamMetadata (map_to_list md) !! k = Some (omap (outboundValue k) vs)) as Hmid.
  { rewrite outbound_collect. apply collect_exact. split_and!; [done| |].
    - unfold acceptedOutbound. rewrite Hro. by rewrite (Hvalid _ _ Hk).
    - symmetry. apply gathered_single; [apply NoDup_fst_map_to_list|by apply elem_of_map_to_list|].
      apply list.Forall_forall. intros [j ws] Hj%elem_of_map_to_list. by apply normalize_valid, (Hvalid _ ws). }
  rewrite inbound_collect. apply collect_exact. split_and!; [done| |].
  - unfold acceptedInbound. rewrite Hri. by rewrite (Hvalid _ _ Hk).
  - symmetry. etransitivity; [|exact (omap_roundtrip k vs Hout)].
    apply (gathered_single (fun k => ToLowerKey (TrimSpace k))); [apply NoDup_fst_map_to_list|by apply elem_of_map_to_list|].
    apply list.Forall_forall. intros [j ws] Hj%elem_of_map_to_list. rewrite outbound_collect in Hj.
    apply collect_exact in Hj as (_&Ha&_). apply andb_true_iff in Ha as [_ Ha]. by apply normalize_valid.
Qed.

(** ** Witnesses *)

Example inbound_headers :
  incomingHTTPMetadata [("X-User-Id", ["root"]); (" Authorization-Bin ", ["cm9vdA"]); ("X-Trace", ["1"]); ("x-trace", ["2"])]
  = {["x-trace" := ["1"; "2"]]}.
Proof. vm_compute. reflexivity. Qed.

Definition traceMD : MD := {["trace-bin" := [bytes [0; 255; 10]%N; ""]; "x-note" := ["hello"]]}.

Lemma metadata_roundtrip_witness :
  incomingHTTPMetadata (map_to_list (connectEndStreamMetadata (map_to_list traceMD))) !! "trace-bin" =
    Some [bytes [0; 255; 10]%N; ""].
Proof.
  apply metadata_roundtrip.
  - assert (map_Forall (fun j _ => validMetadataKey j = true) traceMD) as H by by_computation.
    intros j ws Hj. exact (H j ws Hj).
  - vm_compute. reflexivity.
  - discriminate.
  - vm_compute. reflexivity.
  - vm_compute. reflexivity.
  - left. vm_compute. reflexivity.
Defined.
