(* ===== verification/Url.v ===== *)
(** * net/url

    The escaping modes the HTTP client uses, the text of a URL and the encoding of
    query values, each with its inverse.  [unescape] is what a receiver does. *)
From S2P Require Import Prelude GoStrings StringFacts Metadata MetadataSpec.
Import Metadata.

Module Url.

(** ** Escaping *)

Inductive encoding : Type := encodePath | encodePathSegment | encodeQueryComponent.

Definition unreserved (c : ascii) : bool :=
  isLower c || isUpper c || isDigit c || Ascii.eqb c "-" || Ascii.eqb c USCORE || Ascii.eqb c "." || Ascii.eqb c "~".
Definition oneOf (s : string) (c : ascii) : bool := containsByte c s.

Definition shouldEscape (c : ascii) (mode : encoding) : bool :=
  if unreserved c then false
  else if oneOf "$&+,/:;=?@" c then
    match mode with
    | encodePath => Ascii.eqb c "?"
    | encodePathSegment => oneOf "/;,?" c
    | encodeQueryComponent => true
    end
  else true.

Definition upperHex (n : N) : ascii := if (n <? 10)%N then ascii_of_N (48 + n) else ascii_of_N (55 + n).
Definition PERCENT : ascii := "%"%char.
Definition percent (c : ascii) : string :=
  String PERCENT (String (upperHex (byteN c / 16)) (str1 (upperHex (byteN c mod 16)))).

Definition isQuery (mode : encoding) : bool := match mode with encodeQueryComponent => true | _ => false end.

Definition escapeByte (mode : encoding) (c : ascii) : string :=
  if shouldEscape c mode
  then if Ascii.eqb c " " && isQuery mode then "+" else percent c
  else str1 c.
Definition escape (s : string) (mode : encoding) : string := mapBytes (escapeByte mode) s.

Definition PathEscape (s : string) : string := escape s encodePathSegment.
Definition QueryEscape (s : string) : string := escape s encodeQueryComponent.

Definition unhex (c : ascii) : option N :=
  if isDigit c then Some (byteN c - 48)%N
  else if inRange 97 102 c then Some (byteN c - 87)%N
  else if inRange 65 70 c then Some (byteN c - 55)%N
  else None.

(** [None] is an EscapeError. *)
Fixpoint unescape (s : string) (mode : encoding) : option string :=
  match s with
  | EmptyString => Some EmptyString
  | String c r =>
      if Ascii.eqb c PERCENT then
        match r with
        | String a (String b r) =>
            match unhex a, unhex b with
            | Some x, Some y => String (ascii_of_N (x * 16 + y)) <$> unescape r mode
            | _, _ => None
            end
        | _ => None
        end
      else if Ascii.eqb c "+" && isQuery mode then String " " <$> unescape r mode
      else String c <$> unescape r mode
  end.

(** ** The text of a URL

    A URL with a host: [u_origin] is its scheme, user and host as [String] prints
    them, [u_fragment] the text from the fragment mark on. *)
Record URL : Type := mkURL {
  u_origin : string;
  u_path : string;
  u_rawPath : string;
  u_forceQuery : bool;
  u_rawQuery : string;
  u_fragment : string
}.

Definition SQUOTE1 : string := str1 SQUOTE.
Definition validEncoded (s : string) (mode : encoding) : bool :=
  allBytes (fun c => oneOf ("!$&()*+,;=:@[]%" +:+ SQUOTE1) c || negb (shouldEscape c mode)) s.

Definition EscapedPath (u : URL) : string :=
  if negb (String.eqb (u_rawPath u) "") && validEncoded (u_rawPath u) encodePath
     && bool_decide (unescape (u_rawPath u) encodePath = Some (u_path u))
  then u_rawPath u
  else if String.eqb (u_path u) "*" then "*"
  else escape (u_path u) encodePath.

Definition URL_String (u : URL) : string :=
  let path := EscapedPath u in
  u_origin u
  +:+ (if negb (String.eqb path "") && negb (HasPrefix path "/") then "/" else "")
  +:+ path
  +:+ (if u_forceQuery u || negb (String.eqb (u_rawQuery u) "") then "?" +:+ u_rawQuery u else "")
  +:+ u_fragment u.

(** ** Query values *)

Notation Values := (gmap string (list string)).

Definition pairText (kv : string * string) : string := QueryEscape kv.1 +:+ "=" +:+ QueryEscape kv.2.
Definition pairs (q : Values) : list (string * string) :=
  concat (map (fun k => map (pair k) (default [] (q !! k))) (sortStrings (map fst (map_to_list q)))).
Definition Encode (q : Values) : string := Join (map pairText (pairs q)) "&".

(** [strings.Cut] at a byte: the text before and after, the latter empty if there is none. *)
Fixpoint CutByte (s : string) (sep : ascii) : string * string :=
  match s with
  | EmptyString => (EmptyString, EmptyString)
  | String c s =>
      if Ascii.eqb c sep then (EmptyString, s)
      else let '(before, after) := CutByte s sep in (String c before, after)
  end.

(** [url.ParseQuery], without the error it returns beside the values. *)
Definition parsePair (q : Values) (text : string) : Values :=
  if containsByte ";" text || String.eqb text "" then q
  else let '(key, value) := CutByte text "=" in
       match unescape key encodeQueryComponent, unescape value encodeQueryComponent with
       | Some k, Some v => appendValue k v q
       | _, _ => q
       end.
Definition ParseQuery (s : string) : Values := foldl parsePair ∅ (Split s "&").

(** ** Facts *)

Lemma unescape_byte mode c rest :
  unescape (escapeByte mode c +:+ rest) mode = String c <$> unescape rest mode.
Proof. destruct mode; destruct c as [[] [] [] [] [] [] [] []]; reflexivity. Qed.

(** Escaping is undone by unescaping in the same mode. *)
Lemma unescape_escape s mode : unescape (escape s mode) mode = Some s.
Proof.
  induction s as [|c s IH]; [done|]. unfold escape in *. cbn [mapBytes]. by rewrite unescape_byte, IH.
Qed.

(** The two path modes differ only in what they escape. *)
Lemma unescape_path s : unescape s encodePath = unescape s encodePathSegment.
Proof.
  remember (String.length s) as n eqn:En. assert (String.length s <= n) as Hn by lia. clear En. revert s Hn.
  induction n as [|n IH]; intros [|c r]; simpl; intros Hn; try done; [lia|].
  destruct (Ascii.eqb c PERCENT); [|by rewrite !andb_false_r, IH by lia].
  destruct r as [|a [|b r]]; try done. destruct (unhex a), (unhex b); try done. simpl in Hn. by rewrite IH by lia.
Qed.

Lemma query_bytes c b : b ∈ ["&"; "="; ";"]%char -> noByte b (escapeByte encodeQueryComponent c) = true.
Proof.
  rewrite !elem_of_cons. intros [-> | [-> | [-> | H]]]; [| | |by apply elem_of_nil in H];
    destruct c as [[] [] [] [] [] [] [] []]; reflexivity.
Qed.
Lemma QueryEscape_noByte s b : b ∈ ["&"; "="; ";"]%char -> noByte b (QueryEscape s) = true.
Proof.
  intros Hb. unfold QueryEscape, escape. induction s as [|c s IH]; [done|]. cbn [mapBytes].
  by rewrite noByte_append, query_bytes, IH.
Qed.

Lemma CutByte_append a b sep : noByte sep a = true -> CutByte (a +:+ String sep b) sep = (a, b).
Proof.
  induction a as [|c a IH]; intros H.
  - rewrite append_nil_l. cbn [CutByte]. by rewrite Ascii.eqb_refl.
  - rewrite append_cons. cbn [CutByte]. apply andb_true_iff in H as [Hc Ha]. destruct (Ascii.eqb c sep); [done|].
    by rewrite (IH Ha).
Qed.

Lemma parsePair_text q kv : parsePair q (pairText kv) = appendValue kv.1 kv.2 q.
Proof.
  unfold parsePair, pairText.
  assert (containsByte ";" (QueryEscape kv.1 +:+ "=" +:+ QueryEscape kv.2) = false) as ->.
  { unfold containsByte. apply negb_false_iff.
    assert (noByte ";" (QueryEscape kv.1 +:+ "=" +:+ QueryEscape kv.2) = true) as H.
    { rewrite !noByte_append, !QueryEscape_noByte by set_solver. done. }
    unfold noByte in H. erewrite allBytes_impl; [done| |exact H]. intros d Hd. by rewrite Ascii.eqb_sym. }
  destruct (String.eqb_spec (QueryEscape kv.1 +:+ "=" +:+ QueryEscape kv.2) "") as [H|_].
  { apply append_eq_nil in H as [_ H]. by apply append_eq_nil in H as [H _]. }
  cbn [orb]. rewrite append_cons, append_nil_l, CutByte_append by (apply QueryEscape_noByte; set_solver).
  unfold QueryEscape. by rewrite !unescape_escape.
Qed.

Lemma foldl_parsePair q l : foldl parsePair q (map pairText l) = foldl (fun q kv => appendValue kv.1 kv.2 q) q l.
Proof. revert q. induction l as [|kv l IH]; intros q; [done|]. cbn [map foldl]. by rewrite parsePair_text, IH. Qed.

Lemma ParseQuery_pairs l : ParseQuery (Join (map pairText l) "&") = foldl (fun q kv => appendValue kv.1 kv.2 q) ∅ l.
Proof.
  destruct l as [|kv l]; [done|]. unfold ParseQuery. change "&" with (str1 "&") at 1.
  rewrite Split_Join, foldl_parsePair; [done| |done]. apply List.Forall_forall. intros t (p&<-&_)%in_map_iff.
  unfold pairText. by rewrite !noByte_append, !QueryEscape_noByte by set_solver.
Qed.
End Url.
