(* ===== verification/Connect.v ===== *)
(** * The Connect wire format (src/go/http.go, src/go/errors.go)

    Envelopes of streaming messages, the request timeout, the error codes and the
    bounded error responses.  An error is the status [statusFromError] makes of it.
    The names of google.rpc.Code belong to its generated enum and are a class; their
    documented values are its laws. *)
From S2P Require Import Prelude GoStrings StringFacts Base64 Json Metadata.
Import Metadata.

Module Connect.

(** ** Status codes *)

Definition OK : Z := 0.
Definition Canceled : Z := 1.
Definition Unknown : Z := 2.
Definition InvalidArgument : Z := 3.
Definition DeadlineExceeded : Z := 4.
Definition NotFound : Z := 5.
Definition AlreadyExists : Z := 6.
Definition PermissionDenied : Z := 7.
Definition ResourceExhausted : Z := 8.
Definition FailedPrecondition : Z := 9.
Definition Aborted : Z := 10.
Definition OutOfRange : Z := 11.
Definition Unimplemented : Z := 12.
Definition Internal : Z := 13.
Definition Unavailable : Z := 14.
Definition DataLoss : Z := 15.
Definition Unauthenticated : Z := 16.

Definition rpcCodes : list (Z * string) :=
  [(0, "OK"); (1, "CANCELLED"); (2, "UNKNOWN"); (3, "INVALID_ARGUMENT"); (4, "DEADLINE_EXCEEDED"); (5, "NOT_FOUND");
   (6, "ALREADY_EXISTS"); (7, "PERMISSION_DENIED"); (8, "RESOURCE_EXHAUSTED"); (9, "FAILED_PRECONDITION");
   (10, "ABORTED"); (11, "OUT_OF_RANGE"); (12, "UNIMPLEMENTED"); (13, "INTERNAL"); (14, "UNAVAILABLE");
   (15, "DATA_LOSS"); (16, "UNAUTHENTICATED")]%Z.

(** [code.Code(n).String()]. *)
Class CodeNames : Type := { Code_String : Z -> string }.
(** The declared names, and the number of an undeclared value. *)
Class CodeNamesLaws `{CodeNames} : Prop := {
  Code_String_known c n : (c, n) ∈ rpcCodes -> Code_String c = n;
  Code_String_unknown c : c ∉ rpcCodes.*1 -> Code_String c = FormatInt c
}.

Section Codes.
Context `{CodeNames}.

Definition grpcCodeName (code : Z) : string :=
  if (code =? Canceled)%Z then "canceled"
  else
    let name := Code_String code in
    if HasPrefix name "Code(" then "unknown" else ToLower name.

(** The canonical codes, from [Canceled] to [Unauthenticated]. *)
Definition canonicalCodes : list Z := map Z.of_nat (seq 1 16).

Definition connectCodeFromName (name : string) : option Z :=
  List.find (fun i => String.eqb (grpcCodeName i) name) canonicalCodes.
End Codes.

Definition httpStatuses : list (Z * Z) :=
  [(OK, 200); (Canceled, 499); (Unknown, 500); (InvalidArgument, 400); (DeadlineExceeded, 504); (NotFound, 404);
   (AlreadyExists, 409); (PermissionDenied, 403); (ResourceExhausted, 429); (FailedPrecondition, 400); (Aborted, 409);
   (OutOfRange, 400); (Unimplemented, 501); (Internal, 500); (Unavailable, 503); (DataLoss, 500); (Unauthenticated, 401)]%Z.

Fixpoint assocZ {A} (key : Z) (l : list (Z * A)) : option A :=
  match l with
  | [] => None
  | (k, v) :: l => if (key =? k)%Z then Some v else assocZ key l
  end.

Definition grpcCodeToHTTPStatus (code : Z) : Z := default 500%Z (assocZ code httpStatuses).

Definition grpcCodeFromHTTPStatus (statusCode : Z) : Z :=
  default Unknown (assocZ statusCode
    [(400, Internal); (404, Unimplemented); (403, PermissionDenied); (429, Unavailable); (502, Unavailable);
     (503, Unavailable); (504, Unavailable); (401, Unauthenticated)]%Z).

(** ** Error responses *)

(** A status with its details: a type URL and the bytes of each. *)
Record Status : Type := mkStatus { st_code : Z; st_message : string; st_details : list (string * string) }.

Definition typeName (url : string) : string :=
  match CutLast url SLASH with
  | Some (_, name) => name
  | None => url
  end.

Definition connectStatusDetails (st : Status) : list JsonValue :=
  map (fun d => JObject [("type", JString (typeName d.1)); ("value", JString (RawEncodeToString d.2))]) (st_details st).

Section Errors.
Context `{CodeNames}.

(** The keys of a Go map are encoded in order. *)
Definition connectErrorPayload (st : Status) : JsonValue :=
  JObject ([("code", JString (grpcCodeName (st_code st)))]
           ++ match connectStatusDetails st with [] => [] | ds => [("details", JArray ds)] end
           ++ [("message", JString (st_message st))]).

Definition exceeds (payload : string) (maxBytes : Z) : bool := (maxBytes <? Z.of_nat (String.length payload))%Z.

(** The status and the body of the response. *)
Definition httpErrorWithLimit (st : Status) (maxBytes : Z) : Z * string :=
  let payload := Marshal (connectErrorPayload st) in
  if (0 <? maxBytes)%Z && exceeds payload maxBytes then
    let st := mkStatus ResourceExhausted "encoded error response exceeds configured byte limit" [] in
    let payload := Marshal (connectErrorPayload st) in
    (grpcCodeToHTTPStatus (st_code st), if exceeds payload maxBytes then "" else payload)
  else (grpcCodeToHTTPStatus (st_code st), payload).

Definition httpUnsupportedMediaTypeWithLimit (message : string) (maxBytes : Z) : Z * string :=
  let payload := Marshal (connectErrorPayload (mkStatus InvalidArgument message [])) in
  (415%Z, if (0 <? maxBytes)%Z && exceeds payload maxBytes then "" else payload).

(** ** The end of a stream *)

Definition maxConnectControlEnvelope : Z := Z.shiftl 1 20.

Definition metadataJSON (md : MD) : JsonValue :=
  JObject (map (fun k => (k, JArray (map JString (default [] (md !! k))))) (sortStrings (map fst (map_to_list md)))).

Definition connectEndStreamPayload (streamErr : option Status) (trailer : Entries) : string :=
  let encoded := connectEndStreamMetadata trailer in
  let payload := Marshal (JObject
    (match streamErr with Some st => [("error", connectErrorPayload st)] | None => [] end
     ++ if decide (encoded = ∅) then [] else [("metadata", metadataJSON encoded)])) in
  if (Z.of_nat (String.length payload) <=? maxConnectControlEnvelope)%Z then payload
  else Marshal (JObject [("error", connectErrorPayload
         (mkStatus ResourceExhausted "Connect control envelope exceeds configured byte limit" []))]).
End Errors.

(** ** Envelopes *)

(** The outcome of reading: data, a status error, or an error of the reader. *)
Inductive Read : Type :=
  | Data (s : string)
  | StatusError (code : Z) (message : string)
  | IOError (message : string).

Definition connectEndStreamFlag : Z := 2.
Definition byteZ (c : ascii) : Z := Z.of_N (byteN c).
Definition zbyte (z : Z) : ascii := ascii_of_N (Z.to_N (Z.land z 255)).

(** [io.ReadFull] of [n] bytes: the bytes and the rest, or the error. *)
Fixpoint takeBytes (n : nat) (s : string) : option (string * string) :=
  match n, s with
  | 0, _ => Some (EmptyString, s)
  | S n, String c s => match takeBytes n s with Some (t, r) => Some (String c t, r) | None => None end
  | S _, EmptyString => None
  end.

(** A body that ends: nothing read is EOF, a part of what was asked is unexpected EOF. *)
Definition ReadFull (n : nat) (body : string) : (string * string) + string :=
  match takeBytes n body with
  | Some r => inl r
  | None => inr (match body with EmptyString => "EOF" | _ => "unexpected EOF" end)
  end.

Definition header (body : string) : option (Z * Z * Z * Z * Z * string) :=
  match body with
  | String f (String a (String b (String c (String d rest)))) =>
      Some (byteZ f, byteZ a, byteZ b, byteZ c, byteZ d, rest)
  | _ => None
  end.

Definition hex2 (z : Z) : string := hexByte (zbyte z).

Definition readConnectEnvelope (body : string) (maxSize : Z) : Read :=
  match header body with
  | None => IOError (match body with EmptyString => "EOF" | _ => "unexpected EOF" end)
  | Some (flags, a, b, c, d, rest) =>
      let reserved := Z.ldiff flags 3 in
      if negb (reserved =? 0)%Z then
        StatusError InvalidArgument ("request envelope has unsupported reserved flags 0x" +:+ hex2 reserved)
      else if negb (Z.land flags 1 =? 0)%Z then
        StatusError Unimplemented "compressed request envelopes are not supported"
      else if negb (Z.land flags connectEndStreamFlag =? 0)%Z then
        StatusError InvalidArgument "request envelope must not use the end-stream flag"
      else
        let size := Z.lor (Z.lor (Z.lor (Z.shiftl a 24) (Z.shiftl b 16)) (Z.shiftl c 8)) d in
        if (0 <? maxSize)%Z && (maxSize <? size)%Z then
          StatusError ResourceExhausted ("request envelope size " +:+ FormatInt size +:+ " exceeds " +:+
            FormatInt maxSize +:+ " byte limit")
        else match ReadFull (Z.to_nat size) rest with
             | inr e => IOError e
             | inl (buf, extra) =>
                 match extra with
                 | EmptyString => Data buf
                 | _ => StatusError InvalidArgument "stream request body must contain exactly one envelope"
                 end
             end
  end.

Definition maxUint32 : Z := 4294967295.

Definition connectEnvelopeSize (size : Z) : Outcome Z :=
  if (maxUint32 <? size)%Z then
    Err ("Connect envelope payload size " +:+ FormatInt size +:+ " exceeds uint32 framing limit")
  else Ok size.

(** What is written; the writer itself does not fail. *)
Definition writeConnectEnvelope (flags : Z) (payload : string) : Outcome string :=
  size ← connectEnvelopeSize (Z.of_nat (String.length payload));
  Ok (String (zbyte flags) (String (zbyte (Z.shiftr size 24)) (String (zbyte (Z.shiftr size 16))
       (String (zbyte (Z.shiftr size 8)) (String (zbyte size) payload))))).

(** ** The request timeout *)

Definition timeoutErr : string := "Connect-Timeout-Ms must be a positive integer of at most 10 ASCII digits".

(** [strconv.ParseInt(raw, 10, 64)] of digits. *)
Fixpoint digitsValue (acc : Z) (s : string) : Z :=
  match s with
  | EmptyString => acc
  | String c s => digitsValue (acc * 10 + (byteZ c - 48))%Z s
  end.

(** The header's first value, if the header is present; the duration in nanoseconds. *)
Definition applyConnectTimeout (raw : option string) : Outcome (option Z) :=
  match raw with
  | None => Ok None
  | Some raw =>
      _ ← failIf ((String.length raw =? 0) || (10 <? String.length raw)) timeoutErr;
      _ ← failIf (negb (allBytes isDigit raw)) timeoutErr;
      let ms := digitsValue 0 raw in
      _ ← failIf (ms <=? 0)%Z timeoutErr;
      Ok (Some (ms * 1000000)%Z)
  end.
End Connect.
