(* ===== verification/ConnectSpec.v ===== *)
(** * Envelopes, error codes and bounded responses *)
From S2P Require Import Prelude GoStrings StringFacts Base64 Json Metadata Connect.
Import Metadata Connect.

(** ** Bytes of a 32-bit size *)

Lemma byteZ_range c : (0 <= byteZ c < 256)%Z.
Proof. unfold byteZ. pose proof (byteN_lt c). lia. Qed.

Lemma byteZ_zbyte z : byteZ (zbyte z) = (z mod 256)%Z.
Proof.
  unfold byteZ, zbyte, byteN. change 255%Z with (Z.ones 8). rewrite Z.land_ones by lia. change (2 ^ 8)%Z with 256%Z.
  pose proof (Z.mod_pos_bound z 256). rewrite N_ascii_embedding by lia. lia.
Qed.

Lemma zbyte_byteZ c : zbyte (byteZ c) = c.
Proof.
  unfold zbyte. change 255%Z with (Z.ones 8). rewrite Z.land_ones by lia. pose proof (byteZ_range c).
  rewrite Z.mod_small by (change (2 ^ 8)%Z with 256%Z; lia). unfold byteZ. rewrite N2Z.id. apply byteN_ascii.
Qed.

Lemma lor_shiftl x y k : (0 <= k)%Z -> (0 <= y < 2 ^ k)%Z -> Z.lor (Z.shiftl x k) y = (x * 2 ^ k + y)%Z.
Proof.
  intros Hk Hy. assert (Z.land (Z.shiftl x k) y = 0)%Z as Hl.
  { apply Z.bits_inj'. intros n Hn. rewrite Z.land_spec, Z.bits_0. destruct (Z.ltb_spec n k).
    - by rewrite Z.shiftl_spec_low.
    - rewrite <- (Z.mod_small y (2 ^ k)) by done. rewrite Z.mod_pow2_bits_high by lia. apply andb_false_r. }
  pose proof (Z.add_lor_land (Z.shiftl x k) y) as H. rewrite Hl, Z.shiftl_mul_pow2 in H by done.
  rewrite Z.shiftl_mul_pow2 by done. lia.
Qed.

(** Big-endian. *)
Definition size32 (a b c d : Z) : Z := (((a * 256 + b) * 256 + c) * 256 + d)%Z.

Lemma lor_size a b c d :
  (0 <= b < 256)%Z -> (0 <= c < 256)%Z -> (0 <= d < 256)%Z ->
  Z.lor (Z.lor (Z.lor (Z.shiftl a 24) (Z.shiftl b 16)) (Z.shiftl c 8)) d = size32 a b c d.
Proof.
  intros Hb Hc Hd. unfold size32.
  change 24%Z with (8 + 16)%Z at 1. rewrite <- Z.shiftl_shiftl, <- Z.shiftl_lor by lia.
  change 16%Z with (8 + 8)%Z. rewrite <- Z.shiftl_shiftl, <- Z.shiftl_lor by lia.
  rewrite (lor_shiftl a b 8), (lor_shiftl _ c 8), (lor_shiftl _ d 8) by (change (2 ^ 8)%Z with 256%Z; lia). done.
Qed.

Lemma size32_bytes n : (0 <= n <= maxUint32)%Z ->
  size32 (Z.shiftr n 24 mod 256) (Z.shiftr n 16 mod 256) (Z.shiftr n 8 mod 256) (n mod 256) = n.
Proof.
  unfold size32, maxUint32. intros Hn. rewrite !Z.shiftr_div_pow2 by lia.
  change (2 ^ 24)%Z with 16777216%Z. change (2 ^ 16)%Z with 65536%Z. change (2 ^ 8)%Z with 256%Z. Z.div_mod_to_equations. lia.
Qed.

Lemma bytes_size32 a b c d :
  (0 <= a < 256)%Z -> (0 <= b < 256)%Z -> (0 <= c < 256)%Z -> (0 <= d < 256)%Z ->
  let n := size32 a b c d in
  (0 <= n <= maxUint32)%Z /\ (Z.shiftr n 24 mod 256 = a)%Z /\ (Z.shiftr n 16 mod 256 = b)%Z /\
  (Z.shiftr n 8 mod 256 = c)%Z /\ (n mod 256 = d)%Z.
Proof.
  unfold size32, maxUint32. intros Ha Hb Hc Hd. cbv zeta. rewrite !Z.shiftr_div_pow2 by lia.
  change (2 ^ 24)%Z with 16777216%Z. change (2 ^ 16)%Z with 65536%Z. change (2 ^ 8)%Z with 256%Z.
  Z.div_mod_to_equations. split_and!; lia.
Qed.

Lemma zbyte_mod z : zbyte (z mod 256) = zbyte z.
Proof.
  unfold zbyte. change 255%Z with (Z.ones 8). rewrite !Z.land_ones by lia. change (2 ^ 8)%Z with 256%Z.
  by rewrite Z.mod_mod by lia.
Qed.

Lemma takeBytes_exact n s t r : takeBytes n s = Some (t, r) <-> s = t +:+ r /\ String.length t = n.
Proof.
  revert s t. induction n as [|n IH]; intros s t; cbn [takeBytes].
  - split; [intros [= <- <-]; done|]. intros [-> Ht]. destruct t; [done|]. simpl in Ht. lia.
  - destruct s as [|c s].
    + split; [done|]. intros [Hs Ht]. destruct t; [simpl in Ht; lia|done].
    + split.
      * destruct (takeBytes n s) as [[t' r']|] eqn:E; [|done]. intros [= <- <-]. apply IH in E as [-> <-]. done.
      * intros [Hs Ht]. destruct t as [|c' t]; [done|]. rewrite append_cons in Hs. injection Hs as <- ->.
        simpl in Ht. by rewrite (proj2 (IH (t +:+ r) t)) by (split; [done|lia]).
Qed.

(** C23: a request body is accepted exactly when it is one plain envelope within the
    limit: reading inverts writing, nothing may follow the envelope, and a limit bounds
    what is read. *)
Theorem envelope_exact body maxSize buf :
  readConnectEnvelope body maxSize = Data buf <->
  writeConnectEnvelope 0 buf = Ok body /\ (maxSize <= 0 \/ Z.of_nat (String.length buf) <= maxSize)%Z.
Proof.
  split.
  - unfold readConnectEnvelope. destruct body as [|f [|a [|b [|c [|d rest]]]]]; try done. cbn [header]. cbv zeta.
    destruct (Z.ldiff (byteZ f) 3 =? 0)%Z eqn:Hr; [|done]. destruct (Z.land (byteZ f) 1 =? 0)%Z eqn:H1; [|done].
    destruct (Z.land (byteZ f) connectEndStreamFlag =? 0)%Z eqn:H2; [|done]. cbn [negb].
    rewrite lor_size by apply byteZ_range. destruct (bytes_size32 _ _ _ _ (byteZ_range a) (byteZ_range b) (byteZ_range c) (byteZ_range d))
      as (Hn&Ha&Hb&Hc&Hd). set (n := size32 (byteZ a) (byteZ b) (byteZ c) (byteZ d)) in *.
    destruct ((0 <? maxSize)%Z && (maxSize <? n)%Z) eqn:Hm; [done|]. unfold ReadFull.
    destruct (takeBytes (Z.to_nat n) rest) as [[t [|e extra]]|] eqn:E; [|done..]. intros [= <-].
    apply takeBytes_exact in E as [-> Ht]. rewrite append_nil_r.
    assert (Z.of_nat (String.length t) = n) as Hlen by lia. split; [|lia].
    unfold writeConnectEnvelope, connectEnvelopeSize. rewrite Hlen. destruct (Z.ltb_spec maxUint32 n); [lia|]. cbn [mbind outcome_bind].
    rewrite <- (zbyte_mod (Z.shiftr n 24)), <- (zbyte_mod (Z.shiftr n 16)), <- (zbyte_mod (Z.shiftr n 8)), <- (zbyte_mod n).
    rewrite Ha, Hb, Hc, Hd, !zbyte_byteZ. do 2 f_equal. rewrite <- (zbyte_byteZ f). f_equal.
    (* the flags are zero *)
    apply Z.eqb_eq in Hr, H1, H2. symmetry. apply Z.bits_inj'. intros k Hk. rewrite Z.bits_0.
    apply (f_equal (fun z => Z.testbit z k)) in Hr, H1, H2. unfold connectEndStreamFlag in H2.
    rewrite Z.ldiff_spec, Z.bits_0 in Hr. rewrite Z.land_spec, Z.bits_0 in H1, H2.
    destruct (decide (k = 0)%Z) as [->|Hk0]; [by rewrite andb_true_r in H1|].
    destruct (decide (k = 1)%Z) as [->|Hk1]; [by rewrite andb_true_r in H2|].
    assert (Z.testbit 3 k = false) as H3 by (apply Z.bits_above_log2; [done|change (Z.log2 3) with 1%Z; lia]).
    by rewrite H3, andb_true_r in Hr.
  - unfold writeConnectEnvelope, connectEnvelopeSize. destruct (Z.ltb_spec maxUint32 (Z.of_nat (String.length buf))) as [|Hn]; [by intros [? _]|].
    cbn [mbind outcome_bind]. intros [[= <-] Hmax]. unfold readConnectEnvelope. cbn [header]. cbv zeta. rewrite !byteZ_zbyte.
    change (0 mod 256)%Z with 0%Z. cbn [Z.ldiff Z.land Z.eqb negb].
    rewrite lor_size by (apply Z.mod_pos_bound; lia). rewrite size32_bytes by lia.
    assert ((0 <? maxSize)%Z && (maxSize <? Z.of_nat (String.length buf))%Z = false) as -> by lia.
    unfold ReadFull. rewrite Nat2Z.id. by rewrite (proj2 (takeBytes_exact (String.length buf) buf buf "")) by (by rewrite append_nil_r).
Qed.

(** ** Codes *)

Section Codes.
Context `{CodeNamesLaws}.

Definition codeTable : list (Z * string) :=
  map (fun cn => (cn.1, if (cn.1 =? Canceled)%Z then "canceled" else ToLower cn.2)) rpcCodes.

Lemma grpcCodeName_table : Forall (fun cn => grpcCodeName cn.1 = cn.2) codeTable.
Proof.
  unfold codeTable, rpcCodes. rewrite List.Forall_map.
  apply list.Forall_forall. intros [c n] Hc. unfold grpcCodeName. cbn [fst snd].
  destruct (c =? Canceled)%Z; [done|]. cbv zeta. rewrite (Code_String_known c n Hc).
  enough (HasPrefix n "Code(" = false) as -> by done.
  assert (Forall (fun cn => HasPrefix cn.2 "Code(" = false) rpcCodes) as Hall by (repeat constructor).
  rewrite list.Forall_forall in Hall. apply (Hall (c, n) Hc).
Qed.

(** The canonical codes with the names the server gives them. *)
Lemma grpcCodeName_canonical : map (fun i => (i, grpcCodeName i)) canonicalCodes = tail codeTable.
Proof.
  assert (canonicalCodes = map fst (tail codeTable)) as -> by reflexivity. rewrite map_map.
  pose proof grpcCodeName_table as Hall. destruct codeTable as [|x l]; [done|]. apply list.Forall_cons in Hall as [_ Hall].
  cbn [tail]. induction Hall as [|[c n] l Hc _ IH]; [done|]. cbn [map fst snd] in *. by rewrite Hc, IH.
Qed.

Lemma find_pairs {A} (f : A -> string) (n : string) l :
  List.find (fun i => String.eqb (f i) n) l =
  fst <$> List.find (fun p => String.eqb p.2 n) (map (fun i => (i, f i)) l).
Proof. induction l as [|x l IH]; [done|]. cbn [List.find map snd]. by destruct (String.eqb (f x) n). Qed.

(** The name of a canonical code is read back as that code, and only as that code. *)
Lemma code_roundtrip c n : (1 <= c <= 16)%Z -> connectCodeFromName n = Some c <-> grpcCodeName c = n.
Proof.
  intros Hc. assert (forall m, connectCodeFromName m = fst <$> List.find (fun p => String.eqb p.2 m) (tail codeTable)) as Hf
    by (intros m; unfold connectCodeFromName; by rewrite find_pairs, grpcCodeName_canonical).
  split.
  - unfold connectCodeFromName. intros Hn. apply find_some in Hn as [_ Hn]. by apply String.eqb_eq.
  - intros <-. rewrite Hf. assert ((c, grpcCodeName c) ∈ tail codeTable) as Hin.
    { rewrite <- grpcCodeName_canonical. apply (list_elem_of_fmap_2' (fun i => (i, grpcCodeName i)) _ c); [|done].
      apply list_elem_of_In. unfold canonicalCodes. apply in_map_iff. exists (Z.to_nat c). rewrite in_seq. lia. }
    revert Hin. generalize (grpcCodeName c). intros n Hin.
    assert (Forall (fun cn => fst <$> List.find (fun p => String.eqb p.2 cn.2) (tail codeTable) = Some cn.1) (tail codeTable))
      as Hall by by_computation.
    rewrite list.Forall_forall in Hall. apply (Hall (c, n) Hin).
Qed.

(** A code outside google.rpc.Code is not projected as [unknown] but as its number,
    which no client reads back. *)
Lemma unknown_code_name c : c ∉ rpcCodes.*1 -> grpcCodeName c = ToLower (FormatInt c).
Proof.
  intros Hc. unfold grpcCodeName. destruct (Z.eqb_spec c Canceled) as [->|]; [exfalso; apply Hc; by_computation|]. cbv zeta.
  rewrite Code_String_unknown by done. enough (HasPrefix (FormatInt c) "Code(" = false) as -> by done.
  apply not_true_is_false. intros (t&Ht)%HasPrefix_spec. pose proof (FormatInt_noByte "C" c) as Hn.
  rewrite Ht in Hn. by discriminate Hn.
Qed.

(** ** Bounded responses *)

Lemma error_response_bounded st maxBytes :
  (0 < maxBytes)%Z ->
  let r := httpErrorWithLimit st maxBytes in
  (Z.of_nat (String.length r.2) <= maxBytes)%Z /\
  (Z.of_nat (String.length (Marshal (connectErrorPayload st))) <= maxBytes ->
     r = (grpcCodeToHTTPStatus (st_code st), Marshal (connectErrorPayload st)))%Z.
Proof.
  intros Hm. unfold httpErrorWithLimit, exceeds. cbv zeta. rewrite (proj2 (Z.ltb_lt 0 maxBytes) Hm). cbn [andb].
  destruct (Z.ltb_spec maxBytes (Z.of_nat (String.length (Marshal (connectErrorPayload st))))) as [Hl|Hl].
  - split; [|lia]. cbn [snd]. match goal with |- context [if ?b then _ else _] => destruct b eqn:E end; [simpl; lia|].
    apply Z.ltb_ge in E. exact E.
  - split; [exact Hl|done].
Qed.

Lemma control_envelope_bounded streamErr trailer :
  (Z.of_nat (String.length (connectEndStreamPayload streamErr trailer)) <= maxConnectControlEnvelope)%Z.
Proof.
  unfold connectEndStreamPayload. cbv zeta. match goal with |- context [if ?b then ?x else ?y] => destruct b eqn:E end.
  - by apply Z.leb_le.
  - assert (grpcCodeName ResourceExhausted = "resource_exhausted") as Hn.
    { pose proof grpcCodeName_table as Hall. rewrite list.Forall_forall in Hall.
      apply (Hall (8%Z, "resource_exhausted")). by_computation. }
    unfold connectErrorPayload. cbn [st_code st_message st_details connectStatusDetails map]. rewrite Hn. vm_compute. discriminate.
Qed.
End Codes.

(** A failure is never reported with a success status. *)
Lemma error_status_failure code : code <> OK -> (400 <= grpcCodeToHTTPStatus code)%Z.
Proof.
  intros Hc. unfold grpcCodeToHTTPStatus, httpStatuses. cbn [assocZ].
  destruct (Z.eqb_spec code OK) as [|_]; [done|]. repeat (match goal with |- context [if ?b then _ else _] => destruct b end; [simpl; lia|]).
  simpl. lia.
Qed.

(** ** The timeout *)

Lemma digitsValue_bound s acc : allBytes isDigit s = true -> (0 <= acc)%Z ->
  (0 <= digitsValue acc s < (acc + 1) * 10 ^ Z.of_nat (String.length s))%Z.
Proof.
  revert acc. induction s as [|c s IH]; intros acc; cbn [allBytes digitsValue String.length]; [lia|].
  intros [Hc Hs]%andb_true_iff Ha. unfold isDigit, inRange in Hc.
  apply andb_true_iff in Hc as [H1%N.leb_le H2%N.leb_le]. assert (48 <= byteZ c <= 57)%Z as Hb by (unfold byteZ; lia).
  specialize (IH (acc * 10 + (byteZ c - 48))%Z Hs ltac:(lia)). rewrite Nat2Z.inj_succ, Z.pow_succ_r by lia.
  pose proof (Z.pow_pos_nonneg 10 (Z.of_nat (String.length s))). nia.
Qed.

(** An accepted timeout is positive and does not overflow a 64-bit duration. *)
Lemma timeout_bounds raw ns : applyConnectTimeout (Some raw) = Ok (Some ns) -> (0 < ns < 2 ^ 63)%Z.
Proof.
  unfold applyConnectTimeout. intros H. apply bind_Ok in H as ([]&Hl%failIf_Ok&H).
  apply bind_Ok in H as ([]&Hd%failIf_Ok&H). apply bind_Ok in H as ([]&Hp%failIf_Ok&[= <-]).
  apply negb_false_iff in Hd. pose proof (digitsValue_bound raw 0 Hd ltac:(lia)) as Hb.
  assert (Z.of_nat (String.length raw) <= 10)%Z as Hlen by lia.
  pose proof (Z.pow_le_mono_r 10 (Z.of_nat (String.length raw)) 10). lia.
Qed.

(** ** Witnesses *)

Lemma envelope_exact_witness :
  readConnectEnvelope (bytes [0; 0; 0; 0; 2; 104; 105]%N) 2 = Data "hi".
Proof. apply envelope_exact. split; [vm_compute; reflexivity|right; vm_compute; discriminate]. Defined.

Example envelope_refused :
  readConnectEnvelope (bytes [0; 0; 0; 0; 2; 104; 105; 0]%N) 2 =
    StatusError InvalidArgument "stream request body must contain exactly one envelope" /\
  readConnectEnvelope (bytes [0; 255; 255; 255; 255; 1]%N) 1024 =
    StatusError ResourceExhausted "request envelope size 4294967295 exceeds 1024 byte limit" /\
  readConnectEnvelope (bytes [128; 0; 0; 0; 0]%N) 0 =
    StatusError InvalidArgument "request envelope has unsupported reserved flags 0x80".
Proof. split_and!; vm_compute; reflexivity. Qed.
