(* ===== verification/HttpRequest.v ===== *)
(** * Outbound HTTP requests (src/go/http_transcoding.go, src/go/http_client.go)

    How the client turns a request message into a method, a URL and a body: path
    templates, bindings of google.api.http rules, and the distribution of the fields
    of the message over the path, the body and the query.  A message is the JSON
    object [messageToMap] makes of it; a Go map is an object with distinct keys.
    Message descriptors are data: what [Fields().ByName] finds in each message. *)
From S2P Require Import Prelude GoStrings StringFacts Json Metadata Connect Url.
Import Metadata Connect Url.

Module HttpRequest.

(** ** Path templates *)

Record pathSegment : Type := mkSegment { literal : string; field : string; multi : bool }.
Record pathTemplate : Type := mkTemplate { segments : list pathSegment; trailingSlash : bool }.

Definition parseSegment (last : bool) (raw : string) : Outcome pathSegment :=
  if HasPrefix raw "{" && HasSuffix raw "}" then
    let inner := TrimSuffix (TrimPrefix raw "{") "}" in
    let '(field, wildcard) := if containsByte "=" inner then CutByte inner "=" else (inner, "*") in
    if String.eqb field "" then Err "empty field in variable segment"
    else if String.eqb wildcard "*" || String.eqb wildcard "" then Ok (mkSegment "" field false)
    else if String.eqb wildcard "**" then
      if negb last then Err "** wildcard is only supported in the final segment"
      else Ok (mkSegment "" field true)
    else Err ("unsupported wildcard pattern " +:+ Quote wildcard)
  else Ok (mkSegment raw "" false).

Fixpoint parseSegments (rawSegments : list string) : Outcome (list pathSegment) :=
  match rawSegments with
  | [] => Ok []
  | raw :: rest =>
      seg ← parseSegment (match rest with [] => true | _ => false end) raw;
      segs ← parseSegments rest;
      Ok (seg :: segs)
  end.

Definition parsePathTemplate (pattern : string) : Outcome pathTemplate :=
  _ ← failIf (negb (HasPrefix pattern "/")) "path must start with '/'";
  let trailing := (1 <? String.length pattern) && HasSuffix pattern "/" in
  let trimmed := TrimByte SLASH pattern in
  if String.eqb trimmed "" then Ok (mkTemplate [] false)
  else
    segs ← parseSegments (Split trimmed SLASH);
    Ok (mkTemplate segs trailing).

(** ** Bindings *)

Record httpClientBinding : Type := mkBinding {
  method : string;
  pattern : string;
  body : string;
  responseBody : string;
  template : pathTemplate;
  connect : bool
}.
Definition setConnect (b : httpClientBinding) : httpClientBinding :=
  mkBinding (method b) (pattern b) (body b) (responseBody b) (template b) true.

(** The pattern oneof of google.api.HttpRule. *)
Inductive RulePattern : Type :=
  | RuleGet (p : string) | RulePut (p : string) | RulePost (p : string) | RuleDelete (p : string) | RulePatch (p : string)
  | RuleCustom (custom : option (string * string))
  | RuleNone.
Record HttpRule : Type := mkRule { rule_pattern : RulePattern; rule_body : string; rule_response_body : string }.

(** [strings.ToUpper]; HTTP methods are ASCII tokens. *)
Definition ToUpper (s : string) : string := mapBytes (fun c => str1 (toUpperByte c)) s.

Definition httpMethodAndPattern (rule : HttpRule) : Outcome (string * string) :=
  match rule_pattern rule with
  | RuleGet p => Ok ("GET", p)
  | RulePost p => Ok ("POST", p)
  | RulePut p => Ok ("PUT", p)
  | RuleDelete p => Ok ("DELETE", p)
  | RulePatch p => Ok ("PATCH", p)
  | RuleCustom None => Err "custom pattern is nil"
  | RuleCustom (Some (kind, path)) => Ok (ToUpper kind, path)
  | RuleNone => Err "http rule missing pattern"
  end.

(** A field: its JSON name and the message it holds, if any. *)
Record FieldDesc : Type := mkFieldDesc { fd_JSONName : string; fd_Message : option string }.
Notation Descriptors := (gmap string (gmap string FieldDesc)).

Definition DOT : ascii := "."%char.

Section Bindings.
Context (descs : Descriptors).

Definition fieldByName (message name : string) : option FieldDesc := descs !! message ≫= fun fields => fields !! name.

(** [done] are the parts before [parts]. *)
Fixpoint jsonFieldPath (message : string) (done_ parts : list string) : Outcome (list string) :=
  match parts with
  | [] => Ok []
  | part :: rest =>
      let here := Join (done_ ++ [part]) "." in
      match fieldByName message part with
      | None => Err ("field " +:+ Quote here +:+ " does not exist in " +:+ message)
      | Some f =>
          match rest with
          | [] => Ok [fd_JSONName f]
          | _ =>
              match fd_Message f with
              | None => Err ("field " +:+ Quote here +:+ " is not a message")
              | Some m =>
                  names ← jsonFieldPath m (done_ ++ [part]) rest;
                  Ok (fd_JSONName f :: names)
              end
          end
      end
  end.
Definition protobufJSONFieldPath (message fieldPath : string) : Outcome string :=
  names ← jsonFieldPath message [] (Split fieldPath DOT);
  Ok (Join names ".").

Definition bindSegment (requestDescriptor : string) (seg : pathSegment) : Outcome pathSegment :=
  if String.eqb (field seg) "" then Ok seg
  else
    name ← protobufJSONFieldPath requestDescriptor (field seg);
    Ok (mkSegment (literal seg) name (multi seg)).

Definition bindSelector (what descriptor selector : string) : Outcome string :=
  if String.eqb selector "" || String.eqb selector "*" then Ok selector
  else wrapErr ("invalid " +:+ what +:+ " selector " +:+ Quote selector +:+ ": ") (protobufJSONFieldPath descriptor selector).

Definition newHTTPClientBinding (method pattern body responseBody requestDescriptor responseDescriptor : string)
  : Outcome httpClientBinding :=
  let invalid {A} : Outcome A -> Outcome A := wrapErr ("invalid route pattern " +:+ Quote pattern +:+ ": ") in
  template ← invalid (parsePathTemplate pattern);
  segs ← invalid (mapOutcome (bindSegment requestDescriptor) (segments template));
  body ← bindSelector "body" requestDescriptor body;
  responseBody ← bindSelector "response body" responseDescriptor responseBody;
  Ok (mkBinding (ToUpper method) pattern body responseBody (mkTemplate segs (trailingSlash template)) false).

Definition pickHTTPClientBinding (rule : option HttpRule) (svcFullName methodName requestDescriptor responseDescriptor : string)
  : Outcome httpClientBinding :=
  match rule with
  | None =>
      b ← newHTTPClientBinding "POST" ("/" +:+ svcFullName +:+ "/" +:+ methodName) "*" "" requestDescriptor responseDescriptor;
      Ok (setConnect b)
  | Some rule =>
      mp ← httpMethodAndPattern rule;
      newHTTPClientBinding mp.1 mp.2 (rule_body rule) (rule_response_body rule) requestDescriptor responseDescriptor
  end.
End Bindings.

(** ** Values *)

(** [cloneMap] and [cloneSlice]: a deep copy. *)
Fixpoint cloneValue (v : JsonValue) : JsonValue :=
  match v with
  | JObject l => JObject (map (fun kv => (kv.1, cloneValue kv.2)) l)
  | JArray l => JArray (map cloneValue l)
  | _ => v
  end.

Fixpoint getPath (parts : list string) (v : JsonValue) : option JsonValue :=
  match parts with
  | [] => Some v
  | part :: parts =>
      match v with
      | JObject l => next ← assoc part l; getPath parts next
      | _ => None
      end
  end.
Definition getNestedField (root : JsonValue) (fieldPath : string) : option JsonValue := getPath (Split fieldPath DOT) root.

Definition deleteKey (key : string) (l : list (string * JsonValue)) : list (string * JsonValue) :=
  filter (fun kv => kv.1 <> key) l.
(** The nested map is updated in place. *)
Definition updateKey (key : string) (v : JsonValue) (l : list (string * JsonValue)) : list (string * JsonValue) :=
  map (fun kv => if decide (kv.1 = key) then (key, v) else kv) l.

Fixpoint deletePath (parts : list string) (v : JsonValue) : JsonValue :=
  match parts, v with
  | [], _ => v
  | [part], JObject l => JObject (deleteKey part l)
  | part :: parts, JObject l =>
      match assoc part l with
      | Some (JObject m) => JObject (updateKey part (deletePath parts (JObject m)) l)
      | _ => v
      end
  | _, _ => v
  end.
Definition deleteNestedField (root : JsonValue) (fieldPath : string) : JsonValue := deletePath (Split fieldPath DOT) root.

(** [wrapResponseBody]: the payload under the given path. *)
Definition wrapResponseBody (payload : JsonValue) (fieldPath : string) : JsonValue :=
  match filter (fun part => part <> "") (Split fieldPath DOT) with
  | [] => JObject []
  | parts => foldr (fun part out => JObject [(part, out)]) payload parts
  end.

Definition goType (v : JsonValue) : string :=
  match v with
  | JNull => "<nil>"
  | JObject _ => "map[string]interface {}"
  | JArray _ => "[]interface {}"
  | _ => ""
  end.
Definition scalarToString (v : JsonValue) : Outcome string :=
  match v with
  | JString s => Ok s
  | JBool b => Ok (FormatBool b)
  | JFloat f => Ok (FormatFloat f)
  | JNumber l => Ok l
  | JInt z => Ok (FormatInt z)
  | JNull | JObject _ | JArray _ => Err ("expected scalar value, got " +:+ goType v)
  end.

(** ** Path, query and body *)

Definition encodePathValue (v : JsonValue) (multi : bool) : Outcome string :=
  raw ← scalarToString v;
  Ok (if multi then Join (map PathEscape (Split raw SLASH)) "/" else PathEscape raw).

(** The errors of a call are statuses. *)
Notation Result A := (A + Status)%type.
Definition invalidArgument {A} (message : string) : Result A := inr (mkStatus InvalidArgument message []).

Fixpoint expandSegments (segs : list pathSegment) (args : JsonValue) : Result (list string * list string) :=
  match segs with
  | [] => inl ([], [])
  | seg :: segs =>
      if String.eqb (field seg) "" then
        match expandSegments segs args with
        | inl (parts, consumed) => inl (literal seg :: parts, consumed)
        | inr e => inr e
        end
      else
        match getNestedField args (field seg) with
        | None => invalidArgument ("missing path field " +:+ Quote (field seg))
        | Some raw =>
            match encodePathValue raw (multi seg) with
            | Ok encoded =>
                match expandSegments segs args with
                | inl (parts, consumed) => inl (encoded :: parts, field seg :: consumed)
                | inr e => inr e
                end
            | Err e => invalidArgument ("invalid path field " +:+ Quote (field seg) +:+ ": " +:+ e)
            | Panic _ | NoFuel => invalidArgument ""
            end
        end
  end.

Definition expandPath (b : httpClientBinding) (args : JsonValue) : Result (string * list string) :=
  match segments (template b) with
  | [] => inl ("/", [])
  | segs =>
      match expandSegments segs args with
      | inl (parts, consumed) =>
          inl ("/" +:+ Join parts "/" +:+ (if trailingSlash (template b) then "/" else ""), consumed)
      | inr e => inr e
      end
  end.

(** [json.Marshal] of a Go value: the keys of maps are sorted. *)
Fixpoint sortKeys (v : JsonValue) : JsonValue :=
  match v with
  | JObject l =>
      let l := map (fun kv => (kv.1, sortKeys kv.2)) l in
      JObject (omap (fun k => pair k <$> assoc k l) (sortStrings (map fst l)))
  | JArray l => JArray (map sortKeys l)
  | _ => v
  end.
Definition MarshalAny (v : JsonValue) : string := Marshal (sortKeys v).

Definition isEmptyObject (v : JsonValue) : bool := match v with JObject [] => true | _ => false end.

(** The bytes of the body, none when empty, and the selector that was consumed. *)
Definition encodeBody (b : httpClientBinding) (args : JsonValue) : string * string :=
  if String.eqb (body b) "" then ("", "")
  else if String.eqb (body b) "*" then
    (if isEmptyObject args && negb (connect b) then "" else MarshalAny args, "*")
  else match getNestedField args (body b) with
       | None => ("", body b)
       | Some v => (MarshalAny v, body b)
       end.

Definition childKey (prefix key : string) : string := if String.eqb prefix "" then key else prefix +:+ "." +:+ key.

Definition queryScalar (prefix : string) (v : JsonValue) : Result (string * string) :=
  match scalarToString v with
  | Ok raw => inl (prefix, raw)
  | Err e => invalidArgument ("invalid query value for " +:+ Quote prefix +:+ ": " +:+ e)
  | Panic _ | NoFuel => invalidArgument ""
  end.

Fixpoint collect {A} (l : list (Result A)) : Result (list A) :=
  match l with
  | [] => inl []
  | inl a :: l => match collect l with inl as_ => inl (a :: as_) | inr e => inr e end
  | inr e :: _ => inr e
  end.

(** The pairs [encodeQueryFields] adds, in order. *)
Fixpoint queryPairs (prefix : string) (v : JsonValue) : Result (list (string * string)) :=
  match v with
  | JNull => inl []
  | JObject l =>
      let members := map (fun kv => (kv.1, queryPairs (childKey prefix kv.1) kv.2)) l in
      match collect (omap (fun key => assoc key members) (sortStrings (map fst l))) with
      | inl ls => inl (concat ls)
      | inr e => inr e
      end
  | JArray l => collect (map (queryScalar prefix) l)
  | _ => match queryScalar prefix v with inl p => inl [p] | inr e => inr e end
  end.

Definition encodeQueryFields (prefix : string) (v : JsonValue) (query : Values) : Result Values :=
  match queryPairs prefix v with
  | inl ps => inl (foldl (fun q kv => appendValue kv.1 kv.2 q) query ps)
  | inr e => inr e
  end.

Definition joinBase (basePath endpointPath : string) : string :=
  let basePath := TrimSuffix basePath "/" in
  if String.eqb basePath "" then endpointPath
  else if String.eqb endpointPath "/" then basePath +:+ "/"
  else basePath +:+ endpointPath.

(** [args] is the result of [messageToMap]. *)
Definition build (b : httpClientBinding) (args : JsonValue + string) (baseURL : URL) : Result (string * string) :=
  match args with
  | inr e => invalidArgument ("marshal request JSON: " +:+ e)
  | inl args =>
      let working := cloneValue args in
      match expandPath b working with
      | inr e => inr e
      | inl (endpointPath, consumedPath) =>
          let working := foldl deleteNestedField working consumedPath in
          let '(bodyBytes, consumedBody) := encodeBody b working in
          let working := if negb (String.eqb consumedBody "") && negb (String.eqb consumedBody "*")
                         then deleteNestedField working consumedBody else working in
          match (if String.eqb (body b) "*" then inl ∅ else encodeQueryFields "" working ∅) : Result Values with
          | inr e => inr e
          | inl query =>
              let u := mkURL (u_origin baseURL) (joinBase (u_path baseURL) endpointPath) (u_rawPath baseURL)
                         (u_forceQuery baseURL) (Encode query) (u_fragment baseURL) in
              inl (bodyBytes, URL_String u)
          end
      end
  end.
End HttpRequest.
