(* ===== verification/HttpRequestSpec.v ===== *)
(** * Where the fields of a request go *)
From S2P Require Import Prelude GoStrings StringFacts Json JsonSpec Metadata MetadataSpec Connect Url HttpRequest.
Import Metadata Connect Url HttpRequest.

(** ** The leaves of a value

    The scalars, and the elements of arrays, each under the dotted path of its field. *)
Definition under (prefix key : string) : string := match prefix with EmptyString => key | _ => prefix +:+ "." +:+ key end.
Fixpoint leaves (prefix : string) (v : JsonValue) : list (string * JsonValue) :=
  match v with
  | JNull => []
  | JObject l => concat (map (fun kv => leaves (under prefix kv.1) kv.2) l)
  | JArray l => map (pair prefix) l
  | _ => [(prefix, v)]
  end.

(** A Go map has distinct keys. *)
Fixpoint distinct (v : JsonValue) : Prop :=
  match v with
  | JObject l => NoDup (map fst l) /\ foldr (fun kv P => distinct kv.2 /\ P) True l
  | _ => True
  end.

Definition scalar (v : JsonValue) : bool := match v with JNull | JArray _ | JObject _ => false | _ => true end.

Lemma scalar_leaves v prefix : scalar v = true -> leaves prefix v = [(prefix, v)].
Proof. by destruct v. Qed.
Lemma scalar_text v : (exists s, scalarToString v = Ok s) <-> scalar v = true.
Proof. destruct v; simpl; split; try done; try (intros [? ?]; done); intros _; by eexists. Qed.

Lemma distinct_member l k v : distinct (JObject l) -> assoc k l = Some v -> distinct v.
Proof.
  intros [_ H]. induction l as [|[j w] l IH]; [done|]. cbn in *. destruct H as [Hw H]. destruct (decide (k = j)); [|auto].
  intros [= ->]. done.
Qed.

(** ** Removing a member *)

Definition memberLeaves (prefix : string) (l : list (string * JsonValue)) : list (string * JsonValue) :=
  concat (map (fun kv => leaves (under prefix kv.1) kv.2) l).

Lemma deleteKey_absent k (l : list (string * JsonValue)) : k ∉ map fst l -> deleteKey k l = l.
Proof.
  unfold deleteKey. induction l as [|[j w] l IH]; [done|]. cbn [map fst]. rewrite not_elem_of_cons. intros [Hj Hl].
  rewrite filter_cons_True by (cbn; congruence). by rewrite IH.
Qed.
Lemma updateKey_absent k v (l : list (string * JsonValue)) : k ∉ map fst l -> updateKey k v l = l.
Proof.
  unfold updateKey. induction l as [|[j w] l IH]; [done|]. cbn [map fst]. rewrite not_elem_of_cons. intros [Hj Hl].
  rewrite decide_False by (cbn; congruence). by rewrite IH.
Qed.

Lemma leaves_deleteKey prefix k v l :
  NoDup (map fst l) -> assoc k l = Some v ->
  memberLeaves prefix l ≡ₚ memberLeaves prefix (deleteKey k l) ++ leaves (under prefix k) v.
Proof.
  induction l as [|[j w] l IH]; [done|]. cbn [map fst assoc]. intros [Hj Hl]%list.NoDup_cons. destruct (decide (k = j)) as [->|Hk].
  - intros [= ->]. unfold deleteKey. rewrite filter_cons_False by (cbn; naive_solver). fold (deleteKey j l).
    rewrite deleteKey_absent by done. unfold memberLeaves. cbn [map concat fst snd]. apply Permutation_app_comm.
  - intros Hv. unfold deleteKey. rewrite filter_cons_True by (cbn; congruence). fold (deleteKey k l).
    unfold memberLeaves in *. cbn [map concat fst snd]. rewrite (IH Hl Hv), app_assoc. done.
Qed.

Lemma leaves_updateKey prefix k v v' l more :
  NoDup (map fst l) -> assoc k l = Some v ->
  leaves (under prefix k) v ≡ₚ leaves (under prefix k) v' ++ more ->
  memberLeaves prefix l ≡ₚ memberLeaves prefix (updateKey k v' l) ++ more.
Proof.
  induction l as [|[j w] l IH]; [done|]. cbn [map fst assoc]. intros [Hj Hl]%list.NoDup_cons. unfold updateKey, memberLeaves in *.
  cbn [map concat fst snd]. destruct (decide (k = j)) as [->|Hk].
  - intros [= ->] Hp. rewrite decide_True by done. cbn [fst snd]. fold (updateKey j v' l).
    rewrite updateKey_absent by done. rewrite Hp, <- !app_assoc. f_equiv. apply Permutation_app_comm.
  - intros Hv Hp. rewrite decide_False by congruence. cbn [fst snd]. rewrite (IH Hl Hv Hp), app_assoc. done.
Qed.

Definition pathKey' (prefix : string) (parts : list string) : string := foldl under prefix parts.

(** What a deletion removes are the leaves of the value that was there. *)
Lemma leaves_deletePath parts v prefix w :
  distinct v -> parts <> [] -> getPath parts v = Some w ->
  leaves prefix v ≡ₚ leaves prefix (deletePath parts v) ++ leaves (pathKey' prefix parts) w.
Proof.
  revert v prefix. induction parts as [|p parts IH]; intros v prefix Hd Hne Hg; [done|].
  destruct v as [| | | | | | |l]; try done. cbn [getPath] in Hg. destruct (assoc p l) as [next|] eqn:Ha; [|done].
  cbn [mbind option_bind] in Hg. destruct parts as [|q parts].
  - injection Hg as ->. cbn [deletePath pathKey' foldl leaves]. apply leaves_deleteKey; [apply Hd|done].
  - pose proof (distinct_member _ _ _ Hd Ha) as Hn. destruct next as [| | | | | | |m]; try done.
    cbn [deletePath]. rewrite Ha. cbn [leaves]. eapply leaves_updateKey; [apply Hd|done|].
    exact (IH (JObject m) (under prefix p) Hn ltac:(done) Hg).
Qed.

(** ** Independent deletions *)

Lemma map_fst_updateKey k v (l : list (string * JsonValue)) : map fst (updateKey k v l) = map fst l.
Proof.
  unfold updateKey. rewrite map_map. apply map_ext. intros [j w]. cbn. by destruct (decide (j = k)).
Qed.
Lemma assoc_updateKey k j v (l : list (string * JsonValue)) :
  assoc j (updateKey k v l) = if decide (j = k) then (fun _ => v) <$> assoc j l else assoc j l.
Proof.
  induction l as [|[i w] l IH]; [by destruct (decide (j = k))|]. unfold updateKey in *. cbn [map fst].
  destruct (decide (i = k)) as [->|Hi]; cbn [assoc fst]; rewrite IH; repeat case_decide; by simplify_eq.
Qed.
Lemma assoc_deleteKey k j (l : list (string * JsonValue)) : j <> k -> assoc j (deleteKey k l) = assoc j l.
Proof.
  intros Hj. unfold deleteKey. induction l as [|[i w] l IH]; [done|]. destruct (decide (i = k)) as [->|Hi].
  - rewrite filter_cons_False by (cbn; naive_solver). cbn [assoc]. by rewrite decide_False.
  - rewrite filter_cons_True by done. cbn [assoc]. by rewrite IH.
Qed.

Lemma distinct_object l : distinct (JObject l) <-> NoDup (map fst l) /\ Forall (fun kv => distinct kv.2) l.
Proof.
  cbn. apply and_iff_compat_l. induction l as [|[j w] l IH]; cbn; [done|]. rewrite IH, list.Forall_cons. done.
Qed.
Lemma distinct_deletePath parts v : distinct v -> distinct (deletePath parts v).
Proof.
  revert v. induction parts as [|p parts IH]; intros v Hd; [done|]. destruct v as [| | | | | | |l]; try (by destruct parts).
  pose proof (proj1 (distinct_object l) Hd) as [Hn Hl]. destruct parts as [|q parts].
  - apply distinct_object. unfold deleteKey. split.
    + eapply sublist_NoDup; [exact Hn|]. apply (fmap_sublist fst), sublist_filter.
    + apply list.Forall_forall. intros kv [_ H]%list_elem_of_filter. by apply (proj1 (list.Forall_forall _ _) Hl).
  - cbn [deletePath]. destruct (assoc p l) as [[| | | | | | |m]|] eqn:Ha; try done. apply distinct_object.
    rewrite map_fst_updateKey. split; [done|]. unfold updateKey. apply List.Forall_map. eapply list.Forall_impl; [exact Hl|].
    intros [j w] Hw. cbn [fst]. destruct (decide (j = p)); [|done]. apply (IH (JObject m)). exact (distinct_member _ _ _ Hd Ha).
Qed.

Lemma deletePath_cons a c p l :
  deletePath (a :: c :: p) (JObject l)
  = match assoc a l with Some (JObject m) => JObject (updateKey a (deletePath (c :: p) (JObject m)) l) | _ => JObject l end.
Proof. done. Qed.

(** A deletion leaves the other scalars where they are. *)
Lemma getPath_deletePath p1 p2 v w1 w2 :
  p1 <> p2 -> getPath p1 v = Some w1 -> scalar w1 = true -> getPath p2 v = Some w2 -> scalar w2 = true ->
  getPath p2 (deletePath p1 v) = Some w2.
Proof.
  revert p2 v. induction p1 as [|a p1 IH]; intros p2 v Hne H1 S1 H2 S2.
  { injection H1 as ->. destruct p2 as [|b p2]; [done|]. by destruct w1. }
  destruct v as [| | | | | | |l]; try done. destruct p2 as [|b p2]; [by injection H2 as <-|].
  cbn [getPath] in H1, H2. destruct (assoc a l) as [na|] eqn:Ea; [|done]. destruct (assoc b l) as [nb|] eqn:Eb; [|done].
  cbn [mbind option_bind] in *. destruct (decide (b = a)) as [->|Hab].
  - replace nb with na in * by congruence. destruct p1 as [|c p1].
    { injection H1 as ->. destruct p2; [done|]. by destruct w1. }
    destruct na as [| | | | | | |m]; try done. rewrite deletePath_cons, Ea. cbn [getPath]. rewrite assoc_updateKey, decide_True, Ea by done.
    cbn [mbind option_bind fmap option_fmap option_map]. apply IH; congruence.
  - destruct p1 as [|c p1].
    + cbn [deletePath getPath]. by rewrite assoc_deleteKey, Eb.
    + destruct na as [| | | | | | |m]; try done. rewrite deletePath_cons, Ea. cbn [getPath]. by rewrite assoc_updateKey, decide_False, Eb.
Qed.

Lemma updateKey_same k v (l : list (string * JsonValue)) : NoDup (map fst l) -> assoc k l = Some v -> updateKey k v l = l.
Proof.
  induction l as [|[j w] l IH]; [done|]. cbn [map fst assoc]. intros [Hj Hl]%list.NoDup_cons. unfold updateKey in *. cbn [map fst].
  destruct (decide (k = j)) as [->|Hk].
  - intros [= ->]. rewrite decide_True by done. f_equal. by apply updateKey_absent.
  - intros Hv. rewrite decide_False by congruence. by rewrite IH.
Qed.

(** Deleting what is not there changes nothing. *)
Lemma deletePath_missing parts v : distinct v -> getPath parts v = None -> deletePath parts v = v.
Proof.
  revert v. induction parts as [|p parts IH]; intros v Hd Hg; [done|]. destruct v as [| | | | | | |l]; try (by destruct parts).
  cbn [getPath] in Hg. destruct parts as [|q parts].
  - cbn [deletePath]. rewrite deleteKey_absent; [done|]. apply assoc_None. by destruct (assoc p l).
  - rewrite deletePath_cons. destruct (assoc p l) as [w|] eqn:Ha; [|done]. cbn [mbind option_bind] in Hg.
    destruct w as [| | | | | | |m]; try done. rewrite (IH (JObject m) (distinct_member _ _ _ Hd Ha) Hg).
    by rewrite updateKey_same by (apply Hd || done).
Qed.

(** ** Dotted paths *)

Lemma Join_Split s c : Join (Split s c) (str1 c) = s.
Proof.
  induction s as [|d s IH]; [done|]. cbn [Split]. pose proof (Split_nonnil s c) as Hne.
  destruct (Ascii.eqb_spec d c) as [->|Hd].
  - destruct (Split s c) as [|x l] eqn:E; [done|]. change (Join (?y :: ?x :: ?l) ?z) with (y +:+ z +:+ Join (x :: l) z).
    rewrite IH. done.
  - destruct (Split s c) as [|x [|y l]] eqn:E; [done|by rewrite <- IH|]. rewrite <- IH. done.
Qed.
Lemma Split_inj c s t : Split s c = Split t c -> s = t.
Proof. intros H. by rewrite <- (Join_Split s c), H, Join_Split. Qed.

Lemma under_nonempty p k : p <> "" -> under p k = p +:+ "." +:+ k.
Proof. by destruct p. Qed.
Lemma childKey_under p k : childKey p k = under p k.
Proof. by destruct p. Qed.
Lemma pathKey'_Join p parts : p <> "" -> pathKey' p parts = Join (p :: parts) ".".
Proof.
  revert p. induction parts as [|q parts IH]; intros p Hp; [done|]. cbn [pathKey' foldl]. rewrite under_nonempty by done.
  fold (pathKey' (p +:+ "." +:+ q) parts). rewrite IH.
  - destruct parts as [|r parts]; [done|]. cbn [Join]. rewrite !append_assoc. done.
  - intros H. apply append_eq_nil in H as [H _]. done.
Qed.

(** The parts of a dotted path are not empty. *)
Definition dotted (f : string) : Prop := Forall (fun p => p <> "") (Split f DOT).
Lemma dotted_key f : dotted f -> pathKey' "" (Split f DOT) = f.
Proof.
  intros Hf. unfold dotted in Hf. rewrite <- (Join_Split f DOT) at 2. destruct (Split f DOT) as [|p parts] eqn:E; [done|].
  apply list.Forall_cons in Hf as [Hp _]. change (pathKey' "" (p :: parts)) with (pathKey' p parts). by rewrite pathKey'_Join.
Qed.

(** ** The path *)

Definition fieldsOf (segs : list pathSegment) : list string := filter (fun f => f <> "") (map field segs).
Definition consumes (args : JsonValue) (f : string) (w : JsonValue) : Prop := getNestedField args f = Some w /\ scalar w = true.

Lemma encodePathValue_scalar v m s : encodePathValue v m = Ok s -> scalar v = true.
Proof.
  unfold encodePathValue. intros H. apply scalar_text. destruct (scalarToString v) as [t| | |]; try discriminate H. by exists t.
Qed.

Lemma consumes_after v f w fs ws :
  consumes v f w -> f ∉ fs -> Forall2 (consumes v) fs ws -> Forall2 (consumes (deleteNestedField v f)) fs ws.
Proof.
  intros [Hg Hs] Hf Hc. induction Hc as [|g u fs ws [Hg' Hs'] Hc IH]; constructor; [|apply IH; set_solver].
  split; [|done]. unfold getNestedField, deleteNestedField in *. eapply getPath_deletePath; eauto.
  intros H. apply Split_inj in H. set_solver.
Qed.

(** The fields of the path are taken out, and nothing else. *)
Lemma leaves_consumed fs ws v :
  distinct v -> NoDup fs -> Forall dotted fs -> Forall2 (consumes v) fs ws ->
  leaves "" v ≡ₚ zip fs ws ++ leaves "" (foldl deleteNestedField v fs).
Proof.
  revert v ws. induction fs as [|f fs IH]; intros v ws Hd Hn Hf Hc.
  { apply Forall2_nil_inv_l in Hc as ->. reflexivity. }
  apply Forall2_cons_inv_l in Hc as (w&ws'&Hw&Hc&->). pose proof Hw as [Hg Hs]. apply list.NoDup_cons in Hn as [Hnf Hn].
  apply list.Forall_cons in Hf as [Hdot Hf]. cbn [foldl zip zip_with]. unfold getNestedField in Hg.
  rewrite (leaves_deletePath (Split f DOT) v "" w Hd (Split_nonnil f DOT) Hg), dotted_key by done.
  fold (deleteNestedField v f).
  rewrite (IH (deleteNestedField v f) ws'); [|by apply distinct_deletePath|done|done|by eapply consumes_after].
  rewrite (scalar_leaves w f Hs). rewrite (Permutation_app_comm _ [(f, w)]). reflexivity.
Qed.

(** ** The query *)

(** The text of a scalar, as it is written in a path or a query. *)
Definition textOf (v : JsonValue) : string :=
  match v with
  | JString s => s
  | JBool b => if b then "true" else "false"
  | JFloat f => FormatFloat f
  | JNumber l => l
  | JInt z => FormatInt z
  | _ => ""
  end.
Lemma scalarToString_text v s : scalarToString v = Ok s -> s = textOf v.
Proof. destruct v as [| | | | |[]| |]; try done; by intros [= <-]. Qed.
Definition leafText (leaf : string * JsonValue) : string * string := (leaf.1, textOf leaf.2).

Lemma collect_inl {A} (l : list (A + Status)) ls : collect l = inl ls <-> l = map inl ls.
Proof.
  revert ls. induction l as [|[a|e] l IH]; intros ls; cbn [collect].
  - destruct ls; naive_solver.
  - split.
    + destruct (collect l) as [as_|e] eqn:E; [|done]. intros [= <-]. cbn [map]. f_equal. by apply IH.
    + intros H. destruct ls as [|b ls]; [done|]. injection H as -> H. apply IH in H. by rewrite H.
  - split; [done|]. by destruct ls.
Qed.

Lemma omap_assoc {A} (ms : list (string * A)) ks :
  NoDup (map fst ms) -> ks ≡ₚ map fst ms -> omap (fun k => assoc k ms) ks ≡ₚ map snd ms.
Proof.
  intros Hn Hk. rewrite Hk. clear ks Hk. induction ms as [|[k v] ms IH]; [done|]. cbn [map fst snd] in *.
  apply list.NoDup_cons in Hn as [Hk Hn]. cbn [omap list_omap assoc]. rewrite decide_True by done. f_equiv.
  rewrite <- (IH Hn). apply Permutation_refl'. apply list_omap_ext, Forall_Forall2_diag, list.Forall_forall. intros j Hj.
  rewrite decide_False; [done|]. by intros ->.
Qed.

Lemma queryScalar_inl prefix v p :
  queryScalar prefix v = inl p <-> scalar v = true /\ p = leafText (prefix, v).
Proof.
  unfold queryScalar, leafText. destruct v as [| | | | |[]| |]; cbn [scalarToString scalar fst snd textOf FormatBool]; naive_solver.
Qed.

Lemma map_inl_scalars prefix l ps :
  map (queryScalar prefix) l = map inl ps <-> Forall (fun v => scalar v = true) l /\ ps = map leafText (map (pair prefix) l).
Proof.
  revert ps. induction l as [|v l IH]; intros ps; cbn [map].
  { split; [by destruct ps|]. by intros [_ ->]. }
  rewrite list.Forall_cons. split.
  - destruct ps as [|p ps]; [done|]. cbn [map]. intros [= Hp Hl]. apply queryScalar_inl in Hp as [Hs ->].
    apply IH in Hl as [Hl ->]. done.
  - intros [[Hv Hl] ->]. cbn [map]. rewrite (proj2 (queryScalar_inl prefix v _) (conj Hv eq_refl)).
    by rewrite (proj2 (IH _) (conj Hl eq_refl)).
Qed.

(** The query has a pair for every leaf; it exists exactly when the leaves are scalars. *)
Definition queryExact (prefix : string) (v : JsonValue) : Prop :=
  (forall ps, queryPairs prefix v = inl ps ->
     ps ≡ₚ map leafText (leaves prefix v) /\ Forall (fun leaf => scalar leaf.2 = true) (leaves prefix v)) /\
  (Forall (fun leaf => scalar leaf.2 = true) (leaves prefix v) -> exists ps, queryPairs prefix v = inl ps).

Lemma query_scalar prefix v : scalar v = true -> queryExact prefix v.
Proof.
  intros Hs. unfold queryExact. rewrite (scalar_leaves v prefix Hs).
  assert (queryPairs prefix v = inl [leafText (prefix, v)]) as -> by (by destruct v as [| | | | |[]| |]).
  split; [|by eexists]. intros ps [= <-]. split; [done|]. by constructor.
Qed.

Lemma query_members prefix (l : list (string * JsonValue)) :
  Forall (fun kv => queryExact (under prefix kv.1) kv.2) l ->
  (forall ls, map (fun kv => queryPairs (under prefix kv.1) kv.2) l = map inl ls ->
     concat ls ≡ₚ map leafText (memberLeaves prefix l) /\ Forall (fun leaf => scalar leaf.2 = true) (memberLeaves prefix l)) /\
  (Forall (fun leaf => scalar leaf.2 = true) (memberLeaves prefix l) ->
     exists ls, map (fun kv => queryPairs (under prefix kv.1) kv.2) l = map inl ls).
Proof.
  unfold memberLeaves. induction 1 as [|kv l [H1 H2] Hl [IH1 IH2]]; cbn [map concat].
  { split; [intros [|] [=]; by split|]. intros _. by exists []. }
  split.
  - intros [|ps ls] [=]. destruct (H1 ps) as [Hp Hs]; [done|]. destruct (IH1 ls) as [Hp' Hs']; [done|].
    cbn [concat]. rewrite map_app, Hp, Hp'. split; [done|]. by apply list.Forall_app.
  - intros [Hs Hs']%list.Forall_app. destruct (H2 Hs) as [ps ->]. destruct (IH2 Hs') as [ls ->]. by exists (ps :: ls).
Qed.

Lemma queryPairs_leaves v prefix : distinct v -> queryExact prefix v.
Proof.
  revert prefix. induction v as [|s|z|f|n|b|l _|l IH] using json_ind; intros prefix Hd; try (by apply query_scalar).
  - split; [by intros ps [= <-]|by eexists].
  - split; cbn [queryPairs leaves].
    + intros ps [Hs ->]%collect_inl%map_inl_scalars. split; [done|]. by apply List.Forall_map.
    + intros Hs. apply List.Forall_map in Hs. eexists. by apply collect_inl, map_inl_scalars.
  - apply distinct_object in Hd as [Hn Hd].
    assert (Forall (fun kv => queryExact (under prefix kv.1) kv.2) l) as Hq.
    { eapply list.Forall_impl; [exact (List.Forall_and IH Hd)|]. cbn. intros kv [H1 H2]. by apply H1. }
    destruct (query_members prefix l Hq) as [H1 H2].
    set (members := map (fun kv => (kv.1, queryPairs (childKey prefix kv.1) kv.2)) l).
    assert (map fst members = map fst l) as Hf by (unfold members; by rewrite map_map).
    assert (map snd members = map (fun kv => queryPairs (under prefix kv.1) kv.2) l) as Hm.
    { unfold members. rewrite map_map. apply map_ext. intros kv. cbn. by rewrite childKey_under. }
    assert (omap (fun key => assoc key members) (sortStrings (map fst l)) ≡ₚ map snd members) as Hp.
    { apply omap_assoc; rewrite Hf; [done|apply merge_sort_Permutation]. }
    split; cbn [queryPairs]; fold members; change (leaves prefix (JObject l)) with (memberLeaves prefix l).
    + intros ps H. destruct (collect _) as [ls|] eqn:E; [|done]. injection H as <-. apply collect_inl in E. rewrite E in Hp.
      symmetry in Hp. apply Permutation_map_inv in Hp as (ls'&Hl&Hls). rewrite Hm in Hl. destruct (H1 _ Hl) as [Hc Hs].
      split; [|done]. by rewrite Hls.
    + intros Hs. destruct (H2 Hs) as [ls Hls]. rewrite Hm, Hls in Hp. apply Permutation_map_inv in Hp as (ls'&Hl&_).
      rewrite (proj2 (collect_inl _ ls') Hl). by eexists.
Qed.

(** ** The query as a receiver reads it *)

Definition valuesOf (key : string) (ps : list (string * string)) : list string := map snd (filter (fun kv => kv.1 = key) ps).
Definition addPairs (q : Values) (ps : list (string * string)) : Values := foldl (fun q kv => appendValue kv.1 kv.2 q) q ps.

Lemma valuesOf_cons key kv ps : valuesOf key (kv :: ps) = (if decide (kv.1 = key) then [kv.2] else []) ++ valuesOf key ps.
Proof. unfold valuesOf. rewrite filter_cons. by destruct (decide (kv.1 = key)). Qed.
Lemma valuesOf_app key ps qs : valuesOf key (ps ++ qs) = valuesOf key ps ++ valuesOf key qs.
Proof. unfold valuesOf. by rewrite list.filter_app, map_app. Qed.
#[local] Instance valuesOf_proper key : Proper ((≡ₚ) ==> (≡ₚ)) (valuesOf key).
Proof. intros ps qs H. unfold valuesOf. by rewrite H. Qed.

Lemma addPairs_lookup key ps q : default [] (addPairs q ps !! key) = default [] (q !! key) ++ valuesOf key ps.
Proof.
  revert q. unfold addPairs. induction ps as [|[k v] ps IH]; intros q; cbn [foldl]; [by rewrite app_nil_r|].
  rewrite IH, valuesOf_cons. cbn [fst snd]. unfold appendValue. destruct (decide (k = key)) as [->|Hk].
  - rewrite lookup_insert_eq. cbn. by rewrite <- app_assoc.
  - by rewrite lookup_insert_ne.
Qed.

Lemma valuesOf_keys key (ks : list string) (f : string -> list string) :
  NoDup ks -> valuesOf key (concat (map (fun k => map (pair k) (f k)) ks)) = if decide (key ∈ ks) then f key else [].
Proof.
  assert (forall k l, valuesOf key (map (pair k) l) = if decide (k = key) then l else []) as Hpair.
  { intros k l. induction l as [|x l IH]; cbn [map]; [by destruct (decide (k = key))|]. rewrite valuesOf_cons, IH. cbn.
    by destruct (decide (k = key)). }
  induction ks as [|k ks IH]; [done|]. intros [Hk Hn]%list.NoDup_cons. cbn [map concat]. rewrite valuesOf_app, Hpair, (IH Hn).
  destruct (decide (k = key)) as [->|Hne].
  - rewrite (decide_False (P := key ∈ ks)), decide_True by set_solver. by rewrite app_nil_r.
  - destruct (decide (key ∈ ks)); [by rewrite decide_True by set_solver|by rewrite decide_False by set_solver].
Qed.

Lemma pairs_values key q : valuesOf key (pairs q) = default [] (q !! key).
Proof.
  unfold pairs. assert (sortStrings (map fst (map_to_list q)) ≡ₚ map fst (map_to_list q)) as Hp by apply merge_sort_Permutation.
  rewrite (valuesOf_keys key _ (fun k => default [] (q !! k))).
  - destruct (decide _) as [_|Hn]; [done|]. rewrite Hp in Hn. destruct (q !! key) as [vs|] eqn:E; [|done].
    destruct Hn. apply elem_of_map_to_list in E. apply (list_elem_of_fmap_2 fst _ (key, vs)). done.
  - rewrite Hp. apply NoDup_fst_map_to_list.
Qed.

(** Decoding an encoded query gives every key its values, in order. *)
Lemma query_decoded q key : default [] (ParseQuery (Encode q) !! key) = default [] (q !! key).
Proof. unfold Encode. rewrite ParseQuery_pairs. fold (addPairs ∅ (pairs q)). by rewrite addPairs_lookup, lookup_empty, pairs_values. Qed.

(** ** The whole request *)

Lemma cloneValue_id v : cloneValue v = v.
Proof.
  induction v as [|s|z|f|n|b|l IH|l IH] using json_ind; cbn [cloneValue]; try done; f_equal.
  - rewrite <- (map_id l) at 2. apply map_ext_Forall. done.
  - rewrite <- (map_id l) at 2. apply map_ext_Forall. eapply list.Forall_impl; [exact IH|]. intros [k v] H. cbn in *. by rewrite H.
Qed.

(** A body selector: none, everything, or a field. *)
Definition selector (s : string) : Prop := s = "" \/ s = "*" \/ dotted s.

Definition bodyOf (bodyBytes : string) (ls : list (string * JsonValue)) : Prop :=
  bodyBytes = "" /\ ls = [] \/ exists prefix v, bodyBytes = MarshalAny v /\ ls = leaves prefix v.

(** The leaves left after the path go to the body and to the query. *)
Lemma body_and_query b working bodyBytes consumed query :
  selector (body b) -> distinct working ->
  encodeBody b working = (bodyBytes, consumed) ->
  (if String.eqb (body b) "*" then inl ∅
   else encodeQueryFields "" (if negb (String.eqb consumed "") && negb (String.eqb consumed "*")
                              then deleteNestedField working consumed else working) ∅) = (inl query : Values + Status) ->
  exists bodyLeaves queryLeaves,
    leaves "" working ≡ₚ bodyLeaves ++ queryLeaves /\ bodyOf bodyBytes bodyLeaves /\
    forall key, default [] (query !! key) ≡ₚ valuesOf key (map leafText queryLeaves).
Proof.
  assert (forall w q, distinct w -> encodeQueryFields "" w ∅ = inl q ->
    forall key, default [] (q !! key) ≡ₚ valuesOf key (map leafText (leaves "" w))) as Hquery.
  { intros w q Hw Hq key. unfold encodeQueryFields in Hq. destruct (queryPairs "" w) as [ps|] eqn:E; [|done]. injection Hq as <-.
    fold (addPairs ∅ ps). rewrite addPairs_lookup, lookup_empty. cbn. apply (queryPairs_leaves w "" Hw) in E as [E _]. by rewrite E. }
  unfold encodeBody. intros Hsel Hd. destruct (String.eqb_spec (body b) "") as [Hb|Hb].
  { intros [= <- <-]. rewrite Hb. cbn [String.eqb negb andb]. intros Hq. exists [], (leaves "" working).
    split; [done|]. split; [by left|]. by apply Hquery. }
  destruct (String.eqb_spec (body b) "*") as [Hs|Hs].
  { intros [= <- <-] [= <-]. exists (leaves "" working), []. split; [by rewrite app_nil_r|]. split; [|intros key; by rewrite lookup_empty].
    destruct (isEmptyObject working && negb (connect b)) eqn:E; [|right; by eexists "", _]. left. split; [done|].
    apply andb_true_iff in E as [E _]. by destruct working as [| | | | | | |[|]]. }
  destruct Hsel as [?|[?|Hdot]]; [done|done|]. destruct (getNestedField working (body b)) as [v|] eqn:E; intros [= <- <-];
    rewrite (proj2 (String.eqb_neq _ _) Hb), (proj2 (String.eqb_neq _ _) Hs); cbn [negb andb]; intros Hq.
  - exists (leaves (body b) v), (leaves "" (deleteNestedField working (body b))). split_and!.
    + unfold getNestedField in E. rewrite (leaves_deletePath _ _ "" v Hd (Split_nonnil _ _) E), dotted_key by done.
      apply Permutation_app_comm.
    + right. by eexists _, v.
    + apply Hquery; [by apply distinct_deletePath|done].
  - exists [], (leaves "" (deleteNestedField working (body b))). split_and!; [|by left|apply Hquery; [by apply distinct_deletePath|done]].
    unfold getNestedField, deleteNestedField in *. by rewrite deletePath_missing.
Qed.

Lemma distinct_deletions fs v : distinct v -> distinct (foldl deleteNestedField v fs).
Proof. revert v. induction fs as [|f fs IH]; intros v Hd; [done|]. cbn [foldl]. by apply IH, distinct_deletePath. Qed.

(** The URL a binding builds, before it is printed. *)
Definition target (b : httpClientBinding) (base : URL) (path : string) (query : Values) : URL :=
  mkURL (u_origin base) (joinBase (u_path base) path) (u_rawPath base) (u_forceQuery base) (Encode query) (u_fragment base).

(** What a receiver reads from a part of the path: the percent-decoding of a part, or of
    each piece of one that spans several. *)
Definition readPart (multi : bool) (part : string) : option string :=
  if multi then (fun pieces => Join pieces "/") <$> mapM (fun piece => unescape piece encodePathSegment) (Split part SLASH)
  else unescape part encodePathSegment.
(** The parts of a path that fills a template with values. *)
Inductive fills : list pathSegment -> list JsonValue -> list string -> Prop :=
  | fills_nil : fills [] [] []
  | fills_literal seg segs values parts :
      field seg = "" -> fills segs values parts -> fills (seg :: segs) values (literal seg :: parts)
  | fills_field seg segs v values part parts :
      field seg <> "" -> scalar v = true -> readPart (multi seg) part = Some (textOf v) -> fills segs values parts ->
      fills (seg :: segs) (v :: values) (part :: parts).
Definition pathText (t : pathTemplate) (parts : list string) : string :=
  match segments t with [] => "/" | _ => "/" +:+ Join parts "/" +:+ (if trailingSlash t then "/" else "") end.

Lemma PathEscape_noSlash s : noByte SLASH (PathEscape s) = true.
Proof.
  unfold PathEscape, escape. induction s as [|c s IH]; [done|]. cbn [mapBytes]. rewrite noByte_append, IH, andb_true_r.
  clear. destruct c as [[] [] [] [] [] [] [] []]; reflexivity.
Qed.
Lemma encodePathValue_read v m part : encodePathValue v m = Ok part -> scalar v = true /\ readPart m part = Some (textOf v).
Proof.
  intros He. split; [by eapply encodePathValue_scalar|]. unfold encodePathValue in He. destruct (scalarToString v) as [raw| | |] eqn:E; try discriminate He.
  apply scalarToString_text in E as <-. injection He as <-. unfold readPart. destruct m; [|apply unescape_escape].
  rewrite (Split_Join SLASH).
  - assert (mapM (fun piece => unescape piece encodePathSegment) (map PathEscape (Split raw SLASH)) = Some (Split raw SLASH)) as ->.
    { apply mapM_Some_2. induction (Split raw SLASH) as [|x l IH]; constructor; [apply unescape_escape|exact IH]. }
    cbn [fmap option_fmap option_map]. f_equal. apply (Join_Split raw SLASH).
  - apply List.Forall_map, list.Forall_forall. intros. apply PathEscape_noSlash.
  - intros H. apply (Split_nonnil raw SLASH). by destruct (Split raw SLASH).
Qed.
Lemma expandSegments_fills segs args parts consumed :
  expandSegments segs args = inl (parts, consumed) ->
  consumed = fieldsOf segs /\ exists ws, Forall2 (consumes args) consumed ws /\ fills segs ws parts.
Proof.
  revert parts consumed. unfold fieldsOf. induction segs as [|seg segs IH]; intros parts consumed; cbn [expandSegments map].
  { intros [= <- <-]. split; [done|]. exists []. split; constructor. }
  destruct (String.eqb_spec (field seg) "") as [Hf|Hf].
  - rewrite Hf, filter_cons_False by naive_solver. destruct (expandSegments segs args) as [[ps cs]|]; [|done].
    intros [= <- <-]. destruct (IH _ _ eq_refl) as (->&ws&Hws&Hfill). split; [done|]. exists ws. split; [done|by constructor].
  - rewrite filter_cons_True by done. destruct (getNestedField args (field seg)) as [raw|] eqn:Eg; [|done].
    destruct (encodePathValue raw (multi seg)) as [e| | |] eqn:Ee; try done.
    destruct (expandSegments segs args) as [[ps cs]|]; [|done]. intros [= <- <-].
    destruct (IH _ _ eq_refl) as (->&ws&Hws&Hfill). apply encodePathValue_read in Ee as [Hs Hread]. split; [done|]. exists (raw :: ws).
    split; [by constructor|by constructor].
Qed.
Lemma expandPath_fills b args path consumed :
  expandPath b args = inl (path, consumed) ->
  consumed = fieldsOf (segments (template b)) /\
  exists parts ws, path = pathText (template b) parts /\ Forall2 (consumes args) consumed ws /\ fills (segments (template b)) ws parts.
Proof.
  unfold expandPath, pathText. destruct (segments (template b)) as [|seg segs] eqn:E.
  { intros [= <- <-]. split; [done|]. exists [], []. split_and!; constructor. }
  destruct (expandSegments (seg :: segs) args) as [[parts cs]|] eqn:Ex; [|done]. intros [= <- <-].
  apply expandSegments_fills in Ex as (->&ws&Hc&Hf). split; [done|]. by exists parts, ws.
Qed.


(** ** The path as a receiver reads it *)

Definition segmentText (args : JsonValue) (seg : pathSegment) (part : string) : Prop :=
  if String.eqb (field seg) "" then part = literal seg
  else exists w raw, getNestedField args (field seg) = Some w /\ scalarToString w = Ok raw /\
       part = if multi seg then Join (map PathEscape (Split raw SLASH)) "/" else PathEscape raw.

Lemma expandSegments_parts segs args parts consumed :
  expandSegments segs args = inl (parts, consumed) -> Forall2 (segmentText args) segs parts.
Proof.
  revert parts consumed. induction segs as [|seg segs IH]; intros parts consumed; cbn [expandSegments]; [intros [= <- <-]; constructor|].
  destruct (String.eqb (field seg) "") eqn:Hf.
  - destruct (expandSegments segs args) as [[ps cs]|]; [|done]. intros [= <- <-]. constructor; [|by eapply IH].
    unfold segmentText. by rewrite Hf.
  - destruct (getNestedField args (field seg)) as [raw|] eqn:Eg; [|done].
    destruct (encodePathValue raw (multi seg)) as [e| | |] eqn:Ee; try done.
    destruct (expandSegments segs args) as [[ps cs]|]; [|done]. intros [= <- <-]. constructor; [|by eapply IH].
    unfold segmentText. rewrite Hf. unfold encodePathValue in Ee. destruct (scalarToString raw) as [t| | |] eqn:Et; try done.
    injection Ee as <-. exists raw, t. done.
Qed.

Definition singleSegment (seg : pathSegment) : Prop := noByte SLASH (literal seg) = true /\ multi seg = false.

Lemma parts_noSlash args segs parts :
  Forall2 (segmentText args) segs parts -> Forall singleSegment segs -> Forall (fun s => noByte SLASH s = true) parts.
Proof.
  induction 1 as [|seg part segs parts Hs _ IH]; [by constructor|]. intros [[Hl Hm] Hsegs]%list.Forall_cons.
  constructor; [|by apply IH]. unfold segmentText in Hs. destruct (String.eqb (field seg) ""); [by subst|].
  destruct Hs as (w&raw&_&_&->). rewrite Hm. apply PathEscape_noSlash.
Qed.

(** A receiver that decodes the path of the URL once finds the literals of the
    template and, for each variable, the percent-encoding of its value: the values
    are escaped by the client and again when the URL is printed. *)
Theorem path_escaped_twice b args base path consumed query :
  u_rawPath base = "" -> u_path base = "" -> Forall singleSegment (segments (template b)) ->
  segments (template b) <> [] -> trailingSlash (template b) = false ->
  expandPath b args = inl (path, consumed) ->
  exists parts, unescape (EscapedPath (target b base path query)) encodePath = Some (String SLASH (Join parts "/")) /\
    Split (Join parts "/") SLASH = parts /\ Forall2 (segmentText args) (segments (template b)) parts.
Proof.
  intros Hr Hp Hs Hne Ht. unfold expandPath. destruct (segments (template b)) as [|seg segs] eqn:E; [done|].
  destruct (expandSegments (seg :: segs) args) as [[parts cs]|] eqn:Ex; [|done]. rewrite Ht, append_nil_r. intros [= <- <-].
  pose proof (expandSegments_parts _ _ _ _ Ex) as Hparts. exists parts. split_and!; [| |done].
  - unfold EscapedPath, target. cbn [u_rawPath u_path]. rewrite Hr, Hp. cbn [String.eqb negb andb].
    change (joinBase "" ?p) with p. change ("/" +:+ ?p) with (String SLASH p). cbn [String.eqb Ascii.eqb Bool.eqb].
    apply unescape_escape.
  - apply (Split_Join SLASH); [by eapply parts_noSlash|]. intros ->. by apply Forall2_nil_inv_r in Hparts.
Qed.

(** ** Templates *)

Lemma Split_parts s c : Forall (fun p => noByte c p = true) (Split s c).
Proof.
  induction s as [|d s IH]; [by constructor|]. cbn [Split]. destruct (Ascii.eqb d c) eqn:E; [by constructor|].
  destruct (Split s c) as [|x xs]; [constructor; [|done]; unfold str1|apply list.Forall_cons in IH as [Hx Hxs]; constructor; [|done]];
    unfold noByte; cbn [allBytes]; by rewrite E.
Qed.

(** What a template is made of: a literal without slashes or a named variable, and
    only the last segment may span several. *)
Definition wfSegment (last : bool) (seg : pathSegment) : Prop :=
  (field seg = "" -> multi seg = false /\ noByte SLASH (literal seg) = true) /\
  (field seg <> "" -> literal seg = "") /\ (multi seg = true -> last = true).
Fixpoint wfSegments (segs : list pathSegment) : Prop :=
  match segs with
  | [] => True
  | seg :: rest => wfSegment (match rest with [] => true | _ => false end) seg /\ wfSegments rest
  end.

Lemma parseSegment_wf last raw seg : noByte SLASH raw = true -> parseSegment last raw = Ok seg -> wfSegment last seg.
Proof.
  unfold parseSegment, wfSegment. intros Hraw. destruct (HasPrefix raw "{" && HasSuffix raw "}"); [|by intros [= <-]].
  destruct (if containsByte "=" _ then _ else _) as [f wild]. destruct (String.eqb_spec f "") as [|Hf]; [done|].
  destruct (_ || _); [by intros [= <-]|]. destruct (String.eqb wild "**"); [|done]. destruct last; [|done]. by intros [= <-].
Qed.

Lemma parseSegments_wf raws segs :
  Forall (fun p => noByte SLASH p = true) raws -> parseSegments raws = Ok segs -> wfSegments segs /\ length segs = length raws.
Proof.
  revert segs. induction raws as [|raw raws IH]; intros segs Hr; cbn [parseSegments]; [by intros [= <-]|].
  apply list.Forall_cons in Hr as [H1 H2]. intros (seg&Hs&(segs'&Hss&[= <-])%bind_Ok)%bind_Ok.
  destruct (IH _ H2 Hss) as [Hw Hl]. split; [|cbn; congruence]. cbn [wfSegments]. split; [|done].
  pose proof (parseSegment_wf _ _ _ H1 Hs) as Hp. destruct raws, segs'; try done.
Qed.

Lemma template_wf pattern t : parsePathTemplate pattern = Ok t -> wfSegments (segments t).
Proof.
  unfold parsePathTemplate. intros (_&_&H)%bind_Ok. destruct (String.eqb _ ""); [by injection H as <-|].
  apply bind_Ok in H as (segs&Hs&[= <-]). eapply parseSegments_wf; [|exact Hs]. apply Split_parts.
Qed.

(** ** Applications *)

Definition getBinding : httpClientBinding :=
  mkBinding "GET" "/v1/{name}/items" "" "" (mkTemplate [mkSegment "v1" "" false; mkSegment "" "name" false; mkSegment "items" "" false] false) false.
Definition postBinding : httpClientBinding :=
  mkBinding "POST" "/v1/{parent.name}" "item" "" (mkTemplate [mkSegment "v1" "" false; mkSegment "" "parent.name" false] false) false.
Definition someArgs : JsonValue :=
  JObject [("parent", JObject [("name", JString "a b"); ("size", JFloat (mkFloat false "5" 1))]);
           ("tags", JArray [JString "x&y"; JString "z"]);
           ("item", JObject [("title", JString "t")])].
Definition someBase : URL := mkURL "http://host" "" "" false "" "".

Example post_request :
  build postBinding (inl someArgs) someBase
  = inl (JsonParse.quotes "{'title':'t'}", "http://host/v1/a%2520b?parent.size=5&tags=x%26y&tags=z").
Proof. vm_compute. reflexivity. Qed.


Lemma path_escaped_twice_witness :
  exists parts,
    unescape (EscapedPath (target getBinding someBase "/v1/a%20b/items" ∅)) encodePath = Some (String SLASH (Join parts "/")) /\
    Split (Join parts "/") SLASH = parts /\
    Forall2 (segmentText (JObject [("name", JString "a b")])) (segments (template getBinding)) parts.
Proof.
  apply (path_escaped_twice getBinding (JObject [("name", JString "a b")]) someBase "/v1/a%20b/items" ["name"] ∅).
  - reflexivity.
  - reflexivity.
  - cbn. repeat constructor.
  - cbn. discriminate.
  - reflexivity.
  - vm_compute. reflexivity.
Defined.
