(* ===== verification/HttpClient.v ===== *)
(** * The HTTP client (src/go/http_client.go)

    One call with its retries, the delays between them, what an error response
    becomes, and the headers taken from the environment.  The network and the clock
    are a script: what each attempt observes of the context, of the header provider
    and of the server, and how far away an HTTP date is.  protojson is a function
    from JSON text to a message. *)
From S2P Require Import Prelude GoStrings StringFacts Json JsonParse Base64 Metadata Connect Url HttpRequest.
Import Metadata Connect Url HttpRequest.

Module HttpClient.

(** ** Errors of a response *)

(** [encoding/json] matches the keys of a struct by folding case. *)
Definition namesField (key name : string) : bool := String.eqb key name || String.eqb (foldName key) (foldName name).

Record detail : Type := mkDetail { d_type : string; d_value : string }.
Record envelope : Type := mkEnvelope { e_code : string; e_message : string; e_details : list detail }.

(** Decoding into a string field: null leaves it, another kind is an error. *)
Definition intoString (old : string) (v : JsonValue) : option string :=
  match v with
  | JString s => Some s
  | JNull => Some old
  | _ => None
  end.

Definition detailField (d : detail) (kv : string * JsonValue) : option detail :=
  if namesField kv.1 "type" then t ← intoString (d_type d) kv.2; Some (mkDetail t (d_value d))
  else if namesField kv.1 "value" then v ← intoString (d_value d) kv.2; Some (mkDetail (d_type d) v)
  else Some d.
Fixpoint foldOption {A S} (f : S -> A -> option S) (l : list A) (s : S) : option S :=
  match l with
  | [] => Some s
  | a :: l => s ← f s a; foldOption f l s
  end.
Definition intoDetail (old : detail) (v : JsonValue) : option detail :=
  match v with
  | JObject l => foldOption detailField l old
  | JNull => Some old
  | _ => None
  end.
(** Elements are decoded over those the slice already holds. *)
Fixpoint intoDetails (old : list detail) (l : list JsonValue) : option (list detail) :=
  match l with
  | [] => Some []
  | v :: l =>
      d ← intoDetail (match old with d :: _ => d | [] => mkDetail "" "" end) v;
      ds ← intoDetails (match old with _ :: old => old | [] => [] end) l;
      Some (d :: ds)
  end.

Definition envelopeField (e : envelope) (kv : string * JsonValue) : option envelope :=
  if namesField kv.1 "code" then c ← intoString (e_code e) kv.2; Some (mkEnvelope c (e_message e) (e_details e))
  else if namesField kv.1 "message" then m ← intoString (e_message e) kv.2; Some (mkEnvelope (e_code e) m (e_details e))
  else if namesField kv.1 "details" then
    match kv.2 with
    | JArray l => ds ← intoDetails (e_details e) l; Some (mkEnvelope (e_code e) (e_message e) ds)
    | JNull => Some (mkEnvelope (e_code e) (e_message e) [])
    | _ => None
    end
  else Some e.
Definition decodeEnvelope (body : string) : option envelope :=
  v ← Unmarshal body;
  match v with
  | JObject l => foldOption envelopeField l (mkEnvelope "" "" [])
  | JNull => Some (mkEnvelope "" "" [])
  | _ => None
  end.

Definition anyOf (d : detail) : option (string * string) :=
  if String.eqb (d_type d) "" then None
  else pair ("type.googleapis.com/" +:+ d_type d) <$> decodeBin (d_value d).

Section Errors.
Context `{CodeNames}.

Definition httpClientError (statusCode : Z) (body : string) : Status :=
  let fallback := mkStatus (grpcCodeFromHTTPStatus statusCode) ("HTTP " +:+ FormatInt statusCode) [] in
  let st :=
    match decodeEnvelope body with
    | Some payload =>
        match connectCodeFromName (e_code payload) with
        | Some code =>
            mkStatus code (if String.eqb (e_message payload) "" then st_message fallback else e_message payload)
              (omap anyOf (e_details payload))
        | None => fallback
        end
    | None => fallback
    end in
  if (st_code st =? OK)%Z then mkStatus Unknown (st_message st) (st_details st) else st.
End Errors.

(** ** Retries *)

Definition baseHTTPClientRetryDelay : Z := 100 * 1000000.
Definition maxHTTPClientRetryDelay : Z := 2 * 1000000000.
Definition httpClientMaxResponseBytes : Z := Z.shiftl 16 20.
Definition defaultHTTPClientMaxRetries : nat := 2.

Definition shouldRetryHTTPStatus (statusCode : Z) : bool := bool_decide (statusCode ∈ [429; 500; 502; 503; 504]%Z).
Definition isSafeRetryMethod (m : string) : bool := bool_decide (ToUpper m ∈ ["GET"; "HEAD"]).

(** [int64] arithmetic. *)
Definition wrap64 (z : Z) : Z := ((z + 2 ^ 63) mod 2 ^ 64 - 2 ^ 63)%Z.

(** [strconv.Atoi] on a 64-bit platform: [None] on a syntax or range error. *)
Definition Atoi (s : string) : option Z :=
  let magnitude d := if negb (String.eqb d "") && allBytes isDigit d then Some (digitsValue 0 d) else None in
  z ← match s with
      | String c d => if Ascii.eqb c "-" then Z.opp <$> magnitude d
                      else if Ascii.eqb c "+" then magnitude d else magnitude s
      | EmptyString => None
      end;
  if (- 2 ^ 63 <=? z)%Z && (z <? 2 ^ 63)%Z then Some z else None.

Inductive CtxErr : Type := CtxDeadline | CtxCanceled | CtxOther.
Definition contextErrCode (e : CtxErr) : Z := match e with CtxDeadline => DeadlineExceeded | _ => Canceled end.

(** An error of the transport, and the context error it wraps. *)
Record NetErr : Type := mkNetErr { ne_text : string; ne_ctx : option CtxErr }.
Definition httpCallContextError (ctx : option CtxErr) (err : NetErr) : option CtxErr :=
  match ctx with
  | Some e => Some e
  | None => match ne_ctx err with Some CtxOther => None | o => o end
  end.

Record Response : Type := mkResponse { r_status : Z; r_retryAfter : string; r_body : string; r_readErr : option NetErr }.
Record Attempt : Type := mkAttempt {
  at_ctx : nat -> option CtxErr;
  at_newRequest : option string;
  at_headers : option (list (string * string) + string);
  at_do : Response + NetErr;
  at_sleep : option CtxErr
}.
Record Request : Type := mkRequest { rq_method : string; rq_url : string; rq_headers : gmap string string; rq_body : string }.
Inductive Event : Type :=
  | Sent (r : Request)
  | Slept (delay : Z).

Section Delays.
(** The time until the date of a Retry-After header, if it is one. *)
Context (until : string -> option Z).

Definition parseRetryAfterDelay (raw : string) : option Z :=
  let value := TrimSpace raw in
  if String.eqb value "" then None
  else match Atoi value with
       | Some secs => if (secs <=? 0)%Z then Some 0%Z else Some (wrap64 (secs * 1000000000))
       | None =>
           match until value with
           | Some d => if (d <? 0)%Z then Some 0%Z else Some d
           | None => None
           end
       end.

Fixpoint backoff (attempt : nat) (delay : Z) : Z :=
  match attempt with
  | 0 => delay
  | S attempt =>
      let delay := wrap64 (delay * 2) in
      if (maxHTTPClientRetryDelay <=? delay)%Z then maxHTTPClientRetryDelay else backoff attempt delay
  end.
Definition httpRetryDelay (attempt : nat) (retryAfter : string) : Z :=
  match parseRetryAfterDelay retryAfter with
  | Some d => d
  | None => backoff attempt baseHTTPClientRetryDelay
  end.

Definition sleepWithContext (a : Attempt) (delay : Z) : option CtxErr := if (delay <=? 0)%Z then at_ctx a 3 else at_sleep a.
End Delays.

(** ** Headers *)

Definition setHeader (name value : string) (h : gmap string string) : gmap string string := <[CanonicalHeaderKey name := value]> h.

Record httpDynamicHandler : Type := mkHandler {
  h_baseURL : URL;
  h_binding : httpClientBinding;
  h_headers : list (string * string);
  h_maxRetries : nat;
  h_methodPath : string
}.

Definition baseHeaders (h : httpDynamicHandler) (bodyBytes : string) : gmap string string :=
  let hs := if String.eqb bodyBytes "" then ∅ else setHeader "Content-Type" "application/json" ∅ in
  foldl (fun hs nv => setHeader nv.1 nv.2 hs) (setHeader "Accept" "application/json" hs) (h_headers h).

Definition applyDynamicHeaders (h : httpDynamicHandler) (provided : option (list (string * string) + string))
    (hs : gmap string string) : gmap string string + Status :=
  match provided with
  | None => inl hs
  | Some (inr e) =>
      inr (mkStatus Unauthenticated ("build outbound HTTP headers for " +:+ h_methodPath h +:+ ": " +:+ e) [])
  | Some (inl l) =>
      inl (foldl (fun hs nv =>
        if String.eqb nv.1 "" || String.eqb nv.2 "" then hs
        else if EqualFold nv.1 "Accept" || EqualFold nv.1 "Content-Type" then hs
        else setHeader nv.1 nv.2 hs) hs l)
  end.

Definition shouldRetry (h : httpDynamicHandler) (attempt : nat) (statusCode : Z) : bool :=
  if h_maxRetries h <=? attempt then false
  else if negb (isSafeRetryMethod (method (h_binding h))) then false
  else if (statusCode =? 0)%Z then true
  else shouldRetryHTTPStatus statusCode.

(** ** A call *)

Section Call.
Context `{CodeNames} (until : string -> option Z).
Context {Message : Type} (newResponse : Message) (unmarshalJSON : string -> Message + string).
(** [json.Unmarshal] into an [any] turns number literals into float64s; [None] is a range error. *)
Context (toFloats : JsonValue -> option JsonValue) (jsonError : string).

Definition decodeHTTPResponse (raw responseBody : string) : Message + string :=
  let trimmed := TrimSpace raw in
  if String.eqb trimmed "" then inl newResponse
  else if negb (String.eqb responseBody "") && negb (String.eqb responseBody "*") then
    match Unmarshal trimmed ≫= toFloats with
    | Some payload => unmarshalJSON (MarshalAny (wrapResponseBody payload responseBody))
    | None => inr jsonError
    end
  else unmarshalJSON trimmed.

Section Loop.
Context (h : httpDynamicHandler) (world : nat -> Attempt) (bodyBytes endpointURL : string).

Definition callText : string := "http call " +:+ method (h_binding h) +:+ " " +:+ endpointURL.
Definition ctxText (e : CtxErr) : string :=
  match e with CtxDeadline => "context deadline exceeded" | CtxCanceled => "context canceled" | CtxOther => "context error" end.
Definition canceled (e : CtxErr) : option (Message + Status) :=
  Some (inr (mkStatus (contextErrCode e) (callText +:+ " canceled: " +:+ ctxText e) [])).
Definition fails (code : Z) (message : string) : option (Message + Status) := Some (inr (mkStatus code message [])).

(** The reader stops one byte after the limit: an error beyond it is not seen. *)
Definition tooLarge (resp : Response) : bool := (httpClientMaxResponseBytes <? Z.of_nat (String.length (r_body resp)))%Z.

Definition success (resp : Response) : option (Message + Status) :=
  if String.eqb (TrimSpace (r_body resp)) "" then Some (inl newResponse)
  else match decodeHTTPResponse (TrimSpace (r_body resp)) (responseBody (h_binding h)) with
       | inl m => Some (inl m)
       | inr e => fails Internal ("decode HTTP response JSON: " +:+ e)
       end.

(** What follows an attempt: a result, or a retry after a delay. *)
Inductive Next : Type :=
  | Return (r : option (Message + Status))
  | Retry (delay : Z).

Definition retryOr (a : Attempt) (attempt : nat) (statusCode : Z) (retryAfter : string) (otherwise : option (Message + Status)) : Next :=
  if shouldRetry h attempt statusCode then
    let delay := httpRetryDelay until attempt retryAfter in
    match sleepWithContext a delay with
    | Some e => Return (canceled e)
    | None => Retry delay
    end
  else Return otherwise.

Definition afterDo (a : Attempt) (attempt : nat) : Next :=
  match at_do a with
  | inr err =>
      match httpCallContextError (at_ctx a 1) err with
      | Some e => Return (canceled e)
      | None => retryOr a attempt 0 "" (fails Unavailable (callText +:+ " failed: " +:+ ne_text err))
      end
  | inl resp =>
      match at_ctx a 1 with
      | Some e => Return (canceled e)
      | None =>
          if tooLarge resp then
            Return (fails ResourceExhausted ("upstream HTTP response exceeds " +:+ FormatInt httpClientMaxResponseBytes +:+ " byte limit"))
          else
            match r_readErr resp with
            | Some err =>
                match httpCallContextError (at_ctx a 2) err with
                | Some e => Return (canceled e)
                | None => retryOr a attempt (r_status resp) (r_retryAfter resp)
                            (fails Unavailable ("read HTTP response body: " +:+ ne_text err))
                end
            | None =>
                if (r_status resp <? 200)%Z || (300 <=? r_status resp)%Z then
                  match at_ctx a 2 with
                  | Some e => Return (canceled e)
                  | None => retryOr a attempt (r_status resp) (r_retryAfter resp)
                              (Some (inr (httpClientError (r_status resp) (r_body resp))))
                  end
                else Return (success resp)
            end
      end
  end.

(** The requests sent and the pauses between them, and the result. *)
Fixpoint attempts (fuel attempt : nat) : list Event * option (Message + Status) :=
  match fuel with
  | 0 => ([], None)
  | S fuel =>
      let a := world attempt in
      match at_ctx a 0 with
      | Some e => ([], canceled e)
      | None =>
          match at_newRequest a with
          | Some e => ([], fails InvalidArgument ("build HTTP request for " +:+ h_methodPath h +:+ ": " +:+ e))
          | None =>
              match applyDynamicHeaders h (at_headers a) (baseHeaders h bodyBytes) with
              | inr st => ([], Some (inr st))
              | inl hs =>
                  let sent := Sent (mkRequest (method (h_binding h)) endpointURL hs bodyBytes) in
                  match afterDo a attempt with
                  | Return r => ([sent], r)
                  | Retry delay => let '(events, r) := attempts fuel (S attempt) in (sent :: Slept delay :: events, r)
                  end
              end
          end
      end
  end.
End Loop.

(** [args] is what [messageToMap] gives for the request. *)
Definition callProto (h : httpDynamicHandler) (world : nat -> Attempt) (args : JsonValue + string) (fuel : nat)
  : list Event * option (Message + Status) :=
  match build (h_binding h) args (h_baseURL h) with
  | inr st => ([], Some (inr st))
  | inl (bodyBytes, endpointURL) => attempts h world bodyBytes endpointURL fuel 0
  end.
End Call.

(** ** Headers from the environment *)

Definition outboundHTTPHeaderEnvPrefix : string := "INVARIANT_HTTP_HEADER_".
Definition defaultOutboundHTTPUserAgent : string := "invariant-protocol/0.16.9".

Definition capitalize (part : string) : string :=
  match part with
  | EmptyString => part
  | String c r => String (toUpperByte c) r
  end.
Definition envHeaderSuffixToHTTPHeader (suffix : string) : string := Join (map capitalize (Split (ToLower suffix) USCORE)) "-".

Definition envHeader (out : gmap string string) (pair_ : string) : gmap string string :=
  if negb (containsByte "=" pair_) then out
  else
    let '(key, value) := CutByte pair_ "=" in
    if String.eqb value "" || negb (HasPrefix key outboundHTTPHeaderEnvPrefix) then out
    else
      let suffix := TrimPrefix key outboundHTTPHeaderEnvPrefix in
      if String.eqb suffix "" then out
      else
        let name := envHeaderSuffixToHTTPHeader suffix in
        if String.eqb name "Accept" || String.eqb name "Content-Type" then out else <[name := value]> out.
Definition outboundHTTPHeadersFromEnv (environ : list string) : gmap string string :=
  let out := foldl envHeader ∅ environ in
  match out !! "User-Agent" with
  | Some _ => out
  | None => <["User-Agent" := defaultOutboundHTTPUserAgent]> out
  end.
End HttpClient.
