(* ===== verification/HttpClientSpec.v ===== *)
(** * What a call over HTTP does *)
From S2P Require Import Prelude GoStrings StringFacts Utf8Facts Json JsonParse JsonSpec Base64 Metadata MetadataSpec Connect ConnectSpec Url HttpRequest HttpRequestSpec HttpClient.
Import Metadata Connect Url HttpRequest HttpClient.

(** ** Retries *)

Definition isSent (e : Event) : bool := match e with Sent _ => true | Slept _ => false end.
Definition sentCount (l : list Event) : nat := length (filter (fun e => isSent e = true) l).

Lemma sentCount_cons e l : sentCount (e :: l) = (if isSent e then 1 else 0) + sentCount l.
Proof. unfold sentCount. rewrite filter_cons. destruct e; cbn; by case_decide. Qed.

Section Retries.
Context `{CodeNames} (until : string -> option Z) {Message : Type} (newResponse : Message).
Context (unmarshalJSON : string -> Message + string) (toFloats : JsonValue -> option JsonValue) (jsonError : string).
Context (h : httpDynamicHandler) (world : nat -> Attempt) (bodyBytes endpointURL : string).

Notation attempts := (attempts until newResponse unmarshalJSON toFloats jsonError h world bodyBytes endpointURL).
Notation afterDo := (afterDo until newResponse unmarshalJSON toFloats jsonError h).

Lemma retryOr_Retry (a : Attempt) attempt statusCode retryAfter (otherwise : option (Message + Status)) url d :
  retryOr until h url a attempt statusCode retryAfter otherwise = Retry d ->
  shouldRetry h attempt statusCode = true /\ d = httpRetryDelay until attempt retryAfter.
Proof.
  unfold retryOr. destruct (shouldRetry h attempt statusCode); [|done]. destruct (sleepWithContext a _); [done|]. by intros [= <-].
Qed.

(** Only a safe method below the limit is retried. *)
Lemma afterDo_Retry a attempt d :
  afterDo endpointURL a attempt = Retry d ->
  attempt < h_maxRetries h /\ isSafeRetryMethod (method (h_binding h)) = true /\
  exists statusCode retryAfter, shouldRetry h attempt statusCode = true /\ d = httpRetryDelay until attempt retryAfter.
Proof.
  intros Hr. assert (exists statusCode retryAfter, shouldRetry h attempt statusCode = true /\ d = httpRetryDelay until attempt retryAfter)
    as (code&ra&Hs&Hd).
  { unfold HttpClient.afterDo in Hr. destruct (at_do a) as [resp|err].
    - destruct (at_ctx a 1); [done|]. destruct (tooLarge resp); [done|]. destruct (r_readErr resp) as [err|].
      + destruct (httpCallContextError _ err); [done|]. by apply retryOr_Retry in Hr as [? ?]; eauto.
      + destruct (_ || _); [|done]. destruct (at_ctx a 2); [done|]. by apply retryOr_Retry in Hr as [? ?]; eauto.
    - destruct (httpCallContextError _ err); [done|]. by apply retryOr_Retry in Hr as [? ?]; eauto. }
  unfold shouldRetry in Hs. destruct (Nat.leb_spec (h_maxRetries h) attempt); [done|].
  destruct (isSafeRetryMethod (method (h_binding h))) eqn:E; [|done]. split_and!; eauto. exists code, ra. split; [|done].
  unfold shouldRetry. destruct (Nat.leb_spec (h_maxRetries h) attempt); [lia|]. by rewrite E.
Qed.

(** A reply is decoded from a response that was read completely and whose status is a success. *)
Definition replied (i : nat) : Prop :=
  exists resp, at_do (world i) = inl resp /\ (200 <= r_status resp < 300)%Z /\ r_readErr resp = None /\ tooLarge resp = false.

Lemma retryOr_Return (a : Attempt) attempt statusCode retryAfter (otherwise : option (Message + Status)) url r :
  retryOr until h url a attempt statusCode retryAfter otherwise = Return r ->
  (exists e, otherwise = Some e) -> (exists e, r = Some (inr e)) \/ r = otherwise.
Proof.
  unfold retryOr. destruct (shouldRetry h attempt statusCode); [|intros [= <-]; by right].
  destruct (sleepWithContext a _); [|done]. intros [= <-] _. left. by eexists.
Qed.

Lemma afterDo_Return i attempt r :
  afterDo endpointURL (world i) attempt = Return r -> (exists st, r = Some (inr st)) \/ (exists m, r = Some (inl m)) /\ replied i.
Proof.
  unfold HttpClient.afterDo, replied. intros Hr. destruct (at_do (world i)) as [resp|err].
  - destruct (at_ctx (world i) 1); [injection Hr as <-; left; by eexists|].
    destruct (tooLarge resp) eqn:Et; [injection Hr as <-; left; by eexists|]. destruct (r_readErr resp) as [err|] eqn:Ee.
    + destruct (httpCallContextError _ err); [injection Hr as <-; left; by eexists|].
      apply retryOr_Return in Hr as [?| ->]; [by left|left; by eexists|by eexists].
    + destruct (Z.ltb_spec (r_status resp) 200), (Z.leb_spec 300 (r_status resp)); cbn [orb] in Hr;
        try (destruct (at_ctx (world i) 2); [injection Hr as <-; left; by eexists|];
             apply retryOr_Return in Hr as [?| ->]; [by left|left; by eexists|by eexists]).
      injection Hr as <-. unfold success. destruct (String.eqb _ ""); [right; split; [by eexists|]; exists resp; split_and!; done || lia|].
      destruct (decodeHTTPResponse _ _ _ _ _ _) as [m|e]; [|left; by eexists].
      right. split; [by eexists|]. exists resp. split_and!; done || lia.
  - destruct (httpCallContextError _ err); [injection Hr as <-; left; by eexists|].
    apply retryOr_Return in Hr as [?| ->]; [by left|left; by eexists|by eexists].
Qed.

Definition plays (fuel attempt : nat) : Prop :=
  exists r, (attempts fuel attempt).2 = Some r /\
    sentCount (attempts fuel attempt).1 <= S (h_maxRetries h - attempt) /\
    (isSafeRetryMethod (method (h_binding h)) = false -> sentCount (attempts fuel attempt).1 <= 1) /\
    (forall m, r = inl m -> exists i, replied i /\ attempt <= i <= h_maxRetries h).

Lemma plays_error fuel attempt st : attempts fuel attempt = ([], Some (inr st)) -> plays fuel attempt.
Proof. intros H'. unfold plays. rewrite H'. exists (inr st). cbn. split_and!; [done|lia|lia|done]. Qed.

Lemma attempts_bounded fuel attempt : h_maxRetries h < attempt + fuel -> attempt <= h_maxRetries h -> plays fuel attempt.
Proof.
  revert attempt. induction fuel as [|fuel IH]; intros attempt Hf Ha; [lia|]. cbn [HttpClient.attempts].
  destruct (at_ctx (world attempt) 0) as [e|] eqn:E0; [eapply plays_error; cbn; by rewrite E0|].
  destruct (at_newRequest (world attempt)) as [e|] eqn:E1; [eapply plays_error; cbn; by rewrite E0, E1|].
  destruct (applyDynamicHeaders h (at_headers (world attempt)) (baseHeaders h bodyBytes)) as [hs|st] eqn:E2;
    [|eapply plays_error; cbn; by rewrite E0, E1, E2].
  unfold plays. cbn [HttpClient.attempts]. rewrite E0, E1, E2. cbv zeta. destruct (afterDo endpointURL (world attempt) attempt) as [r|d] eqn:E3.
  - cbn [fst snd]. rewrite sentCount_cons. cbn [isSent sentCount].
    destruct (afterDo_Return _ _ _ E3) as [[st ->]|[[m ->] Hrep]]; eexists; (split_and!; [done|cbn; lia|cbn; lia|]).
    + done.
    + intros _ _. exists attempt. split; [done|lia].
  - destruct (afterDo_Retry _ _ _ E3) as (Hlt&Hsafe&_). destruct (IH (S attempt)) as (r&Hr&Hc&_&Hm); [lia|lia|].
    destruct (attempts fuel (S attempt)) as [events r'] eqn:E4. cbn [fst snd] in *. exists r. rewrite !sentCount_cons. cbn [isSent].
    split_and!; [done|lia|congruence|]. intros m Hrm. destruct (Hm m Hrm) as (i&Hi&?). exists i. split; [done|lia].
Qed.
End Retries.

(** C25: a call ends.  With room for one attempt more than the retries it returns a
    reply or a status; it sends at most that many requests, and at most one when the
    method is not safe to repeat; a reply comes from a response with a success status
    that was read to its end within the size limit. *)
Theorem call_terminates `{CodeNames} until {Message} (newResponse : Message) unmarshalJSON toFloats jsonError h world args :
  let '(events, r) := callProto until newResponse unmarshalJSON toFloats jsonError h world args (S (h_maxRetries h)) in
  exists result, r = Some result /\
    sentCount events <= S (h_maxRetries h) /\
    (isSafeRetryMethod (method (h_binding h)) = false -> sentCount events <= 1) /\
    (forall m, result = inl m -> exists i, replied world i /\ i <= h_maxRetries h).
Proof.
  unfold callProto. destruct (build (h_binding h) args (h_baseURL h)) as [[bodyBytes url]|st].
  - destruct (attempts_bounded until newResponse unmarshalJSON toFloats jsonError h world bodyBytes url (S (h_maxRetries h)) 0)
      as (r&Hr&Hc&Hs&Hm); [lia|lia|]. destruct (attempts _ _ _ _ _ _ _ _ _ _ _) as [events r']. cbn [fst snd] in *.
    exists r. split_and!; [done|lia|done|]. intros m Hrm. destruct (Hm m Hrm) as (i&Hi&?). exists i. split; [done|lia].
  - exists (inr st). split_and!; [done|cbn; lia|cbn; lia|done].
Qed.

(** ** Delays *)

Lemma wrap64_small z : (- 2 ^ 63 <= z < 2 ^ 63)%Z -> wrap64 z = z.
Proof. intros Hz. unfold wrap64. rewrite Z.mod_small by lia. lia. Qed.

Lemma backoff_exact attempt delay :
  (0 < delay < maxHTTPClientRetryDelay)%Z -> backoff attempt delay = Z.min (delay * 2 ^ Z.of_nat attempt) maxHTTPClientRetryDelay.
Proof.
  unfold maxHTTPClientRetryDelay. revert delay. induction attempt as [|n IH]; intros delay Hd; cbn [backoff].
  { change (2 ^ Z.of_nat 0)%Z with 1%Z. lia. }
  rewrite wrap64_small by lia. unfold maxHTTPClientRetryDelay. rewrite Nat2Z.inj_succ, Z.pow_succ_r by lia.
  destruct (Z.leb_spec (2 * 1000000000) (delay * 2)) as [Hl|Hl].
  - pose proof (Z.pow_pos_nonneg 2 (Z.of_nat n) ltac:(lia) ltac:(lia)). nia.
  - rewrite IH by lia. f_equal. lia.
Qed.

(** Without a Retry-After header the delay doubles from 100 ms up to two seconds. *)
Lemma retry_delay_default until attempt :
  httpRetryDelay until attempt "" = Z.min (baseHTTPClientRetryDelay * 2 ^ Z.of_nat attempt) maxHTTPClientRetryDelay.
Proof. unfold httpRetryDelay. apply backoff_exact. done. Qed.

(** A number of seconds that fits is honoured exactly. *)
Lemma retry_after_seconds until raw secs :
  Atoi (TrimSpace raw) = Some secs -> (secs <= 9223372036)%Z ->
  parseRetryAfterDelay until raw = Some (Z.max 0 secs * 1000000000)%Z.
Proof.
  intros Ha Hs. unfold parseRetryAfterDelay. destruct (String.eqb_spec (TrimSpace raw) "") as [E|_]; [by rewrite E in Ha|].
  rewrite Ha. destruct (Z.leb_spec secs 0); [f_equal; lia|]. rewrite wrap64_small by lia. f_equal. lia.
Qed.

(** A larger number overflows the duration: the client does not wait at all. *)
Lemma retry_after_overflow until a :
  parseRetryAfterDelay until "9223372037" = Some (-9223372036709551616)%Z /\
  sleepWithContext a (-9223372036709551616) = at_ctx a 3.
Proof. split; reflexivity. Qed.

(** ** Errors *)

Section ErrorRoundTrip.
Context `{CodeNamesLaws}.

(** A detail as the server has it, and as the client has it: the bytes of a named message,
    whatever the host of its type URL was. *)
Definition sameDetail (d d' : string * string) : Prop :=
  exists name, (d.1 = name \/ exists host, d.1 = host +:+ "/" +:+ name) /\ name <> "" /\ noByte SLASH name = true /\ ValidString name = true /\
    d' = ("type.googleapis.com/" +:+ name, d.2).

Lemma typeName_named url name : noByte SLASH name = true -> url = name \/ (exists host, url = host +:+ "/" +:+ name) -> typeName url = name.
Proof.
  intros Hn [->|[host ->]]; unfold typeName; [by rewrite CutLast_None|].
  change (host +:+ "/" +:+ name) with (host +:+ String SLASH name). by rewrite CutLast_append.
Qed.

Lemma max_list_le (l : list nat) n : Forall (fun m => m <= n) l -> max_list l <= n.
Proof.
  intros H'. destruct (decide (l = [])) as [->|Hne]; [cbn; lia|]. rewrite list.Forall_forall in H'. by apply H', max_list_elem_of.
Qed.

Lemma details_into ds ds' :
  Forall2 sameDetail ds ds' ->
  intoDetails [] (map (fun d => JObject [("type", JString (typeName d.1)); ("value", JString (RawEncodeToString d.2))]) ds)
  = Some (map (fun d => mkDetail (typeName d.1) (RawEncodeToString d.2)) ds).
Proof. induction 1 as [|d d' ds ds' _ _ IH]; [done|]. cbn [map intoDetails]. rewrite IH. done. Qed.

Lemma details_back ds ds' :
  Forall2 sameDetail ds ds' -> omap anyOf (map (fun d => mkDetail (typeName d.1) (RawEncodeToString d.2)) ds) = ds'.
Proof.
  induction 1 as [|[url bytes_] d' ds ds' (name&Hu&Hne&Hn&_&->) _ IH]; [done|]. cbn [map fst snd] in *.
  cbn [omap list_omap]. unfold anyOf at 1. cbn [d_type d_value]. rewrite (typeName_named url name Hn Hu).
  rewrite (proj2 (String.eqb_neq _ _) Hne). unfold decodeBin. rewrite raw_roundtrip. cbn. f_equal. exact IH.
Qed.

Lemma details_encodable ds ds' :
  Forall2 sameDetail ds ds' ->
  forallb encodable (map (fun d => JObject [("type", JString (typeName d.1)); ("value", JString (RawEncodeToString d.2))]) ds) = true.
Proof.
  induction 1 as [|[url bytes_] d' ds ds' (name&Hu&_&Hn&Hv&->) _ IH]; [done|]. cbn [map fst snd] in *.
  cbn [forallb encodable fst snd]. rewrite (typeName_named url name Hn Hu).
  rewrite Hv, (ValidString_ascii (RawEncodeToString bytes_) (raw_ascii bytes_)), IH. done.
Qed.

Lemma codeName_valid c : (1 <= c <= 16)%Z -> ValidString (grpcCodeName c) = true.
Proof.
  intros Hc. assert ((c, grpcCodeName c) ∈ map (fun i => (i, grpcCodeName i)) canonicalCodes) as Hin.
  { apply (list_elem_of_fmap_2' (fun i => (i, grpcCodeName i)) _ c); [|done].
    apply list_elem_of_In. unfold canonicalCodes. apply in_map_iff. exists (Z.to_nat c). rewrite in_seq. lia. }
  rewrite grpcCodeName_canonical in Hin. assert (Forall (fun cn => ValidString cn.2 = true) (tail codeTable)) as Hall by by_computation.
  rewrite list.Forall_forall in Hall. apply (Hall _ Hin).
Qed.

Lemma envelope_fields c m ds l :
  intoDetails [] ds = Some l ->
  foldOption envelopeField [("code", JString c); ("details", JArray ds); ("message", JString m)] (mkEnvelope "" "" [])
  = Some (mkEnvelope c m l).
Proof.
  intros Hl. assert (forall e, envelopeField e ("code", JString c) = Some (mkEnvelope c (e_message e) (e_details e))) as H1 by done.
  assert (forall e, envelopeField e ("message", JString m) = Some (mkEnvelope (e_code e) m (e_details e))) as H2 by done.
  assert (forall e, envelopeField e ("details", JArray ds) = (l ← intoDetails (e_details e) ds; Some (mkEnvelope (e_code e) (e_message e) l)))
    as H3 by done.
  cbn [foldOption]. rewrite H1. cbn [mbind option_bind]. rewrite H3. cbn [e_details]. rewrite Hl. cbn [mbind option_bind]. by rewrite H2.
Qed.

(** The client on the error body of a status. *)
Lemma error_received st details statusCode :
  (1 <= st_code st <= 16)%Z -> ValidString (st_message st) = true -> Forall2 sameDetail (st_details st) details ->
  httpClientError statusCode (Marshal (connectErrorPayload st))
  = mkStatus (st_code st) (if decide (st_message st = "") then "HTTP " +:+ FormatInt statusCode else st_message st) details.
Proof.
  intros Hc Hv Hd. unfold httpClientError. set (ds := connectStatusDetails st).
  assert (Hds : forallb encodable ds = true /\ intoDetails [] ds = Some (map (fun d => mkDetail (typeName d.1) (RawEncodeToString d.2)) (st_details st))
    /\ map literals ds = ds /\ max_list (map depth ds) <= 1).
  { unfold ds, connectStatusDetails. split_and!; [by eapply details_encodable|by eapply details_into|..].
    - rewrite map_map. by apply map_ext.
    - apply max_list_le, list.Forall_forall. rewrite map_map. by intros n (d&->&_)%list_elem_of_fmap. }
  destruct Hds as (He&Hi&Hlit&Hdep).
  assert (decodeEnvelope (Marshal (connectErrorPayload st))
    = Some (mkEnvelope (grpcCodeName (st_code st)) (st_message st) (map (fun d => mkDetail (typeName d.1) (RawEncodeToString d.2)) (st_details st)))) as ->.
  { unfold decodeEnvelope, connectErrorPayload. fold ds. rewrite json_roundtrip.
    - clear -Hi Hlit. destruct ds as [|d ds]; [|cbn [app literals map fst snd] in *; rewrite Hlit].
      + by destruct (st_details st).
      + exact (envelope_fields _ _ _ _ Hi).
    - cbn [encodable]. rewrite !forallb_app. cbn [forallb fst snd encodable]. rewrite codeName_valid, Hv by done.
      destruct ds as [|d ds]; [done|]. cbn [forallb fst snd encodable]. cbn [forallb] in He. rewrite He. done.
    - cbn [depth]. apply Nat.le_trans with 3; [|unfold maxNestingDepth; lia]. apply le_n_S, max_list_le.
      rewrite !map_app. cbn [map fst snd depth]. destruct ds as [|d ds]; cbn [map app fst snd depth];
        repeat (apply List.Forall_cons; [cbn [map] in *; lia|]); constructor. }
  cbn [e_code e_message e_details]. rewrite (proj2 (code_roundtrip (st_code st) _ Hc) eq_refl).
  rewrite (details_back _ _ Hd). cbn [st_code st_message st_details].
  destruct (Z.eqb_spec (st_code st) OK) as [E|_]; [unfold OK in E; lia|]. by destruct (String.eqb_spec (st_message st) ""); case_decide.
Qed.

Definition limitStatus : Status := mkStatus ResourceExhausted "encoded error response exceeds configured byte limit" [].
Definition fits (st : Status) (maxBytes : Z) : Prop :=
  (maxBytes <= 0 \/ Z.of_nat (String.length (Marshal (connectErrorPayload st))) <= maxBytes)%Z.

(** C26: what a client makes of an error.  For each of the sixteen error codes, a message
    in UTF-8 and details of named messages, when the encoded error is within the limit of
    the server, the client returns the code, the message and the details, under the
    standard host; only an empty message becomes the HTTP status.  When it is not, the
    client returns the error about the limit, and when that does not fit either,
    the status it makes of an empty response. *)
Theorem error_roundtrip st details maxBytes :
  (1 <= st_code st <= 16)%Z -> ValidString (st_message st) = true -> Forall2 sameDetail (st_details st) details ->
  let '(statusCode, payload) := httpErrorWithLimit st maxBytes in
  (fits st maxBytes -> httpClientError statusCode payload
     = mkStatus (st_code st) (if decide (st_message st = "") then "HTTP " +:+ FormatInt statusCode else st_message st) details) /\
  (~ fits st maxBytes -> fits limitStatus maxBytes -> httpClientError statusCode payload = limitStatus) /\
  (~ fits st maxBytes -> ~ fits limitStatus maxBytes -> httpClientError statusCode payload = mkStatus Unavailable "HTTP 429" []).
Proof.
  intros Hc Hv Hd. unfold httpErrorWithLimit, exceeds, fits. fold limitStatus. cbv zeta.
  destruct ((0 <? maxBytes)%Z && (maxBytes <? Z.of_nat (String.length (Marshal (connectErrorPayload st))))%Z) eqn:E.
  - destruct (Z.ltb_spec maxBytes (Z.of_nat (String.length (Marshal (connectErrorPayload limitStatus))))) as [Hl|Hl];
      (split_and!; intros; [exfalso; lia|..]); try (exfalso; lia).
    + vm_compute. reflexivity.
    + rewrite (error_received limitStatus []); [done|by cbn|by vm_compute|constructor].
  - split_and!; intros; try (exfalso; lia). by apply error_received.
Qed.
End ErrorRoundTrip.

(** ** Headers from the environment *)

Lemma envHeader_reserved name out pair_ :
  name = "Accept" \/ name = "Content-Type" -> out !! name = None -> envHeader out pair_ !! name = None.
Proof.
  intros Hn Ho. unfold envHeader. destruct (negb _); [done|]. destruct (CutByte pair_ "=") as [key value].
  destruct (_ || _); [done|]. destruct (String.eqb (TrimPrefix _ _) ""); [done|].
  destruct (String.eqb_spec (envHeaderSuffixToHTTPHeader (TrimPrefix key outboundHTTPHeaderEnvPrefix)) "Accept") as [|H1]; [done|].
  destruct (String.eqb_spec (envHeaderSuffixToHTTPHeader (TrimPrefix key outboundHTTPHeaderEnvPrefix)) "Content-Type") as [|H2]; [done|].
  cbn [orb]. rewrite lookup_insert_ne; [done|]. naive_solver.
Qed.

(** The environment never names the codec, and there is always a user agent. *)
Lemma env_headers environ :
  outboundHTTPHeadersFromEnv environ !! "Accept" = None /\
  outboundHTTPHeadersFromEnv environ !! "Content-Type" = None /\
  is_Some (outboundHTTPHeadersFromEnv environ !! "User-Agent").
Proof.
  assert (forall name out, name = "Accept" \/ name = "Content-Type" -> out !! name = None -> foldl envHeader out environ !! name = None) as Hf.
  { intros name. induction environ as [|p environ IH]; intros out Hn Ho; [done|]. cbn [foldl]. apply IH; [done|]. by apply envHeader_reserved. }
  unfold outboundHTTPHeadersFromEnv. cbv zeta. destruct (foldl envHeader ∅ environ !! "User-Agent") as [v|] eqn:E.
  - split_and!; [apply Hf; auto..|]. by eexists.
  - rewrite !lookup_insert_ne by done. split_and!; [apply Hf; auto..|]. rewrite lookup_insert_eq. by eexists.
Qed.

(** But a dash in the variable's name gets around the check: the header is set under
    the canonical form of its name. *)
Lemma env_header_bypass value :
  value <> "" ->
  setHeader (envHeaderSuffixToHTTPHeader "CONTENT-TYPE") value ∅ !! "Content-Type" = Some value /\
  envHeaderSuffixToHTTPHeader "CONTENT-TYPE" <> "Content-Type".
Proof. intros _. split; [|done]. unfold setHeader. by rewrite lookup_insert_eq. Qed.

(** ** Response bodies *)

(** The payload is found again under the path it was wrapped in. *)
Lemma wrap_get payload f : dotted f -> getNestedField (wrapResponseBody payload f) f = Some payload.
Proof.
  intros Hf. unfold wrapResponseBody, getNestedField. unfold dotted in Hf.
  assert (filter (fun part => part <> "") (Split f DOT) = Split f DOT) as ->.
  { clear -Hf. induction Hf as [|p l Hp _ IH]; [done|]. rewrite filter_cons_True by done. by rewrite IH. }
  pose proof (Split_nonnil f DOT). destruct (Split f DOT) as [|p l]; [done|]. clear.
  generalize (p :: l). intros parts. induction parts as [|q parts IH]; [done|]. cbn [foldr getPath assoc]. rewrite decide_True by done. exact IH.
Qed.

(** ** Applications *)

Definition generatedCodes : CodeNames := {| Code_String c := default (FormatInt c) (assocZ c rpcCodes) |}.

Lemma generatedCodes_laws : @CodeNamesLaws generatedCodes.
Proof.
  split; cbn [Code_String generatedCodes].
  - intros c n Hc. assert (Forall (fun cn => default (FormatInt cn.1) (assocZ cn.1 rpcCodes) = cn.2) rpcCodes) as Hall
      by (repeat constructor).
    rewrite list.Forall_forall in Hall. apply (Hall (c, n) Hc).
  - intros c Hc. assert (assocZ c rpcCodes = None) as ->; [|done]. revert Hc. generalize rpcCodes. intros l.
    induction l as [|[k v] l IH]; [done|]. cbn [fmap list_fmap fst assocZ]. rewrite not_elem_of_cons. intros [Hk Hl].
    rewrite (proj2 (Z.eqb_neq _ _) Hk). by apply IH.
Qed.

Definition someStatus : Status := mkStatus NotFound ("no <such> thing" +:+ str1 LF)
  [("type.googleapis.com/google.rpc.ErrorInfo", bytes [10; 0; 255]%N)].

Example some_error_response :
  @httpErrorWithLimit generatedCodes someStatus 1000
  = (404%Z, quotes "{'code':'not_found','details':[{'type':'google.rpc.ErrorInfo','value':'CgD/'}],'message':'no \u003csuch\u003e thing\n'}").
Proof. vm_compute. reflexivity. Qed.

Lemma error_roundtrip_witness :
  let '(statusCode, payload) := @httpErrorWithLimit generatedCodes someStatus 1000 in
  @httpClientError generatedCodes statusCode payload = someStatus.
Proof.
  pose proof (@error_roundtrip generatedCodes generatedCodes_laws someStatus (st_details someStatus) 1000) as H.
  destruct (@httpErrorWithLimit generatedCodes someStatus 1000) as [statusCode payload]. destruct H as [H _].
  - cbn. unfold NotFound. lia.
  - vm_compute. reflexivity.
  - constructor; [|constructor]. exists "google.rpc.ErrorInfo".
    split_and!; [right; exists "type.googleapis.com"; reflexivity|discriminate|vm_compute; reflexivity..].
  - rewrite H; [reflexivity|]. right. vm_compute. discriminate.
Defined.

(** A server that is overloaded twice: a GET is sent three times, a POST once. *)
Definition overloaded : nat -> Attempt := fun _ =>
  mkAttempt (fun _ => None) None None (inl (mkResponse 503 "" "" None)) None.
Definition someHandler (b : httpClientBinding) : httpDynamicHandler := mkHandler someBase b [] defaultHTTPClientMaxRetries "/pkg.S/M".
Definition someCall (b : httpClientBinding) (args : JsonValue) : list Event * option (string + Status) :=
  @callProto generatedCodes (fun _ => None) string "" inl Some "" (someHandler b) overloaded (inl args) 3.

Example retried_or_not :
  (map isSent (someCall getBinding (JObject [("name", JString "a")])).1, map isSent (someCall postBinding someArgs).1,
   (someCall postBinding someArgs).2)
  = ([true; false; true; false; true], [true], Some (inr (mkStatus Unavailable "HTTP 503" []))).
Proof. vm_compute. reflexivity. Qed.
