(* ===== verification/HttpConnect.v ===== *)
(** * Remote HTTP services (src/go/http_client.go, ConnectHTTP)

    The registration of a remote endpoint as proxied services: which methods, with
    which binding, and in which order the checks are made.  Parsing the base URL and
    reading the google.api.http extension of a method belong to net/url and to the
    protobuf runtime and are inputs. *)
From S2P Require Import Prelude GoStrings StringFacts ParsedDescriptor Reachable Server ServerSpec Json JsonSpec Metadata MetadataSpec Connect Url HttpRequest HttpRequestSpec HttpClient.

Import Server Metadata Connect Url HttpRequest HttpClient.

Module HttpConnect.

(** The extension of a method: absent, a rule, or something else. *)
Inductive MethodRule : Type := NoRule | HasRule (r : HttpRule) | InvalidRule.
(** The files of the descriptor set: package, services and methods in order. *)
Notation RuleFiles := (list (string * list (string * list (string * MethodRule)))).

Definition routeOf (svcFullName methodName : string) : string := "/" +:+ svcFullName +:+ "/" +:+ methodName.

Definition addRule (svcFullName : string) (out : gmap string HttpRule) (m : string * MethodRule) : Outcome (gmap string HttpRule) :=
  match m.2 with
  | NoRule => Ok out
  | InvalidRule => Err ("invalid google.api.http extension for " +:+ routeOf svcFullName m.1)
  | HasRule r => Ok (<[routeOf svcFullName m.1 := r]> out)
  end.
Definition httpRulesByMethodPath (files : RuleFiles) : Outcome (gmap string HttpRule) :=
  foldOutcome (fun out file =>
    foldOutcome (fun out svc => foldOutcome (addRule (qualifiedName file.1 svc.1)) svc.2 out) file.2 out) files ∅.

(** [url.Parse]: the scheme, the host and the URL. *)
Record ParsedURL : Type := mkParsedURL { pu_scheme : string; pu_host : string; pu_url : URL }.

Section Connect.
Context {UI SI HP MM : Type} (w : World) (descs : Descriptors) (files : RuleFiles) (environ : list string).
Context (parseURL : string -> ParsedURL + string).

Definition checkBaseURL (baseURL : string) : Outcome URL :=
  match parseURL baseURL with
  | inr e => Err ("parse base URL " +:+ Quote baseURL +:+ ": " +:+ e)
  | inl u =>
      _ ← failIf (negb (String.eqb (pu_scheme u) "http") && negb (String.eqb (pu_scheme u) "https"))
            "base URL must use http:// or https://";
      _ ← failIf (String.eqb (pu_host u) "") "base URL must include host";
      Ok (pu_url u)
  end.

Definition selectServices (serviceName : list string) : Outcome (list string) :=
  match serviceName with
  | name :: _ =>
      if String.eqb name "" then Ok (sortStrings (map fst (map_to_list (Services (parsed w)))))
      else match Services (parsed w) !! name with
           | Some _ => Ok [name]
           | None => Err ("service " +:+ Quote name +:+ " not found in descriptor")
           end
  | [] => Ok (sortStrings (map fst (map_to_list (Services (parsed w)))))
  end.

(** A unary method: its types are checked and its route is bound. *)
Definition proxyHandler (base : URL) (rules : gmap string HttpRule) (svcFullName methodName : string) (info : MethodInfo)
  : Outcome httpDynamicHandler :=
  _ ← findMessageDescriptor w (meth_InputType info);
  _ ← findMessageDescriptor w (meth_OutputType info);
  _ ← checkedMessageFactory w (meth_InputType info);
  _ ← checkedMessageFactory w (meth_OutputType info);
  let methodPath := routeOf svcFullName methodName in
  binding ← wrapErr ("build HTTP binding for " +:+ methodPath +:+ ": ")
              (pickHTTPClientBinding descs (rules !! methodPath) svcFullName methodName (meth_InputType info) (meth_OutputType info));
  Ok (mkHandler base binding (map_to_list (outboundHTTPHeadersFromEnv environ)) defaultHTTPClientMaxRetries methodPath).

Definition httpProxyMethods (base : URL) (rules : gmap string HttpRule) (svcFullName : string) (svcInfo : ServiceInfo)
  : Outcome (list (MethodDesc * httpDynamicHandler)) :=
  foldOutcome (fun methods entry => let '(name, info) := entry : string * MethodInfo in
    if meth_ClientStreaming info || meth_ServerStreaming info then Ok methods
    else
      h ← proxyHandler base rules svcFullName name info;
      Ok (methods ++ [(mkMethodDesc name true, h)])) (map_to_list (si_Methods svcInfo)) [].

Definition httpProxyService (base : URL) (rules : gmap string HttpRule) (name : string)
  : Outcome (list (registeredService * list httpDynamicHandler)) :=
  match Services (parsed w) !! name with
  | None => Ok []
  | Some svcInfo =>
      methods ← httpProxyMethods base rules name svcInfo;
      Ok (match methods with
          | [] => []
          | _ => [(mkRegistered (Some (mkServiceDesc name ProjectedService (map fst methods) [])) (Some remoteProxyService),
                   map snd methods)]
          end)
  end.

(** The services to register, each with the handlers of its methods. *)
Definition httpPlan (baseURL : string) (serviceName : list string) : Outcome (list (registeredService * list httpDynamicHandler)) :=
  base ← checkBaseURL baseURL;
  rules ← httpRulesByMethodPath files;
  names ← selectServices serviceName;
  services ← mapOutcome (httpProxyService base rules) names;
  Ok (concat services).

Definition ConnectHTTP (baseURL : string) (serviceName : list string) (s : @Server UI SI HP MM) : @Server UI SI HP MM * Outcome unit :=
  match (_ ← ensureRegistrationOpen "HTTP connection" s;
         _ ← failIf (1 <? length serviceName) "connect HTTP accepts at most one service name";
         httpPlan baseURL serviceName) with
  | Ok plan => registerServices w (map fst plan) "HTTP connection" s
  | Err e => (s, Err e)
  | Panic e => (s, Panic e)
  | NoFuel => (s, NoFuel)
  end.
End Connect.
End HttpConnect.

(** ** What connecting to a remote HTTP endpoint registers, and what it then sends *)
Import Server Metadata Connect Url HttpRequest HttpClient HttpConnect.

(** ** The server *)

Section Registration.
Context {UI SI HP MM : Type} (w : World) (descs : Descriptors) (files : RuleFiles) (environ : list string).
Context (parseURL : string -> ParsedURL + string).
Notation Srv := (@Server UI SI HP MM).
Notation ConnectHTTP := (@ConnectHTTP UI SI HP MM w descs files environ parseURL).

(** Connecting is a registration or nothing, so it keeps what registrations keep. *)
Lemma connectHTTP_step baseURL serviceName (s : Srv) :
  (ConnectHTTP baseURL serviceName s).1 = s \/ step w s (ConnectHTTP baseURL serviceName s).1.
Proof.
  unfold HttpConnect.ConnectHTTP. destruct (_ ← _; _) as [plan| | |]; [|by left..]. right. constructor.
Qed.
Lemma connectHTTP_reached baseURL serviceName (s : Srv) : Reached w s -> Reached w (ConnectHTTP baseURL serviceName s).1.
Proof. intros Hs. destruct (connectHTTP_step baseURL serviceName s) as [-> |H]; [done|]. by eapply reached_step. Qed.
Lemma connectHTTP_frozen baseURL serviceName (s : Srv) :
  frozen s = true -> ConnectHTTP baseURL serviceName s = (s, Err (frozenErr "HTTP connection")).
Proof. intros Hf. unfold HttpConnect.ConnectHTTP, ensureRegistrationOpen. by rewrite Hf. Qed.

(** ** The plan *)

Definition isUnary (e : string * MethodInfo) : Prop := meth_ClientStreaming e.2 = false /\ meth_ServerStreaming e.2 = false.
#[local] Instance isUnary_dec e : Decision (isUnary e) := ltac:(unfold isUnary; apply _).

Definition handlerFor (base : URL) (rules : gmap string HttpRule) (svc : string) (e : string * MethodInfo) (mh : MethodDesc * httpDynamicHandler) : Prop :=
  mh.1 = mkMethodDesc e.1 true /\ h_baseURL mh.2 = base /\ h_methodPath mh.2 = routeOf svc e.1 /\
  pickHTTPClientBinding descs (rules !! routeOf svc e.1) svc e.1 (meth_InputType e.2) (meth_OutputType e.2) = Ok (h_binding mh.2).

Lemma proxyHandler_Ok base rules svc name info h :
  proxyHandler w descs environ base rules svc name info = Ok h -> handlerFor base rules svc (name, info) (mkMethodDesc name true, h).
Proof.
  unfold proxyHandler. intros (_&_&H)%bind_Ok. apply bind_Ok in H as (_&_&H). apply bind_Ok in H as (_&_&H).
  apply bind_Ok in H as (_&_&H). apply bind_Ok in H as (b&Hb%wrapErr_Ok&[= <-]). by split_and!.
Qed.

Lemma proxyMethods_Ok base rules svc l acc ms :
  foldOutcome (fun methods entry => let '(name, info) := entry : string * MethodInfo in
    if meth_ClientStreaming info || meth_ServerStreaming info then Ok methods
    else h ← proxyHandler w descs environ base rules svc name info; Ok (methods ++ [(mkMethodDesc name true, h)])) l acc = Ok ms ->
  exists more, ms = acc ++ more /\ Forall2 (handlerFor base rules svc) (filter isUnary l) more.
Proof.
  revert acc. induction l as [|[name info] l IH]; intros acc; [intros [= <-]; exists []; by rewrite app_nil_r|].
  change (foldOutcome ?f (?x :: ?l) ?a) with (s ← f a x; foldOutcome f l s). cbv beta iota.
  destruct (meth_ClientStreaming info || meth_ServerStreaming info) eqn:E.
  - rewrite filter_cons_False by (unfold isUnary; cbn; destruct (meth_ClientStreaming info), (meth_ServerStreaming info); naive_solver).
    intros H. apply bind_Ok in H as (?&[= <-]&H). by apply IH.
  - apply orb_false_iff in E as [E1 E2]. rewrite filter_cons_True by done. intros H.
    apply bind_Ok in H as (acc'&(h&Hh&[= <-])%bind_Ok&H). destruct (IH _ H) as (more&->&Hm).
    exists ((mkMethodDesc name true, h) :: more). split; [by rewrite <- app_assoc|]. constructor; [by apply proxyHandler_Ok|done].
Qed.

(** A service of the plan proxies its unary methods, every one under its own route. *)
Definition planned (base : URL) (rules : gmap string HttpRule) (p : registeredService * list httpDynamicHandler) : Prop :=
  exists name svcInfo methods,
    Services (parsed w) !! name = Some svcInfo /\
    Forall2 (handlerFor base rules name) (filter isUnary (map_to_list (si_Methods svcInfo))) methods /\ methods <> [] /\
    p = (mkRegistered (Some (mkServiceDesc name ProjectedService (map fst methods) [])) (Some remoteProxyService), map snd methods).

Lemma httpProxyService_Ok base rules name ps :
  httpProxyService w descs environ base rules name = Ok ps -> Forall (planned base rules) ps.
Proof.
  unfold httpProxyService. destruct (Services (parsed w) !! name) as [svcInfo|] eqn:E; [|by intros [= <-]].
  intros (ms&Hm&[= <-])%bind_Ok. unfold httpProxyMethods in Hm. apply proxyMethods_Ok in Hm as (more&->&Hm). cbn [app]. destruct more as [|m more]; [done|].
  constructor; [|done]. exists name, svcInfo, (m :: more). done.
Qed.

Lemma httpPlan_Ok baseURL serviceName plan :
  httpPlan w descs files environ parseURL baseURL serviceName = Ok plan ->
  exists base rules, checkBaseURL parseURL baseURL = Ok base /\ httpRulesByMethodPath files = Ok rules /\ Forall (planned base rules) plan.
Proof.
  unfold httpPlan. intros (base&Hb&H)%bind_Ok. apply bind_Ok in H as (rules&Hr&H). apply bind_Ok in H as (names&_&H).
  apply bind_Ok in H as (services&Hs&[= <-]). exists base, rules. split_and!; [done..|]. apply mapOutcome_Ok in Hs.
  induction Hs as [|name ps names services Hp _ IH]; [constructor|]. cbn [concat]. apply list.Forall_app. split; [|done].
  by eapply httpProxyService_Ok.
Qed.
End Registration.

(** ** The canonical route *)

(** A name that can stand in a route: protobuf names are such. *)
Definition routeName (s : string) : Prop := s <> "" /\ noByte SLASH s = true /\ noByte "{" s = true.

Lemma trimLeftByte_id c s : match s with String d _ => d <> c | EmptyString => True end -> trimLeftByte c s = s.
Proof. destruct s as [|d s]; [done|]. intros Hd. cbn. by rewrite (proj2 (Ascii.eqb_neq c d)) by congruence. Qed.

Lemma first_noByte c s t : s <> "" -> noByte c s = true -> match s +:+ t with String d _ => d <> c | EmptyString => True end.
Proof. destruct s as [|d s]; [done|]. rewrite append_cons. by intros _ [Hd _]%noByte_cons. Qed.

Lemma revString_nonempty s : s <> "" -> revString s <> "".
Proof. intros Hs H. apply Hs. by rewrite <- (revString_involutive s), H. Qed.
Lemma noByte_revString c s : noByte c (revString s) = noByte c s.
Proof. apply allBytes_revString. Qed.

Lemma route_text svc m : routeOf svc m = String SLASH (svc +:+ String SLASH m).
Proof. done. Qed.
Lemma route_trimmed svc m : routeName svc -> routeName m -> TrimByte SLASH (routeOf svc m) = svc +:+ String SLASH m.
Proof.
  intros (Hs&Hs1&_) (Hm&Hm1&_). unfold TrimByte. rewrite route_text. cbn [trimLeftByte]. rewrite Ascii.eqb_refl.
  rewrite (trimLeftByte_id SLASH (svc +:+ String SLASH m)) by (by apply first_noByte). change (svc +:+ String SLASH m) with (svc +:+ str1 SLASH +:+ m).
  rewrite !revString_append, trimLeftByte_id.
  - rewrite <- !revString_append. by rewrite revString_involutive.
  - rewrite append_assoc. apply first_noByte; [by apply revString_nonempty|by rewrite noByte_revString].
Qed.
Lemma route_noSuffix svc m : routeName svc -> routeName m -> HasSuffix (routeOf svc m) "/" = false.
Proof.
  intros _ (Hm&Hm1&_). unfold HasSuffix. rewrite route_text. change (String SLASH (svc +:+ String SLASH m)) with (str1 SLASH +:+ svc +:+ str1 SLASH +:+ m).
  rewrite !revString_append, !append_assoc. change (revString "/") with "/". pose proof (first_noByte SLASH (revString m)
    (revString (str1 SLASH) +:+ revString svc +:+ revString (str1 SLASH)) (revString_nonempty m Hm)) as H.
  rewrite noByte_revString in H. specialize (H Hm1). destruct (revString m +:+ _) as [|d r]; [done|]. cbn [HasPrefix].
  unfold SLASH in H. by rewrite (proj2 (Ascii.eqb_neq _ d)) by congruence.
Qed.

Lemma route_segment s last : routeName s -> parseSegment last s = Ok (mkSegment s "" false).
Proof.
  intros (Hs&_&Hb). unfold parseSegment. destruct s as [|c s]; [done|]. apply noByte_cons in Hb as [Hc _].
  cbn [HasPrefix]. by rewrite (proj2 (Ascii.eqb_neq _ _)) by congruence.
Qed.

Lemma route_template svc m :
  routeName svc -> routeName m ->
  parsePathTemplate (routeOf svc m) = Ok (mkTemplate [mkSegment svc "" false; mkSegment m "" false] false).
Proof.
  intros Hs Hm. unfold parsePathTemplate. assert (HasPrefix (routeOf svc m) "/" = true) as -> by apply HasPrefix_append.
  rewrite route_noSuffix, route_trimmed, andb_false_r by done. cbn [negb failIf mbind outcome_bind]. cbv zeta.
  pose proof Hs as (Hs0&Hs1&_). pose proof Hm as (Hm0&Hm1&_).
  destruct (String.eqb_spec (svc +:+ String SLASH m) "") as [H|_]; [by apply append_eq_nil in H as [H _]|].
  rewrite (Split_append svc SLASH m), (Split_noByte m), (Split_noByte svc) by done. cbn [app parseSegments].
  rewrite route_segment by done. cbn [mbind outcome_bind]. rewrite route_segment by done. done.
Qed.

Lemma MarshalAny_object l : MarshalAny (JObject l) <> "".
Proof. unfold MarshalAny. cbn [sortKeys Marshal]. discriminate. Qed.

(** A method without an HTTP rule is called on the route its server serves: the
    request is a POST of the JSON object of the whole message, which is never an
    empty body, to the service and method names under the base URL, with no query,
    and it says that the body is JSON. *)
Theorem canonical_request descs base svc m input output l headers retries :
  routeName svc -> routeName m ->
  exists b, pickHTTPClientBinding descs None svc m input output = Ok b /\
    build b (inl (JObject l)) base = inl (MarshalAny (JObject l), URL_String (target b base (routeOf svc m) ∅)) /\
    method b = "POST" /\ MarshalAny (JObject l) <> "" /\ isSafeRetryMethod (method b) = false /\
    (Forall (fun nv => CanonicalHeaderKey nv.1 <> "Content-Type") headers ->
     baseHeaders (mkHandler base b headers retries (routeOf svc m)) (MarshalAny (JObject l)) !! "Content-Type" = Some "application/json").
Proof.
  intros Hs Hm. unfold pickHTTPClientBinding. unfold newHTTPClientBinding. change ("/" +:+ svc +:+ "/" +:+ m) with (routeOf svc m).
  rewrite route_template by done. eexists. split; [reflexivity|]. split_and!.
  - unfold build, expandPath. rewrite cloneValue_id. cbn [setConnect template segments expandSegments field literal String.eqb trailingSlash foldl].
    unfold encodeBody. cbn [body connect setConnect String.eqb Ascii.eqb Bool.eqb negb]. rewrite andb_false_r.
    cbn [String.eqb Ascii.eqb Bool.eqb negb andb]. unfold target. rewrite append_nil_r. done.
  - done.
  - apply MarshalAny_object.
  - done.
  - intros Hh. unfold baseHeaders. cbn [h_headers]. rewrite (proj2 (String.eqb_neq _ _) (MarshalAny_object l)).
    assert (forall hs, hs !! "Content-Type" = Some "application/json" ->
      foldl (fun hs nv => setHeader nv.1 nv.2 hs) hs headers !! "Content-Type" = Some "application/json") as Hf.
    { induction Hh as [|nv hs' Hnv _ IH]; intros hs Hhs; [done|]. cbn [foldl]. apply IH. unfold setHeader. by rewrite lookup_insert_ne. }
    apply Hf. reflexivity.
Qed.

Lemma canonical_request_witness :
  exists b, pickHTTPClientBinding ∅ None "shop.v1.Orders" "Get" "shop.v1.Req" "shop.v1.Rep" = Ok b /\
    build b (inl (JObject [])) someBase = inl (MarshalAny (JObject []), URL_String (target b someBase (routeOf "shop.v1.Orders" "Get") ∅)) /\
    method b = "POST" /\ MarshalAny (JObject []) <> "" /\ isSafeRetryMethod (method b) = false /\
    (Forall (fun nv => CanonicalHeaderKey nv.1 <> "Content-Type") [("User-Agent", "x")] ->
     baseHeaders (mkHandler someBase b [("User-Agent", "x")] 2 (routeOf "shop.v1.Orders" "Get")) (MarshalAny (JObject [])) !! "Content-Type"
     = Some "application/json").
Proof.
  apply (canonical_request ∅ someBase "shop.v1.Orders" "Get" "shop.v1.Req" "shop.v1.Rep" [] [("User-Agent", "x")] 2);
    (split; [discriminate|split; reflexivity]).
Defined.
