(* ===== verification/Stream.v ===== *)
(** * Streams and transports (src/go/stream.go, src/go/http_metadata.go, src/go/errors.go)

    The server stream a handler sees when it is called without a gRPC transport, the
    transport of a unary call, and what errors become.  The metadata library joins
    maps; its documented law is a class.  The sender of a stream is a state of its
    own: sending a message and flushing the headers act on it. *)
From S2P Require Import Prelude GoStrings StringFacts Metadata Connect.
Import Metadata Connect.

Module Stream.

(** ** Errors *)

Inductive ContextError : Type := DeadlineExceededError | CanceledError.

(** A Go error: its text, the status [status.FromError] finds in it, and the context
    error it wraps.  The text of an error with a status is never read. *)
Record GoError : Type := mkError { ge_text : string; ge_status : option Status; ge_ctx : option ContextError }.

Definition statusError (st : Status) : GoError := mkError (st_message st) (Some st) None.
Definition plainError (text : string) : GoError := mkError text None None.
Definition contextText (e : ContextError) : string :=
  match e with DeadlineExceededError => "context deadline exceeded" | CanceledError => "context canceled" end.
Definition contextError (e : ContextError) : GoError := mkError (contextText e) None (Some e).
Definition contextCode (e : ContextError) : Z := match e with DeadlineExceededError => DeadlineExceeded | CanceledError => Canceled end.

(** [status.FromContextError] of an error that wraps a context error. *)
Definition fromContextError (text : string) (e : ContextError) : Status := mkStatus (contextCode e) text [].

Definition statusFromError (err : option GoError) : Status :=
  match err with
  | None => mkStatus OK "" []
  | Some e =>
      match ge_status e with
      | Some st => st
      | None =>
          match ge_ctx e with
          | Some c => mkStatus (contextCode c) (ge_text e) []
          | None => mkStatus Unknown (ge_text e) []
          end
      end
  end.

Definition normalizeContextError (err : option GoError) : option GoError :=
  match err with
  | None => None
  | Some e =>
      match ge_status e, ge_ctx e with
      | None, Some c => Some (statusError (fromContextError (ge_text e) c))
      | _, _ => Some e
      end
  end.

(** ** Metadata *)

(** [metadata.Join]. *)
Class MetadataLib : Type := { MD_Join : MD -> MD -> MD }.
(** The values of a key are those of the first map, then those of the second. *)
Class MetadataLibLaws `{MetadataLib} : Prop := {
  MD_Join_lookup a b k : default [] (MD_Join a b !! k) = default [] (a !! k) ++ default [] (b !! k)
}.

(** ** The transport of a unary call *)

Record projectionUnaryTransport : Type := mkTransport { ut_method : string; ut_header : MD; ut_trailer : MD; ut_headerSent : bool }.
Definition newProjectionUnaryTransport (method : string) : projectionUnaryTransport := mkTransport method ∅ ∅ false.

Section Transport.
Context `{MetadataLib}.

Definition ut_SetHeader (md : MD) (t : projectionUnaryTransport) : projectionUnaryTransport * option GoError :=
  if ut_headerSent t then (t, Some (plainError "grpc: cannot set header after SendHeader"))
  else (mkTransport (ut_method t) (MD_Join (ut_header t) md) (ut_trailer t) (ut_headerSent t), None).
Definition ut_SendHeader (md : MD) (t : projectionUnaryTransport) : projectionUnaryTransport * option GoError :=
  if ut_headerSent t then (t, Some (plainError "grpc: SendHeader called multiple times"))
  else (mkTransport (ut_method t) (MD_Join (ut_header t) md) (ut_trailer t) true, None).
Definition ut_SetTrailer (md : MD) (t : projectionUnaryTransport) : projectionUnaryTransport * option GoError :=
  (mkTransport (ut_method t) (ut_header t) (MD_Join (ut_trailer t) md) (ut_headerSent t), None).
Definition ut_metadata (t : projectionUnaryTransport) : MD * MD := (ut_header t, ut_trailer t).
End Transport.

(** ** The projected server stream *)

Section Projected.
Context `{MetadataLib} {Message Sender : Type}.

Record projectedServerStream : Type := mkStream {
  ps_request : Message;
  ps_received : bool;
  ps_header : MD;
  ps_trailer : MD;
  ps_headerSent : bool;
  ps_sendErr : option GoError;
  ps_sender : Sender
}.

Definition newProjectedServerStream (request : Message) (sender : Sender) : projectedServerStream :=
  mkStream request false ∅ ∅ false None sender.

Definition setHeaderFields (header : MD) (sent : bool) (s : projectedServerStream) : projectedServerStream :=
  mkStream (ps_request s) (ps_received s) header (ps_trailer s) sent (ps_sendErr s) (ps_sender s).
Definition setSender (sender : Sender) (s : projectedServerStream) : projectedServerStream :=
  mkStream (ps_request s) (ps_received s) (ps_header s) (ps_trailer s) (ps_headerSent s) (ps_sendErr s) sender.
Definition setSendErr (err : option GoError) (s : projectedServerStream) : projectedServerStream :=
  mkStream (ps_request s) (ps_received s) (ps_header s) (ps_trailer s) (ps_headerSent s) err (ps_sender s).

(** What the sender does: [send] a message and flush the headers, given the headers
    of the stream at that moment. *)
Context (send : Message -> MD -> Sender -> Sender * option GoError).
Context (onSendHeader : option (MD -> Sender -> Sender * option GoError)).
(** [copyProtoMessage] into the handler's message: its error, if the types differ. *)
Context (copyError : option GoError).

Definition SetHeader (md : MD) (s : projectedServerStream) : projectedServerStream * option GoError :=
  if ps_headerSent s then (s, Some (plainError "grpc: cannot set header after SendHeader"))
  else (setHeaderFields (MD_Join (ps_header s) md) false s, None).

Definition SendHeader (md : MD) (s : projectedServerStream) : projectedServerStream * option GoError :=
  if ps_headerSent s then (s, Some (plainError "grpc: SendHeader called multiple times"))
  else
    let s := setHeaderFields (MD_Join (ps_header s) md) true s in
    match onSendHeader with
    | None => (s, None)
    | Some flush => let '(sender, err) := flush (ps_header s) (ps_sender s) in (setSender sender s, err)
    end.

Definition SetTrailer (md : MD) (s : projectedServerStream) : projectedServerStream :=
  mkStream (ps_request s) (ps_received s) (ps_header s) (MD_Join (ps_trailer s) md) (ps_headerSent s) (ps_sendErr s) (ps_sender s).

(** [io.EOF] after the first call. *)
Definition EOF : GoError := plainError "EOF".
Definition RecvMsg (s : projectedServerStream) : projectedServerStream * (Message + GoError) :=
  if ps_received s then (s, inr EOF)
  else
    let s := mkStream (ps_request s) true (ps_header s) (ps_trailer s) (ps_headerSent s) (ps_sendErr s) (ps_sender s) in
    (s, match copyError with Some e => inr e | None => inl (ps_request s) end).

(** A value that is not a message is given by its Go type. *)
Definition SendMsg (ctx : option ContextError) (src : Message + string) (s : projectedServerStream)
  : projectedServerStream * option GoError :=
  match ctx with
  | Some e => (s, Some (contextError e))
  | None =>
      match src with
      | inr goType => (s, Some (plainError ("stream response does not implement proto.Message: " +:+ goType)))
      | inl msg =>
          match ps_sendErr s with
          | Some e => (s, Some e)
          | None =>
              let s := setHeaderFields (ps_header s) true s in
              let '(sender, err) := send msg (ps_header s) (ps_sender s) in
              let s := setSender sender s in
              (match err with Some e => setSendErr (Some e) s | None => s end, err)
          end
      end
  end.

Definition stream_metadata (s : projectedServerStream) : MD * MD := (ps_header s, ps_trailer s).

(** What a handler does with its stream. *)
Inductive Operation : Type :=
  | OSetHeader (md : MD)
  | OSendHeader (md : MD)
  | OSetTrailer (md : MD)
  | ORecv
  | OSend (ctx : option ContextError) (src : Message + string).

(** The state after an operation and the error it returned. *)
Definition perform (s : projectedServerStream) (op : Operation) : projectedServerStream * option GoError :=
  match op with
  | OSetHeader md => SetHeader md s
  | OSendHeader md => SendHeader md s
  | OSetTrailer md => (SetTrailer md s, None)
  | ORecv => let '(s, r) := RecvMsg s in (s, match r with inl _ => None | inr e => Some e end)
  | OSend ctx src => SendMsg ctx src s
  end.
Fixpoint performAll (s : projectedServerStream) (ops : list Operation) : projectedServerStream * list (option GoError) :=
  match ops with
  | [] => (s, [])
  | op :: ops =>
      let '(s, e) := perform s op in
      let '(s, es) := performAll s ops in
      (s, e :: es)
  end.

(** [invokeGRPCStream] after the interceptors: the handler's error, else the first
    error of the sender, else the context's. *)
Definition invokeGRPCStream (handlerErr : option GoError) (ctx : option ContextError) (s : projectedServerStream) : option GoError :=
  let err := match handlerErr with Some e => Some e | None => ps_sendErr s end in
  let err := match err with
             | Some e => Some e
             | None => match ctx with
                       | Some c => Some (statusError (fromContextError (contextText c) c))
                       | None => None
                       end
             end in
  normalizeContextError err.
End Projected.
End Stream.
