(* ===== verification/HttpHandler.v ===== *)
(** * The HTTP handlers (src/go/http.go, src/go/mcp.go invoke, src/go/registration.go interceptors)

    Routing, unary calls in JSON and binary, and server streams, each as a function
    from a request to the response that is written.  [mime.ParseMediaType] and the
    protobuf codecs are parameters; the application is what its interceptors and
    handlers return.  Writing to the connection does not fail. *)
From S2P Require Import Prelude GoStrings StringFacts Json Metadata Connect Server Stream.
Import Metadata Connect Stream.

Module HttpHandler.

(** ** Calls *)

(** What a Go function returns or a panic. *)
Inductive Result (A : Type) : Type :=
  | Value (a : A)
  | Error (e : GoError)
  | Panicked (text : string).
Arguments Value {A} a.
Arguments Error {A} e.
Arguments Panicked {A} text.

Section Interceptors.
Context {Req Resp : Type}.
Notation Handler := (Req -> Result Resp).

(** The first interceptor is the outermost; a panic becomes a status. *)
Definition chain (interceptors : list (Handler -> Handler)) (handler : Handler) : Handler :=
  foldr (fun interceptor next => interceptor next) handler interceptors.
Definition sharedInterceptor (interceptors : list (Handler -> Handler)) (fullMethod : string) (handler : Handler) : Handler := fun req =>
  match chain interceptors handler req with
  | Panicked text => Error (statusError (mkStatus Internal ("panic in " +:+ fullMethod +:+ ": " +:+ text) []))
  | r => r
  end.
End Interceptors.

(** What an invocation hands back: nothing, a message, or a value that is not one. *)
Inductive Reply (Message : Type) : Type :=
  | NoReply
  | MessageReply (m : Message)
  | OtherReply.
Arguments NoReply {Message}.
Arguments MessageReply {Message} m.
Arguments OtherReply {Message}.

Section Invoke.
Context {Message : Type}.

(** [handlerResult] is what [tool.invokeHandler] returned, [ctx] the context's error after it. *)
Definition invoke (handlerResult : Reply Message + GoError) (ctx : option ContextError) : option Message + GoError :=
  match handlerResult with
  | inr e => inr (default e (normalizeContextError (Some e)))
  | inl reply =>
      match ctx with
      | Some c => inr (statusError (fromContextError (contextText c) c))
      | None =>
          match reply with
          | NoReply => inl None
          | MessageReply m => inl (Some m)
          | OtherReply => inr (plainError "response does not implement proto.Message")
          end
      end
  end.

Context (unmarshalJSON : string -> Message + GoError) (marshalJSON : Message -> string + string).

(** [newRequest] is the tool's factory; [call] runs the tool on the request. *)
Definition invokeJSON (newRequest : Message + GoError) (call : Message -> option Message + GoError) (argsJSON : string)
  : string + GoError :=
  match newRequest with
  | inr e => inr e
  | inl empty =>
      match (if negb (String.eqb argsJSON "") && negb (String.eqb argsJSON "null") then unmarshalJSON argsJSON else inl empty) with
      | inr e => inr e
      | inl req =>
          match call req with
          | inr e => inr e
          | inl None => inl "{}"
          | inl (Some resp) =>
              match marshalJSON resp with
              | inl out => inl out
              | inr e => inr (plainError ("marshal response: " +:+ e))
              end
          end
      end
  end.
End Invoke.

(** ** Routes *)

Record httpToolEntry : Type := mkEntry {
  tool : Server.Tool;
  maxUnaryRequest : Z;
  maxUnaryResponse : Z;
  maxStreamRequest : Z;
  maxStreamResponse : Z
}.

Section Routes.
Context {UI SI HP MM : Type}.
Notation Srv := (@Server.Server UI SI HP MM).

Definition newEntry (s : Srv) (t : Server.Tool) : httpToolEntry :=
  mkEntry t (Server.methodUnaryCap s t) (Server.methodUnaryResponseCap s t) (Server.methodStreamCap s t) (Server.methodStreamResponseCap s t).
Definition entries (s : Srv) : gmap string httpToolEntry :=
  list_to_map (map (fun nt => (Server.methodPath nt.2, newEntry s nt.2)) (map_to_list (Server.tools s))).

Inductive Route : Type :=
  | RouteCatalog | RouteHealth | RouteDescriptor | RouteMCP
  | RouteForbidden | RouteNotAllowed | RouteNotFound
  | RouteTool (e : httpToolEntry).

(** [origin]: whether the request has an Origin header. *)
Definition route (es : gmap string httpToolEntry) (method path : string) (origin : bool) : Route :=
  if String.eqb method "GET" && (String.eqb path "/" || String.eqb path "/__invariant/tools") then RouteCatalog
  else if String.eqb method "GET" && (String.eqb path "/healthz" || String.eqb path "/readyz") then RouteHealth
  else if String.eqb method "GET" && String.eqb path "/__invariant/descriptor.binpb" then RouteDescriptor
  else if String.eqb method "POST" && String.eqb path "/mcp" then RouteMCP
  else if String.eqb path "/mcp" then if origin then RouteForbidden else RouteNotAllowed
  else if String.eqb method "POST" then
    match es !! path with
    | Some e => RouteTool e
    | None => RouteNotFound
    end
  else match es !! path with
       | Some _ => RouteNotAllowed
       | None => RouteNotFound
       end.

(** [HTTPHandler] freezes the server and closes over its tools. *)
Definition HTTPHandler (s : Srv) : Srv * (string -> string -> bool -> Route) :=
  let s := Server.freeze s in (s, route (entries s)).
End Routes.

(** ** Responses *)

Record Response : Type := mkResponse { rp_status : Z; rp_header : MD; rp_body : string }.
Definition setValue (key value : string) (h : MD) : MD := <[key := [value]]> h.

Definition jsonContentType : string := "application/json".
Definition protoContentType : string := "application/proto".
Definition connectStreamJSONType : string := "application/connect+json".
Definition connectStreamProtoType : string := "application/connect+proto".

Section Handlers.
Context `{CodeNames} `{MetadataLib}.
(** [mime.ParseMediaType]: the media type, if the header is well formed. *)
Context (mediaType : string -> option string).

Definition matchContentType (ct want : string) : bool := bool_decide (mediaType ct = Some want).

Definition errorResponse (header : MD) (err : GoError) (maxBytes : Z) : Response :=
  let '(code, payload) := httpErrorWithLimit (statusFromError (Some err)) maxBytes in
  mkResponse code (setValue "Content-Type" jsonContentType header) payload.
Definition unsupportedMediaType (message : string) (maxBytes : Z) : Response :=
  let '(code, payload) := httpUnsupportedMediaTypeWithLimit message maxBytes in
  mkResponse code (setValue "Content-Type" jsonContentType ∅) payload.
Definition invalidArgumentError (message : string) : GoError := statusError (mkStatus InvalidArgument message []).
Definition resourceExhausted (message : string) : GoError := statusError (mkStatus ResourceExhausted message []).

(** ** Unary calls *)

(** A request: headers, the bytes the client sends, and an error of the connection
    after them; what the context says when reading failed and after the call. *)
Record Request : Type := mkRequest {
  q_contentType : string;
  q_contentEncoding : string;
  q_body : string;
  q_bodyErr : option GoError;
  q_ctxRead : option ContextError;
  q_ctxCall : option ContextError
}.

(** [io.ReadAll] of an [http.MaxBytesReader]. *)
Inductive BodyRead : Type :=
  | Body (s : string)
  | BodyTooLarge
  | BodyFailed (e : GoError).
Definition readBody (q : Request) (limit : Z) : BodyRead :=
  if (limit <? Z.of_nat (String.length (q_body q)))%Z then BodyTooLarge
  else match q_bodyErr q with
       | Some e => BodyFailed e
       | None => Body (q_body q)
       end.

(** The application: the response of a call and the metadata it left on the transport. *)
Notation Answer A := ((A + GoError) * projectionUnaryTransport)%type.

Definition withMetadata (t : projectionUnaryTransport) : MD :=
  writeUnaryProjectionMetadata ∅ (Some (map_to_list (ut_header t), map_to_list (ut_trailer t))).

(** After the call: its error, else the context's. *)
Definition callError {A} (r : A + GoError) (ctx : option ContextError) : A + GoError :=
  match r with
  | inr e => inr e
  | inl a => match ctx with Some c => inr (contextError c) | None => inl a end
  end.

Definition tooLargeResponse (limit : Z) : GoError :=
  resourceExhausted ("encoded response exceeds " +:+ FormatInt limit +:+ " byte limit").

(** [handleHTTPProto]: the codec decodes the request and encodes the response, a
    missing response being the empty message. *)
Definition handleHTTPProto (entry : httpToolEntry) (q : Request) (body : string) (factory : bool)
    (decode : string -> option GoError) (call : string -> Answer (string + string)) : Response :=
  let limit := maxUnaryResponse entry in
  if negb factory then
    errorResponse ∅ (invalidArgumentError "binary proto requires a Server created via ServerFromDescriptor or ServerFromBytes") limit
  else
    match (if String.eqb body "" then None else decode body) with
    | Some e => errorResponse ∅ (invalidArgumentError ("decode binary proto: " +:+ ge_text e)) limit
    | None =>
        let '(r, t) := call body in
        let header := withMetadata t in
        match callError r (q_ctxCall q) with
        | inr e => errorResponse header e limit
        | inl (inr e) => errorResponse header (plainError ("encode binary proto: " +:+ e)) limit
        | inl (inl bytes_) =>
            if (limit <? Z.of_nat (String.length bytes_))%Z then errorResponse header (tooLargeResponse limit) limit
            else mkResponse 200 (setValue "Content-Type" protoContentType header) bytes_
        end
    end.

(** [callJSON] is [invokeJSON] on the tool. *)
Definition handleUnary (entry : httpToolEntry) (q : Request) (factory : bool) (decode : string -> option GoError)
    (callProto : string -> Answer (string + string)) (callJSON : string -> Answer string) : Response :=
  let limit := maxUnaryResponse entry in
  let jsonRequest := matchContentType (q_contentType q) jsonContentType in
  let protoRequest := matchContentType (q_contentType q) protoContentType in
  if negb jsonRequest && negb protoRequest then
    unsupportedMediaType ("unary tools require Content-Type: " +:+ jsonContentType +:+ " or " +:+ protoContentType) limit
  else
    let encoding := ToLower (TrimSpace (q_contentEncoding q)) in
    if negb (String.eqb encoding "") && negb (String.eqb encoding "identity") then
      errorResponse ∅ (statusError (mkStatus Unimplemented ("Content-Encoding " +:+ Quote encoding +:+ " is not supported") [])) limit
    else
      match readBody q (maxUnaryRequest entry) with
      | Body body =>
          if protoRequest then handleHTTPProto entry q body factory decode callProto
          else
            let '(r, t) := callJSON body in
            let header := withMetadata t in
            match callError r (q_ctxCall q) with
            | inr e => errorResponse header e limit
            | inl resp =>
                if (limit <? Z.of_nat (String.length resp))%Z then errorResponse header (tooLargeResponse limit) limit
                else mkResponse 200 (setValue "Content-Type" jsonContentType header) resp
            end
      | failed =>
          match q_ctxRead q with
          | Some c => errorResponse ∅ (statusError (fromContextError (contextText c) c)) limit
          | None =>
              match failed with
              | BodyTooLarge => errorResponse ∅ (resourceExhausted ("request body exceeds " +:+ FormatInt (maxUnaryRequest entry) +:+ " byte limit")) limit
              | BodyFailed e => errorResponse ∅ (invalidArgumentError ("read body: " +:+ ge_text e)) limit
              | Body _ => errorResponse ∅ (plainError "") limit
              end
          end
      end.

(** ** Streams *)

(** The connection of a stream: the headers once they are written, and the body so far. *)
Record Writer : Type := mkWriter { wr_committed : option MD; wr_body : string }.

Definition leadingHeader (respCT : string) (header : MD) : MD :=
  setValue "Content-Type" respCT (writeConnectMetadataHeaders ∅ (map_to_list header) false).
Definition commit (respCT : string) (header : MD) (w : Writer) : Writer :=
  match wr_committed w with
  | Some _ => w
  | None => mkWriter (Some (leadingHeader respCT header)) (wr_body w)
  end.
Definition writeFrame (flags : Z) (payload : string) (w : Writer) : Writer * option GoError :=
  match writeConnectEnvelope flags payload with
  | Ok frame => (mkWriter (wr_committed w) (wr_body w +:+ frame), None)
  | Err e => (w, Some (resourceExhausted e))
  | Panic _ | NoFuel => (w, None)
  end.

Section StreamHandler.
Context {Message : Type} (marshal : Message -> string + string) (respCT : string) (maxResponse : Z).

Definition sendChunk (msg : Message) (header : MD) (w : Writer) : Writer * option GoError :=
  match marshal msg with
  | inr e => (w, Some (plainError ("marshal stream chunk: " +:+ e)))
  | inl payload =>
      if (maxResponse <? Z.of_nat (String.length payload))%Z then
        (w, Some (resourceExhausted ("encoded stream response message exceeds " +:+ FormatInt maxResponse +:+ " byte limit")))
      else writeFrame 0 payload (commit respCT header w)
  end.
Definition flushHeader (header : MD) (w : Writer) : Writer * option GoError := (commit respCT header w, None).

(** The handler ran on the stream and returned [handlerErr]; [ctx] is the context's error then. *)
Definition runStream (req : Message) (ops : list (@Operation Message)) (handlerErr : option GoError) (ctx : option ContextError) : Response :=
  let '(s, _) := performAll sendChunk (Some flushHeader) None (newProjectedServerStream req (mkWriter None "")) ops in
  let streamErr := match invokeGRPCStream handlerErr ctx s with
                   | Some e => Some e
                   | None => contextError <$> ctx
                   end in
  let w := commit respCT (ps_header s) (ps_sender s) in
  let payload := connectEndStreamPayload ((fun e => statusFromError (Some e)) <$> streamErr) (map_to_list (ps_trailer s)) in
  let w := (writeFrame connectEndStreamFlag payload w).1 in
  mkResponse 200 (default ∅ (wr_committed w)) (wr_body w).
End StreamHandler.

Definition streamError (respCT : string) (err : GoError) : Response :=
  let payload := connectEndStreamPayload (Some (statusFromError (Some err))) [] in
  mkResponse 200 (setValue "Content-Type" respCT ∅) (wr_body (writeFrame connectEndStreamFlag payload (mkWriter None "")).1).

(** An error of the reader that is not a status becomes one. *)
Definition envelopeError (q : Request) (code : option Z) (message : string) : GoError :=
  match q_ctxRead q with
  | Some c => statusError (fromContextError (contextText c) c)
  | None =>
      match code with
      | Some code => statusError (mkStatus code message [])
      | None => invalidArgumentError ("read request envelope: " +:+ message)
      end
  end.

Definition handleHTTPStream {Message} (entry : httpToolEntry) (q : Request) (newRequest : Message + GoError)
    (unmarshalProto unmarshalJSON : string -> Message + GoError) (marshalProto marshalJSON : Message -> string + string)
    (app : Message -> list (@Operation Message) * option GoError) : Response :=
  let binary := matchContentType (q_contentType q) connectStreamProtoType in
  if negb binary && negb (matchContentType (q_contentType q) connectStreamJSONType) then
    unsupportedMediaType ("streaming tools require Content-Type: " +:+ connectStreamJSONType +:+ " or " +:+ connectStreamProtoType)
      maxConnectControlEnvelope
  else
    let respCT := if binary then connectStreamProtoType else connectStreamJSONType in
    match readConnectEnvelope (q_body q) (maxStreamRequest entry) with
    | StatusError code message => streamError respCT (envelopeError q (Some code) message)
    | IOError message => streamError respCT (envelopeError q None message)
    | Data reqBytes =>
        match newRequest with
        | inr e => streamError respCT e
        | inl empty =>
            match (if String.eqb reqBytes "" then inl empty
                   else if binary then
                     match unmarshalProto reqBytes with
                     | inl m => inl m
                     | inr e => inr (invalidArgumentError ("decode binary proto: " +:+ ge_text e))
                     end
                   else unmarshalJSON reqBytes) with
            | inr e => streamError respCT e
            | inl req =>
                let '(ops, handlerErr) := app req in
                runStream (if binary then marshalProto else marshalJSON) respCT (maxStreamResponse entry) req ops handlerErr (q_ctxCall q)
            end
        end
    end.

(** ** A request to a tool *)

(** The headers of a request as the server keeps them, and [Header.Get]. *)
Definition httpHeaderPresent (headers : Entries) (name : string) : bool :=
  existsb (fun kv => EqualFold kv.1 name) headers.
Definition getValue (name : string) (headers : Entries) : string :=
  default "" (assoc (CanonicalHeaderKey name) headers ≫= head).
Definition timeoutHeader (headers : Entries) : option string :=
  if httpHeaderPresent headers "Connect-Timeout-Ms" then Some (getValue "Connect-Timeout-Ms" headers) else None.

(** [ctx] under the deadline: what it says when reading fails and after the call. *)
Definition handleHTTP {Message} (entry : httpToolEntry) (headers : Entries) (body : string) (bodyErr : option GoError)
    (ctx : option Z -> option ContextError * option ContextError)
    (factory : bool) (decode : string -> option GoError)
    (callProto : string -> Answer (string + string)) (callJSON : string -> Answer string)
    (newRequest : Message + GoError) (unmarshalProto unmarshalJSON : string -> Message + GoError)
    (marshalProto marshalJSON : Message -> string + string)
    (app : Message -> list (@Operation Message) * option GoError) : Response :=
  match applyConnectTimeout (timeoutHeader headers) with
  | Ok timeout =>
      let '(ctxRead, ctxCall) := ctx timeout in
      let q := mkRequest (getValue "Content-Type" headers) (getValue "Content-Encoding" headers) body bodyErr ctxRead ctxCall in
      if Server.ServerStreaming (tool entry) then
        handleHTTPStream entry q newRequest unmarshalProto unmarshalJSON marshalProto marshalJSON app
      else handleUnary entry q factory decode callProto callJSON
  | Err e => errorResponse ∅ (invalidArgumentError e) (maxUnaryResponse entry)
  | Panic e => errorResponse ∅ (plainError e) (maxUnaryResponse entry)
  | NoFuel => errorResponse ∅ (plainError "") (maxUnaryResponse entry)
  end.
End Handlers.
End HttpHandler.
