(* ===== verification/HttpHandlerSpec.v ===== *)
(** * What the HTTP handlers write

    The bytes of a streamed response and the order of what is in them, the sizes a
    handler never exceeds, and which route a method is served on. *)
From S2P Require Import Prelude GoStrings StringFacts Json Metadata Connect ConnectSpec ParsedDescriptor Server ParsedSpec ServerSpec RegistrationSpec HttpClientSpec Stream HttpHandler.
Import Server Metadata Connect Stream HttpHandler.

(** ** Frames *)

Definition frame (flags : Z) (payload : string) : string :=
  let size := Z.of_nat (String.length payload) in
  String (zbyte flags) (String (zbyte (Z.shiftr size 24)) (String (zbyte (Z.shiftr size 16))
    (String (zbyte (Z.shiftr size 8)) (String (zbyte size) payload)))).
Definition frames (l : list (Z * string)) : string := foldr (fun f body => frame f.1 f.2 +:+ body) "" l.

(** A reader of frames, as a client of the stream is one. *)
Fixpoint readFrames (fuel : nat) (body : string) : option (list (Z * string)) :=
  match body with
  | EmptyString => Some []
  | _ =>
      match fuel, header body with
      | S fuel, Some (flags, a, b, c, d, rest) =>
          '(payload, rest) ← takeBytes (Z.to_nat (size32 a b c d)) rest;
          l ← readFrames fuel rest;
          Some ((flags, payload) :: l)
      | _, _ => None
      end
  end.

Definition framed (f : Z * string) : Prop := (0 <= f.1 < 256)%Z /\ (Z.of_nat (String.length f.2) <= maxUint32)%Z.

Lemma frames_app l l' : frames (l ++ l') = frames l +:+ frames l'.
Proof. induction l as [|f l IH]; [done|]. cbn [app frames foldr]. fold (frames (l ++ l')) (frames l). by rewrite IH, append_assoc. Qed.
Lemma frames_one f p : frames [(f, p)] = frame f p.
Proof. unfold frames. cbn [foldr]. apply append_nil_r. Qed.

Lemma writeConnectEnvelope_frame flags p f : writeConnectEnvelope flags p = Ok f <-> (Z.of_nat (String.length p) <= maxUint32)%Z /\ f = frame flags p.
Proof.
  unfold writeConnectEnvelope, connectEnvelopeSize. destruct (Z.ltb_spec maxUint32 (Z.of_nat (String.length p))).
  - split; [done|]. lia.
  - cbn [mbind outcome_bind]. split; [by intros [= <-]|by intros [_ ->]].
Qed.

Lemma readFrames_frame fuel flags p rest :
  framed (flags, p) -> readFrames (S fuel) (frame flags p +:+ rest) = (l ← readFrames fuel rest; Some ((flags, p) :: l)).
Proof.
  intros [Hf Hp]. cbn [fst snd] in Hf, Hp. unfold frame. cbv zeta. rewrite !append_cons. cbn [readFrames header]. rewrite !byteZ_zbyte.
  rewrite size32_bytes by lia. rewrite Nat2Z.id, (Z.mod_small flags) by lia.
  assert (takeBytes (String.length p) (p +:+ rest) = Some (p, rest)) as -> by (by apply takeBytes_exact). done.
Qed.

Lemma readFrames_frames l fuel : Forall framed l -> (length l <= fuel)%nat -> readFrames fuel (frames l) = Some l.
Proof.
  intros Hl. revert fuel. induction Hl as [|[flags p] l Hf _ IH]; intros fuel Hn; [by destruct fuel|].
  destruct fuel as [|fuel]; [cbn in Hn; lia|]. cbn [frames foldr fst snd]. fold (frames l). rewrite readFrames_frame by done.
  rewrite IH by (cbn in Hn; lia). done.
Qed.

Lemma frames_length l : (length l <= String.length (frames l))%nat.
Proof.
  induction l as [|f l IH]; [done|]. cbn [frames foldr length]. fold (frames l). rewrite length_append. unfold frame. cbn [String.length]. lia.
Qed.

(** ** Streams *)

Section Streams.
Context `{CodeNamesLaws} `{MetadataLib}.
Context {Message : Type} (marshal : Message -> string + string) (respCT : string) (maxResponse : Z).
Notation Op := (@Operation Message).
Notation Stm := (@projectedServerStream Message Writer).
Notation sendChunk := (sendChunk marshal respCT maxResponse).
Notation perform := (perform sendChunk (Some (flushHeader respCT)) None).
Notation performAll := (performAll sendChunk (Some (flushHeader respCT)) None).

(** *** The contract of a stream, without its state *)

(** The frame of a message, or why there is none. *)
Definition encoded (m : Message) : string + GoError :=
  match marshal m with
  | inr e => inr (plainError ("marshal stream chunk: " +:+ e))
  | inl p =>
      if (maxResponse <? Z.of_nat (String.length p))%Z then
        inr (resourceExhausted ("encoded stream response message exceeds " +:+ FormatInt maxResponse +:+ " byte limit"))
      else if (maxUint32 <? Z.of_nat (String.length p))%Z then
        inr (resourceExhausted ("Connect envelope payload size " +:+ FormatInt (Z.of_nat (String.length p)) +:+ " exceeds uint32 framing limit"))
      else inl p
  end.
(** The messages a handler sends while its context is alive. *)
Definition sends (ops : list Op) : list Message :=
  omap (fun op => match op with OSend None (inl m) => Some m | _ => None end) ops.
(** Those before the first that has no frame, and why it has none. *)
Fixpoint outgoing (ms : list Message) : list string * option GoError :=
  match ms with
  | [] => ([], None)
  | m :: ms => match encoded m with
               | inr e => ([], Some e)
               | inl p => let '(ps, e) := outgoing ms in (p :: ps, e)
               end
  end.
(** The headers set until they are sent, by the handler or with its first message. *)
Fixpoint leading (md : MD) (ops : list Op) : MD :=
  match ops with
  | [] => md
  | OSetHeader md' :: ops => leading (MD_Join md md') ops
  | OSendHeader md' :: _ => MD_Join md md'
  | OSend None (inl _) :: _ => md
  | _ :: ops => leading md ops
  end.
Definition trailing (md : MD) (ops : list Op) : MD :=
  foldl MD_Join md (omap (fun op => match op with OSetTrailer md => Some md | _ => None end) ops).

(** *** The stream keeps it *)

(** Headers that are on the wire are the stream's, and nothing changes them any more. *)
Definition headersKept (s : Stm) : Prop :=
  match wr_committed (ps_sender s) with
  | Some h => ps_headerSent s = true /\ h = leadingHeader respCT (ps_header s)
  | None => True
  end.
Lemma commit_committed h w : wr_committed (commit respCT h w) = Some (default (leadingHeader respCT h) (wr_committed w)).
Proof. unfold commit. destruct (wr_committed w) eqn:E; [by rewrite E|done]. Qed.
Lemma commit_body h w : wr_body (commit respCT h w) = wr_body w.
Proof. unfold commit. by destruct (wr_committed w). Qed.

Lemma sendChunk_spec m h w :
  exists c, sendChunk m h w = (mkWriter c (wr_body w +:+ frames (map (pair 0%Z) (outgoing [m]).1)), (outgoing [m]).2) /\
    (c = wr_committed w \/ c = wr_committed (commit respCT h w)).
Proof.
  unfold HttpHandler.sendChunk. cbn [outgoing]. unfold encoded. destruct w as [c b]. destruct (marshal m) as [p|e].
  - destruct (maxResponse <? _)%Z; [exists c; split; [by rewrite append_nil_r|by left]|].
    unfold writeFrame. rewrite commit_body. exists (wr_committed (commit respCT h (mkWriter c b))). split; [|by right].
    destruct (Z.ltb_spec maxUint32 (Z.of_nat (String.length p))) as [Hp|Hp].
    + assert (writeConnectEnvelope 0 p = Err ("Connect envelope payload size " +:+ FormatInt (Z.of_nat (String.length p)) +:+
        " exceeds uint32 framing limit")) as -> by (unfold writeConnectEnvelope, connectEnvelopeSize; by rewrite (proj2 (Z.ltb_lt _ _) Hp)).
      cbn [fst snd map frames foldr]. rewrite append_nil_r. f_equal. destruct (commit _ _ _) as [c' b'] eqn:E.
      pose proof (commit_body h (mkWriter c b)) as Hb. rewrite E in Hb. cbn in Hb. by rewrite Hb.
    + rewrite (proj2 (writeConnectEnvelope_frame 0 p _) (conj Hp eq_refl)). cbn [fst snd map]. by rewrite frames_one.
  - exists c. split; [by rewrite append_nil_r|by left].
Qed.
Definition run (s : Stm) (ops : list Op) : Stm := (performAll s ops).1.
Lemma run_cons s op ops : run s (op :: ops) = run (perform s op).1 ops.
Proof. unfold run. cbn [Stream.performAll]. destruct (perform s op) as [s' e]. cbn [fst]. by destruct (performAll s' ops). Qed.

Lemma send_step m s :
  ps_sendErr s = None ->
  exists c, (perform s (OSend None (inl m))).1 = mkStream (ps_request s) (ps_received s) (ps_header s) (ps_trailer s) true (outgoing [m]).2
      (mkWriter c (wr_body (ps_sender s) +:+ frames (map (pair 0%Z) (outgoing [m]).1))) /\
    (c = wr_committed (ps_sender s) \/ c = wr_committed (commit respCT (ps_header s) (ps_sender s))).
Proof.
  intros Hs. cbn [Stream.perform]. unfold SendMsg. rewrite Hs. cbv zeta.
  destruct (sendChunk_spec m (ps_header (setHeaderFields (ps_header s) true s)) (ps_sender (setHeaderFields (ps_header s) true s))) as (c&Hc&Hor).
  rewrite Hc. exists c. split; [|done].
  destruct (outgoing [m]).2; [done|]. unfold setSender, setHeaderFields. cbn. by rewrite Hs.
Qed.
Lemma send_sticky m s e : ps_sendErr s = Some e -> (perform s (OSend None (inl m))).1 = s.
Proof. intros Hs. cbn [Stream.perform]. unfold SendMsg. by rewrite Hs. Qed.

Lemma outgoing_cons m ms :
  outgoing (m :: ms) = ((outgoing [m]).1 ++ match (outgoing [m]).2 with Some _ => [] | None => (outgoing ms).1 end,
    match (outgoing [m]).2 with Some e => Some e | None => (outgoing ms).2 end).
Proof. cbn [outgoing]. destruct (encoded m) as [q|e]; [|done]. by destruct (outgoing ms). Qed.

(** What a handler can do besides sending changes neither the body nor the sticky error. *)
Definition isSend (op : Op) : bool := match op with OSend None (inl _) => true | _ => false end.
Lemma other_step op s :
  isSend op = false ->
  let s' := (perform s op).1 in
  ps_sendErr s' = ps_sendErr s /\ wr_body (ps_sender s') = wr_body (ps_sender s) /\ (headersKept s -> headersKept s').
Proof.
  intros Hop. unfold headersKept. destruct op as [md|md|md| |[c|] [m|g]]; try done; cbn [Stream.perform].
  - unfold SetHeader. destruct (ps_headerSent s) eqn:E; cbn [fst]; [by rewrite E|]. cbn.
    split_and!; [done..|]. destruct (wr_committed _); [|done]. by intros [? _].
  - unfold SendHeader. destruct (ps_headerSent s) eqn:E; cbn [fst]; [by rewrite E|]. cbn. rewrite commit_body, commit_committed.
    split_and!; [done..|]. destruct (wr_committed _); [by intros [? _]|done].
  - unfold RecvMsg. by destruct (ps_received s).
Qed.

Lemma run_headersKept ops s : headersKept s -> headersKept (run s ops).
Proof.
  revert s. induction ops as [|op ops IH]; intros s Hs; [done|]. rewrite run_cons. apply IH. destruct (isSend op) eqn:E; [|by apply other_step].
  destruct op as [| | | |[] [m|]]; try done. destruct (ps_sendErr s) as [e|] eqn:He; [by rewrite (send_sticky _ _ e)|].
  destruct (send_step m s He) as (c&->&Hc). unfold headersKept. cbn. rewrite commit_committed in Hc.
  unfold headersKept in Hs. destruct (wr_committed (ps_sender s)) as [h|], Hc as [-> | ->]; try done; naive_solver.
Qed.

Lemma run_sent ops s :
  let out := match ps_sendErr s with Some e => ([], Some e) | None => outgoing (sends ops) end in
  wr_body (ps_sender (run s ops)) = wr_body (ps_sender s) +:+ frames (map (pair 0%Z) out.1) /\ ps_sendErr (run s ops) = out.2.
Proof.
  revert s. induction ops as [|op ops IH]; intros s; cbv zeta.
  - change (run s []) with s. destruct (ps_sendErr s); by rewrite append_nil_r.
  - rewrite run_cons. specialize (IH (perform s op).1). cbv zeta in IH. destruct (isSend op) eqn:E.
    + destruct op as [| | | |[] [m|]]; try done. destruct (ps_sendErr s) as [e|] eqn:He.
      * rewrite (send_sticky _ _ e He) in *. by rewrite He in IH.
      * destruct (send_step m s He) as (c&Hp&_). rewrite Hp in IH |- *.
        match type of IH with context [run ?x ops] => set (s' := x) in * end. change (ps_sendErr s') with (outgoing [m]).2 in IH.
        change (wr_body (ps_sender s')) with (wr_body (ps_sender s) +:+ frames (map (pair 0%Z) (outgoing [m]).1)) in IH.
        change (sends (OSend None (inl m) :: ops)) with (m :: sends ops). rewrite outgoing_cons. cbn [fst snd].
        destruct IH as [-> ->]. rewrite map_app, frames_app, append_assoc. by destruct (outgoing [m]).2.
    + destruct (other_step op s E) as (He&Hb&_). rewrite He, Hb in IH.
      assert (sends (op :: ops) = sends ops) as -> by (by destruct op as [| | | |[] []]). done.
Qed.

(** A sender that failed had sent the headers. *)
Lemma run_header ops s :
  (ps_sendErr s = None \/ ps_headerSent s = true) ->
  ps_header (run s ops) = if ps_headerSent s then ps_header s else leading (ps_header s) ops.
Proof.
  revert s. induction ops as [|op ops IH]; intros s Hs; [by destruct (ps_headerSent s)|]. rewrite run_cons.
  destruct op as [md|md|md| |[c|] [m|g]]; try (by apply IH).
  - cbn [Stream.perform]. unfold SetHeader. destruct (ps_headerSent s) eqn:E; cbn [fst]; [rewrite IH by (by right); by rewrite E|].
    rewrite IH by naive_solver. done.
  - cbn [Stream.perform]. unfold SendHeader. destruct (ps_headerSent s) eqn:E; cbn [fst]; [rewrite IH by (by right); by rewrite E|].
    rewrite IH by (by right). done.
  - rewrite IH; done.
  - cbn [Stream.perform]. unfold RecvMsg. destruct (ps_received s); rewrite IH; done.
  - destruct (ps_sendErr s) as [e|] eqn:He.
    + rewrite (send_sticky _ _ e He). destruct Hs as [|Hs]; [done|]. rewrite IH by (by right). by rewrite Hs.
    + destruct (send_step m s He) as (c&->&_). rewrite IH by (by right). cbn. by destruct (ps_headerSent s).
Qed.

Lemma run_trailer ops s : ps_trailer (run s ops) = trailing (ps_trailer s) ops.
Proof.
  revert s. induction ops as [|op ops IH]; intros s; [done|]. rewrite run_cons, IH.
  assert (ps_trailer (perform s op).1 = trailing (ps_trailer s) [op]) as ->; [|by destruct op as [| | | |[] []]].
  destruct op as [md|md|md| |[c|] [m|g]]; cbn [Stream.perform]; try done.
  - unfold SetHeader. by destruct (ps_headerSent s).
  - unfold SendHeader. by destruct (ps_headerSent s).
  - unfold RecvMsg. by destruct (ps_received s).
  - unfold SendMsg. destruct (ps_sendErr s) eqn:He; [done|]. destruct (HttpHandler.sendChunk _ _ _ _ _ _) as [w [e|]]; done.
Qed.

Lemma outgoing_framed ms : Forall (fun p => Z.of_nat (String.length p) <= maxResponse /\ Z.of_nat (String.length p) <= maxUint32)%Z (outgoing ms).1.
Proof.
  induction ms as [|m ms IH]; [constructor|]. cbn [outgoing]. unfold encoded. destruct (marshal m) as [p|e]; [|constructor].
  destruct (Z.ltb_spec maxResponse (Z.of_nat (String.length p))); [constructor|].
  destruct (Z.ltb_spec maxUint32 (Z.of_nat (String.length p))); [constructor|]. destruct (outgoing ms). by constructor.
Qed.

(** What the end of the stream reports: the handler's error, else why a message was
    not sent, else the context's error. *)
Definition reported (ops : list Op) (handlerErr : option GoError) (ctx : option ContextError) : option GoError :=
  normalizeContextError
    match handlerErr, (outgoing (sends ops)).2, ctx with
    | Some e, _, _ | None, Some e, _ => Some e
    | None, None, Some c => Some (statusError (fromContextError (contextText c) c))
    | None, None, None => None
    end.

Lemma reported_context ops handlerErr ctx :
  match reported ops handlerErr ctx with Some e => Some e | None => contextError <$> ctx end = reported ops handlerErr ctx.
Proof.
  unfold reported. destruct handlerErr as [[t [st|] [c|]]|]; [done..|]. destruct (outgoing _).2 as [[t [st|] [c|]]|]; [done..|]. by destruct ctx.
Qed.

(** C27: whatever a handler does with its stream, the response is a success whose
    headers are those it set until they were sent, and whose body is one frame for
    every message before the first that could not be encoded within the limits, in
    order, followed by exactly one end-of-stream frame: it carries the trailers and
    reports the handler's error, else the message that was lost even when the handler
    ignored it, else the end of the context.  A client reads back these frames. *)
Theorem stream_wire req ops handlerErr ctx :
  let '(messages, lost) := outgoing (sends ops) in
  let endStream := connectEndStreamPayload ((fun e => statusFromError (Some e)) <$> reported ops handlerErr ctx)
                     (map_to_list (trailing ∅ ops)) in
  let r := runStream marshal respCT maxResponse req ops handlerErr ctx in
  rp_status r = 200%Z /\ rp_header r = leadingHeader respCT (leading ∅ ops) /\
  readFrames (String.length (rp_body r)) (rp_body r) = Some (map (pair 0%Z) messages ++ [(connectEndStreamFlag, endStream)]) /\
  Forall (fun p => Z.of_nat (String.length p) <= maxResponse)%Z messages.
Proof.
  destruct (outgoing (sends ops)) as [messages lost] eqn:Ho. cbv zeta.
  pose proof (outgoing_framed (sends ops)) as Hfit. rewrite Ho in Hfit. cbn [fst] in Hfit.
  set (s0 := newProjectedServerStream req (mkWriter None "") : Stm).
  pose proof (run_sent ops s0) as [Hb He]. pose proof (run_header ops s0 (or_introl eq_refl)) as Hh.
  pose proof (run_trailer ops s0) as Ht. pose proof (run_headersKept ops s0 I) as Hk. cbn [ps_sendErr s0 newProjectedServerStream] in Hb, He.
  rewrite Ho in Hb, He. change (wr_body (ps_sender s0)) with EmptyString in Hb. rewrite append_nil_l in Hb. cbn in He, Hh, Ht. unfold runStream. fold s0. unfold run in *.
  destruct (performAll s0 ops) as [s es]. cbn [fst] in *. cbv zeta.
  assert (invokeGRPCStream handlerErr ctx s = reported ops handlerErr ctx) as Hi.
  { unfold invokeGRPCStream, reported. rewrite He, Ho. cbn [snd]. by destruct handlerErr, lost, ctx. }
  rewrite Hi, Ht, (reported_context ops handlerErr ctx).
  set (e := connectEndStreamPayload _ _). assert (framed (connectEndStreamFlag, e)) as Hf.
  { split; [done|]. cbn [snd]. pose proof (control_envelope_bounded ((fun e => statusFromError (Some e)) <$> reported ops handlerErr ctx)
      (map_to_list (trailing ∅ ops))) as Hc. unfold e, maxUint32. unfold maxConnectControlEnvelope in Hc. change (Z.shiftl 1 20) with 1048576%Z in Hc. lia. }
  unfold writeFrame. rewrite (proj2 (writeConnectEnvelope_frame connectEndStreamFlag e _) (conj (proj2 Hf) eq_refl)).
  cbn [fst wr_committed wr_body rp_status rp_header rp_body]. rewrite commit_committed, commit_body, Hb.
  rewrite <- (frames_one connectEndStreamFlag e), <- frames_app. split_and!; [done| | |].
  - cbn [default]. unfold headersKept in Hk. rewrite <- Hh. destruct (wr_committed (ps_sender s)); [|done]. by destruct Hk.
  - apply readFrames_frames; [|apply frames_length]. apply list.Forall_app. split; [|by constructor]. apply List.Forall_map.
    eapply list.Forall_impl; [exact Hfit|]. intros p [_ Hp]. by split.
  - eapply list.Forall_impl; [exact Hfit|]. by intros p [Hp _].
Qed.
End Streams.

(** ** Sizes *)

Section Sizes.
Context `{CodeNames} (mediaType : string -> option string).

Lemma errorResponse_bounded h e limit : (0 < limit)%Z -> (Z.of_nat (String.length (rp_body (errorResponse h e limit))) <= limit)%Z.
Proof.
  intros Hl. unfold errorResponse. pose proof (error_response_bounded (statusFromError (Some e)) limit Hl) as [Hb _].
  by destruct (httpErrorWithLimit _ _).
Qed.
Lemma errorResponse_failure h e limit : st_code (statusFromError (Some e)) <> OK -> (400 <= rp_status (errorResponse h e limit))%Z.
Proof.
  intros Hc%error_status_failure. unfold errorResponse, httpErrorWithLimit. cbv zeta. by destruct (_ && _).
Qed.
Lemma unsupported_bounded m limit : (0 < limit)%Z -> (Z.of_nat (String.length (rp_body (unsupportedMediaType m limit))) <= limit)%Z.
Proof.
  intros Hl. unfold unsupportedMediaType, httpUnsupportedMediaTypeWithLimit. cbv zeta. rewrite (proj2 (Z.ltb_lt _ _) Hl). cbn [andb rp_body].
  unfold exceeds. destruct (Z.ltb_spec limit (Z.of_nat (String.length (Marshal (connectErrorPayload (mkStatus InvalidArgument m [])))))); [by apply Z.lt_le_incl|done].
Qed.

Lemma handleHTTPProto_bounded entry q body factory decode call :
  (0 < maxUnaryResponse entry)%Z ->
  (Z.of_nat (String.length (rp_body (handleHTTPProto entry q body factory decode call))) <= maxUnaryResponse entry)%Z.
Proof.
  intros Hl. unfold handleHTTPProto. cbv zeta. destruct factory; [|by apply errorResponse_bounded]. cbn [negb].
  destruct (if String.eqb body "" then None else decode body); [by apply errorResponse_bounded|].
  destruct (call body) as [r t]. destruct (callError r (q_ctxCall q)) as [[b|e]|e]; try by apply errorResponse_bounded.
  destruct (Z.ltb_spec (maxUnaryResponse entry) (Z.of_nat (String.length b))); [by apply errorResponse_bounded|done].
Qed.

(** C28: a unary call never answers with more bytes than the limit of its method,
    errors included; and a request larger than the method accepts is refused
    without the application: the response does not depend on it and is never a
    success. *)
Theorem unary_bounded entry q factory decode callProto callJSON :
  (0 < maxUnaryResponse entry)%Z ->
  let r := handleUnary mediaType entry q factory decode callProto callJSON in
  (Z.of_nat (String.length (rp_body r)) <= maxUnaryResponse entry)%Z /\
  (maxUnaryRequest entry < Z.of_nat (String.length (q_body q)) ->
   rp_status r <> 200 /\ forall decode' callProto' callJSON', handleUnary mediaType entry q factory decode' callProto' callJSON' = r)%Z.
Proof.
  intros Hl. cbv zeta. split.
  - unfold handleUnary. cbv zeta. destruct (_ && _); [by apply unsupported_bounded|]. destruct (_ && _); [by apply errorResponse_bounded|].
    destruct (readBody q _) as [b| |e].
    + destruct (matchContentType _ _ protoContentType); [by apply handleHTTPProto_bounded|]. destruct (callJSON b) as [r t].
      destruct (callError r _) as [s|e]; [|by apply errorResponse_bounded].
      destruct (Z.ltb_spec (maxUnaryResponse entry) (Z.of_nat (String.length s))); [by apply errorResponse_bounded|done].
    + destruct (q_ctxRead q); by apply errorResponse_bounded.
    + destruct (q_ctxRead q); by apply errorResponse_bounded.
  - intros Hq. unfold handleUnary, readBody. rewrite (proj2 (Z.ltb_lt _ _) Hq). cbv zeta. split; [|done].
    destruct (_ && _); [done|]. destruct (_ && _); [|destruct (q_ctxRead q) as [[]|]];
      match goal with |- rp_status (errorResponse ?h ?e ?l) <> _ => pose proof (errorResponse_failure h e l) as Hs end;
      intros Hr; rewrite Hr in Hs; by specialize (Hs ltac:(done)).
Qed.
End Sizes.

(** ** Routes *)

Section Routing.
Context {UI SI HP MM : Type} (w : World).
Notation Srv := (@Server.Server UI SI HP MM).

(** Names of services have no slash: protobuf names are identifiers with dots. *)
Definition slashFree : Prop := forall n i, Services (parsed w) !! n = Some i -> noByte SLASH n = true.

Lemma slash_split s m s' m' :
  noByte SLASH s = true -> noByte SLASH s' = true -> s +:+ String SLASH m = s' +:+ String SLASH m' -> s = s' /\ m = m'.
Proof.
  revert s'. induction s as [|c s IH]; intros [|c' s']; rewrite ?append_nil_l, ?append_cons; intros Hs Hs' [= E]; try done.
  - subst c'. by apply noByte_cons in Hs' as [Hs' _].
  - subst c. by apply noByte_cons in Hs as [Hs _].
  - subst c'. apply noByte_cons in Hs as [_ Hs]. apply noByte_cons in Hs' as [_ Hs']. destruct (IH s' Hs Hs') as [-> ->]; done.
Qed.

Section Reached.
Context (s : Srv) (Hinv : Inv w s) (Hslash : slashFree).

Lemma tool_service n t : Server.tools s !! n = Some t -> noByte SLASH (Server.ServiceFullName t) = true.
Proof. intros Hn. destruct (to_method w _ _ _ (inv_tools w _ Hinv _ _ Hn)) as (i&_&Hi&_). by eapply Hslash. Qed.

Lemma methodPath_inj n t n' t' :
  Server.tools s !! n = Some t -> Server.tools s !! n' = Some t' -> Server.methodPath t = Server.methodPath t' -> n = n' /\ t = t'.
Proof.
  intros Hn Hn' Hp. pose proof (tool_service _ _ Hn) as Hs. pose proof (tool_service _ _ Hn') as Hs'.
  unfold Server.methodPath in Hp. apply append_inv_head in Hp.
  destruct (slash_split _ _ _ _ Hs Hs' Hp) as [E1 E2].
  destruct (to_name w _ _ _ (inv_tools w _ Hinv _ _ Hn)) as [_ H1]. destruct (to_name w _ _ _ (inv_tools w _ Hinv _ _ Hn')) as [_ H2].
  assert (n = n') as <- by (rewrite H1, H2, E1, E2; done). split; [done|congruence].
Qed.

Lemma entries_exact path e :
  entries s !! path = Some e <-> exists n t, Server.tools s !! n = Some t /\ path = Server.methodPath t /\ e = newEntry s t.
Proof.
  unfold entries. rewrite <- elem_of_list_to_map.
  - rewrite list_elem_of_fmap. split.
    + intros ([n t]&[= -> ->]&Hn%elem_of_map_to_list). by exists n, t.
    + intros (n&t&Hn&->&->). exists (n, t). split; [done|by apply elem_of_map_to_list].
  - rewrite <- list_fmap_compose. apply NoDup_fmap_2_strong; [|apply NoDup_map_to_list].
    intros [n t] [n' t'] Hn%elem_of_map_to_list Hn'%elem_of_map_to_list Hp. cbn in Hp. destruct (methodPath_inj _ _ _ _ Hn Hn' Hp) as [-> ->]. done.
Qed.

Lemma methodCap_positive field server t : (0 < server s)%Z -> (0 < Server.methodCap field server s t)%Z.
Proof. intros Hs. unfold Server.methodCap. destruct (_ !! _) as [cfg|]; [|done]. by destruct (Z.ltb_spec 0 (field cfg)). Qed.
End Reached.

(** The handler of a server serves every tool on the route made of its service
    and method, and nothing else: a POST reaches a tool exactly when the path is that
    tool's, a GET never does, and the tool's limits, its own or the server's, are
    positive.  Making the handler freezes the server, so this stays so. *)
Theorem route_exact fds (s : Srv) path origin e :
  parseFileDescriptorSet fds = Ok (parsed w) -> Reached w s -> slashFree ->
  let '(s', handler) := HTTPHandler s in
  Server.frozen s' = true /\
  (handler "POST" path origin = RouteTool e <->
     exists n t, Server.tools s !! n = Some t /\ path = Server.methodPath t /\ e = newEntry s t) /\
  handler "GET" path origin <> RouteTool e /\
  (handler "POST" path origin = RouteTool e ->
     0 < maxUnaryRequest e /\ 0 < maxUnaryResponse e /\ 0 < maxStreamRequest e /\ 0 < maxStreamResponse e)%Z.
Proof.
  intros Hp Hr Hslash. assert (Inv w s) as Hinv by (apply Reached_Inv; [by eapply parsed_names|done]). unfold HTTPHandler.
  assert (entries (Server.freeze s) = entries s) as -> by (unfold Server.freeze; by destruct (Server.frozenFast s)).
  assert (route (entries s) "POST" path origin = RouteTool e <->
     exists n t, Server.tools s !! n = Some t /\ path = Server.methodPath t /\ e = newEntry s t) as Hroute.
  { rewrite <- (entries_exact s Hinv Hslash). unfold route. cbn [String.eqb Ascii.eqb Bool.eqb andb].
    destruct (String.eqb_spec path "/mcp") as [->|_]; [|destruct (entries s !! path); naive_solver].
    split; [done|]. intros (n&t&Hn&Hpath&_)%(entries_exact s Hinv Hslash). exfalso. unfold Server.methodPath in Hpath.
    apply (append_inv_head "/" "mcp") in Hpath. assert (noByte SLASH "mcp" = true) as Hm by reflexivity.
    rewrite Hpath, !noByte_append in Hm. rewrite andb_false_r in Hm. done. }
  split_and!; [|exact Hroute| |].
  - unfold Server.freeze. destruct (Server.frozenFast s) eqn:E; [by rewrite <- (inv_frozen w s Hinv)|done].
  - unfold route. cbn [String.eqb Ascii.eqb Bool.eqb andb]. repeat (match goal with |- context [if ?b then _ else _] => destruct b end; try done);
    by destruct (entries s !! path).
  - intros (n&t&_&_&->)%Hroute. destruct (inv_limits w s Hinv) as (H1&H2&H3&H4&_). cbn. by split_and!; apply methodCap_positive.
Qed.
End Routing.

(** ** Witnesses *)

(** [metadata.Join] as its documentation describes it. *)
Definition joinedMetadata : MetadataLib := {| MD_Join := union_with (fun a b => Some (a ++ b)) |}.
Lemma joinedMetadata_laws : @MetadataLibLaws joinedMetadata.
Proof. split. intros a b k. cbn. rewrite lookup_union_with. destruct (a !! k), (b !! k); cbn; by rewrite ?app_nil_r. Qed.

Definition chatOps : list (@Operation string) :=
  [ORecv; OSetHeader {["x-room" := ["7"]]}; OSend None (inl "hi"); OSetHeader {["late" := ["1"]]}; OSend None (inl "far too long");
   OSend None (inl "lost"); OSetTrailer {["x-count" := ["1"]]}].

Definition chat : Response := @runStream generatedCodes joinedMetadata string inl "application/connect+json" 4 "req" chatOps None None.
Lemma stream_wire_witness :
  readFrames (String.length (rp_body chat)) (rp_body chat) =
    Some [(0%Z, "hi"); (2%Z, @connectEndStreamPayload generatedCodes
      (Some (mkStatus ResourceExhausted "encoded stream response message exceeds 4 byte limit" [])) [("x-count", ["1"])])].
Proof.
  destruct (@stream_wire generatedCodes generatedCodes_laws joinedMetadata string inl "application/connect+json" 4 "req" chatOps None None)
    as (_&_&H&_). etransitivity; [exact H|]. vm_compute. reflexivity.
Defined.

(** The tool of a served method, and a request of five bytes where four are accepted. *)
Definition placeEntry (t : Tool) : httpToolEntry := mkEntry t 4 60 4 4.
Definition longRequest : Request := mkRequest "application/json" "" "hello" None None None.

Lemma unary_bounded_witness :
  exists t, tools shopServer !! "shop.Orders.Place" = Some t /\
  rp_status (@handleUnary generatedCodes Some (placeEntry t) longRequest true (fun _ => None)
    (fun b => (inl (inl b), newProjectionUnaryTransport "")) (fun b => (inl b, newProjectionUnaryTransport ""))) <> 200%Z.
Proof.
  eexists. split; [vm_compute; reflexivity|].
  refine (proj1 (proj2 (@unary_bounded generatedCodes Some (placeEntry _) longRequest true (fun _ => None) _ _ _) _)); reflexivity.
Defined.

Lemma shopWorld_slashFree : slashFree shopWorld.
Proof.
  intros n i Hn. assert (map_Forall (fun n _ => noByte SLASH n = true) (Services (parsed shopWorld))) as H by by_computation. exact (H n i Hn).
Qed.
Lemma shop_place : (fun t => (methodPath t, ServiceFullName t)) <$> tools shopServer !! "shop.Orders.Place" = Some ("/shop.Orders/Place", "shop.Orders").
Proof. vm_compute. reflexivity. Qed.
Lemma route_exact_witness :
  exists e, (HTTPHandler shopServer).2 "POST" "/shop.Orders/Place" false = RouteTool e /\ ServiceFullName (tool e) = "shop.Orders".
Proof.
  destruct (fmap_Some_1 _ _ _ shop_place) as (t&Ht&Hp). pose proof (f_equal fst Hp : _ = methodPath t) as Hpath. pose proof (f_equal snd Hp : _ = ServiceFullName t) as Hs.
  refine (ex_intro _ (newEntry shopServer t) (conj _ (eq_sym Hs))).
  exact (proj2 (proj1 (proj2 (route_exact shopWorld [shopFile] shopServer "/shop.Orders/Place" false (newEntry shopServer t)
    ltac:(vm_compute; reflexivity) shopServer_reached shopWorld_slashFree)))
    (ex_intro _ "shop.Orders.Place" (ex_intro _ t (conj Ht (conj Hpath eq_refl))))).
Defined.
