(* ===== verification/RawJson.v ===== *)
(** * encoding/json: raw messages

    A [json.RawMessage] keeps the text of a value.  The members of an object whose
    values stay raw, the text [Marshal] writes for a raw value, and decoding into a
    string. *)
From S2P Require Import Prelude GoStrings StringFacts Json JsonParse Metadata.
Import Metadata.

Module RawJson.

(** ** Where a value ends *)

(** Inside the text of a value: how deep in brackets, and whether in a string. *)
Inductive Inside : Type :=
  | Outer (depth : nat)
  | Quoted (depth : nat)
  | Escaped (depth : nat).

Definition insideByte (st : Inside) (c : ascii) : Inside :=
  match st with
  | Outer depth =>
      if Ascii.eqb c DQUOTE then Quoted depth
      else if Ascii.eqb c "{" || Ascii.eqb c "[" then Outer (S depth)
      else if Ascii.eqb c "}" || Ascii.eqb c "]" then Outer (pred depth)
      else Outer depth
  | Quoted depth =>
      if Ascii.eqb c DQUOTE then Outer depth
      else if Ascii.eqb c BACKSLASH then Escaped depth
      else Quoted depth
  | Escaped depth => Quoted depth
  end.

(** The parts of a text between the separators that are in no bracket and no string. *)
Fixpoint splitTop (sep : ascii) (st : Inside) (part s : string) : list string :=
  match s with
  | EmptyString => [part]
  | String c r =>
      match st with
      | Outer 0 => if Ascii.eqb c sep then part :: splitTop sep st "" r
                   else splitTop sep (insideByte st c) (part +:+ str1 c) r
      | _ => splitTop sep (insideByte st c) (part +:+ str1 c) r
      end
  end.

Fixpoint trimSpacesLeft (s : string) : string :=
  match s with
  | String c r => if isSpace c then trimSpacesLeft r else s
  | EmptyString => EmptyString
  end.
(** Without the JSON white space around it. *)
Definition trimSpaces (s : string) : string := revString (trimSpacesLeft (revString (trimSpacesLeft s))).

(** ** [map[string]json.RawMessage] *)

Definition member (s : string) : string * string :=
  match splitTop ":" (Outer 0) "" s with
  | [key; value] => (match Unmarshal key with Some (JString k) => k | _ => "" end, trimSpaces value)
  | _ => ("", "")
  end.
Definition inner (s : string) : string := revString (dropBytes 1 (revString (dropBytes 1 (trimSpaces s)))).
(** The members of an object in order, each with the text of its value; [None] when
    the text is not one object. *)
Definition rawObject (s : string) : option (list (string * string)) :=
  match Unmarshal s with
  | Some (JObject []) => Some []
  | Some (JObject _) => Some (map member (splitTop "," (Outer 0) "" (inner s)))
  | _ => None
  end.
(** The last of a repeated key counts. *)
Definition field (key : string) (fields : list (string * string)) : option string := assoc key (rev fields).

(** ** Decoding a raw value into a string variable *)

(** Null leaves the variable as it is. *)
Definition intoText (old raw : string) : option string :=
  match Unmarshal raw with
  | Some (JString s) => Some s
  | Some JNull => Some old
  | _ => None
  end.
Definition decodeText (raw : option string) : option string := intoText "" (default "" raw).

(** ** What [Marshal] writes for a raw value *)

(** White space outside strings goes; <, > and & and the line separators are escaped. *)
Fixpoint compact (st : Inside) (s : string) : string :=
  match s with
  | EmptyString => EmptyString
  | String c r =>
      let next := compact (insideByte st c) r in
      match st with
      | Outer _ => if isSpace c then next else String c next
      | _ =>
          if Ascii.eqb c "<" || Ascii.eqb c ">" || Ascii.eqb c "&" then escape4 ("00" +:+ hexByte c) +:+ next
          else match r with
               | String d (String e r') =>
                   if inRange 226 226 c && inRange 128 128 d && (inRange 168 168 e || inRange 169 169 e) then
                     escape4 ("202" +:+ (if inRange 168 168 e then "8" else "9")) +:+ compact st r'
                   else String c next
               | _ => String c next
               end
      end
  end.
Definition marshalRaw (raw : option string) : JsonValue :=
  match raw with
  | None => JNull
  | Some raw => JNumber (compact (Outer 0) raw)
  end.

(** A JSON value that is already text is written as it is. *)
Example compact_example :
  compact (Outer 0) (quotes "{ 'a b' : ['<\'>', 1 ] }") = quotes "{'a b':['\u003c\'\u003e',1]}".
Proof. vm_compute. reflexivity. Qed.
Example rawObject_example :
  rawObject (quotes " { 'a' : [ 1 , {'x':'}'} ], 'b':' , : ' ,'a':  -5 } ")
  = Some [("a", quotes "[ 1 , {'x':'}'} ]"); ("b", quotes "' , : '"); ("a", "-5")].
Proof. vm_compute. reflexivity. Qed.
Example rawObject_refuses : map (fun s => rawObject (quotes s)) ["[]"; "null"; "{"; "{'a':}"] = [None; None; None; None].
Proof. vm_compute. reflexivity. Qed.
End RawJson.
