(* ===== verification/Errors.v ===== *)
(** * Errors in the MCP and CLI shape (src/go/errors.go)

    The error of a JSON request, and the payload that spells out the details of a
    status.  Decoding a detail, printing it as JSON and encoding a BadRequest are
    protobuf's; what the code does with the outcome is modelled. *)
From S2P Require Import Prelude GoStrings StringFacts Json JsonParse Metadata Connect HttpRequest Stream.
Import Metadata Connect HttpRequest Stream.

Module Errors.

(** ** Unknown fields *)

(** The bytes before the first quotation mark, if there is one. *)
Fixpoint untilQuote (s : string) : option string :=
  match s with
  | EmptyString => None
  | String c r => if Ascii.eqb c DQUOTE then Some EmptyString else String c <$> untilQuote r
  end.
Definition unknownFieldPrefix : string := "unknown field " +:+ str1 DQUOTE.
(** The match of the pattern at the start of a text: the name, which is not empty. *)
Definition matchHere (s : string) : option string :=
  if HasPrefix s unknownFieldPrefix then
    match untilQuote (TrimPrefix s unknownFieldPrefix) with
    | Some (String c name) => Some (String c name)
    | _ => None
    end
  else None.
(** The leftmost match. *)
Fixpoint unknownField (s : string) : option string :=
  match matchHere s with
  | Some name => Some name
  | None => match s with
            | EmptyString => None
            | String _ r => unknownField r
            end
  end.

Section Details.
(** A BadRequest with one violation: a field and a description, as a detail. *)
Context (badRequest : string -> string -> option (string * string)).

Definition invalidArgumentFromJSONError (msg : string) : GoError :=
  let st := mkStatus InvalidArgument msg [] in
  match unknownField msg with
  | None => statusError st
  | Some name =>
      match badRequest name msg with
      | Some detail => statusError (mkStatus InvalidArgument msg [detail])
      | None => statusError st
      end
  end.

(** What [status.Details] gives for one detail: a message by its full name, its
    protojson text if it has one and its Go text; an error; another value. *)
Inductive Detail : Type :=
  | DMessage (fullName : string) (json : option string) (goText : string)
  | DError (text : string)
  | DOther (goText : string).
Context (decodeDetail : string * string -> Detail).

(** [m[k] = v] on a decoded object; the keys are sorted when it is written. *)
Definition setKey (k : string) (v : JsonValue) (l : list (string * JsonValue)) : list (string * JsonValue) :=
  filter (fun kv => kv.1 <> k) l ++ [(k, v)].
(** Decoding into a map keeps the last of a repeated key. *)
Definition lastKeys (l : list (string * JsonValue)) : list (string * JsonValue) :=
  foldl (fun out kv => setKey kv.1 kv.2 out) [] l.

(** A JSON null decodes into a nil map without an error, and the key is then set in it. *)
Definition renderDetail (d : Detail) : Outcome JsonValue :=
  match d with
  | DMessage fullName None goText => Ok (JObject [("@type", JString fullName); ("value", JString goText)])
  | DMessage fullName (Some raw) _ =>
      match Unmarshal raw with
      | Some (JObject l) => Ok (JObject (setKey "@type" (JString fullName) (lastKeys l)))
      | Some JNull => Panic "assignment to entry in nil map"
      | _ => Ok (JObject [("@type", JString fullName); ("value", JString raw)])
      end
  | DError text => Ok (JObject [("message", JString text)])
  | DOther goText => Ok (JObject [("value", JString goText)])
  end.
Definition statusDetails (st : Status) : Outcome (list JsonValue) := mapOutcome (fun d => renderDetail (decodeDetail d)) (st_details st).

Definition errorMessage (err : GoError) : string := st_message (statusFromError (Some err)).

Context `{CodeNames}.
Definition errorPayload (err : GoError) : Outcome JsonValue :=
  let st := statusFromError (Some err) in
  details ← statusDetails st;
  Ok (JObject ([("code", JString (grpcCodeName (st_code st)))]
               ++ match details with [] => [] | ds => [("details", JArray ds)] end
               ++ [("message", JString (st_message st))])).
End Details.

Example unknownField_leftmost :
  unknownField ("(line 1:2): unknown field " +:+ str1 DQUOTE +:+ str1 DQUOTE +:+ ", unknown field " +:+ str1 DQUOTE +:+ "nope" +:+ str1 DQUOTE) = Some "nope".
Proof. vm_compute. reflexivity. Qed.
End Errors.
