(* ===== verification/Mcp.v ===== *)
(** * The MCP projection (src/go/mcp.go, src/go/http.go handleMCPHTTP)

    JSON-RPC messages, the dispatch of a request to the tools of a server, the
    session over a stream of lines with its calls in flight, and the HTTP transport.
    The texts of [encoding/json] errors, protojson and [mime.ParseMediaType] are
    parameters; the application is what calling a tool returns. *)
From S2P Require Import Prelude GoStrings StringFacts Json JsonParse JsonSchema Metadata Connect HttpRequest HttpClient Server Stream HttpHandler RawJson Errors.
Import Metadata Connect HttpRequest Stream HttpHandler RawJson Errors.

Module Mcp.

Definition mcpProtocolVersion : string := "2025-11-25".
Definition mcpMaxSafeInteger : Z := Z.shiftl 1 53 - 1.
Definition serverName : string := "invariant-protocol".
Definition serverVersion : string := "0.16.9".

(** ** Messages *)

(** Raw values are their texts; an absent one is [None]. *)
Record jsonRPCRequest : Type := mkRPC {
  rq_jsonrpc : string;
  rq_id : option string;
  rq_method : string;
  rq_params : option string
}.
Record jsonRPCError : Type := mkRPCError { re_code : Z; re_message : string }.
Record jsonRPCResponse : Type := mkRPCResponse { rs_id : option string; rs_result : JsonValue + jsonRPCError }.

Definition mcpOK (id : option string) (result : JsonValue) : jsonRPCResponse := mkRPCResponse id (inl result).
Definition mcpErr (id : option string) (code : Z) (message : string) : jsonRPCResponse :=
  mkRPCResponse id (inr (mkRPCError code message)).

(** The JSON of a response; the keys of Go maps are sorted.  The numbers in the details
    of an error are those protojson printed, which are printed the same again. *)
Definition responseJSON (r : jsonRPCResponse) : JsonValue :=
  JObject [("jsonrpc", JString "2.0"); ("id", marshalRaw (rs_id r));
           match rs_result r with
           | inl result => ("result", sortKeys result)
           | inr e => ("error", JObject [("code", JInt (re_code e)); ("message", JString (re_message e))])
           end].
Definition marshalResponse (r : jsonRPCResponse) : string := Marshal (responseJSON r).

(** ** Identifiers *)

(** [strconv.ParseInt(text, 10, 64)] of a JSON number, kept when it is a safe integer. *)
Definition parseInteger (text : string) : option Z :=
  let '(negative, digits) := match text with
                             | String c r => if Ascii.eqb c "-" then (true, r) else (false, text)
                             | EmptyString => (false, text)
                             end in
  if negb (String.eqb digits "") && allBytes isDigit digits then
    let n := digitsValue 0 digits in Some (if negative then - n else n)%Z
  else None.
Definition mcpIntegerValue (raw : string) : option Z :=
  let text := TrimSpace raw in
  match Unmarshal text with
  | None => None
  | Some _ =>
      match text with
      | EmptyString => None
      | String c _ =>
          if negb (Ascii.eqb c "-") && negb (isDigit c) then None
          else match parseInteger text with
               | Some value => if (value <? - mcpMaxSafeInteger)%Z || (mcpMaxSafeInteger <? value)%Z then None else Some value
               | None => None
               end
      end
  end.
Definition validMCPInteger (raw : string) : bool := match mcpIntegerValue raw with Some _ => true | None => false end.

Definition isText (raw : string) : bool := match raw with String c _ => Ascii.eqb c DQUOTE | EmptyString => false end.
Definition validMCPID (raw : string) : bool :=
  let text := TrimSpace raw in
  if String.eqb text "" || String.eqb text "null" || String.eqb text "true" || String.eqb text "false" then false
  else if isText text then match intoText "" raw with Some _ => true | None => false end
  else validMCPInteger raw.

Definition mcpIDKey (raw : string) : option string :=
  let text := TrimSpace raw in
  if negb (validMCPID text) then None
  else if isText text then (fun value => "string:" +:+ value) <$> intoText "" text
  else (fun value => "integer:" +:+ FormatInt value) <$> mcpIntegerValue text.

(** ** Parameters *)

Definition mcpJSONObject (raw : option string) : bool :=
  match TrimSpace (default "" raw) with String c _ => Ascii.eqb c "{" | EmptyString => false end.
Definition isSome {A} (o : option A) : bool := match o with Some _ => true | None => false end.

Definition validMCPError (raw : option string) : bool :=
  mcpJSONObject raw &&
  match rawObject (default "" raw) with
  | None => false
  | Some fields =>
      match field "code" fields, field "message" fields with
      | Some code, Some message => validMCPInteger code && isSome (decodeText (Some message))
      | _, _ => false
      end
  end.
Definition validMCPToolCallParams (raw : option string) : bool :=
  mcpJSONObject raw &&
  match rawObject (default "" raw) with
  | None => false
  | Some fields =>
      match field "name" fields with
      | None => false
      | Some name =>
          isSome (decodeText (Some name)) &&
          match field "arguments" fields with None => true | Some arguments => mcpJSONObject (Some arguments) end
      end
  end.
Definition validMCPInitializeParams (raw : option string) : bool :=
  mcpJSONObject raw &&
  match rawObject (default "" raw) with
  | None => false
  | Some fields =>
      isSome (decodeText (field "protocolVersion" fields)) &&
      mcpJSONObject (field "capabilities" fields) && mcpJSONObject (field "clientInfo" fields) &&
      match rawObject (default "" (field "clientInfo" fields)) with
      | None => false
      | Some clientInfo => isSome (decodeText (field "name" clientInfo)) && isSome (decodeText (field "version" clientInfo))
      end
  end.

(** ** Reading a message *)

(** What a message is: a request, a response of the client, or an error to answer. *)
Inductive Incoming : Type :=
  | IsRequest (r : jsonRPCRequest)
  | IsResponse
  | IsInvalid (answer : jsonRPCResponse).

(** Decoding the members of an object into the struct: names match up to case. *)
Definition requestField (r : jsonRPCRequest) (kv : string * string) : option jsonRPCRequest :=
  let '(key, raw) := kv in
  if HttpClient.namesField key "jsonrpc" then v ← intoText (rq_jsonrpc r) raw; Some (mkRPC v (rq_id r) (rq_method r) (rq_params r))
  else if HttpClient.namesField key "id" then Some (mkRPC (rq_jsonrpc r) (Some raw) (rq_method r) (rq_params r))
  else if HttpClient.namesField key "method" then v ← intoText (rq_method r) raw; Some (mkRPC (rq_jsonrpc r) (rq_id r) v (rq_params r))
  else if HttpClient.namesField key "params" then Some (mkRPC (rq_jsonrpc r) (rq_id r) (rq_method r) (Some raw))
  else Some r.
Definition decodeRequest (fields : list (string * string)) : option jsonRPCRequest :=
  HttpClient.foldOption requestField fields (mkRPC "" None "" None).

Definition invalidRequest : Incoming := IsInvalid (mcpErr None (-32600) "Invalid Request").
Definition invalidParams (id : option string) : Incoming := IsInvalid (mcpErr id (-32602) "Invalid params").

(** An integer identifier is rewritten in its shortest form. *)
Definition normalizeID (hasID : bool) (r : jsonRPCRequest) : jsonRPCRequest :=
  let text := TrimSpace (default "" (rq_id r)) in
  if hasID && negb (String.eqb text "") && negb (isText text) then
    mkRPC (rq_jsonrpc r) (Some (FormatInt (default 0%Z (mcpIntegerValue (default "" (rq_id r)))))) (rq_method r) (rq_params r)
  else r.

Section Dispatch.
(** The text of the error of [json.Unmarshal] into any value, if there is one. *)
Context (syntaxError : string -> option string).

Definition parseMCPJSONRPC (data : string) : Incoming :=
  if negb (ValidString data && isSome (Unmarshal data)) then
    IsInvalid (mcpErr None (-32700) ("Parse error" +:+ match syntaxError data with Some e => ": " +:+ e | None => "" end))
  else
    match rawObject data with
    | None => invalidRequest
    | Some fields =>
        let version := field "jsonrpc" fields in
        if negb (isSome version) || negb (bool_decide (decodeText version = Some "2.0")) then invalidRequest
        else
          let id := field "id" fields in
          let hasID := isSome id in
          let validID := match id with Some raw => validMCPID raw | None => false end in
          let hasResult := isSome (field "result" fields) in
          let hasError := isSome (field "error" fields) in
          if negb (isSome (field "method" fields)) then
            if hasResult && negb hasError then
              if negb hasID || negb validID || negb (mcpJSONObject (field "result" fields)) then invalidRequest else IsResponse
            else if hasError && negb hasResult then
              if (hasID && negb validID) || negb (validMCPError (field "error" fields)) then invalidRequest else IsResponse
            else invalidRequest
          else
            match decodeRequest fields with
            | None => invalidRequest
            | Some req =>
                if hasID && negb validID then invalidRequest
                else
                  let req := normalizeID hasID req in
                  if (isSome (field "params" fields) && negb (mcpJSONObject (field "params" fields)))
                     || (String.eqb (rq_method req) "tools/call" && negb (validMCPToolCallParams (field "params" fields)))
                  then if hasID then invalidParams (rq_id req) else IsRequest req
                  else IsRequest req
            end
    end.

(** ** Dispatch *)

(** A schema as JSON. *)
Fixpoint fromAny (v : Any) : JsonValue :=
  match v with
  | AString s => JString s
  | ABool b => JBool b
  | AInt z => JInt z
  | AStrings l => JArray (map JString l)
  | AList l => JArray (map fromAny l)
  | AMap l => JObject (map (fun kv => (kv.1, fromAny kv.2)) l)
  end.

Context {UI SI HP MM : Type} (s : @Server.Server UI SI HP MM).
(** The text of the error of decoding the parameters of a call. *)
Context (paramsError : string -> string).
Context `{CodeNames} `{MetadataLib} (badRequest : string -> string -> option (string * string)) (decodeDetail : string * string -> Detail).
(** The application: [invokeJSON] of a tool; a streaming tool decodes its request,
    runs on the stream and encodes its messages. *)
Context (invokeJSON : Server.Tool -> string -> string + GoError).
Context {Message : Type} (newRequest : Server.Tool -> Message + GoError) (unmarshalJSON : string -> Message -> Message + string).
Context (marshalIndent : Message -> string + string) (app : Server.Tool -> Message -> list (@Operation Message) * option GoError).
Context (ctx : option ContextError).

Definition textBlock (text : string) : JsonValue := JObject [("text", JString text); ("type", JString "text")].
Definition contentResult (content : list JsonValue) : JsonValue := JObject [("content", JArray content)].
Definition errorResult (content : list JsonValue) (err : GoError) : Outcome JsonValue :=
  payload ← errorPayload decodeDetail err;
  Ok (JObject [("content", JArray (content ++ [textBlock (errorMessage err)])); ("error", payload); ("isError", JBool true)]).

Definition limitError : GoError := resourceExhausted "encoded MCP response exceeds configured byte limit".

(** The blocks of a stream so far, the size of the response that holds them, and
    whether one of them did not fit. *)
Record Collected : Type := mkCollected { co_texts : list string; co_size : Z; co_exceeded : bool }.

Definition collectChunk (maxResponseBytes : Z) (msg : Message) (_ : MD) (c : Collected) : Collected * option GoError :=
  match marshalIndent msg with
  | inr e => (c, Some (plainError ("marshal stream chunk: " +:+ e)))
  | inl raw =>
      let nextSize := (co_size c + Z.of_nat (String.length (Marshal (textBlock raw)))
                       + match co_texts c with [] => 0 | _ => 1 end)%Z in
      if (0 <? maxResponseBytes)%Z then
        if (maxResponseBytes <? nextSize)%Z then (mkCollected (co_texts c) (co_size c) true, Some limitError)
        else (mkCollected (co_texts c ++ [raw]) nextSize (co_exceeded c), None)
      else (mkCollected (co_texts c ++ [raw]) (co_size c) (co_exceeded c), None)
  end.

Definition emptyResponse (id : option string) : string := marshalResponse (mcpOK id (contentResult [])).

Definition runTool (tool : Server.Tool) (req : Message) (maxResponseBytes size : Z) : Collected * option GoError :=
  let empty := mkCollected [] size false in
  match Server.streamDesc tool with
  | None => (empty, Some (plainError "tool is not server-streaming"))
  | Some _ =>
      let '(ops, handlerErr) := app tool req in
      let '(st, _) := performAll (collectChunk maxResponseBytes) None None (newProjectedServerStream req empty) ops in
      (ps_sender st, invokeGRPCStream handlerErr ctx st)
  end.

Definition toolsCallStream (id : option string) (tool : Server.Tool) (argsJSON : string) (maxResponseBytes : Z)
  : Outcome (jsonRPCResponse + GoError) :=
  match newRequest tool with
  | inr e => r ← errorResult [] e; Ok (inl (mcpOK id r))
  | inl empty =>
      match (if negb (String.eqb argsJSON "") && negb (String.eqb argsJSON "null") then unmarshalJSON argsJSON empty else inl empty) with
      | inr e => r ← errorResult [] (invalidArgumentFromJSONError badRequest e); Ok (inl (mcpOK id r))
      | inl req =>
          let size := if (0 <? maxResponseBytes)%Z then Z.of_nat (String.length (emptyResponse id)) else 0%Z in
          if (0 <? maxResponseBytes)%Z && (maxResponseBytes <? size)%Z then Ok (inr limitError)
          else
            let '(collected, err) := runTool tool req maxResponseBytes size in
            if co_exceeded collected then Ok (inr limitError)
            else
              let content := map textBlock (co_texts collected) in
              match err with
              | Some e => r ← errorResult content e; Ok (inl (mcpOK id r))
              | None => Ok (inl (mcpOK id (contentResult content)))
              end
      end
  end.

(** Decoding [name] and [arguments]; names match up to case. *)
Definition callField (p : string * option string) (kv : string * string) : option (string * option string) :=
  if HttpClient.namesField kv.1 "name" then v ← intoText p.1 kv.2; Some (v, p.2)
  else if HttpClient.namesField kv.1 "arguments" then Some (p.1, Some kv.2)
  else Some p.
Definition decodeCall (rawParams : option string) : option (string * option string) :=
  match rawObject (default "" rawParams) with
  | Some fields => HttpClient.foldOption callField fields ("", None)
  | None => match Unmarshal (default "" rawParams) with Some JNull => Some ("", None) | _ => None end
  end.

Definition toolsCall (id rawParams : option string) (maxResponseBytes : Z) : Outcome (jsonRPCResponse + GoError) :=
  match decodeCall rawParams with
  | None => Ok (inl (mcpErr id (-32602) ("Invalid params: " +:+ paramsError (default "" rawParams))))
  | Some (name, arguments) =>
      let arguments := match arguments with Some a => a | None => "{}" end in
      match Server.tools s !! name with
      | None => Ok (inl (mcpErr id (-32602) ("Unknown tool: " +:+ name)))
      | Some tool =>
          if Server.ServerStreaming tool then toolsCallStream id tool arguments maxResponseBytes
          else
            match invokeJSON tool arguments with
            | inr e => r ← errorResult [] e; Ok (inl (mcpOK id r))
            | inl text => Ok (inl (mcpOK id (contentResult [textBlock text])))
            end
      end
  end.

Definition initializeResult : JsonValue :=
  JObject [("capabilities", JObject [("tools", JObject [])]); ("protocolVersion", JString mcpProtocolVersion);
           ("serverInfo", JObject [("name", JString serverName); ("version", JString serverVersion)])].
Definition toolsListResult : JsonValue := JObject [("tools", JArray (map fromAny (Server.ToolCatalog s)))].

Definition mcpDispatchWithResponseLimit (req : jsonRPCRequest) (maxResponseBytes : Z) : Outcome (option jsonRPCResponse + GoError) :=
  let found (r : jsonRPCResponse) : Outcome (option jsonRPCResponse + GoError) := Ok (inl (Some r)) in
  match rq_id req with
  | None => Ok (inl None)
  | Some _ =>
      let id := rq_id req in
      let method := rq_method req in
      if String.eqb method "initialize" then
        found (if validMCPInitializeParams (rq_params req) then mcpOK id initializeResult else mcpErr id (-32602) "Invalid params")
      else if String.eqb method "tools/list" then found (mcpOK id toolsListResult)
      else if String.eqb method "tools/call" then
        r ← toolsCall id (rq_params req) maxResponseBytes;
        Ok (match r with inl r => inl (Some r) | inr e => inr e end)
      else if String.eqb method "ping" then found (mcpOK id (JObject []))
      else found (mcpErr id (-32601) ("Method not found: " +:+ method))
  end.
Definition mcpDispatch (req : jsonRPCRequest) : Outcome (option jsonRPCResponse) :=
  r ← mcpDispatchWithResponseLimit req 0;
  Ok (match r with inl r => r | inr _ => None end).
End Dispatch.

(** How the application handles a request at some moment: what its tools do with it, and
    the context it runs under. *)
Record Handling {Message : Type} : Type := mkHandling {
  h_invokeJSON : Server.Tool -> string -> string + GoError;
  h_app : Server.Tool -> Message -> list (@Operation Message) * option GoError;
  h_ctx : option ContextError
}.
Arguments Handling : clear implicits.
Definition dispatch {UI SI HP MM} (s : @Server.Server UI SI HP MM) (paramsError : string -> string) `{CodeNames} `{MetadataLib}
    (badRequest : string -> string -> option (string * string)) (decodeDetail : string * string -> Detail)
    {Message : Type} (newRequest : Server.Tool -> Message + GoError) (unmarshalJSON : string -> Message -> Message + string)
    (marshalIndent : Message -> string + string) (h : Handling Message) (req : jsonRPCRequest) : Outcome (option jsonRPCResponse) :=
  mcpDispatch s paramsError badRequest decodeDetail (h_invokeJSON h) newRequest unmarshalJSON marshalIndent (h_app h) (h_ctx h) req.

(** ** The session *)

Section Session.
(** [dispatch] at a moment: how the application handles a request depends on when it runs.
    A panic of a call is not recovered: it ends the session and its process. *)
Context (syntaxError : string -> option string) {Moment : Type}.
Context (dispatch : Moment -> jsonRPCRequest -> Outcome (option jsonRPCResponse)).

(** The goroutine of a call runs until it has a result, leaves the map under the lock,
    and then writes the result unless the call was cancelled by then.  [canceled] is set
    by a notification, which also cancels the context of the call. *)
Inductive CallState : Type :=
  | Running
  | Writing (resp : jsonRPCResponse)
  | Ended.
Record mcpInflightCall : Type := mkCall { c_key : string; c_request : jsonRPCRequest; c_canceled : bool; c_state : CallState }.
(** A line of output, with the call it answers. *)
Record Line : Type := mkLine { l_call : option nat; l_response : jsonRPCResponse }.
Record mcpSession : Type := mkSession {
  calls : list mcpInflightCall;
  inflight : gmap string nat;
  output : list Line
}.
Definition newMCPSession : mcpSession := mkSession [] ∅ [].

Definition writeResponse (call : option nat) (r : jsonRPCResponse) (m : mcpSession) : mcpSession :=
  mkSession (calls m) (inflight m) (output m ++ [mkLine call r]).
Definition updateCall (k : nat) (f : mcpInflightCall -> mcpInflightCall) (m : mcpSession) : mcpSession :=
  mkSession (alter f k (calls m)) (inflight m) (output m).
Definition setCanceled (c : mcpInflightCall) : mcpInflightCall := mkCall (c_key c) (c_request c) true (c_state c).
Definition setState (st : CallState) (c : mcpInflightCall) : mcpInflightCall := mkCall (c_key c) (c_request c) (c_canceled c) st.

Definition requestIDField (id : option string) (kv : string * string) : option string :=
  if HttpClient.namesField kv.1 "requestId" then Some kv.2 else id.
Definition requestID (params : option string) : option string :=
  match rawObject (default "" params) with
  | Some fields => foldl requestIDField None fields
  | None => None
  end.
Definition handleNotification (req : jsonRPCRequest) (m : mcpSession) : mcpSession :=
  if negb (String.eqb (rq_method req) "notifications/cancelled") then m
  else
    match requestID (rq_params req) with
    | None => m
    | Some id =>
        match mcpIDKey id with
        | None => m
        | Some key =>
            match inflight m !! key with
            | None => m
            | Some k => updateCall k setCanceled m
            end
        end
    end.

(** A call is registered before its goroutine starts. *)
Definition startCall (key : string) (req : jsonRPCRequest) (m : mcpSession) : mcpSession :=
  mkSession (calls m ++ [mkCall key req false Running]) (<[key := length (calls m)]> (inflight m)) (output m).

Definition readLine (t : Moment) (line : string) (m : mcpSession) : Outcome mcpSession :=
  if String.eqb line "" then Ok m
  else
    match parseMCPJSONRPC syntaxError line with
    | IsInvalid answer => Ok (writeResponse None answer m)
    | IsResponse => Ok m
    | IsRequest req =>
        match rq_id req with
        | None => Ok (handleNotification req m)
        | Some id =>
            if negb (String.eqb (rq_method req) "tools/call") then
              resp ← dispatch t req;
              Ok (match resp with
                  | Some resp => writeResponse None resp m
                  | None => m
                  end)
            else
              Ok (match mcpIDKey id with
                  | None => writeResponse None (mcpErr None (-32600) "Invalid Request") m
                  | Some key => startCall key req m
                  end)
        end
    end.

(** The goroutine of call [k] has its result: it looks at the flag and leaves the map
    under the lock. *)
Definition finishCall (t : Moment) (k : nat) (m : mcpSession) : Outcome mcpSession :=
  match calls m !! k with
  | Some c =>
      match c_state c with
      | Running =>
          resp ← dispatch t (c_request c);
          let next := match resp with
                      | Some resp => if c_canceled c then Ended else Writing resp
                      | None => Ended
                      end in
          Ok (updateCall k (setState next) (mkSession (calls m) (delete (c_key c) (inflight m)) (output m)))
      | _ => Ok m
      end
  | None => Ok m
  end.
(** Then it writes. *)
Definition writeCall (k : nat) (m : mcpSession) : mcpSession :=
  match calls m !! k with
  | Some c =>
      match c_state c with
      | Writing resp => writeResponse (Some k) resp (updateCall k (setState Ended) m)
      | _ => m
      end
  | None => m
  end.

(** What happens to a session: the reader takes a line, a goroutine has its result, a
    goroutine writes it. *)
Inductive Event : Type :=
  | EvLine (t : Moment) (line : string)
  | EvFinish (t : Moment) (k : nat)
  | EvWrite (k : nat).
Definition sessionStep (m : mcpSession) (ev : Event) : Outcome mcpSession :=
  match ev with
  | EvLine t line => readLine t line m
  | EvFinish t k => finishCall t k m
  | EvWrite k => Ok (writeCall k m)
  end.
Definition run (evs : list Event) : Outcome mcpSession := foldOutcome sessionStep evs newMCPSession.
End Session.
Arguments EvWrite {_} k.

(** ** The HTTP transport *)

Section Transport.
(** [mime.ParseMediaType] with its parameters, and whether [strconv.ParseFloat] of a
    quality fails or gives a weight that is not positive. *)
Context (parseMedia : string -> option (string * list (string * string))) (weightRefused : string -> bool).

Definition acceptedType (value : string) : option string :=
  match parseMedia (TrimSpace value) with
  | None => None
  | Some (mediaType, params) =>
      match assoc "q" params with
      | Some quality => if weightRefused quality then None else Some (ToLower mediaType)
      | None => Some (ToLower mediaType)
      end
  end.
Definition acceptsMCPResponseTypes (accept : string) : bool :=
  let types := omap acceptedType (Split accept ",") in
  bool_decide (jsonContentType ∈ types) && bool_decide ("text/event-stream" ∈ types).

(** [http.Error]. *)
Definition plainResponse (code : Z) (text : string) : Response :=
  mkResponse code (setValue "Content-Type" "text/plain; charset=utf-8" (setValue "X-Content-Type-Options" "nosniff" ∅)) (text +:+ str1 LF).
Definition headerOnly (code : Z) : Response := mkResponse code ∅ "".

Context `{CodeNames}.

Definition writeMCPJSON (response : jsonRPCResponse) (maxBytes : Z) : Response :=
  let payload := marshalResponse response in
  if (0 <? maxBytes)%Z && (maxBytes <? Z.of_nat (String.length payload))%Z then errorResponse ∅ limitError maxBytes
  else mkResponse 200 (setValue "Content-Length" (FormatInt (Z.of_nat (String.length payload))) (setValue "Content-Type" jsonContentType ∅)) payload.

Context (syntaxError : string -> option string).

(** [dispatch] is [mcpDispatchWithResponseLimit] under the deadline; [ctx] is what the
    context says when reading failed and after the dispatch. *)
Definition handleMCPHTTP (headers : Entries) (body : string) (bodyErr : option GoError)
    (ctx : option Z -> option ContextError * option ContextError) (maxRequest maxResponse : Z)
    (dispatch : jsonRPCRequest -> Z -> option jsonRPCResponse + GoError) : Response :=
  if httpHeaderPresent headers "Origin" then plainResponse 403 "Origin is not accepted"
  else if negb (acceptsMCPResponseTypes (Join (default [] (assoc "Accept" headers)) ",")) then
    plainResponse 406 "Accept must include application/json and text/event-stream"
  else if negb (match parseMedia (getValue "Content-Type" headers) with
                | Some (contentType, _) => EqualFold contentType jsonContentType
                | None => false
                end) then plainResponse 415 "Content-Type must be application/json"
  else
    match applyConnectTimeout (timeoutHeader headers) with
    | Err e => errorResponse ∅ (invalidArgumentError e) maxResponse
    | Panic e => errorResponse ∅ (plainError e) maxResponse
    | NoFuel => errorResponse ∅ (plainError "") maxResponse
    | Ok timeout =>
        let '(ctxRead, ctxCall) := ctx timeout in
        match readBody (mkRequest "" "" body bodyErr ctxRead ctxCall) maxRequest with
        | Body data =>
            match parseMCPJSONRPC syntaxError data with
            | IsInvalid answer => writeMCPJSON answer maxResponse
            | incoming =>
                let method := match incoming with IsRequest req => rq_method req | _ => "" end in
                let version := getValue "MCP-Protocol-Version" headers in
                if (String.eqb method "initialize" && negb (String.eqb version "") && negb (String.eqb version mcpProtocolVersion))
                   || (negb (String.eqb method "initialize") && negb (String.eqb version mcpProtocolVersion))
                then plainResponse 400 "unsupported or missing MCP-Protocol-Version"
                else
                  match incoming with
                  | IsRequest req =>
                      let r := dispatch req maxResponse in
                      match ctxCall with
                      | Some c => errorResponse ∅ (statusError (fromContextError (contextText c) c)) maxResponse
                      | None =>
                          match r with
                          | inr e => errorResponse ∅ e maxResponse
                          | inl None => headerOnly 202
                          | inl (Some resp) => writeMCPJSON resp maxResponse
                          end
                      end
                  | _ => headerOnly 202
                  end
            end
        | failed =>
            match ctxRead with
            | Some c => errorResponse ∅ (statusError (fromContextError (contextText c) c)) maxResponse
            | None =>
                match failed with
                | BodyFailed e => errorResponse ∅ (invalidArgumentError ("read body: " +:+ ge_text e)) maxResponse
                | _ => errorResponse ∅ (resourceExhausted ("request body exceeds " +:+ FormatInt maxRequest +:+ " byte limit")) maxResponse
                end
            end
        end
    end.
End Transport.
End Mcp.
