(* ===== verification/McpSpec.v ===== *)
(** * What the MCP projection answers

    Every request with an identifier is answered once, with that identifier, or panics
    when its error cannot be rendered; a call that is cancelled is not answered; a
    collected stream is as large as it was accounted to be; the HTTP transport stays
    within its limits.  The section Sessions holds for any dispatcher that answers with
    the identifier when it returns; Served proves that of the server's own. *)
From S2P Require Import Prelude GoStrings StringFacts Json JsonParse JsonSpec Metadata Connect ConnectSpec HttpRequest HttpClientSpec Server RegistrationSpec Stream HttpHandler HttpHandlerSpec JsonSchema RawJson Errors Mcp.
Import Metadata Connect HttpRequest Stream HttpHandler RawJson Errors Mcp.

(** ** The session *)

(** The lines that answer call [k]. *)
Definition answers (k : nat) (m : mcpSession) : list jsonRPCResponse :=
  omap (fun l => if decide (l_call l = Some k) then Some (l_response l) else None) (output m).
(** Calls that have not been answered: they run, are about to write, or were cancelled. *)
Definition unanswered (c : mcpInflightCall) : bool := match c_state c with Ended => c_canceled c | _ => true end.
Definition pending (l : list mcpInflightCall) : nat := length (List.filter unanswered l).
(** What has been written for a call: nothing before it has ended or when it was
    cancelled, and otherwise one answer, with the identifier of its request. *)
Definition settled (m : mcpSession) (k : nat) (c : mcpInflightCall) : Prop :=
  if unanswered c then answers k m = [] else exists r, answers k m = [r] /\ rs_id r = rq_id (c_request c).

(** The parser without its texts: every line is parsed the same way. *)
Section Owed.
Context (syntaxError : string -> option string) {Moment : Type}.
(** Whether a line must be answered. *)
Definition owed (ev : @Event Moment) : nat :=
  match ev with
  | EvLine _ line =>
      if String.eqb line "" then 0
      else match parseMCPJSONRPC syntaxError line with
           | IsInvalid _ => 1
           | IsResponse => 0
           | IsRequest req => match rq_id req with Some _ => 1 | None => 0 end
           end
  | _ => 0
  end.
End Owed.

Section Sessions.
Context (syntaxError : string -> option string) {Moment : Type}.
Context (dispatch : Moment -> jsonRPCRequest -> Outcome (option jsonRPCResponse)).
Notation readLine := (readLine syntaxError dispatch).
Notation finishCall := (finishCall dispatch).
Notation sessionStep := (sessionStep syntaxError dispatch).
Notation run := (Mcp.run syntaxError dispatch).

(** A dispatcher that answers the requests that have an identifier, when it returns. *)
Context (Hdispatch : forall t req id out, rq_id req = Some id -> dispatch t req = Ok out -> exists r, out = Some r /\ rs_id r = Some id).

Record SessionInv (m : mcpSession) : Prop := {
  si_inflight key k : inflight m !! key = Some k -> exists c, calls m !! k = Some c /\ c_key c = key /\ c_state c = Running;
  si_calls k c : calls m !! k = Some c -> settled m k c /\
    (exists id, rq_id (c_request c) = Some id /\ mcpIDKey id = Some (c_key c)) /\
    (forall r, c_state c = Writing r -> c_canceled c = false /\ rs_id r = rq_id (c_request c));
  si_none k : calls m !! k = None -> answers k m = []
}.

Lemma answers_write k call r m :
  answers k (writeResponse call r m) = answers k m ++ if decide (call = Some k) then [r] else [].
Proof. unfold answers, writeResponse. cbn [output]. rewrite omap_app. f_equal. cbn. by destruct (decide (call = Some k)). Qed.

Lemma SessionInv_new : SessionInv newMCPSession.
Proof. split; [intros ?? H|intros ?? H|done]; cbn in *; rewrite ?lookup_empty, ?lookup_nil in *; done. Qed.

(** The invariant sees of the output only what answers the calls. *)
Lemma settled_same m m' k c : answers k m' = answers k m -> settled m k c -> settled m' k c.
Proof. intros Ha. unfold settled. by rewrite Ha. Qed.
Lemma SessionInv_write r m : SessionInv m -> SessionInv (writeResponse None r m).
Proof.
  intros [H1 H2 H3]. assert (forall k, answers k (writeResponse None r m) = answers k m) as Ha by (intros k; rewrite answers_write; cbn; by rewrite app_nil_r).
  split; [done| |].
  - intros k c Hc. destruct (H2 k c Hc) as [Hs Hr]. split; [eapply settled_same; [apply Ha|exact Hs]|done].
  - intros k Hk. rewrite Ha. by apply H3.
Qed.

Lemma SessionInv_start key id req m :
  rq_id req = Some id -> mcpIDKey id = Some key -> SessionInv m -> SessionInv (startCall key req m).
Proof.
  intros Hid Hkey [H1 H2 H3]. unfold startCall. split; cbn [inflight calls].
  - intros key' k. rewrite lookup_insert_Some. intros [[<- <-]|[Hne Hk]].
    + exists (mkCall key req false Running). by rewrite list_lookup_middle.
    + destruct (H1 _ _ Hk) as (c&Hc&Hrest). exists c. split; [by apply lookup_app_l_Some|done].
  - intros k c Hc. apply lookup_app_Some in Hc as [Hc|[Hk Hc]]; [by apply H2|].
    apply list_lookup_singleton_Some in Hc as [Hk0 <-]. split_and!; [|by exists id|done].
    unfold settled. cbn. apply H3, lookup_ge_None. lia.
  - intros k Hk. apply H3. apply lookup_ge_None in Hk. rewrite length_app in Hk. apply lookup_ge_None. lia.
Qed.

Lemma lookup_updateCall k f m j :
  calls (updateCall k f m) !! j = if decide (j = k) then f <$> calls m !! j else calls m !! j.
Proof.
  unfold updateCall. cbn [calls]. destruct (decide (j = k)) as [->|Hne]; [by rewrite list_lookup_alter_eq|by rewrite list_lookup_alter_ne].
Qed.
Lemma updateCall_None k f m j : calls (updateCall k f m) !! j = None -> calls m !! j = None.
Proof. rewrite lookup_updateCall. destruct (decide (j = k)); [apply fmap_None|done]. Qed.

Lemma SessionInv_notify req m : SessionInv m -> SessionInv (handleNotification req m).
Proof.
  intros Hm. unfold handleNotification. destruct (negb _); [done|]. destruct (requestID _) as [id|]; [|done]. destruct (mcpIDKey id) as [key|]; [|done].
  destruct (inflight m !! key) as [k|] eqn:Hk; [|done]. destruct Hm as [H1 H2 H3]. destruct (H1 _ _ Hk) as (c&Hc&_&Hr).
  split.
  - intros key' j Hj. destruct (H1 _ _ Hj) as (c'&Hc'&Hrest). exists (if decide (j = k) then setCanceled c' else c').
    rewrite lookup_updateCall, Hc'. by destruct (decide (j = k)).
  - intros j c'. rewrite lookup_updateCall. destruct (decide (j = k)) as [->|]; [|apply H2]. rewrite Hc. intros [= <-].
    destruct (H2 k c Hc) as (Hs&Hid&_). split_and!; [|done|cbn; by rewrite Hr]. unfold settled, unanswered in *. cbn. by rewrite Hr in *.
  - intros j Hj%updateCall_None. by apply H3.
Qed.

Lemma SessionInv_finish t k m m' : SessionInv m -> finishCall t k m = Ok m' -> SessionInv m'.
Proof.
  intros Hm. unfold Mcp.finishCall. destruct (calls m !! k) as [c|] eqn:Hc; [|by intros [= <-]]. destruct (c_state c) eqn:Hr; [|by intros [= <-]..].
  intros (out&Hd&[= <-])%bind_Ok. pose proof Hm as [H1 H2 H3]. destruct (H2 k c Hc) as (Hs&(id&Hid&Hkey)&_).
  destruct (Hdispatch _ _ _ _ Hid Hd) as (r&->&Hrid). split.
  - intros key j Hj. cbn [updateCall inflight] in Hj. apply lookup_delete_Some in Hj as [Hne Hj].
    destruct (H1 _ _ Hj) as (c'&Hc'&Hkey'&Hr'). exists c'. rewrite lookup_updateCall. cbn [calls]. destruct (decide (j = k)) as [->|]; [congruence|done].
  - intros j c'. rewrite lookup_updateCall. cbn [calls]. destruct (decide (j = k)) as [->|]; [|apply H2]. rewrite Hc. intros [= <-].
    assert (answers k m = []) as Ha by (unfold settled, unanswered in Hs; by rewrite Hr in Hs).
    split_and!; [unfold settled, unanswered; cbn; by destruct (c_canceled c)|by exists id|].
    intros r'. cbn. destruct (c_canceled c); [done|]. intros [= <-]. split; [done|congruence].
  - intros j Hj%updateCall_None. by apply H3.
Qed.

Lemma SessionInv_writeCall k m : SessionInv m -> SessionInv (writeCall k m).
Proof.
  intros Hm. unfold writeCall. destruct (calls m !! k) as [c|] eqn:Hc; [|done]. destruct (c_state c) as [|r|] eqn:Hr; [done| |done].
  pose proof Hm as [H1 H2 H3]. destruct (H2 k c Hc) as (Hs&Hid&Hw). destruct (Hw r Hr) as [Hcan Hrid].
  assert (answers k m = []) as Ha by (unfold settled, unanswered in Hs; by rewrite Hr in Hs). split.
  - intros key j Hj. destruct (H1 _ _ Hj) as (c'&Hc'&Hkey'&Hr'). exists c'. change (calls (writeResponse _ _ ?m)) with (calls m).
    rewrite lookup_updateCall. destruct (decide (j = k)) as [->|]; [congruence|done].
  - intros j c'. change (calls (writeResponse _ _ ?m)) with (calls m). rewrite lookup_updateCall. destruct (decide (j = k)) as [->|Hne].
    + rewrite Hc. intros [= <-]. split_and!; [|done|done]. unfold settled, unanswered. cbn [setState c_state c_canceled c_request]. rewrite Hcan.
      exists r. rewrite answers_write, decide_True by done. change (answers k (updateCall _ _ ?m)) with (answers k m). by rewrite Ha.
    + intros Hj. destruct (H2 j c' Hj) as [Hs' Hrest]. split; [|done]. eapply settled_same; [|exact Hs'].
      rewrite answers_write, decide_False by congruence. apply app_nil_r.
  - intros j Hj%updateCall_None. rewrite answers_write, decide_False by congruence. rewrite app_nil_r. by apply H3.
Qed.

Lemma SessionInv_line t line m m' : SessionInv m -> readLine t line m = Ok m' -> SessionInv m'.
Proof.
  intros Hm. unfold Mcp.readLine. destruct (String.eqb line ""); [by intros [= <-]|].
  destruct (parseMCPJSONRPC syntaxError line) as [req| |a]; [|by intros [= <-]|intros [= <-]; by apply SessionInv_write].
  destruct (rq_id req) as [id|] eqn:Hid; [|intros [= <-]; by apply SessionInv_notify]. destruct (negb _).
  - intros (out&_&[= <-])%bind_Ok. destruct out; [by apply SessionInv_write|done].
  - intros [= <-]. destruct (mcpIDKey id) as [key|] eqn:Hkey; [by eapply SessionInv_start|by apply SessionInv_write].
Qed.
Lemma SessionInv_step m ev m' : SessionInv m -> sessionStep m ev = Ok m' -> SessionInv m'.
Proof.
  intros Hm. destruct ev as [t line|t k|k]; [by apply SessionInv_line|by apply SessionInv_finish|intros [= <-]; by apply SessionInv_writeCall].
Qed.
Lemma run_Inv evs m : run evs = Ok m -> SessionInv m.
Proof. apply foldOutcome_inv; [apply SessionInv_step|apply SessionInv_new]. Qed.

(** *** Counting *)

Lemma pending_alter f k l c :
  l !! k = Some c -> pending (alter f k l) + (if unanswered c then 1 else 0) = pending l + (if unanswered (f c) then 1 else 0).
Proof.
  unfold pending. revert k. induction l as [|x l IH]; intros [|k] Hc; try done.
  - injection Hc as ->. cbn. destruct (unanswered c), (unanswered (f c)); cbn; lia.
  - specialize (IH k Hc). cbn in IH |- *. destruct (unanswered x); cbn in *; lia.
Qed.

Lemma line_count t line m m' : SessionInv m -> readLine t line m = Ok m' ->
  length (output m') + pending (calls m') = length (output m) + pending (calls m) + owed syntaxError (EvLine t line).
Proof.
  intros [H1 H2 H3]. unfold Mcp.readLine, owed. destruct (String.eqb line ""); [intros [= <-]; lia|].
  destruct (parseMCPJSONRPC syntaxError line) as [req| |a]; [|intros [= <-]; lia|].
  2: { intros [= <-]. unfold writeResponse. cbn [output calls]. rewrite length_app. cbn. lia. }
  destruct (rq_id req) as [id|] eqn:Hid.
  - destruct (negb _).
    + intros (out&Hd&[= <-])%bind_Ok. destruct (Hdispatch _ _ _ _ Hid Hd) as (r&->&_). unfold writeResponse. cbn [output calls].
      rewrite length_app. cbn. lia.
    + intros [= <-]. destruct (mcpIDKey id); unfold writeResponse, startCall, pending; cbn [output calls]; rewrite ?List.filter_app, !length_app; cbn; lia.
  - intros [= <-]. unfold handleNotification. destruct (negb _); [lia|]. destruct (requestID _) as [id|]; [|lia]. destruct (mcpIDKey id) as [key|]; [|lia].
    destruct (inflight m !! key) as [k|] eqn:Hk; [|lia]. destruct (H1 _ _ Hk) as (c&Hc&_&Hr). cbn [updateCall output calls].
    pose proof (pending_alter setCanceled k _ c Hc) as Hp. unfold unanswered in Hp. cbn in Hp. rewrite Hr in Hp. lia.
Qed.
Lemma step_count m ev m' : SessionInv m -> sessionStep m ev = Ok m' ->
  length (output m') + pending (calls m') = length (output m) + pending (calls m) + owed syntaxError ev.
Proof.
  intros Hm. pose proof Hm as [H1 H2 H3]. destruct ev as [t line|t k|k]; [by apply line_count|..]; cbn [Mcp.sessionStep owed].
  - unfold Mcp.finishCall. destruct (calls m !! k) as [c|] eqn:Hc; [|intros [= <-]; lia]. destruct (c_state c) eqn:Hr; [|intros [= <-]; lia..].
    intros (out&Hd&[= <-])%bind_Ok. destruct (H2 k c Hc) as (_&(id&Hid&_)&_). destruct (Hdispatch _ _ _ _ Hid Hd) as (r&->&_).
    cbn [updateCall output calls]. match goal with |- context [alter ?f k] => pose proof (pending_alter f k _ c Hc) as Hp end.
    unfold unanswered in Hp at 1 2. rewrite Hr in Hp. cbn in Hp. destruct (c_canceled c) eqn:Hcan; cbn in *; rewrite ?Hcan in Hp; lia.
  - intros [= <-]. unfold writeCall. destruct (calls m !! k) as [c|] eqn:Hc; [|lia]. destruct (c_state c) as [|r|] eqn:Hr; [lia| |lia].
    destruct (H2 k c Hc) as (_&_&Hw). destruct (Hw r Hr) as [Hcan _]. unfold writeResponse. cbn [updateCall output calls]. rewrite length_app.
    pose proof (pending_alter (setState Ended) k _ c Hc) as Hp. unfold unanswered in Hp. rewrite Hr in Hp. cbn in Hp. rewrite Hcan in Hp. cbn. lia.
Qed.
Lemma run_count evs m : run evs = Ok m -> length (output m) + pending (calls m) = list_sum (map (owed syntaxError) evs).
Proof.
  unfold Mcp.run. assert (forall m0, SessionInv m0 -> foldOutcome sessionStep evs m0 = Ok m ->
    length (output m) + pending (calls m) = length (output m0) + pending (calls m0) + list_sum (map (owed syntaxError) evs)) as H; [|apply (H _ SessionInv_new)].
  induction evs as [|ev evs IH]; intros m0 Hm; cbn [foldOutcome map]; [intros [= <-]; cbn; lia|]. intros (m1&H1&H2)%bind_Ok.
  rewrite (IH m1) by (done || by eapply SessionInv_step). rewrite (step_count _ _ _ Hm H1).
  change (list_sum (owed syntaxError ev :: map (owed syntaxError) evs)) with (owed syntaxError ev + list_sum (map (owed syntaxError) evs)). lia.
Qed.

(** What a session that is not ended by a panic has done. *)
Lemma run_answers evs m : run evs = Ok m ->
  length (output m) + pending (calls m) = list_sum (map (owed syntaxError) evs) /\ (forall k c, calls m !! k = Some c -> settled m k c).
Proof. intros Hr. split; [by apply run_count|]. intros k c Hc. by apply (si_calls m (run_Inv _ _ Hr)). Qed.

(** The requests the lines of a session hold. *)
Definition reads (evs : list (@Event Moment)) (req : jsonRPCRequest) : Prop :=
  exists t line, EvLine t line ∈ evs /\ parseMCPJSONRPC syntaxError line = IsRequest req.
Lemma reads_app evs more req : reads evs req -> reads (evs ++ more) req.
Proof. intros (t&line&Hin&Hp). exists t, line. split; [set_solver|done]. Qed.
Lemma updateCall_requests (P : jsonRPCRequest -> Prop) k f m :
  (forall c, c_request (f c) = c_request c) -> Forall (fun c => P (c_request c)) (calls m) -> Forall (fun c => P (c_request c)) (calls (updateCall k f m)).
Proof.
  intros Hf Hm. unfold updateCall. cbn [calls]. apply Forall_alter; [done|]. intros c Hc. by rewrite Hf.
Qed.
Lemma step_requests (P : jsonRPCRequest -> Prop) m ev m' :
  (forall req, reads [ev] req -> P req) -> Forall (fun c => P (c_request c)) (calls m) -> sessionStep m ev = Ok m' -> Forall (fun c => P (c_request c)) (calls m').
Proof.
  intros Hev Hm. destruct ev as [t line|t j|j]; cbn [Mcp.sessionStep].
  - unfold Mcp.readLine. destruct (String.eqb line ""); [by intros [= <-]|].
    destruct (parseMCPJSONRPC syntaxError line) as [req| |a] eqn:Hp; [|by intros [= <-]..]. destruct (rq_id req) as [id|].
    + destruct (negb _); [intros (out&_&[= <-])%bind_Ok; by destruct out|]. intros [= <-]. destruct (mcpIDKey id); [|done].
      cbn [startCall calls]. apply Forall_app. split; [done|]. constructor; [|done]. apply Hev. exists t, line. split; [set_solver|done].
    + intros [= <-]. unfold handleNotification. destruct (negb _); [done|]. destruct (requestID _) as [id|]; [|done]. destruct (mcpIDKey id) as [key|]; [|done].
      destruct (inflight m !! key); [|done]. by apply updateCall_requests.
  - unfold Mcp.finishCall. destruct (calls m !! j) as [c|]; [|by intros [= <-]]. destruct (c_state c); [|by intros [= <-]..].
    intros (out&_&[= <-])%bind_Ok. by apply updateCall_requests.
  - intros [= <-]. unfold writeCall. destruct (calls m !! j) as [c|]; [|done]. destruct (c_state c); [done| |done]. by apply updateCall_requests.
Qed.
Lemma run_requests evs m : run evs = Ok m -> Forall (fun c => reads evs (c_request c)) (calls m).
Proof.
  unfold Mcp.run. revert m. induction evs as [|ev evs IH] using rev_ind; intros m; [by intros [= <-]|]. rewrite foldOutcome_app.
  intros (m1&H1&H2)%bind_Ok. cbn [foldOutcome] in H2. apply bind_Ok in H2 as (m2&H2&[= <-]). eapply step_requests; [| |exact H2].
  - intros req (t&line&Hin&Hp). exists t, line. split; [set_solver|done].
  - eapply Forall_impl; [|exact (IH _ H1)]. intros c. apply reads_app.
Qed.

(** It is ended only by a dispatch that does not return. *)
Definition momentOf (ev : @Event Moment) : option Moment := match ev with EvLine t _ | EvFinish t _ => Some t | EvWrite _ => None end.
Lemma step_failure evs m ev x : Forall (fun c => reads evs (c_request c)) (calls m) -> failure (sessionStep m ev) = Some x ->
  exists t req, momentOf ev = Some t /\ reads (evs ++ [ev]) req /\ failure (dispatch t req) = Some x.
Proof.
  intros Hm. destruct ev as [t line|t k|k]; cbn [Mcp.sessionStep momentOf]; [| |done].
  - unfold Mcp.readLine. destruct (String.eqb line ""); [done|]. destruct (parseMCPJSONRPC syntaxError line) as [req| |a] eqn:Hp; [|done|done].
    destruct (rq_id req); [|done]. destruct (negb _); [|done]. intros Hx. exists t, req. split_and!; [done| |by destruct (dispatch t req)].
    exists t, line. split; [set_solver|done].
  - unfold Mcp.finishCall. destruct (calls m !! k) as [c|] eqn:Hc; [|done]. destruct (c_state c); [|done..]. intros Hx. exists t, (c_request c).
    split_and!; [done| |by destruct (dispatch t (c_request c))]. apply reads_app. by eapply Forall_lookup_1 in Hm.
Qed.
Lemma run_failure evs x : failure (run evs) = Some x ->
  exists ev t req, ev ∈ evs /\ momentOf ev = Some t /\ reads evs req /\ failure (dispatch t req) = Some x.
Proof.
  intros (before&ev&after&m&->&Hm&Hx)%foldOutcome_failure. apply run_requests in Hm. destruct (step_failure _ _ _ _ Hm Hx) as (t&req&Ht&Hr&Hd).
  exists ev, t, req. split_and!; [set_solver|done| |done]. apply (reads_app _ after) in Hr. by rewrite <- app_assoc in Hr.
Qed.

(** *** Cancellation *)

(** The key a line cancels, and the key of the call it starts. *)
Definition cancels (line : string) : option string :=
  match parseMCPJSONRPC syntaxError line with
  | IsRequest req =>
      if isSome (rq_id req) || negb (String.eqb (rq_method req) "notifications/cancelled") then None
      else requestID (rq_params req) ≫= mcpIDKey
  | _ => None
  end.
Definition startsCall (line : string) : option string :=
  match parseMCPJSONRPC syntaxError line with
  | IsRequest req => if String.eqb (rq_method req) "tools/call" then rq_id req ≫= mcpIDKey else None
  | _ => None
  end.
Lemma parsed_nonempty line r : parseMCPJSONRPC syntaxError line = IsRequest r -> String.eqb line "" = false.
Proof. by destruct line. Qed.
Lemma readLine_cancels t line key k m :
  cancels line = Some key -> inflight m !! key = Some k -> readLine t line m = Ok (updateCall k setCanceled m).
Proof.
  unfold cancels, Mcp.readLine. intros Hc Hk. destruct (parseMCPJSONRPC syntaxError line) as [req| |] eqn:Hp; try done.
  rewrite (parsed_nonempty _ _ Hp). destruct (rq_id req) as [id|]; [done|]. unfold handleNotification.
  cbn [isSome orb] in Hc. destruct (negb _); [done|]. destruct (requestID _) as [id|]; [|done]. cbn in Hc. by rewrite Hc, Hk.
Qed.

(** A call that was cancelled stays cancelled. *)
Definition canceledCall (k : nat) (m : mcpSession) : Prop := exists c, calls m !! k = Some c /\ c_canceled c = true.
Lemma canceled_update k j f m :
  (forall c, c_canceled c = true -> c_canceled (f c) = true) -> canceledCall k m -> canceledCall k (updateCall j f m).
Proof.
  intros Hf (c&Hc&Hcan). unfold canceledCall. rewrite lookup_updateCall, Hc. destruct (decide (k = j)); [|by exists c].
  exists (f c). split; [done|by apply Hf].
Qed.
Lemma canceled_step k m ev m' : canceledCall k m -> sessionStep m ev = Ok m' -> canceledCall k m'.
Proof.
  intros Hk. destruct ev as [t line|t j|j]; cbn [Mcp.sessionStep].
  - unfold Mcp.readLine. destruct (String.eqb line ""); [by intros [= <-]|].
    destruct (parseMCPJSONRPC syntaxError line) as [req| |a]; [|by intros [= <-]..]. destruct (rq_id req) as [id|].
    + destruct (negb _); [intros (out&_&[= <-])%bind_Ok; by destruct out|]. intros [= <-]. destruct (mcpIDKey id); [|done].
      destruct Hk as (c&Hc&Hcan). exists c. split; [by apply lookup_app_l_Some|done].
    + intros [= <-]. unfold handleNotification. destruct (negb _); [done|]. destruct (requestID _) as [id|]; [|done]. destruct (mcpIDKey id) as [key|]; [|done].
      destruct (inflight m !! key); [|done]. by apply canceled_update.
  - unfold Mcp.finishCall. destruct (calls m !! j) as [c|]; [|by intros [= <-]]. destruct (c_state c); [|by intros [= <-]..].
    intros (out&_&[= <-])%bind_Ok. by apply canceled_update.
  - intros [= <-]. unfold writeCall. destruct (calls m !! j) as [c|]; [|done]. destruct (c_state c); [done| |done]. by apply (canceled_update k j).
Qed.

(** A client that does not reuse the identifier of a call that still runs. *)
Fixpoint fresh (m : mcpSession) (evs : list Event) : Prop :=
  match evs with
  | [] => True
  | ev :: evs =>
      match ev with
      | EvLine _ line => match startsCall line with Some key => inflight m !! key = None | None => True end
      | _ => True
      end /\ match sessionStep m ev with Ok m' => fresh m' evs | _ => True end
  end.
(** Every call that runs can be found by its key. *)
Definition tracked (m : mcpSession) : Prop :=
  forall k c, calls m !! k = Some c -> c_state c = Running -> inflight m !! c_key c = Some k.

Lemma tracked_step m ev m' : tracked m -> fresh m [ev] -> sessionStep m ev = Ok m' -> tracked m'.
Proof.
  intros Ht [Hf _]. destruct ev as [t line|t j|j]; cbn [Mcp.sessionStep].
  - unfold startsCall in Hf. unfold Mcp.readLine. destruct (String.eqb line ""); [by intros [= <-]|].
    destruct (parseMCPJSONRPC syntaxError line) as [req| |a]; [|by intros [= <-]..]. destruct (rq_id req) as [id|].
    + destruct (String.eqb (rq_method req) "tools/call"); cbn [negb]; [|intros (out&_&[= <-])%bind_Ok; by destruct out]. cbn in Hf. intros [= <-].
      destruct (mcpIDKey id) as [key|]; [|done]. intros k c Hc Hr. cbn [startCall calls inflight] in *.
      apply lookup_app_Some in Hc as [Hc|[Hk Hc]].
      * rewrite lookup_insert_ne; [by apply Ht|]. intros ->. by rewrite (Ht _ _ Hc Hr) in Hf.
      * apply list_lookup_singleton_Some in Hc as [Hk0 <-]. cbn. rewrite lookup_insert_eq. f_equal. lia.
    + intros [= <-]. unfold handleNotification. destruct (negb _); [done|]. destruct (requestID _) as [id|]; [|done]. destruct (mcpIDKey id) as [key|]; [|done].
      destruct (inflight m !! key) as [j|]; [|done]. intros k c Hc Hr. rewrite lookup_updateCall in Hc. destruct (decide (k = j)); [|by apply Ht].
      apply fmap_Some in Hc as (c'&Hc'&->). by apply (Ht k c').
  - unfold Mcp.finishCall. destruct (calls m !! j) as [c|] eqn:Hj; [|by intros [= <-]]. destruct (c_state c) eqn:Hr; [|by intros [= <-]..].
    intros (out&_&[= <-])%bind_Ok. intros k c' Hc' Hr'. rewrite lookup_updateCall in Hc'. cbn [calls] in Hc'. cbn [updateCall inflight].
    destruct (decide (k = j)) as [->|Hne].
    { rewrite Hj in Hc'. injection Hc' as <-. cbn in Hr'. destruct out; [destruct (c_canceled c)|]; done. }
    rewrite lookup_delete_ne; [by apply Ht|]. intros Hkey. apply Hne. pose proof (Ht _ _ Hc' Hr') as E1. pose proof (Ht _ _ Hj Hr) as E2. congruence.
  - intros [= <-]. unfold writeCall. destruct (calls m !! j) as [c|] eqn:Hj; [|done]. destruct (c_state c); [done| |done].
    intros k c' Hc' Hr'. change (calls (writeResponse _ _ ?m)) with (calls m) in Hc'. rewrite lookup_updateCall in Hc'.
    destruct (decide (k = j)) as [->|Hne]; [rewrite Hj in Hc'; by injection Hc' as <-|]. by apply (Ht k c').
Qed.
Lemma tracked_run evs m m' : tracked m -> fresh m evs -> foldOutcome sessionStep evs m = Ok m' -> tracked m'.
Proof.
  revert m. induction evs as [|ev evs IH]; intros m Ht; cbn [foldOutcome fresh]; [by intros _ [= <-]|]. intros [H1 H2] (m1&Hs&Hr)%bind_Ok.
  rewrite Hs in H2. apply (IH m1); [|done|done]. eapply tracked_step; [exact Ht| |exact Hs]. split; [done|]. by rewrite Hs.
Qed.

(** A client that does not reuse the identifiers of its running calls can cancel
    every one of them: once the notification has been read the call is never
    answered, whatever follows. *)
Theorem cancel_final evs m t line evs' m' k c :
  fresh newMCPSession evs -> run evs = Ok m -> calls m !! k = Some c -> c_state c = Running -> cancels line = Some (c_key c) ->
  run (evs ++ EvLine t line :: evs') = Ok m' -> answers k m' = [].
Proof.
  intros Hf Hm Hc Hr Hl Hm'. assert (tracked m) as Ht.
  { eapply tracked_run; [|exact Hf|exact Hm]. intros ?? H. cbn [newMCPSession calls] in H. by rewrite lookup_nil in H. }
  specialize (Ht k c Hc Hr). pose proof (run_Inv _ _ Hm') as Hinv. unfold Mcp.run in Hm'. rewrite foldOutcome_app in Hm'. fold (run evs) in Hm'.
  rewrite Hm in Hm'. cbn [mbind outcome_bind foldOutcome] in Hm'. change (sessionStep m (EvLine t line)) with (readLine t line m) in Hm'.
  rewrite (readLine_cancels t line (c_key c) k) in Hm' by done. cbn [mbind outcome_bind] in Hm'.
  assert (canceledCall k m') as (c'&Hc'&Hcan).
  { eapply foldOutcome_inv; [intros ? ? ? ? ?; by eapply canceled_step| |exact Hm'].
    exists (setCanceled c). split; [|done]. rewrite lookup_updateCall, decide_True by done. by rewrite Hc. }
  destruct (si_calls _ Hinv k c' Hc') as (Hs&_). unfold settled, unanswered in Hs. rewrite Hcan in Hs. by destruct (c_state c').
Qed.
End Sessions.

(** ** Dispatch *)

(** A sender that does not look at the headers is fed the messages of the handler, in
    order, until one of them fails. *)
Section Feeding.
Context `{MetadataLib} {M S : Type} (send : M -> MD -> S -> S * option GoError) (Hsend : forall m h h' x, send m h x = send m h' x).

Fixpoint feed (ms : list M) (x : S) : S * option GoError :=
  match ms with
  | [] => (x, None)
  | m :: ms => match send m ∅ x with
               | (x', None) => feed ms x'
               | (x', Some e) => (x', Some e)
               end
  end.
Lemma feed_performAll ops s :
  let out := match ps_sendErr s with Some e => (ps_sender s, Some e) | None => feed (sends ops) (ps_sender s) end in
  let s' := (performAll send None None s ops).1 in
  ps_sender s' = out.1 /\ ps_sendErr s' = out.2.
Proof.
  revert s. induction ops as [|op ops IH]; intros s; cbv zeta; [by destruct (ps_sendErr s) eqn:E|]. cbn [performAll].
  destruct (perform send None None s op) as [s' e] eqn:Hp. specialize (IH s'). cbv zeta in IH.
  destruct (performAll send None None s' ops) as [s'' es]. cbn [fst] in *. destruct IH as [-> ->].
  destruct op as [md|md|md| |[c|] [m|g]]; cbn [perform] in Hp.
  - unfold SetHeader in Hp. destruct (ps_headerSent s); by injection Hp as <- _.
  - unfold SendHeader in Hp. destruct (ps_headerSent s); by injection Hp as <- _.
  - by injection Hp as <- _.
  - unfold RecvMsg in Hp. destruct (ps_received s); by injection Hp as <- _.
  - by injection Hp as <- _.
  - by injection Hp as <- _.
  - unfold SendMsg in Hp. destruct (ps_sendErr s) eqn:E; [injection Hp as <- _; by rewrite E|]. cbn in Hp.
    change (sends (OSend None (inl m) :: ops)) with (m :: sends ops). cbn [feed]. rewrite (Hsend m ∅ (ps_header s)).
    destruct (send m (ps_header s) (ps_sender s)) as [x [err|]]; injection Hp as <- _; cbn; [done|by rewrite E].
  - by injection Hp as <- _.
Qed.
End Feeding.

Section Dispatching.
Context `{CodeNames} `{MetadataLib} (badRequest : string -> string -> option (string * string)) (decodeDetail : string * string -> Detail).
Context {Message : Type} (newRequest : Server.Tool -> Message + GoError) (unmarshalJSON : string -> Message -> Message + string).
Context (marshalIndent : Message -> string + string) (application : Server.Tool -> Message -> list (@Operation Message) * option GoError).
Context (ctx : option ContextError).
Notation toolsCallStream := (toolsCallStream badRequest decodeDetail newRequest unmarshalJSON marshalIndent application ctx).
Notation runTool := (runTool marshalIndent application ctx).

(** *** The size of a collected stream *)

Definition sized (id : option string) (texts : list string) : Z :=
  Z.of_nat (String.length (marshalResponse (mcpOK id (contentResult (map textBlock texts))))).

Lemma textBlock_sorted t : sortKeys (textBlock t) = textBlock t.
Proof. reflexivity. Qed.
Lemma content_sorted texts : sortKeys (contentResult (map textBlock texts)) = contentResult (map textBlock texts).
Proof.
  unfold contentResult. cbn [sortKeys map fst snd]. rewrite map_map. rewrite (map_ext _ _ textBlock_sorted). reflexivity.
Qed.
Lemma Join_snoc l x sep : Join (l ++ [x]) sep = match l with [] => x | _ => Join l sep +:+ sep +:+ x end.
Proof.
  induction l as [|y l IH]; [done|]. cbn [app Join]. destruct l as [|z l]; [done|]. cbn [app]. cbn [app] in IH.
  change (Join (z :: l ++ [x]) sep) with (Join ((z :: l) ++ [x]) sep) in *. rewrite IH. by rewrite !append_assoc.
Qed.
Lemma sized_snoc id texts t :
  sized id (texts ++ [t]) = (sized id texts + Z.of_nat (String.length (Marshal (textBlock t))) + match texts with [] => 0 | _ => 1 end)%Z.
Proof.
  unfold sized, marshalResponse, responseJSON, mcpOK. cbn [rs_id rs_result]. rewrite !content_sorted. unfold contentResult.
  cbn [Marshal map fst snd]. rewrite map_app, map_app. cbn [map]. rewrite Join_snoc.
  destruct texts as [|u texts]; cbn [map Join]; rewrite !length_append; [cbn [String.length]; lia|].
  match goal with |- context [Join ?l ","] => set (j := Join l ",") end. cbn [String.length]. lia.
Qed.

(** What a collected stream holds: the messages so far, within the limit. *)
Record accounted (id : option string) (max : Z) (ms : list Message) (c : Collected) : Prop := {
  ac_texts : Forall2 (fun m t => marshalIndent m = inl t) ms (co_texts c);
  ac_size : co_size c = sized id (co_texts c);
  ac_fits : (co_size c <= max)%Z;
  ac_open : co_exceeded c = false
}.

Lemma feed_accounted id max ms c done_ :
  (0 < max)%Z -> accounted id max done_ c ->
  let '(c', e) := feed (collectChunk marshalIndent max) ms c in
  match e with
  | None => accounted id max (done_ ++ ms) c'
  | Some e => exists before m after, ms = before ++ m :: after /\ co_size c' = sized id (co_texts c') /\ (co_size c' <= max)%Z /\
      Forall2 (fun m t => marshalIndent m = inl t) (done_ ++ before) (co_texts c') /\
      (if co_exceeded c' then e = limitError /\ exists t, marshalIndent m = inl t /\ (max < sized id (co_texts c' ++ [t]))%Z
       else exists text, marshalIndent m = inr text)
  end.
Proof.
  intros Hmax. revert c done_. induction ms as [|m ms IH]; intros c done_ [H1 H2 H3 H4]; [by rewrite app_nil_r|].
  cbn [feed]. unfold collectChunk at 1. destruct (marshalIndent m) as [t|text] eqn:Hm.
  - cbv zeta. rewrite (proj2 (Z.ltb_lt _ _) Hmax). rewrite H2, <- sized_snoc. destruct (Z.ltb_spec max (sized id (co_texts c ++ [t]))) as [Hl|Hl].
    + exists [], m, ms. rewrite app_nil_r. split_and!; [done|done|cbn; lia|done|]. cbn. split; [done|by exists t].
    + specialize (IH (mkCollected (co_texts c ++ [t]) (sized id (co_texts c ++ [t])) (co_exceeded c)) (done_ ++ [m])).
      destruct (feed _ ms _) as [c' [e|]].
      * destruct IH as (before&m'&after&->&IH); [split; cbn; try done; apply Forall2_app; [done|by constructor]|].
        exists (m :: before), m', after. split; [done|]. by rewrite <- app_assoc in IH.
      * rewrite <- app_assoc in IH. apply IH. split; cbn; try done. apply Forall2_app; [done|by constructor].
  - exists [], m, ms. rewrite app_nil_r, H4. split_and!; [done..|]. by exists text.
Qed.

Lemma sized_mono id texts more : (sized id texts <= sized id (texts ++ more))%Z.
Proof.
  revert texts. induction more as [|t more IH]; intros texts; [rewrite app_nil_r; lia|]. specialize (IH (texts ++ [t])).
  rewrite <- app_assoc in IH. cbn [app] in IH. rewrite sized_snoc in IH. destruct texts; lia.
Qed.
Definition texted (m : Message) (t : string) : Prop := marshalIndent m = inl t.
Lemma texted_fun ms l l' : Forall2 texted ms l -> Forall2 texted ms l' -> l = l'.
Proof.
  intros H1. revert l'. induction H1 as [|m t ms l Hm _ IH]; intros l' H2; inversion H2 as [|? ? ? ? Hm' H2']; subst; [done|].
  f_equal; [unfold texted in *; congruence|by apply IH].
Qed.

Lemma feed_exact id max ms texts :
  (0 < max)%Z -> Forall2 texted ms texts -> (sized id [] <= max)%Z ->
  let '(c, e) := feed (collectChunk marshalIndent max) ms (mkCollected [] (sized id []) false) in
  if (sized id texts <=? max)%Z then co_texts c = texts /\ co_exceeded c = false /\ e = None
  else co_exceeded c = true /\ e = Some limitError.
Proof.
  intros Hmax Ht Hid. pose proof (feed_accounted id max ms (mkCollected [] (sized id []) false) [] Hmax) as Hacc.
  destruct (feed _ ms _) as [c [e|]].
  - destruct Hacc as (before&m&after&->&_&_&Hb&Hx); [by split|]. apply Forall2_app_inv_l in Ht as (tb&ta&Htb&Hta&->).
    cbn [app] in Hb. rewrite (texted_fun _ _ _ Hb Htb) in Hx. inversion Hta as [|? t ? ts Hm Hts]; subst.
    destruct (co_exceeded c); [|destruct Hx as (text&Hx); unfold texted in Hm; congruence].
    destruct Hx as (->&t'&Hm'&Hl). assert (t' = t) as -> by (unfold texted in Hm; congruence).
    pose proof (sized_mono id (tb ++ [t]) ts) as Hmono. rewrite <- app_assoc in Hmono. cbn [app] in Hmono.
    by rewrite (proj2 (Z.leb_gt _ _)) by lia.
  - destruct Hacc as [H1 H2 H3 H4]; [by split|]. cbn [app] in H1. rewrite (texted_fun _ _ _ H1 Ht) in *. rewrite (proj2 (Z.leb_le _ _)) by lia. done.
Qed.

(** C31: a streaming tool that succeeds is answered over MCP with one text block per
    message, in order, exactly when the JSON of the complete response fits the limit;
    otherwise the whole answer is refused.  The running total kept while messages
    arrive is the size of that JSON. *)
Theorem stream_limit_exact id tool argsJSON max d empty req ops texts :
  (0 < max)%Z -> Server.streamDesc tool = Some d -> newRequest tool = inl empty ->
  (if negb (String.eqb argsJSON "") && negb (String.eqb argsJSON "null") then unmarshalJSON argsJSON empty else inl empty) = inl req ->
  application tool req = (ops, None) -> ctx = None -> Forall2 (fun m t => marshalIndent m = inl t) (sends ops) texts ->
  let whole := mcpOK id (contentResult (map textBlock texts)) in
  toolsCallStream id tool argsJSON max =
    Ok (if (Z.of_nat (String.length (marshalResponse whole)) <=? max)%Z then inl whole else inr limitError).
Proof.
  intros Hmax Hd Hn Hu Ha Hctx Ht. cbv zeta. unfold Mcp.toolsCallStream. rewrite Hn, Hu. cbv zeta. rewrite (proj2 (Z.ltb_lt _ _) Hmax). cbn [andb].
  change (Z.of_nat (String.length (emptyResponse id))) with (sized id []). change (Z.of_nat (String.length (marshalResponse _))) with (sized id texts).
  destruct (Z.ltb_spec max (sized id [])) as [Hl|Hl].
  { pose proof (sized_mono id [] texts) as Hmono. cbn [app] in Hmono. by rewrite (proj2 (Z.leb_gt _ _)) by lia. }
  unfold Mcp.runTool. rewrite Hd, Ha.
  pose proof (feed_performAll (collectChunk marshalIndent max) ltac:(done) ops (newProjectedServerStream req (mkCollected [] (sized id []) false))) as Hf.
  cbv zeta in Hf. cbn [newProjectedServerStream ps_sendErr ps_sender] in Hf. fold (newProjectedServerStream req (mkCollected [] (sized id []) false)) in Hf.
  pose proof (feed_exact id max (sends ops) texts Hmax Ht Hl) as Hx. destruct (feed _ (sends ops) _) as [c e].
  destruct (performAll _ _ _ _ ops) as [st es]. cbn [fst snd] in Hf. destruct Hf as [-> He].
  unfold invokeGRPCStream. rewrite He, Hctx. destruct (sized id texts <=? max)%Z.
  - destruct Hx as (->&->&->). done.
  - destruct Hx as (->&->). done.
Qed.

(** *** Answers *)

(** An error with a detail whose JSON is null, as that of a [google.protobuf.Value] can be. *)
Definition nullDetail (e : GoError) : Prop :=
  exists d fullName raw goText, d ∈ st_details (statusFromError (Some e)) /\
    decodeDetail d = DMessage fullName (Some raw) goText /\ Unmarshal raw = Some JNull.

Lemma errorResult_cases content e :
  match errorResult decodeDetail content e with Ok _ => True | Panic _ => nullDetail e | _ => False end.
Proof.
  unfold errorResult, errorPayload, statusDetails, nullDetail. cbv zeta. generalize (st_details (statusFromError (Some e))). intros l.
  assert (match mapOutcome (fun d => renderDetail (decodeDetail d)) l with
          | Ok _ => True
          | Panic _ => exists d n raw g, d ∈ l /\ decodeDetail d = DMessage n (Some raw) g /\ Unmarshal raw = Some JNull
          | _ => False
          end) as Hl.
  { induction l as [|d l IH]; [done|]. cbn [mapOutcome].
    assert (match renderDetail (decodeDetail d) with
            | Ok _ => True
            | Panic _ => exists n raw g, decodeDetail d = DMessage n (Some raw) g /\ Unmarshal raw = Some JNull
            | _ => False
            end) as Hd.
    { destruct (decodeDetail d) as [n [raw|] g|t|g]; cbn [renderDetail]; try done. destruct (Unmarshal raw) as [[]|] eqn:E; try done. by exists n, raw, g. }
    destruct (renderDetail (decodeDetail d)) as [v| |x|]; cbn [mbind outcome_bind]; [| |exists d; destruct Hd as (n&raw&g&?&?); exists n, raw, g; set_solver|]; try done.
    destruct (mapOutcome _ l) as [vs| |x|]; cbn [mbind outcome_bind]; try done. destruct IH as (d'&n&raw&g&Hd'&?). exists d', n, raw, g. set_solver. }
  destruct (mapOutcome _ l); done.
Qed.

(** The errors a streaming tool can fail with: its request cannot be made, the arguments
    do not decode, or the tool, its handler or its stream fails. *)
Inductive streamFails (tool : Server.Tool) (argsJSON : string) (max : Z) : GoError -> Prop :=
  | fails_request e : newRequest tool = inr e -> streamFails tool argsJSON max e
  | fails_arguments empty text : newRequest tool = inl empty -> unmarshalJSON argsJSON empty = inr text ->
      streamFails tool argsJSON max (invalidArgumentFromJSONError badRequest text)
  | fails_handler empty req size e : newRequest tool = inl empty ->
      (if negb (String.eqb argsJSON "") && negb (String.eqb argsJSON "null") then unmarshalJSON argsJSON empty else inl empty) = inl req ->
      (runTool tool req max size).2 = Some e -> streamFails tool argsJSON max e.

(** The result of a call: an answer with its identifier, a refusal under a limit, or the
    panic of an error that cannot be rendered. *)
Definition callOutcome (fails : GoError -> Prop) (id : option string) (max : Z) (r : Outcome (jsonRPCResponse + GoError)) : Prop :=
  match r with
  | Ok (inl r) => rs_id r = id
  | Ok (inr e) => e = limitError /\ (0 < max)%Z
  | Panic _ => exists e, fails e /\ nullDetail e
  | _ => False
  end.
Lemma errorResult_outcome (fails : GoError -> Prop) id max content e : fails e ->
  callOutcome fails id max (r ← errorResult decodeDetail content e; Ok (inl (mcpOK id r))).
Proof. intros Hf. pose proof (errorResult_cases content e) as H'. destruct (errorResult decodeDetail content e); cbn in *; try done. by exists e. Qed.

Lemma runTool_unlimited tool req max size : (0 <? max)%Z = false -> co_exceeded (runTool tool req max size).1 = false.
Proof.
  intros Hmax. unfold Mcp.runTool. destruct (Server.streamDesc tool); [|done]. destruct (application tool req) as [ops herr].
  pose proof (feed_performAll (collectChunk marshalIndent max) ltac:(done) ops (newProjectedServerStream req (mkCollected [] size false))) as Hf.
  cbv zeta in Hf. cbn [newProjectedServerStream ps_sendErr ps_sender] in Hf. fold (newProjectedServerStream req (mkCollected [] size false)) in Hf.
  destruct (performAll _ _ _ _ ops) as [st es]. cbn [fst] in Hf. destruct Hf as [Hs _].
  assert (forall ms c, co_exceeded c = false -> co_exceeded (feed (collectChunk marshalIndent max) ms c).1 = false) as Hno.
  { induction ms as [|m ms IH]; intros c Hc; [done|]. cbn [feed]. unfold collectChunk at 1. destruct (marshalIndent m); [|done].
    rewrite Hmax. by apply IH. }
  cbn [fst]. rewrite Hs. by apply Hno.
Qed.
Lemma toolsCallStream_outcome id tool argsJSON max :
  callOutcome (streamFails tool argsJSON max) id max (toolsCallStream id tool argsJSON max).
Proof.
  unfold Mcp.toolsCallStream. destruct (newRequest tool) as [empty|e] eqn:En; [|by apply errorResult_outcome, fails_request].
  destruct (if _ : bool then unmarshalJSON argsJSON empty else inl empty) as [req|text] eqn:Eu.
  2: { apply errorResult_outcome. apply (fails_arguments _ _ _ empty); [done|]. by destruct (_ && _)%bool in Eu. }
  cbv zeta. match goal with |- context [if ?b then Ok (inr limitError) else _] => destruct b eqn:Eb end.
  { cbn. split; [done|]. apply andb_true_iff in Eb as [Eb _]. by apply Z.ltb_lt. }
  match goal with |- context [Mcp.runTool ?a ?b ?c ?d ?e ?f ?g] => set (size := g); pose proof (fails_handler d argsJSON f empty e size) as Hf;
    pose proof (runTool_unlimited d e f size) as Hno; destruct (Mcp.runTool a b c d e f size) as [collected err] end.
  cbn [fst snd] in *. destruct (co_exceeded collected) eqn:Ex.
  { cbn. split; [done|]. destruct (Z.ltb_spec 0 max); [done|]. specialize (Hno eq_refl). done. }
  destruct err as [e|]; [apply errorResult_outcome; by apply Hf|done].
Qed.

Context {UI SI HP MM : Type} (s : @Server.Server UI SI HP MM) (paramsError : string -> string).
Context (invokeJSON : Server.Tool -> string -> string + GoError).
Notation toolsCall := (toolsCall s paramsError badRequest decodeDetail invokeJSON newRequest unmarshalJSON marshalIndent application ctx).
Notation dispatch := (mcpDispatchWithResponseLimit s paramsError badRequest decodeDetail invokeJSON newRequest unmarshalJSON marshalIndent application ctx).

(** The tool that the parameters of a call name fails with an error. *)
Definition callFails (params : option string) (max : Z) (e : GoError) : Prop :=
  exists name arguments tool, decodeCall params = Some (name, arguments) /\ Server.tools s !! name = Some tool /\
    if Server.ServerStreaming tool then streamFails tool (default "{}" arguments) max e
    else invokeJSON tool (default "{}" arguments) = inr e.
Definition toolFails (req : jsonRPCRequest) (max : Z) (e : GoError) : Prop :=
  rq_method req = "tools/call" /\ callFails (rq_params req) max e.

Lemma toolsCall_outcome id params max : callOutcome (callFails params max) id max (toolsCall id params max).
Proof.
  unfold Mcp.toolsCall, callFails. destruct (decodeCall params) as [[name arguments]|]; [|done].
  destruct (Server.tools s !! name) as [tool|] eqn:Ht; [|done]. change (match arguments with Some a => a | None => "{}" end) with (default "{}" arguments).
  destruct (Server.ServerStreaming tool) eqn:Es.
  - pose proof (toolsCallStream_outcome id tool (default "{}" arguments) max) as Ho.
    destruct (toolsCallStream _ _ _ _) as [[r|e]| | |]; cbn in *; try done. destruct Ho as (e&He&Hn). exists e. split; [|done].
    exists name, arguments, tool. by rewrite Es.
  - destruct (invokeJSON tool (default "{}" arguments)) as [text|e] eqn:Ei; [done|]. apply errorResult_outcome. exists name, arguments, tool. by rewrite Es.
Qed.

(** C30: the dispatcher answers every request that has an identifier, with exactly that
    identifier, and never answers one without.  There are two exceptions, both of tool
    calls: one under a byte limit may be refused, because its answer does not fit, and
    one whose tool fails with an error that has a detail whose JSON is null panics. *)
Theorem dispatch_answers req max :
  match dispatch req max with
  | Ok out =>
      match rq_id req, out with
      | None, _ => out = inl None
      | Some id, inl answer => exists r, answer = Some r /\ rs_id r = Some id
      | Some id, inr e => e = limitError /\ (0 < max)%Z /\ rq_method req = "tools/call"
      end
  | Panic _ => exists e, toolFails req max e /\ nullDetail e
  | _ => False
  end.
Proof.
  unfold mcpDispatchWithResponseLimit, toolFails. destruct (rq_id req) as [id|]; [|done]. cbv zeta.
  destruct (String.eqb (rq_method req) "initialize").
  { eexists. split; [done|]. by destruct (validMCPInitializeParams _). }
  destruct (String.eqb (rq_method req) "tools/list"); [by eexists|].
  destruct (String.eqb_spec (rq_method req) "tools/call") as [Hm|_]; [|destruct (String.eqb (rq_method req) "ping"); by eexists].
  pose proof (toolsCall_outcome (Some id) (rq_params req) max) as Hc.
  destruct (toolsCall (Some id) (rq_params req) max) as [[r|e]| | |]; cbn in *; try done.
  - by eexists.
  - by destruct Hc as [-> ?].
  - destruct Hc as (e&He&Hn). by exists e.
Qed.

(** Without a limit there is one exception. *)
Lemma mcpDispatch_outcome req :
  match mcpDispatch s paramsError badRequest decodeDetail invokeJSON newRequest unmarshalJSON marshalIndent application ctx req with
  | Ok out => forall id, rq_id req = Some id -> exists r, out = Some r /\ rs_id r = Some id
  | Panic _ => exists e, toolFails req 0 e /\ nullDetail e
  | _ => False
  end.
Proof.
  unfold mcpDispatch, mcpDispatchWithResponseLimit, toolFails. destruct (rq_id req) as [id|]; [|done]. cbv zeta.
  destruct (String.eqb (rq_method req) "initialize").
  { intros ? [= <-]. eexists. split; [done|]. by destruct (validMCPInitializeParams _). }
  destruct (String.eqb (rq_method req) "tools/list"); [intros ? [= <-]; by eexists|].
  destruct (String.eqb_spec (rq_method req) "tools/call") as [Hm|_]; [|destruct (String.eqb (rq_method req) "ping"); intros ? [= <-]; by eexists].
  pose proof (toolsCall_outcome (Some id) (rq_params req) 0) as Hc.
  destruct (toolsCall (Some id) (rq_params req) 0) as [[r|e]| | |]; cbn in *; try done.
  - intros ? [= <-]. by eexists.
  - by destruct Hc as [_ ?].
  - destruct Hc as (e&He&Hn). by exists e.
Qed.
End Dispatching.

(** ** Sessions of a server *)

Section Served.
Context `{CodeNames} `{MetadataLib} (badRequest : string -> string -> option (string * string)) (decodeDetail : string * string -> Detail).
Context {Message : Type} (newRequest : Server.Tool -> Message + GoError) (unmarshalJSON : string -> Message -> Message + string).
Context (marshalIndent : Message -> string + string).
Context {UI SI HP MM : Type} (s : @Server.Server UI SI HP MM) (paramsError : string -> string) (syntaxError : string -> option string).
Notation dispatch := (Mcp.dispatch s paramsError badRequest decodeDetail newRequest unmarshalJSON marshalIndent).
Notation run := (Mcp.run syntaxError dispatch).

(** A request that panics when it is handled: its tool fails with an error that has a
    detail whose JSON is null. *)
Definition panics (h : Handling Message) (req : jsonRPCRequest) : Prop :=
  exists e, toolFails badRequest newRequest unmarshalJSON marshalIndent (h_app h) (h_ctx h) s (h_invokeJSON h) req 0 e /\ nullDetail decodeDetail e.

Lemma dispatch_id h req id out : rq_id req = Some id -> dispatch h req = Ok out -> exists r, out = Some r /\ rs_id r = Some id.
Proof.
  intros Hid Hd. pose proof (mcpDispatch_outcome badRequest decodeDetail newRequest unmarshalJSON marshalIndent (h_app h) (h_ctx h) s paramsError (h_invokeJSON h) req) as Ho.
  unfold Mcp.dispatch in Hd. rewrite Hd in Ho. by apply Ho.
Qed.
Lemma dispatch_failure h req x : failure (dispatch h req) = Some x -> (exists text, x = (None, Some text)) /\ panics h req.
Proof.
  pose proof (mcpDispatch_outcome badRequest decodeDetail newRequest unmarshalJSON marshalIndent (h_app h) (h_ctx h) s paramsError (h_invokeJSON h) req) as Ho.
  unfold Mcp.dispatch, panics. destruct (mcpDispatch _ _ _ _ _ _ _ _ _ _ _) as [|text|text|]; try done. intros [= <-]. split; [by exists text|done].
Qed.

(** C32: over any sequence of lines, results of calls and writes, and however the
    application handles each request, either a session goes on, and then every line that
    must be answered is answered or belongs to a call that still runs, is about to write
    its answer or was cancelled, nothing else is written, and each call has been answered
    exactly once and with the identifier of its request, or not at all in those three
    cases; or it ended in the panic of a request it had read, whose tool failed with an
    error that has a detail whose JSON is null. *)
Theorem session_answers evs :
  match run evs with
  | Ok m => length (output m) + pending (calls m) = list_sum (map (owed syntaxError) evs) /\ (forall k c, calls m !! k = Some c -> settled m k c)
  | Panic _ => exists h req, reads syntaxError evs req /\ panics h req /\ exists ev, ev ∈ evs /\ momentOf ev = Some h
  | _ => False
  end.
Proof.
  pose proof (run_failure syntaxError dispatch dispatch_id evs) as Hf. destruct (run evs) as [m|text|text|] eqn:Hr; cbn [failure] in Hf.
  - by apply (run_answers syntaxError dispatch dispatch_id).
  - destruct (Hf _ eq_refl) as (ev&h&req&_&_&_&[[? ?] _]%dispatch_failure). done.
  - destruct (Hf _ eq_refl) as (ev&h&req&Hin&Hm&Hr'&[_ Hp]%dispatch_failure). exists h, req. split_and!; [done|done|by exists ev].
  - destruct (Hf _ eq_refl) as (ev&h&req&_&_&_&[[? ?] _]%dispatch_failure). done.
Qed.
End Served.

(** ** The HTTP transport *)

Section Http.
Context `{CodeNames} (parseMedia : string -> option (string * list (string * string))) (weightRefused : string -> bool).
Context (syntaxError : string -> option string).
Context (headers : Entries) (body : string) (bodyErr : option GoError) (ctx : option Z -> option ContextError * option ContextError).
Context (maxRequest maxResponse : Z).
Notation handle := (handleMCPHTTP parseMedia weightRefused syntaxError headers body bodyErr ctx maxRequest maxResponse).

Lemma writeMCPJSON_bounded r : (0 < maxResponse)%Z -> (Z.of_nat (String.length (rp_body (writeMCPJSON r maxResponse))) <= maxResponse)%Z.
Proof.
  intros Hm. unfold writeMCPJSON. cbv zeta. rewrite (proj2 (Z.ltb_lt _ _) Hm). cbn [andb].
  destruct (Z.ltb_spec maxResponse (Z.of_nat (String.length (marshalResponse r)))); [by apply errorResponse_bounded|done].
Qed.

(** A response that is within the limit, or a refusal in plain text. *)
Definition bounded (r : Response) : Prop :=
  (Z.of_nat (String.length (rp_body r)) <= maxResponse)%Z \/ exists code text, r = plainResponse code text /\ (400 <= code)%Z.
Lemma bounded_error h e : (0 < maxResponse)%Z -> bounded (errorResponse h e maxResponse).
Proof. left. by apply errorResponse_bounded. Qed.
Lemma bounded_plain code text : (400 <= code)%Z -> bounded (plainResponse code text).
Proof. right. by exists code, text. Qed.
Lemma bounded_empty code : (0 < maxResponse)%Z -> bounded (headerOnly code).
Proof. left. cbn. lia. Qed.
Lemma bounded_json r : (0 < maxResponse)%Z -> bounded (writeMCPJSON r maxResponse).
Proof. left. by apply writeMCPJSON_bounded. Qed.
#[local] Hint Resolve bounded_error bounded_plain bounded_empty bounded_json : mcp.
#[local] Hint Extern 1 (_ <= _)%Z => lia : mcp.

(** What a request must be for a tool to be reached. *)
Definition eligible : Prop :=
  httpHeaderPresent headers "Origin" = false /\
  acceptsMCPResponseTypes parseMedia weightRefused (Join (default [] (assoc "Accept" headers)) ",") = true /\
  (Z.of_nat (String.length body) <= maxRequest)%Z /\
  exists req, parseMCPJSONRPC syntaxError body = IsRequest req /\
    (rq_method req <> "initialize" -> getValue "MCP-Protocol-Version" headers = mcpProtocolVersion).

(** Over HTTP, what is sent back is within the limit of the server or is a refusal
    in plain text; and the tools are consulted only for a request without an Origin
    header, from a client that accepts both response types, whose body is within the
    limit and is one JSON-RPC request for the supported protocol version: any other
    request is answered without them. *)
Theorem mcp_http_guarded dispatch :
  (0 < maxResponse)%Z ->
  bounded (handle dispatch) /\ (~ eligible -> forall dispatch', handle dispatch' = handle dispatch).
Proof.
  intros Hm. unfold handleMCPHTTP, eligible. destruct (httpHeaderPresent headers "Origin"); [auto with mcp|].
  destruct (acceptsMCPResponseTypes _ _ _); cbn [negb]; [|auto with mcp].
  match goal with |- context [if negb ?b then plainResponse 415 _ else _] => destruct b end; cbn [negb]; [|auto with mcp].
  destruct (applyConnectTimeout _) as [timeout| | |]; [|auto with mcp..].
  destruct (ctx timeout) as [ctxRead ctxCall]. unfold readBody. cbn [q_body q_bodyErr].
  destruct (Z.ltb_spec maxRequest (Z.of_nat (String.length body))); [destruct ctxRead; auto with mcp|].
  destruct bodyErr as [e|]; [destruct ctxRead; auto with mcp|].
  destruct (parseMCPJSONRPC syntaxError body) as [req| |a]; cbv zeta; [| |auto with mcp].
  - match goal with |- context [if ?b then plainResponse 400 ?t else _] => destruct b eqn:Hv end; [auto with mcp|]. split.
    + destruct ctxCall; [auto with mcp|]. destruct (dispatch req maxResponse) as [[r|]|e]; auto with mcp.
    + intros Ha. exfalso. apply Ha. split_and!; try done. exists req. split; [done|]. intros Hi.
      rewrite (proj2 (String.eqb_neq _ _) Hi) in Hv. cbn [andb negb orb] in Hv. apply negb_false_iff, String.eqb_eq in Hv. done.
  - match goal with |- context [if ?b then plainResponse 400 ?t else _] => destruct b eqn:Hv end; auto with mcp.
Qed.
End Http.

(** ** Witnesses *)

Definition callLine (id : string) : string :=
  quotes ("{'jsonrpc':'2.0','id':" +:+ id +:+ ",'method':'tools/call','params':{'name':'shop.Orders.Place'}}").
Definition cancelLine (id : string) : string :=
  quotes ("{'jsonrpc':'2.0','method':'notifications/cancelled','params':{'requestId':" +:+ id +:+ "}}").

(** A session of the shop, whose tool gives [result]; the details of its errors are of
    the kind [detail]. *)
Definition shopDispatch (detail : Detail) : Handling string -> jsonRPCRequest -> Outcome (option jsonRPCResponse) :=
  dispatch shopServer (fun _ => "") (H := generatedCodes) (H0 := joinedMetadata) (fun _ _ => None) (fun _ => detail) (fun _ => inl "") (fun a _ => inl a) inl.
Definition gives (result : string + GoError) : Handling string := mkHandling _ (fun _ _ => result) (fun _ _ => ([], None)) None.
Definition plainDetail : Detail := DMessage "x.Detail" (Some "{}") "".
Definition nullValue : Detail := DMessage "google.protobuf.Value" (Some "null") "null_value:NULL_VALUE".
Definition missing : GoError := statusError (mkStatus NotFound "no such order" [("type.googleapis.com/x.Detail", "d")]).
Definition placed : Handling string := gives (inl "{}").
Notation shopRun detail := (run (fun _ => None) (shopDispatch detail)).

Definition ids (o : Outcome mcpSession) : list (option string) := match o with Ok m => map (fun l => rs_id (l_response l)) (output m) | _ => [] end.
(** Two calls, of which the first is cancelled, and a call that fails. *)
Example talk :
  ids (shopRun plainDetail [EvLine placed (callLine "1"); EvLine placed (callLine "'a'"); EvLine placed (cancelLine "1"); EvFinish placed 1; EvFinish placed 0;
    EvLine placed (callLine "2"); EvWrite 1; EvFinish (gives (inr missing)) 2; EvWrite 2; EvWrite 0]) = [Some (quotes "'a'"); Some "2"].
Proof. vm_compute. reflexivity. Qed.
(** The same failure, with a detail whose JSON is null. *)
Example talk_panics :
  shopRun nullValue [EvLine placed (callLine "1"); EvLine placed (callLine "2"); EvFinish (gives (inr missing)) 0; EvFinish placed 1; EvWrite 1]
    = Panic "assignment to entry in nil map".
Proof. vm_compute. reflexivity. Qed.

Lemma cancel_final_witness :
  exists m', shopRun plainDetail ([EvLine placed (callLine "1"); EvLine placed (callLine "'a'")] ++ EvLine placed (cancelLine "1") ::
    [EvFinish placed 1; EvFinish placed 0; EvWrite 0]) = Ok m' /\ answers 0 m' = [].
Proof.
  eexists. split; [vm_compute; reflexivity|].
  eapply (cancel_final (fun _ => None) (shopDispatch plainDetail)
      (fun h req id out => dispatch_id (H := generatedCodes) (H0 := joinedMetadata) _ _ _ _ _ _ _ h req id out)
      [EvLine placed (callLine "1"); EvLine placed (callLine "'a'")] _ placed (cancelLine "1") [EvFinish placed 1; EvFinish placed 0; EvWrite 0] _ 0);
    vm_compute; [repeat split|reflexivity..].
Defined.

(** Two calls under one identifier: when the first ends it takes the second's entry
    away, and the second can no longer be cancelled. *)
Lemma duplicate_id_uncancellable :
  ids (shopRun plainDetail [EvLine placed (callLine "1"); EvLine placed (callLine "1"); EvFinish placed 0; EvLine placed (cancelLine "1");
    EvFinish placed 1; EvWrite 1]) = [Some "1"].
Proof. vm_compute. reflexivity. Qed.

Definition watchTool : Server.Tool :=
  Server.mkTool "s.Watch" "" (AMap []) "" "" "s" "Watch" true None (Some (Server.mkStreamDesc "Watch" true false true)) true "/s/Watch".
Definition watchOps : list (@Operation string) := [OSend None (inl "one"); OSetTrailer ∅; OSend None (inl "two")].
Notation watch max := (@toolsCallStream generatedCodes joinedMetadata (fun _ _ => None) (fun _ => DOther "") string (fun _ => inl "")
  (fun a _ => inl a) inl (fun _ _ => (watchOps, None)) None (Some "7") watchTool "{}" max).

Lemma stream_limit_exact_witness :
  watch 105 = Ok (inl (mcpOK (Some "7") (contentResult [textBlock "one"; textBlock "two"]))) /\ watch 104 = Ok (inr limitError).
Proof.
  split; etransitivity.
  - apply (@stream_limit_exact generatedCodes joinedMetadata (fun _ _ => None) (fun _ => DOther "") string (fun _ => inl "") (fun a _ => inl a) inl
      (fun _ _ => (watchOps, None)) None (Some "7") watchTool "{}" 105 (Server.mkStreamDesc "Watch" true false true) "" "{}" watchOps ["one"; "two"]);
      first [reflexivity|repeat constructor].
  - vm_compute. reflexivity.
  - apply (@stream_limit_exact generatedCodes joinedMetadata (fun _ _ => None) (fun _ => DOther "") string (fun _ => inl "") (fun a _ => inl a) inl
      (fun _ _ => (watchOps, None)) None (Some "7") watchTool "{}" 104 (Server.mkStreamDesc "Watch" true false true) "" "{}" watchOps ["one"; "two"]);
      first [reflexivity|repeat constructor].
  - vm_compute. reflexivity.
Defined.

(** A detail whose JSON is null: the payload of the error cannot be made. *)
Lemma null_detail_panics :
  @errorPayload (fun _ => nullValue) generatedCodes
    (statusError (mkStatus Internal "boom" [("type.googleapis.com/google.protobuf.Value", "")])) = Panic "assignment to entry in nil map".
Proof. vm_compute. reflexivity. Qed.

Lemma mcp_http_guarded_witness :
  let handle := @handleMCPHTTP (fun _ => Some ("application/json", [])) (fun _ => false) generatedCodes (fun _ => None)
    [("Origin", ["https://evil.example"])] (callLine "1") None (fun _ => (None, None)) 1000 1000 in
  handle (fun _ _ => inl None) = handle (fun _ _ => inr limitError).
Proof.
  apply (@mcp_http_guarded generatedCodes (fun _ => Some ("application/json", [])) (fun _ => false) (fun _ => None)
    [("Origin", ["https://evil.example"])] (callLine "1") None (fun _ => (None, None)) 1000 1000 (fun _ _ => inr limitError)); [reflexivity|].
  intros [H _]. vm_compute in H. discriminate H.
Defined.
