(* ===== verification/McpParseSpec.v ===== *)
(** * Raw messages are the texts of the members *)
From Stdlib Require Import Decimal DecimalN DecimalString.
From S2P Require Import Prelude GoStrings StringFacts Utf8Facts Metadata MetadataSpec Json JsonParse JsonSpec Connect HttpClient RawJson Mcp.
Import RawJson.

(** ** Texts that keep the scanner where it was *)

Fixpoint scan (st : Inside) (s : string) : Inside :=
  match s with
  | EmptyString => st
  | String c r => scan (insideByte st c) r
  end.
(** No separator is met outside brackets and strings. *)
Fixpoint quiet (sep : ascii) (st : Inside) (s : string) : bool :=
  match s with
  | EmptyString => true
  | String c r => negb (match st with Outer 0 => Ascii.eqb c sep | _ => false end) && quiet sep (insideByte st c) r
  end.

Lemma scan_append st s t : scan st (s +:+ t) = scan (scan st s) t.
Proof. revert st. induction s as [|c s IH]; intros st; [done|]. rewrite append_cons. cbn [scan]. apply IH. Qed.
Lemma quiet_append sep st s t : quiet sep st (s +:+ t) = quiet sep st s && quiet sep (scan st s) t.
Proof.
  revert st. induction s as [|c s IH]; intros st; [done|]. rewrite append_cons. cbn [quiet scan]. by rewrite IH, andb_assoc.
Qed.

Lemma splitTop_quiet sep st part t r :
  quiet sep st t = true -> splitTop sep st part (t +:+ r) = splitTop sep (scan st t) (part +:+ t) r.
Proof.
  revert st part. induction t as [|c t IH]; intros st part; [by rewrite append_nil_r|].
  cbn [quiet]. intros [Hc Ht]%andb_true_iff. rewrite append_cons. cbn [splitTop scan].
  assert (splitTop sep (insideByte st c) (part +:+ str1 c) (t +:+ r) = splitTop sep (scan (insideByte st c) t) (part +:+ String c t) r) as E
    by (rewrite IH by done; by rewrite append_assoc).
  destruct st as [[|d]|d|d]; [|done..]. apply negb_true_iff in Hc. by rewrite Hc.
Qed.

(** At depth [d] or deeper a text comes back to where it started, meeting no [sep]. *)
Definition steady (low : nat) (sep : ascii) (t : string) : Prop :=
  forall d, low <= d -> scan (Outer d) t = Outer d /\ quiet sep (Outer d) t = true.

Lemma steady_weaken sep t : steady 0 sep t -> steady 1 sep t.
Proof. intros H d Hd. apply H. lia. Qed.
Lemma steady_append low sep s t : steady low sep s -> steady low sep t -> steady low sep (s +:+ t).
Proof. intros Hs Ht d Hd. destruct (Hs d Hd) as [E1 E2], (Ht d Hd) as [E3 E4]. rewrite scan_append, quiet_append, E1, E2. by rewrite E3, E4. Qed.
Lemma steady_nil low sep : steady low sep "".
Proof. by intros d Hd. Qed.

(** A byte that moves nothing. *)
Definition idle (c : ascii) : bool :=
  negb (Ascii.eqb c DQUOTE || Ascii.eqb c "{" || Ascii.eqb c "[" || Ascii.eqb c "}" || Ascii.eqb c "]").
Lemma idle_inside d c : idle c = true -> insideByte (Outer d) c = Outer d.
Proof.
  unfold idle, insideByte. destruct (Ascii.eqb c DQUOTE), (Ascii.eqb c "{"), (Ascii.eqb c "["), (Ascii.eqb c "}"), (Ascii.eqb c "]"); done.
Qed.
Lemma steady_byte low sep c : idle c = true -> (c <> sep \/ 0 < low) -> steady low sep (str1 c).
Proof.
  intros Hc Hs d Hd. cbn [str1 scan quiet]. rewrite idle_inside by done. split; [done|].
  destruct d; [|done]. destruct Hs as [Hs|]; [|lia]. by rewrite (proj2 (Ascii.eqb_neq _ _) Hs).
Qed.
Lemma steady_bytes sep s : allBytes (fun c => idle c && negb (Ascii.eqb c sep)) s = true -> steady 0 sep s.
Proof.
  induction s as [|c s IH]; [intros _; apply steady_nil|]. cbn [allBytes]. intros [[Hc Hs]%andb_true_iff Ht]%andb_true_iff.
  apply (steady_append 0 sep (str1 c)); [|by apply IH]. apply steady_byte; [done|]. left. by apply Ascii.eqb_neq, negb_true_iff.
Qed.

Definition separator (sep : ascii) : Prop := sep = ","%char \/ sep = ":"%char.

Lemma steady_number sep s : separator sep -> isNumber s = true -> steady 0 sep s.
Proof.
  intros Hsep (Hb&_)%isNumber_bytes. apply steady_bytes. eapply allBytes_impl; [|exact Hb]. intros c Hc.
  destruct Hsep as [-> | ->]; destruct c as [[] [] [] [] [] [] [] []]; try discriminate Hc; reflexivity.
Qed.

(** ** String literals *)

Lemma scan_plain d p : plain p = true -> scan (Quoted d) p = Quoted d /\ forall sep, quiet sep (Quoted d) p = true.
Proof.
  induction p as [|c p IH]; [done|]. unfold plain. rewrite andb_true_iff, !noByte_cons. intros [[H1 H2] [H3 H4]].
  cbn [scan quiet insideByte]. rewrite (proj2 (Ascii.eqb_neq _ _) H1), (proj2 (Ascii.eqb_neq _ _) H3). cbn [negb andb].
  apply IH. unfold plain. by rewrite H2, H4.
Qed.
Lemma scan_escaped d s : ValidString s = true -> scan (Quoted d) (escaped s) = Quoted d /\ forall sep, quiet sep (Quoted d) (escaped s) = true.
Proof.
  revert s. apply (valid_ind (fun s => scan (Quoted d) (escaped s) = Quoted d /\ forall sep, quiet sep (Quoted d) (escaped s) = true)); [done|].
  intros n enc rest He Hr [IH1 IH2]. rewrite (escaped_enc _ _ _ He), scan_append.
  assert (scan (Quoted d) (escapeRune (Some (n, enc))) = Quoted d /\ forall sep, quiet sep (Quoted d) (escapeRune (Some (n, enc))) = true) as [E1 E2].
  { destruct (escape_shape _ _ He) as [Hp|(c&p&->&Hp)]; [by apply scan_plain|]. exact (scan_plain d p Hp). }
  rewrite E1. split; [done|]. intros sep. by rewrite quiet_append, E1, E2, IH2.
Qed.
Lemma steady_string sep s : separator sep -> ValidString s = true -> steady 0 sep (jsonString s).
Proof.
  intros Hsep Hs d _. unfold jsonString. fold (escaped s). destruct (scan_escaped d s Hs) as [E1 E2]. cbn [scan quiet].
  change (insideByte (Outer d) DQUOTE) with (Quoted d). rewrite scan_append, quiet_append, E1, E2. cbn. split; [done|].
  destruct d; [|done]. by destruct Hsep as [-> | ->].
Qed.

(** ** Values *)

Lemma steady_brackets sep o c t :
  separator sep -> (o, c) ∈ [("{", "}"); ("[", "]")]%char -> steady 1 sep t -> steady 0 sep (str1 o +:+ t +:+ str1 c).
Proof.
  intros Hsep Hoc Ht d _. destruct (Ht (S d) ltac:(lia)) as [E1 E2]. rewrite !scan_append, !quiet_append.
  assert (scan (Outer d) (str1 o) = Outer (S d) /\ scan (Outer (S d)) (str1 c) = Outer d /\ quiet sep (Outer d) (str1 o) = true /\
    quiet sep (Outer (S d)) (str1 c) = true) as (->&H2&->&H4).
  { rewrite !elem_of_cons, elem_of_nil in Hoc. destruct Hoc as [[= -> ->]|[[= -> ->]|[]]]; split_and!; try done;
      destruct d; try done; by destruct Hsep as [-> | ->]. }
  rewrite E1, E2. by rewrite H2, H4.
Qed.
Lemma steady_join sep l : separator sep -> Forall (steady 1 sep) l -> steady 1 sep (Join l ",").
Proof.
  intros Hsep Hl. induction Hl as [|x l Hx Hl IH]; [apply steady_nil|]. cbn [Join]. destruct l as [|y l]; [done|].
  apply steady_append; [done|]. apply steady_append; [|done]. apply (steady_byte 1 sep ","); [done|right; lia].
Qed.

Lemma steady_value sep v : separator sep -> encodable v = true -> steady 0 sep (Marshal v).
Proof.
  intros Hsep. induction v as [|s|z|f|l|b|l IH|l IH] using json_ind; cbn [encodable Marshal]; intros He.
  - apply steady_bytes. by destruct Hsep as [-> | ->].
  - by apply steady_string.
  - apply steady_number; [done|apply isNumber_FormatInt].
  - by apply steady_number.
  - by apply steady_number.
  - apply steady_bytes. destruct b; by destruct Hsep as [-> | ->].
  - apply (steady_brackets sep "[" "]"); [done|set_solver|]. apply steady_join; [done|]. apply List.Forall_map. apply forallb_Forall in He.
    eapply list.Forall_impl; [exact (List.Forall_and IH He)|]. cbn. intros v [H1 H2]. by apply steady_weaken, H1.
  - apply (steady_brackets sep "{" "}"); [done|set_solver|]. apply steady_join; [done|]. apply List.Forall_map. apply forallb_Forall in He.
    eapply list.Forall_impl; [exact (List.Forall_and IH He)|]. cbn. intros [k v] [H1 [H2 H3]%andb_true_iff]. cbn [fst snd] in *.
    apply steady_append; [by apply steady_weaken, steady_string|]. apply steady_append; [|by apply steady_weaken, H1].
    apply (steady_byte 1 sep ":"); [done|right; lia].
Qed.

(** ** White space around a value *)

Definition noSpaceFirst (s : string) : Prop := match s with String c _ => isSpace c = false | EmptyString => True end.
Definition solid (s : string) : Prop := noSpaceFirst s /\ noSpaceFirst (revString s).
Lemma trimSpacesLeft_id s : noSpaceFirst s -> trimSpacesLeft s = s.
Proof. destruct s as [|c s]; [done|]. cbn. by intros ->. Qed.
Lemma trimSpaces_id s : solid s -> trimSpaces s = s.
Proof. intros [H1 H2]. unfold trimSpaces. by rewrite (trimSpacesLeft_id s), (trimSpacesLeft_id (revString s)), revString_involutive. Qed.

Lemma solid_ends o t c : isSpace o = false -> isSpace c = false -> solid (str1 o +:+ t +:+ str1 c).
Proof. intros Ho Hc. split; [done|]. by rewrite !revString_append. Qed.
Lemma solid_bytes s : allBytes (fun c => negb (isSpace c)) s = true -> solid s.
Proof.
  intros Hs. assert (forall t, allBytes (fun c => negb (isSpace c)) t = true -> noSpaceFirst t) as H.
  { intros [|c t]; [done|]. cbn. by intros [Hc%negb_true_iff _]%andb_true_iff. }
  split; apply H; [done|]. by rewrite allBytes_revString.
Qed.
Lemma solid_number s : isNumber s = true -> solid s.
Proof.
  intros (Hb&_)%isNumber_bytes. apply solid_bytes. eapply allBytes_impl; [|exact Hb]. intros c Hc.
  destruct c as [[] [] [] [] [] [] [] []]; try discriminate Hc; reflexivity.
Qed.
Lemma solid_value v : encodable v = true -> solid (Marshal v).
Proof.
  destruct v as [|s|z|f|l|b|l|l]; cbn [encodable Marshal]; intros He.
  - by apply solid_bytes.
  - unfold jsonString. apply (solid_ends DQUOTE _ DQUOTE); done.
  - apply solid_number, isNumber_FormatInt.
  - by apply solid_number.
  - by apply solid_number.
  - apply solid_bytes. by destruct b.
  - by apply (solid_ends "[" _ "]").
  - by apply (solid_ends "{" _ "}").
Qed.

(** ** Members *)

Lemma splitTop_join l part :
  Forall (steady 0 ",") l -> l <> [] ->
  splitTop "," (Outer 0) part (Join l ",") = match l with x :: l => (part +:+ x) :: l | [] => [] end.
Proof.
  intros Hl. revert part. induction Hl as [|x l Hx Hl IH]; intros part Hne; [done|]. cbn [Join]. destruct (Hx 0 ltac:(lia)) as [E1 E2].
  destruct l as [|y l].
  - rewrite <- (append_nil_r x) at 1. rewrite splitTop_quiet by done. by rewrite E1.
  - rewrite splitTop_quiet, E1 by done. change ("," +:+ Join (y :: l) ",") with (String "," (Join (y :: l) ",")). cbn [splitTop].
    rewrite IH by done. by rewrite append_nil_l.
Qed.

Lemma splitTop_parts l : Forall (steady 0 ",") l -> l <> [] -> splitTop "," (Outer 0) "" (Join l ",") = l.
Proof. intros Hl Hne. rewrite splitTop_join by done. by destruct l. Qed.

Lemma member_text k v :
  ValidString k = true -> encodable v = true -> member (jsonString k +:+ ":" +:+ Marshal v) = (k, Marshal v).
Proof.
  intros Hk Hv. unfold member. destruct (steady_string ":" k ltac:(by right) Hk 0 ltac:(lia)) as [E1 E2].
  destruct (steady_value ":" v ltac:(by right) Hv 0 ltac:(lia)) as [E3 E4].
  rewrite splitTop_quiet, E1 by done. change (":" +:+ Marshal v) with (String ":" (Marshal v)). cbn [splitTop].
  rewrite <- (append_nil_r (Marshal v)) at 1. rewrite splitTop_quiet, E3 by done. cbn [splitTop Ascii.eqb Bool.eqb]. rewrite !append_nil_l.
  pose proof (json_roundtrip (JString k) Hk ltac:(apply Nat.le_0_l)) as Hu. cbn [Marshal literals] in Hu. rewrite Hu.
  by rewrite (trimSpaces_id (Marshal v)) by (by apply solid_value).
Qed.

Lemma inner_braces t : inner (str1 "{" +:+ t +:+ str1 "}") = t.
Proof.
  assert (forall c u, dropBytes 1 (str1 c +:+ u) = u) as Hd by (intros c u; apply (dropBytes_append (str1 c))).
  unfold inner. rewrite trimSpaces_id by (by apply solid_ends). rewrite Hd, revString_append. change (revString (str1 "}")) with (str1 "}").
  by rewrite Hd, revString_involutive.
Qed.

(** Decoding an object into raw members gives, in order, every key with the text of
    its value. *)
Theorem rawObject_members l :
  encodable (JObject l) = true -> depth (JObject l) <= maxNestingDepth ->
  rawObject (Marshal (JObject l)) = Some (map (fun kv => (kv.1, Marshal kv.2)) l).
Proof.
  intros He Hd. unfold rawObject. rewrite json_roundtrip by done. destruct (decide (l = [])) as [->|Hne]; [done|].
  assert (literals (JObject l) <> JObject []) as Hl by (by destruct l). cbn [literals] in Hl |- *.
  destruct (map _ l) as [|m ms] in Hl |- *; [done|]. cbn [Marshal]. change ("{" +:+ ?t +:+ "}") with (str1 "{" +:+ t +:+ str1 "}"). rewrite inner_braces.
  cbn [encodable] in He. apply forallb_Forall in He. f_equal. rewrite splitTop_parts; [| |by destruct l].
  - rewrite map_map. apply map_ext_in. intros [k v] Hin.
    rewrite List.Forall_forall in He. apply He in Hin. cbn [fst snd] in *. apply andb_true_iff in Hin as [Hk Hv]. by apply member_text.
  - rewrite List.Forall_map. eapply list.Forall_impl; [exact He|]. intros [k v] [Hk Hv]%andb_true_iff. cbn [fst snd] in *.
    apply steady_append; [apply steady_string; [by left|done]|].
    apply steady_append; [|apply steady_value; [by left|done]]. apply (steady_byte 0 "," ":"); [done|by left].
Qed.

(** ** What an MCP message is read as *)
Import Metadata HttpClient RawJson Mcp.

(** ** Integers *)

Lemma digitsValue_acc d p : Connect.digitsValue (Z.pos p) (NilEmpty.string_of_uint d) = Z.pos (Pos.of_uint_acc d p).
Proof.
  revert p. induction d as [|d IH|d IH|d IH|d IH|d IH|d IH|d IH|d IH|d IH|d IH]; intros p; [done|..];
    cbn [NilEmpty.string_of_uint Connect.digitsValue Pos.of_uint_acc]; rewrite <- IH; f_equal;
    match goal with |- context [Connect.byteZ ?c] => let b := eval vm_compute in (Connect.byteZ c) in change (Connect.byteZ c) with b end; lia.
Qed.
Lemma digitsValue_uint d : Connect.digitsValue 0 (NilEmpty.string_of_uint d) = Z.of_N (N.of_uint d).
Proof.
  induction d as [|d IH|d _|d _|d _|d _|d _|d _|d _|d _|d _]; [done|exact IH|..];
    cbn [NilEmpty.string_of_uint Connect.digitsValue]; apply digitsValue_acc.
Qed.
Lemma digitsValue_FormatUint n : Connect.digitsValue 0 (FormatUint n) = Z.of_N n.
Proof.
  unfold FormatUint. rewrite <- (DecimalN.Unsigned.of_to n) at 2. rewrite <- digitsValue_uint.
  pose proof (Nto_uint_nonnil n) as H. by destruct (N.to_uint n).
Qed.

Lemma FormatUint_nonempty n : FormatUint n <> "".
Proof. pose proof (Nto_uint_nonnil n) as H. unfold FormatUint. by destruct (N.to_uint n). Qed.
Lemma parseInteger_uint n : parseInteger (FormatUint n) = Some (Z.of_N n).
Proof.
  unfold parseInteger. pose proof (FormatUint_digits n) as Hd. pose proof (FormatUint_nonempty n) as Hne.
  assert (match FormatUint n with String c r => if Ascii.eqb c "-" then (true, r) else (false, FormatUint n) | EmptyString => (false, FormatUint n) end
          = (false, FormatUint n)) as ->.
  { destruct (FormatUint n) as [|c r]; [done|]. cbn [allBytes] in Hd. apply andb_true_iff in Hd as [Hc _].
    destruct (Ascii.eqb_spec c "-") as [->|]; [discriminate Hc|done]. }
  rewrite (proj2 (String.eqb_neq _ _) Hne), Hd. cbn [negb andb]. by rewrite digitsValue_FormatUint.
Qed.
Lemma parseInteger_FormatInt z : parseInteger (FormatInt z) = Some z.
Proof.
  destruct (Z.lt_ge_cases z 0) as [Hz|Hz].
  - destruct z as [|p|p]; try lia. change (FormatInt (Z.neg p)) with (String "-" (FormatUint (N.pos p))). unfold parseInteger. rewrite Ascii.eqb_refl.
    rewrite (proj2 (String.eqb_neq _ _) (FormatUint_nonempty _)), FormatUint_digits. cbn [negb andb]. by rewrite digitsValue_FormatUint.
  - rewrite FormatInt_nonneg, parseInteger_uint by done. f_equal. lia.
Qed.

(** ** Text without white space around it *)

Definition firstOf (p : ascii -> bool) (s : string) : Prop := match s with String c _ => p c = true | EmptyString => True end.
Definition visible (c : ascii) : bool := inRange 33 126 c.
Lemma stripAll_first fuel pats s :
  forallb (fun q => match q with String c _ => negb (visible c) | EmptyString => false end) pats = true ->
  firstOf visible s -> stripAll fuel pats s = s.
Proof.
  intros Hp Hs. destruct fuel; [done|]. cbn [stripAll]. destruct (List.find (HasPrefix s) pats) as [q|] eqn:E; [|done].
  apply find_some in E as [Hq Hpre]. rewrite forallb_forall in Hp. specialize (Hp q Hq). destruct q as [|c q]; [done|].
  destruct s as [|d s]; [done|]. cbn [HasPrefix] in Hpre. apply andb_true_iff in Hpre as [Heq%Ascii.eqb_eq _]. subst d.
  cbn in Hs. by rewrite Hs in Hp.
Qed.
Lemma TrimSpace_first s : firstOf visible s -> firstOf visible (revString s) -> TrimSpace s = s.
Proof.
  intros H1 H2. unfold TrimSpace, trimSpaceLeft. rewrite (stripAll_first _ spaceEncodings s) by done.
  rewrite (stripAll_first _ (map revString spaceEncodings)); [apply revString_involutive|vm_compute; reflexivity|done].
Qed.

(** ** Identifiers *)

(** The identifiers of JSON-RPC: a text, or an integer a JavaScript client can hold. *)
Definition rpcID (v : JsonValue) : Prop :=
  match v with
  | JString s => ValidString s = true
  | JInt z => (- mcpMaxSafeInteger <= z <= mcpMaxSafeInteger)%Z
  | _ => False
  end.
Lemma rpcID_encodable v : rpcID v -> encodable v = true /\ depth v = 0.
Proof. by destruct v. Qed.
Lemma number_visible s : isNumber s = true -> firstOf visible s /\ firstOf visible (revString s).
Proof.
  intros (Hb&_)%isNumber_bytes. assert (forall t, allBytes numberByte t = true -> firstOf visible t) as H.
  { intros [|c t]; [done|]. cbn [allBytes]. intros [Hc _]%andb_true_iff. destruct c as [[] [] [] [] [] [] [] []]; try discriminate Hc; reflexivity. }
  split; apply H; [done|by rewrite allBytes_revString].
Qed.
Lemma rpcID_trimmed v : rpcID v -> TrimSpace (Marshal v) = Marshal v.
Proof.
  destruct v as [|s|z|f|l|b|l|l]; try done; intros Hv; cbn [Marshal].
  - apply TrimSpace_first; [done|]. unfold jsonString. change (String DQUOTE ?x) with (str1 DQUOTE +:+ x). by rewrite !revString_append.
  - destruct (number_visible _ (isNumber_FormatInt z)). by apply TrimSpace_first.
Qed.
Lemma Unmarshal_id v : rpcID v -> Unmarshal (Marshal v) = Some (literals v).
Proof. intros Hv. destruct (rpcID_encodable v Hv) as [He Hd]. apply json_roundtrip; [done|]. rewrite Hd. apply Nat.le_0_l. Qed.

Lemma mcpIntegerValue_FormatInt z : (- mcpMaxSafeInteger <= z <= mcpMaxSafeInteger)%Z -> mcpIntegerValue (FormatInt z) = Some z.
Proof.
  intros Hz. unfold mcpIntegerValue. pose proof (rpcID_trimmed (JInt z) Hz) as Ht. pose proof (Unmarshal_id (JInt z) Hz) as Hu. cbn [Marshal] in Ht, Hu.
  rewrite Ht, Hu. destruct (isNumber_bytes _ (isNumber_FormatInt z)) as (_&c&t&E&Hc). pose proof (parseInteger_FormatInt z) as Hp. rewrite E in *.
  assert (negb (Ascii.eqb c "-") && negb (isDigit c) = false) as ->.
  { unfold numberStart in Hc. destruct (Ascii.eqb c "-"), (isDigit c); done. }
  rewrite Hp. destruct (Z.ltb_spec z (- mcpMaxSafeInteger)); [lia|]. destruct (Z.ltb_spec mcpMaxSafeInteger z); [lia|]. done.
Qed.

(** The key of an identifier tells its kind and its value. *)
Definition keyOf (v : JsonValue) : string :=
  match v with
  | JString s => "string:" +:+ s
  | JInt z => "integer:" +:+ FormatInt z
  | _ => ""
  end.
Lemma isText_number s : isNumber s = true -> isText s = false.
Proof.
  intros (_&c&t&->&Hc)%isNumber_bytes. cbn. destruct (Ascii.eqb_spec c DQUOTE) as [->|]; [discriminate Hc|done].
Qed.
Lemma number_not_word z : String.eqb (FormatInt z) "" || String.eqb (FormatInt z) "null" || String.eqb (FormatInt z) "true" || String.eqb (FormatInt z) "false" = false.
Proof.
  destruct (isNumber_bytes _ (isNumber_FormatInt z)) as (_&c&t&->&Hc).
  destruct (String.eqb_spec (String c t) "") as [|_]; [done|].
  destruct (String.eqb_spec (String c t) "null") as [[= -> _]|_]; [discriminate Hc|].
  destruct (String.eqb_spec (String c t) "true") as [[= -> _]|_]; [discriminate Hc|].
  destruct (String.eqb_spec (String c t) "false") as [[= -> _]|_]; [discriminate Hc|done].
Qed.
Lemma intoText_string old s : ValidString s = true -> intoText old (jsonString s) = Some s.
Proof. intros Hs. unfold intoText. pose proof (Unmarshal_id (JString s) Hs) as Hu. cbn [Marshal literals] in Hu. by rewrite Hu. Qed.

Lemma validMCPID_id v : rpcID v -> validMCPID (Marshal v) = true.
Proof.
  intros Hv. unfold validMCPID. rewrite rpcID_trimmed by done. destruct v as [|s|z|f|l|b|l|l]; try done; cbn [Marshal].
  - rewrite intoText_string by done. done.
  - rewrite number_not_word, isText_number by apply isNumber_FormatInt. unfold validMCPInteger. by rewrite mcpIntegerValue_FormatInt.
Qed.
Lemma mcpIDKey_id v : rpcID v -> mcpIDKey (Marshal v) = Some (keyOf v).
Proof.
  intros Hv. unfold mcpIDKey. rewrite rpcID_trimmed, validMCPID_id by done. cbn [negb]. destruct v as [|s|z|f|l|b|l|l]; try done; cbn [Marshal].
  - rewrite intoText_string by done. done.
  - rewrite isText_number by apply isNumber_FormatInt. by rewrite mcpIntegerValue_FormatInt.
Qed.
Lemma keyOf_inj v v' : rpcID v -> rpcID v' -> keyOf v = keyOf v' -> v = v'.
Proof.
  destruct v, v'; try done; intros _ _ [= H]; f_equal; [done|by apply FormatInt_inj].
Qed.

(** ** Requests *)

Definition clientRequest (id : JsonValue) (method : string) (params : list (string * JsonValue)) : JsonValue :=
  JObject [("jsonrpc", JString "2.0"); ("id", id); ("method", JString method); ("params", JObject params)].
Definition callParams (name : string) (args : list (string * JsonValue)) : list (string * JsonValue) :=
  [("name", JString name); ("arguments", JObject args)].

Lemma mcpJSONObject_object l : mcpJSONObject (Some (Marshal (JObject l))) = true.
Proof.
  unfold mcpJSONObject. set (x := Join (map (fun kv => jsonString kv.1 +:+ ":" +:+ Marshal kv.2) l) ",").
  change (default "" (Some (Marshal (JObject l)))) with ("{" +:+ x +:+ "}").
  rewrite (TrimSpace_first ("{" +:+ x +:+ "}")); [done|done|]. by rewrite !revString_append.
Qed.
Lemma decodeText_string s : ValidString s = true -> decodeText (Some (jsonString s)) = Some s.
Proof. intros Hs. unfold decodeText. cbn [default]. by apply intoText_string. Qed.

Lemma rawObject_call name args :
  ValidString name = true -> encodable (JObject args) = true -> S (depth (JObject args)) <= maxNestingDepth ->
  rawObject (Marshal (JObject (callParams name args))) = Some [("name", jsonString name); ("arguments", Marshal (JObject args))].
Proof.
  intros Hn Ha Hd. rewrite rawObject_members; [done| |].
  - change (ValidString "name" && ValidString name && (ValidString "arguments" && encodable (JObject args) && true) = true).
    change (ValidString "name") with true. change (ValidString "arguments") with true. by rewrite Hn, Ha.
  - change (depth (JObject (callParams name args))) with (S (max 0 (max (depth (JObject args)) 0))). lia.
Qed.
Lemma validMCPToolCallParams_call name args :
  ValidString name = true -> encodable (JObject args) = true -> S (depth (JObject args)) <= maxNestingDepth ->
  validMCPToolCallParams (Some (Marshal (JObject (callParams name args)))) = true.
Proof.
  intros Hn Ha Hd. unfold validMCPToolCallParams. rewrite mcpJSONObject_object. cbn [andb].
  change (default "" (Some ?x)) with x. rewrite rawObject_call by done.
  change (field "name" _) with (Some (jsonString name)). change (field "arguments" _) with (Some (Marshal (JObject args))).
  cbv iota beta. by rewrite decodeText_string, mcpJSONObject_object.
Qed.
Lemma foldOption_step {A S} (f : S -> A -> option S) a l s s' : f s a = Some s' -> foldOption f (a :: l) s = foldOption f l s'.
Proof. intros H. cbn [foldOption]. by rewrite H. Qed.
Lemma decodeCall_call name args :
  ValidString name = true -> encodable (JObject args) = true -> S (depth (JObject args)) <= maxNestingDepth ->
  decodeCall (Some (Marshal (JObject (callParams name args)))) = Some (name, Some (Marshal (JObject args))).
Proof.
  intros Hn Ha Hd. unfold decodeCall. change (default "" (Some ?x)) with x. rewrite rawObject_call by done.
  rewrite (foldOption_step _ _ _ _ (name, None)); [by rewrite (foldOption_step _ _ _ _ (name, Some (Marshal (JObject args))))|].
  unfold callField. cbn [fst snd]. change (namesField "name" "name") with true. cbv iota. by rewrite intoText_string.
Qed.

Section Parsing.
Context (syntaxError : string -> option string).

Lemma rawObject_request id m ps :
  rpcID id -> ValidString m = true -> encodable (JObject ps) = true -> S (depth (JObject ps)) <= maxNestingDepth ->
  encodable (clientRequest id m ps) = true /\ depth (clientRequest id m ps) <= maxNestingDepth.
Proof.
  intros Hid Hm Hp Hd. destruct (rpcID_encodable id Hid) as [He Hz]. split.
  - unfold clientRequest. change (ValidString "jsonrpc" && true && (ValidString "id" && encodable id && (ValidString "method" && ValidString m &&
      (ValidString "params" && encodable (JObject ps) && true))) = true).
    change (ValidString "jsonrpc") with true. change (ValidString "id") with true. change (ValidString "method") with true.
    change (ValidString "params") with true. by rewrite He, Hm, Hp.
  - change (depth (clientRequest id m ps)) with (S (max 0 (max (depth id) (max 0 (max (depth (JObject ps)) 0))))). rewrite Hz. lia.
Qed.
Lemma normalizeID_id id m ps : rpcID id -> normalizeID true (mkRPC "2.0" (Some (Marshal id)) m ps) = mkRPC "2.0" (Some (Marshal id)) m ps.
Proof.
  intros Hid. unfold normalizeID. cbn [rq_id rq_jsonrpc rq_method rq_params].
  change (default "" (Some ?x)) with x. rewrite rpcID_trimmed by done. destruct id as [|s|z|f|l|b|l|l]; try done; cbn [Marshal].
  rewrite isText_number by apply isNumber_FormatInt. rewrite mcpIntegerValue_FormatInt by done.
  by destruct (_ && _).
Qed.

Lemma parse_request id m ps :
  rpcID id -> ValidString m = true -> encodable (JObject ps) = true -> S (depth (JObject ps)) <= maxNestingDepth ->
  (m = "tools/call" -> validMCPToolCallParams (Some (Marshal (JObject ps))) = true) ->
  parseMCPJSONRPC syntaxError (Marshal (clientRequest id m ps)) = IsRequest (mkRPC "2.0" (Some (Marshal id)) m (Some (Marshal (JObject ps)))).
Proof.
  intros Hid Hm Hp Hd Hcall. destruct (rawObject_request id m ps Hid Hm Hp Hd) as [He Hdepth]. unfold parseMCPJSONRPC.
  rewrite (Marshal_valid _ He), (json_roundtrip _ He Hdepth). cbn [isSome andb negb]. unfold clientRequest in *. rewrite (rawObject_members _ He Hdepth).
  cbn [map fst snd]. cbv zeta.
  change (field "jsonrpc" _) with (Some (jsonString "2.0")). change (field "id" _) with (Some (Marshal id)).
  change (field "method" _) with (Some (jsonString m)). change (field "params" _) with (Some (Marshal (JObject ps))).
  cbn [isSome negb orb andb]. rewrite decodeText_string by done. rewrite bool_decide_eq_true_2 by done. cbn [negb].
  assert (decodeRequest [("jsonrpc", jsonString "2.0"); ("id", Marshal id); ("method", jsonString m); ("params", Marshal (JObject ps))] =
    Some (mkRPC "2.0" (Some (Marshal id)) m (Some (Marshal (JObject ps))))) as Hreq.
  { unfold decodeRequest. rewrite (foldOption_step _ _ _ _ (mkRPC "2.0" None "" None)) by reflexivity.
    rewrite (foldOption_step _ _ _ _ (mkRPC "2.0" (Some (Marshal id)) "" None)) by reflexivity.
    rewrite (foldOption_step _ _ _ _ (mkRPC "2.0" (Some (Marshal id)) m None)); [reflexivity|].
    unfold requestField. change (namesField "method" "jsonrpc") with false. change (namesField "method" "id") with false.
    change (namesField "method" "method") with true. cbv iota. by rewrite intoText_string. }
  change (Marshal (JString ?x)) with (jsonString x). rewrite Hreq.
  rewrite validMCPID_id by done. cbn [negb]. cbv iota. rewrite normalizeID_id by done. cbn [rq_method rq_id].
  rewrite mcpJSONObject_object. cbn [negb orb].
  destruct (String.eqb_spec m "tools/call") as [E|_]; [|done]. by rewrite (Hcall E).
Qed.

(** C29: a request a client encodes is read as that request: its identifier, method and
    parameters are the texts it wrote, and its key tells identifiers apart, texts from
    integers included; a tool call also gives back the name of the tool and the text
    of its arguments. *)
Theorem request_parsed id id' method params name args :
  rpcID id -> rpcID id' -> ValidString method = true -> method <> "tools/call" ->
  encodable (JObject params) = true -> S (depth (JObject params)) <= maxNestingDepth ->
  ValidString name = true -> encodable (JObject args) = true -> S (S (depth (JObject args))) <= maxNestingDepth ->
  parseMCPJSONRPC syntaxError (Marshal (clientRequest id method params)) =
    IsRequest (mkRPC "2.0" (Some (Marshal id)) method (Some (Marshal (JObject params)))) /\
  parseMCPJSONRPC syntaxError (Marshal (clientRequest id "tools/call" (callParams name args))) =
    IsRequest (mkRPC "2.0" (Some (Marshal id)) "tools/call" (Some (Marshal (JObject (callParams name args))))) /\
  decodeCall (Some (Marshal (JObject (callParams name args)))) = Some (name, Some (Marshal (JObject args))) /\
  (mcpIDKey (Marshal id) = mcpIDKey (Marshal id') <-> id = id').
Proof.
  intros Hid Hid' Hm Hne Hp Hd Hn Ha Hda. split_and!.
  - by apply parse_request.
  - apply parse_request; [done|done| | |intros _; apply validMCPToolCallParams_call; [done..|lia]].
    + change (ValidString "name" && ValidString name && (ValidString "arguments" && encodable (JObject args) && true) = true).
      change (ValidString "name") with true. change (ValidString "arguments") with true. by rewrite Hn, Ha.
    + change (depth (JObject (callParams name args))) with (S (max 0 (max (depth (JObject args)) 0))). lia.
  - apply decodeCall_call; [done..|lia].
  - rewrite !mcpIDKey_id by done. split; [|by intros ->]. intros [= Hk]. by apply keyOf_inj.
Qed.
End Parsing.

Lemma request_parsed_witness :
  mcpIDKey (Marshal (JInt 7)) = mcpIDKey (Marshal (JString "7")) <-> JInt 7 = JString "7".
Proof.
  apply (request_parsed (fun _ => None) (JInt 7) (JString "7") "ping" [] "shop.Orders.Place" [("qty", JInt 2)]);
    first [split; vm_compute; discriminate|reflexivity|discriminate|apply Nat.leb_le; vm_compute; reflexivity].
Defined.

(** Identifiers are validated under the exact key, but decoded under any spelling of it. *)
Lemma id_case_bypass :
  let data := quotes "{'jsonrpc':'2.0','method':'ping','ID':{'x':1}}" in
  parseMCPJSONRPC (fun _ => None) data = IsRequest (mkRPC "2.0" (Some (quotes "{'x':1}")) "ping" None) /\
  validMCPID (quotes "{'x':1}") = false.
Proof. split; vm_compute; reflexivity. Qed.
