(* ===== verification/Reflection.v ===== *)
(** * Server reflection (src/go/grpc_server.go)

    The descriptors the reflection service shows: the files of the registered
    services with everything they import, cut down to the registered services and
    methods, and their source comments moved to the new indexes.  A linked file is a
    tree of imports with its descriptor; the registries are parameters, and so is
    [protodesc.NewFiles], which links the result. *)
From S2P Require Import Prelude GoStrings StringFacts ParsedDescriptor ParsedSpec.

Module Reflection.

(** ** Files *)

Inductive LinkedFile : Type := mkLinked (path : string) (proto : FileDescriptorProto) (imports : list (option LinkedFile)).
Definition filePath (f : LinkedFile) : string := match f with mkLinked path _ _ => path end.
Definition fileProto (f : LinkedFile) : FileDescriptorProto := match f with mkLinked _ proto _ => proto end.

(** A path that is already there keeps its file. *)
Fixpoint addFile (file : LinkedFile) (descriptors : gmap string FileDescriptorProto) : gmap string FileDescriptorProto :=
  match file with
  | mkLinked path proto imports =>
      match descriptors !! path with
      | Some _ => descriptors
      | None => foldl (fun ds import => match import with Some f => addFile f ds | None => ds end) (<[path := proto]> descriptors) imports
      end
  end.

(** ** Filtering *)

(** The elements that are kept, in order, and the new index of each. *)
Definition keepIndexed {A B} (keep : A -> option B) (l : list A) : gmap Z Z * list B :=
  let '(indexes, kept, _) :=
    foldl (fun (st : gmap Z Z * list B * Z) x =>
             let '(indexes, kept, i) := st in
             match keep x with
             | Some y => (<[i := Z.of_nat (length kept)]> indexes, kept ++ [y], (i + 1)%Z)
             | None => (indexes, kept, (i + 1)%Z)
             end) (∅, [], 0%Z) l in
  (indexes, kept).

Notation ServiceMethods := (gmap string (list string)).

Definition keepMethod (methods : list string) (m : MethodDescriptorProto) : option MethodDescriptorProto :=
  if bool_decide (mp_name m ∈ methods) then Some m else None.
(** A registered service with its registered methods and their new indexes. *)
Definition keepService (pkg : string) (registered : ServiceMethods) (s : ServiceDescriptorProto)
  : option (ServiceDescriptorProto * gmap Z Z) :=
  match registered !! qualifiedName pkg (sp_name s) with
  | None => None
  | Some methods =>
      let '(indexes, kept) := keepIndexed (keepMethod methods) (sp_method s) in
      Some (mkServiceProto (sp_name s) kept, indexes)
  end.

(** The method indexes of each service by its old index; a service that is not kept
    has none. *)
Definition methodIndexes (pkg : string) (registered : ServiceMethods) (services : list ServiceDescriptorProto) : gmap Z (gmap Z Z) :=
  list_to_map (imap (fun i s => (Z.of_nat i, match keepService pkg registered s with Some (_, indexes) => indexes | None => ∅ end)) services).

Definition setPath (path : list Z) (loc : Location) : Location := mkLocation path (loc_leading loc) (loc_trailing loc).

(** A location inside a service or a method is moved with it, or dropped with it. *)
Definition moveLocation (serviceIndexes : gmap Z Z) (methods : gmap Z (gmap Z Z)) (loc : Location) : option Location :=
  match loc_path loc with
  | first :: old :: rest =>
      if (first =? 6)%Z then
        match serviceIndexes !! old with
        | None => None
        | Some new =>
            match rest with
            | kind :: oldMethod :: rest' =>
                if (kind =? 2)%Z then
                  match default ∅ (methods !! old) !! oldMethod with
                  | None => None
                  | Some newMethod => Some (setPath (first :: new :: kind :: newMethod :: rest') loc)
                  end
                else Some (setPath (first :: new :: rest) loc)
            | _ => Some (setPath (first :: new :: rest) loc)
            end
        end
      else Some loc
  | _ => Some loc
  end.

Definition filterFile (registered : ServiceMethods) (file : FileDescriptorProto) : FileDescriptorProto :=
  let pkg := file_package file in
  let '(serviceIndexes, services) := keepIndexed (keepService pkg registered) (file_service file) in
  mkFileProto pkg (file_syntax file) (file_enum_type file) (file_message_type file) (map fst services)
    (match file_source_code_info file with
     | Some locations => Some (omap (moveLocation serviceIndexes (methodIndexes pkg registered (file_service file))) locations)
     | None => None
     end).

(** ** The descriptor set *)

Section Build.
(** The file of a service in the supplied descriptors and in the process's registry. *)
Context (findApp findGlobal : string -> option LinkedFile).

Definition buildReflectionFiles (registered : ServiceMethods) : list FileDescriptorProto :=
  let names := sortStrings (map fst (map_to_list registered)) in
  let app := omap findApp names in
  let global := omap (fun name => match findApp name with Some _ => None | None => findGlobal name end) names in
  let descriptors := foldl (fun ds f => addFile f ds) (foldl (fun ds f => addFile f ds) ∅ app) global in
  map (filterFile registered) (omap (fun path => descriptors !! path) (sortStrings (map fst (map_to_list descriptors)))).
End Build.
End Reflection.

(** ** Reflection shows what is registered, with its comments *)
Import Reflection.

(** ** Kept elements and their indexes *)

Section Keep.
Context {A B : Type} (keep : A -> option B).

(** The new index of the element at [n], were it kept. *)
Definition newIndex (l : list A) (n : nat) : nat := length (omap keep (take n l)).

Lemma newIndex_lookup l n x y : l !! n = Some x -> keep x = Some y -> omap keep l !! newIndex l n = Some y.
Proof.
  intros Hn Hk. unfold newIndex. assert (omap keep l = omap keep (take n l) ++ y :: omap keep (drop (S n) l)) as ->; [|by apply list_lookup_middle].
  transitivity (omap keep (take n l ++ x :: drop (S n) l)); [by rewrite take_drop_middle|]. rewrite list.omap_app. cbn [omap list_omap]. by rewrite Hk.
Qed.
Lemma newIndex_lt l n n' x y : l !! n = Some x -> keep x = Some y -> n < n' -> newIndex l n < newIndex l n'.
Proof.
  intros Hn Hk Hlt. unfold newIndex. assert (take n' l = take n l ++ x :: take (n' - S n) (drop (S n) l)) as ->.
  { transitivity (take n' (take n l ++ x :: drop (S n) l)); [by rewrite take_drop_middle|]. assert (length (take n l) = n) as El by (rewrite length_take; apply lookup_lt_Some in Hn; lia).
    rewrite take_app_ge by lia. rewrite El. f_equal. replace (n' - n) with (S (n' - S n)) by lia. done. }
  rewrite list.omap_app, length_app. cbn [omap list_omap]. rewrite Hk. cbn [length]. lia.
Qed.

Lemma keepIndexed_kept l : (keepIndexed keep l).2 = omap keep l.
Proof.
  unfold keepIndexed. match goal with |- context [foldl ?g ?s l] => set (f := g) end.
  assert (forall idx kept i, (foldl f (idx, kept, i) l).1.2 = kept ++ omap keep l) as H.
  { induction l as [|x l IH]; intros idx kept i; [cbn; by rewrite app_nil_r|]. cbn [foldl omap list_omap]. unfold f at 2.
    destruct (keep x); rewrite IH; [by rewrite <- app_assoc|done]. }
  specialize (H ∅ [] 0%Z). destruct (foldl f _ l) as [[idx kept] i]. exact H.
Qed.

Lemma keepIndexed_index l n k :
  (keepIndexed keep l).1 !! Z.of_nat n = Some k <-> exists x y, l !! n = Some x /\ keep x = Some y /\ k = Z.of_nat (newIndex l n).
Proof.
  unfold keepIndexed. match goal with |- context [foldl ?g ?s l] => set (f := g) end.
  assert (forall l, let '(idx, kept, i) := foldl f (∅, [], 0%Z) l in
    kept = omap keep l /\ i = Z.of_nat (length l) /\
    forall n k, idx !! Z.of_nat n = Some k <-> exists x y, l !! n = Some x /\ keep x = Some y /\ k = Z.of_nat (newIndex l n)) as H.
  { clear. induction l as [|x l IH] using rev_ind; [cbn; split_and!; [done..|]; intros n k; rewrite lookup_empty; split; [done|by intros (?&?&?&_)]|].
    rewrite foldl_app. cbn [foldl]. destruct (foldl f (∅, [], 0%Z) l) as [[idx kept] i]. destruct IH as (->&->&IH). unfold f.
    assert (forall n, n < length l -> newIndex (l ++ [x]) n = newIndex l n) as Hold by (intros n Hn; unfold newIndex; by rewrite take_app_le by lia).
    assert (newIndex (l ++ [x]) (length l) = length (omap keep l)) as Hnew by (unfold newIndex; by rewrite take_app_length).
    assert (forall n k, (exists x' y, (l ++ [x]) !! n = Some x' /\ keep x' = Some y /\ k = Z.of_nat (newIndex (l ++ [x]) n)) <->
      (exists x' y, l !! n = Some x' /\ keep x' = Some y /\ k = Z.of_nat (newIndex l n)) \/
      (n = length l /\ is_Some (keep x) /\ k = Z.of_nat (length (omap keep l)))) as Hsnoc.
    { intros n k. split.
      - intros (x'&y&Hx&Hy&->). apply lookup_app_Some in Hx as [Hx|[Hge Hx]].
        + left. exists x', y. rewrite Hold by (by eapply lookup_lt_Some). done.
        + apply list_lookup_singleton_Some in Hx as [H0 ->]. right. assert (n = length l) as -> by lia. by rewrite Hnew.
      - intros [(x'&y&Hx&Hy&->)|(->&[y Hy]&->)].
        + exists x', y. rewrite Hold by (by eapply lookup_lt_Some). split; [by apply lookup_app_l_Some|done].
        + exists x, y. rewrite Hnew. split; [by apply list_lookup_middle|done]. }
    rewrite list.omap_app. cbn [omap list_omap]. rewrite length_app. cbn [length].
    destruct (keep x) as [y|] eqn:Hx; (split_and!; [done || by rewrite app_nil_r|lia|]); intros n k; rewrite Hsnoc, <- IH.
    - rewrite lookup_insert_Some. split.
      + intros [[E <-]|[_ E]]; [right; split_and!; [lia|done|done]|by left].
      + intros [E|(->&_&->)]; [|by left]. right. split; [|done]. intros Heq%Nat2Z.inj. subst n.
        apply IH in E as (x'&_&E&_). apply lookup_lt_Some in E. lia.
    - split; [by left|]. intros [E|(_&[? E]&_)]; [done|]. discriminate E. }
  specialize (H l). destruct (foldl f _ l) as [[idx kept] i]. destruct H as (_&_&H). apply H.
Qed.

Lemma keepIndexed_nonneg l z k : (keepIndexed keep l).1 !! z = Some k -> exists n, z = Z.of_nat n.
Proof.
  unfold keepIndexed. match goal with |- context [foldl ?g ?s l] => set (f := g) end.
  assert (forall idx kept i, (0 <= i)%Z -> (forall z k, idx !! z = Some k -> (0 <= z)%Z) ->
    forall z k, (foldl f (idx, kept, i) l).1.1 !! z = Some k -> (0 <= z)%Z) as H.
  { clear. induction l as [|x l IH]; intros idx kept i Hi Hidx; [done|]. cbn [foldl]. unfold f at 2. destruct (keep x); apply IH; try lia; [|done].
    intros z k. rewrite lookup_insert_Some. intros [[<- _]|[_ Hz]]; [lia|by eapply Hidx]. }
  intros Hz. exists (Z.to_nat z). specialize (H ∅ [] 0%Z ltac:(lia) ltac:(intros ??; by rewrite lookup_empty) z k).
  destruct (foldl f _ l) as [[idx kept] i]. specialize (H Hz). lia.
Qed.
Lemma keepIndexed_inj l z z' k : (keepIndexed keep l).1 !! z = Some k -> (keepIndexed keep l).1 !! z' = Some k -> z = z'.
Proof.
  intros Hz Hz'. destruct (keepIndexed_nonneg _ _ _ Hz) as (n&->), (keepIndexed_nonneg _ _ _ Hz') as (n'&->).
  apply keepIndexed_index in Hz as (x&y&Hx&Hy&->). apply keepIndexed_index in Hz' as (x'&y'&Hx'&Hy'&E%Nat2Z.inj). f_equal.
  destruct (Nat.lt_trichotomy n n') as [Hlt|[->|Hlt]]; [|done|].
  - pose proof (newIndex_lt l n n' x y Hx Hy Hlt). lia.
  - pose proof (newIndex_lt l n' n x' y' Hx' Hy' Hlt). lia.
Qed.
End Keep.

(** ** Comments *)

Definition sameText (p p' : list Z) (move : Location -> option Location) : Prop :=
  forall loc, match move loc with
              | Some loc' => loc_leading loc' = loc_leading loc /\ loc_trailing loc' = loc_trailing loc /\ (loc_path loc' = p' <-> loc_path loc = p)
              | None => loc_path loc <> p
              end.
Lemma locationComment_same p p' loc loc' :
  loc_leading loc' = loc_leading loc /\ loc_trailing loc' = loc_trailing loc /\ (loc_path loc' = p' <-> loc_path loc = p) ->
  locationComment p' loc' = locationComment p loc.
Proof. intros (E1&E2&E3). unfold locationComment. rewrite E1, E2. cbv zeta. apply decide_ext. by rewrite E3. Qed.

(** A path that exactly the locations of another were moved to has its comment. *)
Lemma pathComment_move p p' move locs : sameText p p' move -> pathComment p' (omap move locs) = pathComment p locs.
Proof.
  intros Hm. unfold pathComment. f_equal. induction locs as [|loc locs IH]; [done|]. cbn [omap list_omap]. specialize (Hm loc).
  destruct (move loc) as [loc'|].
  - cbn [omap list_omap]. assert (locationComment p' loc' = locationComment p loc) as -> by (by apply locationComment_same).
    destruct (locationComment p loc); by rewrite IH.
  - assert (locationComment p loc = None) as ->; [|done]. unfold locationComment. cbv zeta. rewrite decide_False; [done|]. by intros [? _].
Qed.

Section Moving.
Context (services : gmap Z Z) (methods : gmap Z (gmap Z Z)).
Context (Hs : forall z z' k, services !! z = Some k -> services !! z' = Some k -> z = z').
Context (Hm : forall i z z' k, default ∅ (methods !! i) !! z = Some k -> default ∅ (methods !! i) !! z' = Some k -> z = z').

(** Cases of a path under [moveLocation]. *)
Ltac move_cases loc :=
  intros loc; unfold moveLocation; destruct loc as [path lead trail]; cbn [loc_path loc_leading loc_trailing];
  destruct path as [|first [|old rest]]; cbn; [naive_solver..|];
  destruct (Z.eqb_spec first 6) as [->|Hfirst]; [|cbn; naive_solver].

Lemma move_service i i' : services !! i = Some i' -> sameText [6; i]%Z [6; i']%Z (moveLocation services methods).
Proof.
  intros Hi. move_cases loc. destruct (services !! old) as [new|] eqn:Ho; [|intros ?; simplify_eq; congruence].
  destruct rest as [|kind [|oldMethod rest]]; cbn.
  - split_and!; [done..|]. split; intros ?; simplify_eq; [by rewrite (Hs _ _ _ Ho Hi)|done].
  - split_and!; [done..|]. by split.
  - destruct (Z.eqb_spec kind 2); [destruct (default ∅ (methods !! old) !! oldMethod)|]; cbn; first [done|by split_and!].
Qed.
Lemma move_method i i' j j' :
  services !! i = Some i' -> default ∅ (methods !! i) !! j = Some j' ->
  sameText [6; i; 2; j]%Z [6; i'; 2; j']%Z (moveLocation services methods).
Proof.
  intros Hi Hj. move_cases loc. destruct (services !! old) as [new|] eqn:Ho; [|intros ?; simplify_eq; congruence].
  destruct rest as [|kind [|oldMethod rest]]; cbn; [by split_and!..|].
  destruct (Z.eqb_spec kind 2) as [->|Hk]; [|cbn; split_and!; [done..|]; split; intros ?; simplify_eq].
  destruct (default ∅ (methods !! old) !! oldMethod) as [newMethod|] eqn:Hom; cbn.
  - split_and!; [done..|]. split.
    + intros ?. simplify_eq. assert (old = i) as -> by (by eapply Hs). by rewrite (Hm _ _ _ _ Hom Hj).
    + intros ?. by simplify_eq.
  - intros ?. simplify_eq.
Qed.
Lemma move_other p : match p with first :: _ => first <> 6%Z | [] => True end -> sameText p p (moveLocation services methods).
Proof.
  intros Hp. move_cases loc. destruct (services !! old) as [new|]; [|intros <-; done].
  destruct rest as [|kind [|oldMethod rest]]; cbn.
  - split_and!; [done..|]. split; intros <-; done.
  - split_and!; [done..|]. split; intros <-; done.
  - destruct (Z.eqb_spec kind 2); [destruct (default ∅ (methods !! old) !! oldMethod)|]; cbn; try (split_and!; [done..|]; split; intros <-; done).
    intros <-. done.
Qed.
End Moving.

(** ** Files *)

Lemma methodIndexes_lookup pkg registered services i s :
  services !! i = Some s ->
  methodIndexes pkg registered services !! Z.of_nat i = Some (match keepService pkg registered s with Some (_, indexes) => indexes | None => ∅ end).
Proof.
  intros Hi. unfold methodIndexes. apply elem_of_list_to_map.
  - apply NoDup_alt. intros a b x Ha Hb. rewrite list_lookup_fmap, list_lookup_imap in Ha, Hb.
    destruct (services !! a); [|done]. destruct (services !! b); [|done]. cbn in Ha, Hb. simplify_eq. lia.
  - apply list_elem_of_lookup. exists i. by rewrite list_lookup_imap, Hi.
Qed.
Lemma methodIndexes_inj pkg registered services i z z' k :
  default ∅ (methodIndexes pkg registered services !! i) !! z = Some k ->
  default ∅ (methodIndexes pkg registered services !! i) !! z' = Some k -> z = z'.
Proof.
  destruct (methodIndexes pkg registered services !! i) as [m|] eqn:E; cbn; [|by rewrite lookup_empty].
  assert (exists ms l, m = (keepIndexed (keepMethod ms) l).1 \/ m = ∅) as (ms&l&[-> | ->]); [|apply keepIndexed_inj|by rewrite lookup_empty].
  unfold methodIndexes in E. apply elem_of_list_to_map_2, list_elem_of_lookup in E as (n&E). rewrite list_lookup_imap in E.
  destruct (services !! n) as [s|]; [|done]. cbn in E. simplify_eq. unfold keepService.
  destruct (registered !! _) as [ms|]; [|exists [], []; by right]. exists ms, (sp_method s). left.
  by destruct (keepIndexed (keepMethod ms) (sp_method s)).
Qed.

Lemma filterFile_comments registered file p p' :
  sameText p p' (moveLocation (keepIndexed (keepService (file_package file) registered) (file_service file)).1
                   (methodIndexes (file_package file) registered (file_service file))) ->
  commentAt (extractComments (filterFile registered file)) p' = commentAt (extractComments file) p.
Proof.
  intros Hm. rewrite !extractComments_exact. f_equal. unfold filterFile.
  destruct (keepIndexed _ (file_service file)) as [indexes services]. cbn [fst file_source_code_info] in *.
  destruct (file_source_code_info file) as [locs|]; cbn; [by apply pathComment_move|done].
Qed.

Lemma keepService_eq pkg registered s :
  keepService pkg registered s = match registered !! qualifiedName pkg (sp_name s) with
    | Some methods => Some (mkServiceProto (sp_name s) (omap (keepMethod methods) (sp_method s)), (keepIndexed (keepMethod methods) (sp_method s)).1)
    | None => None
    end.
Proof.
  unfold keepService. destruct (registered !! _) as [methods|]; [|done]. pose proof (keepIndexed_kept (keepMethod methods) (sp_method s)) as E.
  destruct (keepIndexed _ _) as [idx kept]. cbn in E. by rewrite <- E.
Qed.
Lemma keepMethod_filter methods (l : list MethodDescriptorProto) : omap (keepMethod methods) l = filter (fun m => mp_name m ∈ methods) l.
Proof.
  induction l as [|m l IH]; [done|]. cbn [omap list_omap]. unfold keepMethod at 1. destruct (decide (mp_name m ∈ methods)) as [H|H].
  - rewrite bool_decide_eq_true_2, filter_cons_True by done. by rewrite IH.
  - rewrite bool_decide_eq_false_2, filter_cons_False by done. exact IH.
Qed.
Lemma filterFile_services registered file :
  file_service (filterFile registered file) = map fst (omap (keepService (file_package file) registered) (file_service file)).
Proof.
  unfold filterFile. pose proof (keepIndexed_kept (keepService (file_package file) registered) (file_service file)) as E.
  destruct (keepIndexed _ _) as [idx kept]. cbn in E |- *. by rewrite E.
Qed.

(** C33: the file reflection shows has exactly the registered services of the original,
    in order, each with exactly its registered methods, in order; and although their
    indexes change, every one of them, and everything outside services, keeps its
    comment. *)
Theorem reflection_faithful registered file :
  let shown := filterFile registered file in
  let name s := qualifiedName (file_package file) (sp_name s) in
  map (fun s => (sp_name s, sp_method s)) (file_service shown) =
    omap (fun s => match registered !! name s with
                   | Some methods => Some (sp_name s, filter (fun m => mp_name m ∈ methods) (sp_method s))
                   | None => None
                   end) (file_service file) /\
  (forall i s methods, file_service file !! i = Some s -> registered !! name s = Some methods ->
    exists i' s', file_service shown !! i' = Some s' /\ sp_name s' = sp_name s /\
      commentAt (extractComments shown) [6; Z.of_nat i']%Z = commentAt (extractComments file) [6; Z.of_nat i]%Z /\
      forall j m, sp_method s !! j = Some m -> mp_name m ∈ methods ->
        exists j', sp_method s' !! j' = Some m /\
          commentAt (extractComments shown) [6; Z.of_nat i'; 2; Z.of_nat j']%Z = commentAt (extractComments file) [6; Z.of_nat i; 2; Z.of_nat j]%Z) /\
  (forall first rest, first <> 6%Z -> commentAt (extractComments shown) (first :: rest) = commentAt (extractComments file) (first :: rest)).
Proof.
  cbv zeta. set (keep := keepService (file_package file) registered). split_and!.
  - rewrite filterFile_services, map_map. fold keep. induction (file_service file) as [|s l IH]; [done|]. cbn [omap list_omap]. unfold keep at 1.
    rewrite keepService_eq. destruct (registered !! _); [|exact IH]. cbn [map fst sp_name sp_method]. rewrite keepMethod_filter. by f_equal.
  - intros i s methods Hi Hr. assert (keep s = Some (mkServiceProto (sp_name s) (omap (keepMethod methods) (sp_method s)),
      (keepIndexed (keepMethod methods) (sp_method s)).1)) as Hk by (unfold keep; by rewrite keepService_eq, Hr).
    set (i' := newIndex keep (file_service file) i).
    assert ((keepIndexed keep (file_service file)).1 !! Z.of_nat i = Some (Z.of_nat i')) as Hidx by (apply keepIndexed_index; by eexists _, _).
    exists i', (mkServiceProto (sp_name s) (omap (keepMethod methods) (sp_method s))). split_and!.
    + rewrite filterFile_services. fold keep. rewrite list_lookup_fmap.
      pose proof (newIndex_lookup keep _ _ _ _ Hi Hk) as E. fold i' in E. by rewrite E.
    + done.
    + apply filterFile_comments, move_service; [apply keepIndexed_inj|done].
    + intros j m Hj Hin. assert (keepMethod methods m = Some m) as Hkm by (unfold keepMethod; by rewrite bool_decide_eq_true_2).
      exists (newIndex (keepMethod methods) (sp_method s) j). split; [by eapply newIndex_lookup|].
      apply filterFile_comments, move_method; [apply keepIndexed_inj|apply methodIndexes_inj|done|].
      rewrite (methodIndexes_lookup _ _ _ _ _ Hi). fold keep. rewrite Hk. cbn. apply keepIndexed_index. by eexists _, _.
  - intros first rest Hf. apply filterFile_comments, move_other. done.
Qed.

(** ** Preference *)

(** A file that is there is kept, so the supplied descriptors win over the process's. *)
Fixpoint addFile_keeps (f : LinkedFile) : forall ds path proto, ds !! path = Some proto -> addFile f ds !! path = Some proto.
Proof.
  destruct f as [p pr imports]. intros ds path proto Hp. cbn [addFile]. destruct (ds !! p) eqn:E; [done|].
  assert (<[p := pr]> ds !! path = Some proto) as H0 by (rewrite lookup_insert_ne; [done|congruence]).
  revert H0. generalize (<[p := pr]> ds). clear -addFile_keeps. induction imports as [|[f|] imports IH]; intros ds H0; [done|..]; cbn [foldl]; apply IH.
  - by apply addFile_keeps.
  - done.
Qed.
Lemma addFiles_keep fs ds path proto : ds !! path = Some proto -> foldl (fun ds f => addFile f ds) ds fs !! path = Some proto.
Proof. revert ds. induction fs as [|f fs IH]; intros ds H; [done|]. cbn [foldl]. by apply IH, addFile_keeps. Qed.
