(* ===== verification/Cli.v ===== *)
(** * The command line (src/go/cli.go)

    Arguments, the request a value or a file holds, the help text, and one
    invocation with everything it prints.  The file system and the codecs are
    parameters; writing does not fail, flushing may. *)
From S2P Require Import Prelude GoStrings StringFacts Json JsonParse JsonSchema Metadata Connect Server Stream HttpHandler Errors.
Import Metadata Connect Stream HttpHandler Errors.

Module Cli.

(** ** Arguments *)

Definition option_ (arg : string) : bool := HasPrefix arg "-".

Definition splitCLIArgs (args : list string) : Outcome (string * string * string) :=
  match args with
  | [] => Err "expected service name as first argument"
  | serviceName :: args =>
      if option_ serviceName then Err "expected service name as first argument"
      else
        match args with
        | [] => Err "expected method name after service name"
        | methodName :: args =>
            if option_ methodName then Err "expected method name after service name"
            else
              '(requestValue, args) ←
                match args with
                | arg :: rest =>
                    if String.eqb arg "-r" then
                      match rest with
                      | [] => Err "missing value after -r"
                      | value :: rest => Ok (value, rest)
                      end
                    else Ok ("", args)
                | [] => Ok ("", [])
                end;
              match args with
              | [] => Ok (serviceName, methodName, requestValue)
              | arg :: _ => Err ("unexpected argument: " +:+ arg)
              end
        end
  end.

(** The arguments of [serveCLI]: those after the first [cli], else all but the program. *)
Fixpoint afterCLI (args : list string) : option (list string) :=
  match args with
  | [] => None
  | arg :: rest => if String.eqb arg "cli" then Some rest else afterCLI rest
  end.
Definition cliArgs (osArgs : list string) : list string := default (tail osArgs) (afterCLI osArgs).

(** ** Requests *)

(** [filepath.Ext]: from the last dot of the last element of the path. *)
Fixpoint extFrom (rev ext : string) : string :=
  match rev with
  | EmptyString => EmptyString
  | String c rest =>
      if Ascii.eqb c "/" then EmptyString
      else if Ascii.eqb c "." then String c ext
      else extFrom rest (String c ext)
  end.
Definition Ext (path : string) : string := extFrom (revString path) "".

Section Requests.
Context {Message : Type} (stat : string -> bool) (readFile : string -> string + string).
Context (unmarshalProto unmarshalJSON : string -> Message -> Message + string).
Context (badRequest : string -> string -> option (string * string)).

Definition decodeJSON (data : string) (msg : Message) : Message + GoError :=
  match unmarshalJSON data msg with
  | inl m => inl m
  | inr e => inr (invalidArgumentFromJSONError badRequest e)
  end.

Definition loadFileIntoProto (msg : Message) (path : string) : Message + GoError :=
  let ext := ToLower (Ext path) in
  if negb (String.eqb ext ".json") && negb (String.eqb ext ".binpb") && negb (String.eqb ext ".pb") then
    inr (invalidArgumentError ("unsupported request file extension " +:+ Quote ext +:+ " (use .json, .binpb, or .pb)"))
  else
    match readFile path with
    | inr e => inr (invalidArgumentError ("read request file " +:+ path +:+ ": " +:+ e))
    | inl data =>
        if String.eqb ext ".json" then decodeJSON data msg
        else match unmarshalProto data msg with
             | inl m => inl m
             | inr e => inr (invalidArgumentError ("decode binary proto: " +:+ e))
             end
    end.

Definition loadIntoProto (msg : Message) (value : string) : Message + GoError :=
  if stat value then loadFileIntoProto msg value
  else match Unmarshal value with
       | None => inr (invalidArgumentError "cannot parse inline value as JSON")
       | Some _ => decodeJSON value msg
       end.
End Requests.

(** ** Help *)

Definition lookupAny (key : string) (schema : list (string * Any)) : option Any := assoc key schema.
Definition asMap (v : option Any) : list (string * Any) := match v with Some (AMap l) => l | _ => [] end.
Definition asText (v : option Any) : string := match v with Some (AString s) => s | _ => "" end.

Definition fieldType (schema : list (string * Any)) : string :=
  match lookupAny "enum" schema with
  | Some (AStrings (v :: vals)) => Join (v :: vals) "|"
  | _ =>
      let typ := asText (lookupAny "type" schema) in
      if String.eqb typ "" then "any"
      else if String.eqb typ "array" then
        let itemType := asText (lookupAny "type" (asMap (lookupAny "items" schema))) in
        if String.eqb itemType "" then typ else "array<" +:+ itemType +:+ ">"
      else typ
  end.

(** [%-Ns]: padded with spaces to N runes. *)
Definition padRight (n : nat) (s : string) : string := s +:+ Repeat " " (n - length (decode s)).
Definition EMDASH : string := bytes [226; 128; 148]%N.

Definition fieldLine (props : list (string * Any)) (required : list string) (name : string) : string :=
  let schema := asMap (lookupAny name props) in
  let desc := asText (lookupAny "description" schema) in
  "      " +:+ padRight 20 name +:+ " " +:+ padRight 10 (fieldType schema)
  +:+ (if bool_decide (name ∈ required) then " (required)" else "")
  +:+ (if String.eqb desc "" then "" else "  " +:+ EMDASH +:+ " " +:+ desc) +:+ str1 LF.

Definition toolHelp (t : Server.Tool) : string :=
  let schema := asMap (Some (Server.InputSchema t)) in
  let props := asMap (lookupAny "properties" schema) in
  let required := match lookupAny "required" schema with Some (AStrings l) => l | _ => [] end in
  "  " +:+ Server.ServiceFullName t +:+ " " +:+ Server.ToolMethod t +:+ str1 LF
  +:+ (if negb (String.eqb (Server.Description t) "") && negb (String.eqb (Server.Description t) (Server.Name t))
       then "    " +:+ Server.Description t +:+ str1 LF else "")
  +:+ (match props with
       | [] => ""
       | _ => "    Fields:" +:+ str1 LF +:+ String.concat "" (map (fieldLine props required) (sortStrings (map fst props)))
       end)
  +:+ str1 LF.

(** The order of the listing: by service, then by method. *)
Definition tool_le (a b : Server.Tool) : Prop :=
  if String.eqb (Server.ServiceFullName a) (Server.ServiceFullName b) then string_le (Server.ToolMethod a) (Server.ToolMethod b)
  else string_le (Server.ServiceFullName a) (Server.ServiceFullName b).
#[export] Instance tool_le_dec a b : Decision (tool_le a b).
Proof. unfold tool_le. destruct (String.eqb _ _); apply _. Defined.

Section Run.
Context {UI SI HP MM : Type} (s : @Server.Server UI SI HP MM).

Definition usage : string :=
  "Usage: <binary> <package.ServiceName> <Method> [-r request.json|request.binpb|'{" +:+ str1 DQUOTE +:+ "inline" +:+ str1 DQUOTE
  +:+ ":" +:+ str1 DQUOTE +:+ "json" +:+ str1 DQUOTE +:+ "}']" +:+ str1 LF +:+ str1 LF.
Definition helpEntries : list Server.Tool := merge_sort tool_le (map snd (map_to_list (Server.tools s))).
Definition cliHelp : string :=
  match map_to_list (Server.tools s) with
  | [] => usage +:+ "No tools registered." +:+ str1 LF
  | _ => usage +:+ "Available methods:" +:+ str1 LF +:+ str1 LF +:+ String.concat "" (map toolHelp helpEntries)
  end.

(** The name of the tool, or the empty string. *)
Definition resolveServiceMethod (service method : string) : string :=
  let toolName := service +:+ "." +:+ method in
  match Server.tools s !! toolName with Some _ => toolName | None => "" end.

(** ** One invocation *)

Context `{MetadataLib} {Message : Type} (stat : string -> bool) (readFile : string -> string + string).
Context (unmarshalProto unmarshalJSON : string -> Message -> Message + string) (badRequest : string -> string -> option (string * string)).
Context (marshalIndent marshalLine : Message -> string + string).
(** The application: a request of the tool's type, [invoke], and what a streaming
    handler does. *)
Context (emptyRequest : Server.Tool -> Message) (invoke : Server.Tool -> Message -> option Message + GoError).
Context (app : Server.Tool -> Message -> list (@Operation Message) * option GoError) (ctx : option ContextError).

Definition newRequest (t : Server.Tool) : Message + GoError :=
  if Server.newRequest t then inl (emptyRequest t)
  else inr (plainError ("tool " +:+ Quote (Server.Name t) +:+ " has no usable request factory (bad handler signature)")).

(** The text of a wrapped error is prefixed; its status is still found. *)
Definition wrapError (prefix : string) (e : GoError) : GoError :=
  mkError (prefix +:+ ge_text e)
    match ge_status e with Some st => Some (mkStatus (st_code st) (prefix +:+ ge_text e) (st_details st)) | None => None end (ge_ctx e).

(** The writer, by what it can do besides writing, and what that returns. *)
Inductive autoFlushWriter : Type :=
  | Buffered (flushed : option GoError)
  | WithFlush (flushed : option GoError)
  | WithSync (synced : option GoError)
  | WriteOnly.
Definition Flush (w : autoFlushWriter) : option GoError :=
  match w with
  | Buffered flushed => flushed
  | WithFlush flushed => flushed
  | WithSync synced => synced
  | WriteOnly => None
  end.
Context (w : autoFlushWriter).

Definition writeLine (msg : Message) (_ : MD) (out : string) : string * option GoError :=
  match marshalLine msg with
  | inr e => (out, Some (plainError ("marshal stream chunk: " +:+ e)))
  | inl raw => (out +:+ raw +:+ str1 LF, Flush w)
  end.
Definition cliStream (t : Server.Tool) (req : Message) : string * option GoError :=
  match Server.streamDesc t with
  | None => ("", Some (plainError "tool is not server-streaming"))
  | Some _ =>
      let '(ops, handlerErr) := app t req in
      let '(st, _) := performAll writeLine None None (newProjectedServerStream req "") ops in
      (ps_sender st, invokeGRPCStream handlerErr ctx st)
  end.

(** What is printed, and the error. [available] lists the tools in the map's order. *)
Definition cliWrite (args : list string) (available : string) : string * option GoError :=
  if match args with [] => true | arg :: _ => String.eqb arg "--help" || String.eqb arg "-h" end then (cliHelp, None)
  else
    match splitCLIArgs args with
    | Err e => ("", Some (plainError e))
    | Panic e => ("", Some (plainError e))
    | NoFuel => ("", None)
    | Ok (serviceName, methodName, requestValue) =>
        let toolName := resolveServiceMethod serviceName methodName in
        match (if String.eqb toolName "" then None else Server.tools s !! toolName) with
        | None => ("", Some (plainError ("unknown service/method: " +:+ serviceName +:+ " " +:+ methodName +:+ ". Available: " +:+ available)))
        | Some t =>
            match newRequest t with
            | inr e => ("", Some e)
            | inl empty =>
                match (if String.eqb requestValue "" then inl empty
                       else loadIntoProto stat readFile unmarshalProto unmarshalJSON badRequest empty requestValue) with
                | inr e => ("", Some (wrapError "load request: " e))
                | inl req =>
                    if Server.ServerStreaming t then cliStream t req
                    else
                      match invoke t req with
                      | inr e => ("", Some e)
                      | inl None => ("{}", None)
                      | inl (Some resp) =>
                          match marshalIndent resp with
                          | inl out => (out, None)
                          | inr e => ("", Some (plainError ("marshal response: " +:+ e)))
                          end
                      end
                end
            end
        end
    end.
End Run.

Section Entry.
Context {UI SI HP MM : Type} (s : @Server.Server UI SI HP MM).
Context `{MetadataLib} {Message : Type} (stat : string -> bool) (readFile : string -> string + string).
Context (unmarshalProto unmarshalJSON : string -> Message -> Message + string) (badRequest : string -> string -> option (string * string)).
Context (marshalIndent marshalLine : Message -> string + string).
Context (emptyRequest : Server.Tool -> Message) (invoke : Server.Tool -> Message -> option Message + GoError).
Context (app : Server.Tool -> Message -> list (@Operation Message) * option GoError) (ctx : option ContextError).
Notation write := (cliWrite s stat readFile unmarshalProto unmarshalJSON badRequest marshalIndent marshalLine emptyRequest invoke app ctx).

(** [cli]: the output, collected in a buffer, without the newlines at its end, or only the error. *)
Definition cli (args : list string) (available : string) : string + GoError :=
  match write WriteOnly args available with
  | (_, Some e) => inr e
  | (out, None) => inl (revString (trimLeftByte LF (revString out)))
  end.
(** [serveCLI]: standard output is a file, which is synced; a newline ends the output. *)
Definition serveCLI (synced : option GoError) (osArgs : list string) (available : string) : string * option GoError :=
  match write (WithSync synced) (cliArgs osArgs) available with
  | (out, Some e) => (out, Some e)
  | (out, None) => (out +:+ str1 LF, None)
  end.
End Entry.
End Cli.
