(* ===== verification/CliSpec.v ===== *)
(** * What the command line promises

    The arguments that name a call, the listing of the help and the calls it offers,
    and what a streaming tool prints. *)
From S2P Require Import Prelude GoStrings StringFacts Json JsonParse JsonSchema Metadata Connect ParsedDescriptor Server ParsedSpec ServerSpec BundleSpec RegistrationSpec Stream HttpHandler HttpHandlerSpec Errors McpSpec Cli.
Import Metadata Connect Stream HttpHandler Errors Cli.

(** ** Arguments *)

(** The spellings of a call. *)
Definition spelled (args : list string) (service method request : string) : Prop :=
  option_ service = false /\ option_ method = false /\
  (args = [service; method] /\ request = "" \/ args = [service; method; "-r"; request]).

Lemma splitCLIArgs_exact args service method request :
  splitCLIArgs args = Ok (service, method, request) <-> spelled args service method request.
Proof.
  unfold spelled. split.
  - destruct args as [|s [|m rest]]; cbn [splitCLIArgs]; [done|by destruct (option_ s)|].
    destruct (option_ s) eqn:Hs; [done|]. destruct (option_ m) eqn:Hm; [done|].
    destruct rest as [|arg rest]; [intros [= <- <- <-]; by auto|].
    destruct (String.eqb_spec arg "-r") as [->|]; [|done]. destruct rest as [|value [|? ?]]; [done| |done].
    intros [= <- <- <-]. by auto.
  - intros (Hs&Hm&[[-> ->]| ->]); cbn [splitCLIArgs]; by rewrite Hs, Hm.
Qed.

(** A call is not a request for help. *)
Lemma spelled_plain args service method request :
  spelled args service method request ->
  match args with [] => true | arg :: _ => String.eqb arg "--help" || String.eqb arg "-h" end = false.
Proof.
  intros (Hs&_&[[-> _]| ->]); destruct (String.eqb_spec service "--help") as [->|]; try done;
    by destruct (String.eqb_spec service "-h") as [->|].
Qed.

(** ** The listing *)

#[export] Instance string_le_trans : Transitive string_le.
Proof.
  intros a. unfold string_le, String.leb. induction a as [|x a IH]; intros b c; [by destruct c|].
  destruct b as [|y b]; [done|]. destruct c as [|z c]; [done|]. cbn [String.compare]. unfold Ascii.compare.
  destruct (N.compare_spec (Ascii.N_of_ascii x) (Ascii.N_of_ascii y)) as [Hxy|Hxy|Hxy];
    destruct (N.compare_spec (Ascii.N_of_ascii y) (Ascii.N_of_ascii z)) as [Hyz|Hyz|Hyz]; try done;
    destruct (N.compare_spec (Ascii.N_of_ascii x) (Ascii.N_of_ascii z)); try lia; try done.
  apply IH.
Qed.
Lemma string_le_antisym a b : string_le a b -> string_le b a -> a = b.
Proof. unfold string_le. apply String.leb_antisym. Qed.
#[export] Instance tool_le_total : Total tool_le.
Proof.
  intros a b. unfold tool_le. rewrite (String.eqb_sym (Server.ServiceFullName b)). destruct (String.eqb _ _); apply string_le_total.
Qed.
#[export] Instance tool_le_trans : Transitive tool_le.
Proof.
  intros a b c. unfold tool_le.
  destruct (String.eqb_spec (Server.ServiceFullName a) (Server.ServiceFullName b)) as [Hab|Hab];
    destruct (String.eqb_spec (Server.ServiceFullName b) (Server.ServiceFullName c)) as [Hbc|Hbc];
    destruct (String.eqb_spec (Server.ServiceFullName a) (Server.ServiceFullName c)) as [Hac|Hac]; intros H1 H2; try congruence;
    rewrite ?Hab, ?Hbc in *; try done; try (by etransitivity).
  destruct Hbc. rewrite Hac in H1. by apply string_le_antisym.
Qed.

(** Tools kept under their own names differ in them. *)
Lemma listed_distinct (m : gmap string Server.Tool) :
  (forall n t, m !! n = Some t -> n = Server.ServiceFullName t +:+ "." +:+ Server.ToolMethod t) ->
  NoDup (map (fun t => (Server.ServiceFullName t, Server.ToolMethod t)) (map snd (map_to_list m))).
Proof.
  intros Hm. eapply (NoDup_fmap_1 (fun p => p.1 +:+ "." +:+ p.2)).
  assert (forall l, (forall n t, (n, t) ∈ l -> m !! n = Some t) ->
    (fun p => p.1 +:+ "." +:+ p.2) <$> map (fun t => (Server.ServiceFullName t, Server.ToolMethod t)) (map snd l) = l.*1) as Heq.
  { induction l as [|[n t] l IH]; intros Hl; [done|]. cbn [map fmap list_fmap fst snd].
    rewrite IH by (intros; apply Hl; by right). f_equal. symmetry. apply Hm, Hl. by left. }
  rewrite Heq by (intros; by apply elem_of_map_to_list). apply NoDup_fst_map_to_list.
Qed.

Lemma resolved {UI SI HP MM : Type} (s : @Server.Server UI SI HP MM) service method :
  (if String.eqb (resolveServiceMethod s service method) "" then None else Server.tools s !! resolveServiceMethod s service method) =
  Server.tools s !! (service +:+ "." +:+ method).
Proof.
  unfold resolveServiceMethod. destruct (Server.tools s !! (service +:+ "." +:+ method)) as [t|] eqn:Ht; [|done].
  destruct (String.eqb_spec (service +:+ "." +:+ method) "") as [He|]; [by destruct service|done].
Qed.

Section Listing.
Context {UI SI HP MM : Type} (w : Server.World) (s : @Server.Server UI SI HP MM).

(** The tool the arguments name, and the request they carry. *)
Definition called (args : list string) : option (Server.Tool * string) :=
  match splitCLIArgs args with
  | Ok (service, method, request) => (fun t => (t, request)) <$> Server.tools s !! (service +:+ "." +:+ method)
  | _ => None
  end.

Lemma helpEntries_tools t : t ∈ helpEntries s <-> exists n, Server.tools s !! n = Some t.
Proof.
  unfold helpEntries. rewrite merge_sort_Permutation, list_elem_of_fmap. split.
  - intros ([n t']&->&Hin). exists n. by apply elem_of_map_to_list.
  - intros [n Hn]. exists (n, t). by rewrite elem_of_map_to_list.
Qed.

(** The help of the command line lists every registered tool exactly once, ordered
    by service and then by method, and it lists exactly what can be called: arguments
    name a tool and a request iff the tool is listed and they spell its name as a
    service and a method, with the request after [-r] or none. *)
Theorem help_lists_calls fds :
  parseFileDescriptorSet fds = Ok (Server.parsed w) -> Reached w s ->
  StronglySorted tool_le (helpEntries s) /\ helpEntries s ≡ₚ map snd (map_to_list (Server.tools s)) /\
  NoDup (map (fun t => (Server.ServiceFullName t, Server.ToolMethod t)) (helpEntries s)) /\
  (forall t, t ∈ helpEntries s -> resolveServiceMethod s (Server.ServiceFullName t) (Server.ToolMethod t) = Server.Name t) /\
  (forall args t request, called args = Some (t, request) <->
     t ∈ helpEntries s /\ exists service method, Server.Name t = service +:+ "." +:+ method /\ spelled args service method request).
Proof.
  intros Hp Hr. assert (Inv w s) as Hinv by (apply Reached_Inv; [by eapply parsed_names|done]).
  assert (helpEntries s ≡ₚ map snd (map_to_list (Server.tools s))) as Hperm by apply merge_sort_Permutation.
  split_and!; [apply StronglySorted_merge_sort; apply _|done| | |].
  - rewrite Hperm. apply listed_distinct. intros n t Hn. by destruct (to_name _ _ _ _ (inv_tools _ _ Hinv n t Hn)).
  - intros t (n&Hn)%helpEntries_tools. destruct (to_name _ _ _ _ (inv_tools _ _ Hinv n t Hn)) as [-> Hname]. unfold resolveServiceMethod.
    by rewrite <- Hname, Hn.
  - intros args t request. rewrite helpEntries_tools. unfold called. split.
    + destruct (splitCLIArgs args) as [[[service method] r]| | |] eqn:Hs; try done.
      destruct (Server.tools s !! _) as [t'|] eqn:Ht; [|done]. intros [= -> ->]. split; [by eexists|]. exists service, method.
      split; [by destruct (to_name _ _ _ _ (inv_tools _ _ Hinv _ t Ht))|by apply splitCLIArgs_exact].
    + intros ((n&Hn)&service&method&Hname&Hs%splitCLIArgs_exact). rewrite Hs. rewrite <- Hname.
      destruct (to_name _ _ _ _ (inv_tools _ _ Hinv n t Hn)) as [-> _]. by rewrite Hn.
Qed.
End Listing.

(** ** Streams *)

Section Printing.
Context {UI SI HP MM : Type} (s : @Server.Server UI SI HP MM).
Context `{MetadataLib} {Message : Type} (stat : string -> bool) (readFile : string -> string + string).
Context (unmarshalProto unmarshalJSON : string -> Message -> Message + string) (badRequest : string -> string -> option (string * string)).
Context (marshalIndent marshalLine : Message -> string + string).
Context (emptyRequest : Server.Tool -> Message) (invoke : Server.Tool -> Message -> option Message + GoError).
Context (app : Server.Tool -> Message -> list (@Operation Message) * option GoError) (ctx : option ContextError) (w : autoFlushWriter).
Notation cliWrite := (cliWrite s stat readFile unmarshalProto unmarshalJSON badRequest marshalIndent marshalLine emptyRequest invoke app ctx w).
Notation load := (loadIntoProto stat readFile unmarshalProto unmarshalJSON badRequest).

(** The text of the messages up to the first that fails, and its error: one that has no
    text is not printed, one that cannot be flushed is. *)
Fixpoint texts (ms : list Message) : list string * option GoError :=
  match ms with
  | [] => ([], None)
  | m :: ms => match marshalLine m with
               | inr e => ([], Some (plainError ("marshal stream chunk: " +:+ e)))
               | inl t => match Flush w with
                          | Some e => ([t], Some e)
                          | None => let '(ts, e) := texts ms in (t :: ts, e)
                          end
               end
  end.
Definition lines (ts : list string) : string := foldr (fun t out => t +:+ str1 LF +:+ out) "" ts.

Lemma feed_writeLine ms out : feed (writeLine marshalLine w) ms out = (out +:+ lines (texts ms).1, (texts ms).2).
Proof.
  revert out. induction ms as [|m ms IH]; intros out; cbn [feed texts]; [by rewrite append_nil_r|]. unfold writeLine at 1.
  destruct (marshalLine m) as [t|e]; [|by rewrite append_nil_r]. destruct (Flush w) as [e|]; [cbn [fst snd lines foldr]; by rewrite append_nil_r|].
  rewrite IH. destruct (texts ms) as [ts e]. cbn [fst snd lines foldr].
  fold (lines ts). by rewrite !append_assoc.
Qed.

(** The error of a stream: the handler's, else that of a message, else the context's. *)
Definition streamFailure (handlerErr messageErr : option GoError) : option GoError :=
  normalizeContextError
    match handlerErr, messageErr with
    | Some e, _ => Some e
    | None, Some e => Some e
    | None, None => (fun c => statusError (fromContextError (contextText c) c)) <$> ctx
    end.

Lemma cliStream_prints t req d ops handlerErr :
  Server.streamDesc t = Some d -> app t req = (ops, handlerErr) ->
  cliStream marshalLine app ctx w t req = (lines (texts (sends ops)).1, streamFailure handlerErr (texts (sends ops)).2).
Proof.
  intros Hd Ha. unfold cliStream. rewrite Hd, Ha.
  pose proof (feed_performAll (writeLine marshalLine w) ltac:(done) ops (newProjectedServerStream req "")) as Hf.
  cbv zeta in Hf. cbn [newProjectedServerStream ps_sendErr ps_sender] in Hf. fold (@newProjectedServerStream Message string req "") in Hf.
  rewrite feed_writeLine in Hf. destruct (performAll _ _ _ _ ops) as [st es]. cbn [fst snd] in Hf. destruct Hf as [-> He].
  unfold invokeGRPCStream, streamFailure. rewrite He. by destruct handlerErr, (texts (sends ops)).2, ctx.
Qed.

(** A streaming tool called on the command line prints one line per message it
    sends, in order, up to the first that cannot be encoded or flushed; the invocation fails with
    the handler's error, else with that message's, else with the context's. *)
Theorem cli_stream_prints args available t request empty req d ops handlerErr :
  called s args = Some (t, request) -> newRequest emptyRequest t = inl empty ->
  (if String.eqb request "" then inl empty else load empty request) = inl req ->
  Server.ServerStreaming t = true -> Server.streamDesc t = Some d -> app t req = (ops, handlerErr) ->
  cliWrite args available = (lines (texts (sends ops)).1, streamFailure handlerErr (texts (sends ops)).2).
Proof.
  unfold called. destruct (splitCLIArgs args) as [[[service method] r]| | |] eqn:Hs; try done.
  destruct (Server.tools s !! _) as [t'|] eqn:Ht; [|done]. intros [= -> ->] Hn Hl Hst Hd Ha. unfold Cli.cliWrite.
  rewrite (spelled_plain args service method request) by (by apply splitCLIArgs_exact).
  rewrite Hs, resolved, Ht, Hn, Hl, Hst. by apply (cliStream_prints t req d).
Qed.
End Printing.

(** ** Witnesses *)

Lemma help_lists_calls_witness :
  StronglySorted tool_le (helpEntries shopServer) /\ NoDup (map (fun t => (Server.ServiceFullName t, Server.ToolMethod t)) (helpEntries shopServer)).
Proof.
  refine (conj (proj1 _) (proj1 (proj2 (proj2 _))));
    exact (help_lists_calls shopWorld shopServer [shopFile] ltac:(vm_compute; reflexivity) shopServer_reached).
Defined.

Definition watchArgs : list string := ["shop.Orders"; "Watch"; "-r"; "{}"].
Lemma shop_watch :
  match called shopServer watchArgs with
  | Some (t, request) => Server.ServerStreaming t && Server.newRequest t && String.eqb request "{}" && bool_decide (is_Some (Server.streamDesc t))
  | None => false
  end = true.
Proof. vm_compute. reflexivity. Qed.
Lemma cli_stream_prints_witness :
  cliWrite shopServer (H := joinedMetadata) (fun _ => false) inr (fun _ _ => inr "") (fun data _ => inl data) (fun _ _ => None) inl inl (fun _ => "")
    (fun _ _ => inl None) (fun _ _ => (watchOps, None)) None WriteOnly watchArgs "" = ("one" +:+ str1 LF +:+ "two" +:+ str1 LF, None).
Proof.
  pose proof shop_watch as Hw. destruct (called shopServer watchArgs) as [[t request]|] eqn:Hc; [|discriminate Hw].
  apply andb_true_iff in Hw as [Hw Hd]. apply andb_true_iff in Hw as [Hw ->%String.eqb_eq]. apply andb_true_iff in Hw as [Hs Hn].
  apply bool_decide_eq_true in Hd as [d Hd].
  refine (cli_stream_prints shopServer (H := joinedMetadata) (fun _ => false) inr (fun _ _ => inr "") (fun data _ => inl data) (fun _ _ => None)
    inl inl (fun _ => "") (fun _ _ => inl None) (fun _ _ => (watchOps, None)) None WriteOnly watchArgs "" t "{}" "" "{}" d watchOps None Hc _ _ Hs Hd _);
    [unfold newRequest; by rewrite Hn|vm_compute; reflexivity|reflexivity].
Defined.

(** Standard output that cannot be synced, as a pipe or a terminal cannot: the stream
    ends after its first line. *)
Lemma sync_stops_stream :
  serveCLI shopServer (H := joinedMetadata) (fun _ => false) inr (fun _ _ => inr "") (fun data _ => inl data) (fun _ _ => None) inl inl (fun _ => "")
    (fun _ _ => inl None) (fun _ _ => (watchOps, None)) None (Some (plainError "sync /dev/stdout: invalid argument"))
    ("app" :: "cli" :: watchArgs) "" = ("one" +:+ str1 LF, Some (plainError "sync /dev/stdout: invalid argument")).
Proof. vm_compute. reflexivity. Qed.
