(* ===== verification/Validation.v ===== *)
(** * Validation interceptors (src/go/validation.go)

    The interceptors that run protovalidate on requests.  The validator and the
    encoding of a BadRequest are parameters: a validator may fail to be created, and it
    gives for a message nothing, or an error with the violations it carries. *)
From S2P Require Import Prelude GoStrings StringFacts Json Metadata Connect Stream HttpHandler.

Import Metadata Connect Stream HttpHandler.

Module Validation.

(** A violation: the names of the elements of its field path, if it has one (an element
    with no name is the empty string), and its message. *)
Record Violation : Type := mkViolation { vi_field : option (list string); vi_message : string }.
(** The error of a validator: its text, and its violations if it is a [ValidationError]. *)
Record Invalid : Type := mkInvalid { in_text : string; in_violations : option (list Violation) }.

Definition fieldPath (v : Violation) : string :=
  match vi_field v with
  | None => ""
  | Some elements =>
      foldl (fun field name =>
        if String.eqb name "" then field
        else (if String.eqb field "" then field else field +:+ ".") +:+ name) "" elements
  end.
Definition joinSemi (parts : list string) : string := Join parts "; ".

Section Validator.
(** A BadRequest with field violations (field, description) as a detail of a status. *)
Context (badRequest : list (string * string) -> option (string * string)).

Definition validationToInvariantError (err : Invalid) : GoError :=
  match in_violations err with
  | None | Some [] => statusError (mkStatus InvalidArgument (in_text err) [])
  | Some violations =>
      let br := map (fun v => (fieldPath v, vi_message v)) violations in
      let message := joinSemi (map (fun v => fieldPath v +:+ ": " +:+ vi_message v) violations) in
      match badRequest br with
      | None => statusError (mkStatus InvalidArgument message [])
      | Some detail => statusError (mkStatus InvalidArgument message [detail])
      end
  end.

(** [protovalidate.New]: a validator, or the text of an error. *)
Context {Message Other Resp : Type} (New : (Message -> option Invalid) + string).

(** A request is a message or another value. *)
Definition Validation : ((Message + Other -> Result Resp) -> Message + Other -> Result Resp) + GoError :=
  match New with
  | inr e => inr (plainError ("create protovalidate validator: " +:+ e))
  | inl validate =>
      inl (fun handler req =>
        match req with
        | inr _ => handler req
        | inl msg =>
            match validate msg with
            | Some err => Error (validationToInvariantError err)
            | None => handler req
            end
        end)
  end.

(** A stream by the result of its [RecvMsg]: what it received, or an error.  The message of
    the caller is filled before it is validated; with an error its contents are not part of
    the result. *)
Notation Receiver S := (S -> S * (Message + Other + GoError)).

Definition recvValidated {S} (validate : Message -> option Invalid) (recv : Receiver S) : Receiver S := fun s =>
  let '(s, r) := recv s in
  match r with
  | inr e => (s, inr e)
  | inl (inr other) => (s, inl (inr other))
  | inl (inl msg) =>
      match validate msg with
      | Some err => (s, inr (validationToInvariantError err))
      | None => (s, inl (inl msg))
      end
  end.

(** The interceptor gives the handler the wrapped stream. *)
Definition ValidationStream {S A} : ((Receiver S -> A) -> Receiver S -> A) + GoError :=
  match New with
  | inr e => inr (plainError ("create protovalidate validator: " +:+ e))
  | inl validate => inl (fun handler stream => handler (recvValidated validate stream))
  end.
End Validator.
End Validation.

(** ** What the validation interceptors promise

    An invalid request reaches neither the interceptors inside validation nor the
    handler, on a unary call and on a stream, and its error spells out the violations. *)
Import Metadata Connect Stream HttpHandler Validation.

(** ** Errors *)

(** The path of a field: the names of its elements, those that have one. *)
Definition pathNames (v : Violation) : list string := filter (fun n => n <> "") (default [] (vi_field v)).

Lemma fieldPath_step field names :
  Forall (fun n => n <> "") names -> field <> "" ->
  foldl (fun field name => if String.eqb name "" then field else (if String.eqb field "" then field else field +:+ ".") +:+ name) field names =
  Join (field :: names) ".".
Proof.
  intros Hn. revert field. induction Hn as [|n names Hn _ IH]; intros field Hf; [done|]. cbn [foldl].
  rewrite (proj2 (String.eqb_neq n "")), (proj2 (String.eqb_neq field "")) by done. rewrite IH by (by destruct field).
  change (Join (field :: n :: names) ".") with (field +:+ "." +:+ Join (n :: names) "."). destruct names; cbn; by rewrite !append_assoc.
Qed.

Lemma fieldPath_Join v : fieldPath v = Join (pathNames v) ".".
Proof.
  unfold fieldPath, pathNames. destruct (vi_field v) as [names|]; [|done]. change (default [] (Some names)) with names.
  assert (forall field, foldl (fun field name => if String.eqb name "" then field else (if String.eqb field "" then field else field +:+ ".") +:+ name) field names =
    foldl (fun field name => if String.eqb name "" then field else (if String.eqb field "" then field else field +:+ ".") +:+ name) field (filter (fun n => n <> "") names)) as ->.
  { induction names as [|n names IH]; intros field; [done|]. rewrite filter_cons. cbn [foldl]. destruct (String.eqb_spec n "") as [->|Hn].
    - rewrite decide_False by (intros Hn; by apply Hn). apply IH.
    - rewrite decide_True by done. cbn [foldl]. rewrite (proj2 (String.eqb_neq n "")) by done. apply IH. }
  assert (Forall (fun n => n <> "") (filter (fun n => n <> "") names)) as Hf by (apply list.Forall_forall; intros n Hin; by apply list_elem_of_filter in Hin as [? _]).
  destruct Hf as [|n l Hn Hl]; [done|]. cbn [foldl]. rewrite (proj2 (String.eqb_neq n "")) by done. cbn [String.eqb String.append].
  by apply fieldPath_step.
Qed.

(** The text of an error: one part per violation, or the validator's own. *)
Definition violationText (err : Invalid) : string :=
  match in_violations err with
  | Some (v :: vs) => Join (map (fun v => Join (pathNames v) "." +:+ ": " +:+ vi_message v) (v :: vs)) "; "
  | _ => in_text err
  end.

Section Guarding.
Context (badRequest : list (string * string) -> option (string * string)) {Message Other Resp : Type}.

Definition refusal (err : Invalid) (e : GoError) : Prop :=
  exists details, e = statusError (mkStatus InvalidArgument (violationText err) details) /\
    match details with
    | [] => True
    | _ => exists v vs detail, in_violations err = Some (v :: vs) /\ details = [detail] /\
             badRequest (map (fun v => (Join (pathNames v) ".", vi_message v)) (v :: vs)) = Some detail
    end.

Lemma validationToInvariantError_refusal err : refusal err (validationToInvariantError badRequest err).
Proof.
  unfold refusal, validationToInvariantError, violationText. destruct (in_violations err) as [[|v vs]|]; [by exists []| |by exists []].
  cbv zeta. unfold joinSemi.
  rewrite (List.map_ext (fun v => fieldPath v +:+ ": " +:+ vi_message v) (fun v => Join (pathNames v) "." +:+ ": " +:+ vi_message v))
    by (intros; by rewrite fieldPath_Join).
  rewrite (List.map_ext (fun v => (fieldPath v, vi_message v)) (fun v => (Join (pathNames v) ".", vi_message v)))
    by (intros; by rewrite fieldPath_Join).
  destruct (badRequest _) as [detail|] eqn:Hb; [|by exists []]. exists [detail]. split; [done|]. by exists v, vs, detail.
Qed.

(** *** Streams *)

(** What the handler's calls of [RecvMsg] give, one after the other. *)
Fixpoint receive {S} (recv : S -> S * (Message + Other + GoError)) (n : nat) (s : S) : list (Message + Other + GoError) :=
  match n with
  | O => []
  | Datatypes.S n => let '(s, r) := recv s in r :: receive recv n s
  end.
(** A projected stream holds one request, a message. *)
Definition projected {Sender} (s : @projectedServerStream Message Sender) : projectedServerStream * (Message + Other + GoError) :=
  let '(s, r) := RecvMsg None s in (s, match r with inl m => inl (inl m) | inr e => inr e end).

Lemma receive_drained {Sender} validate n (s : @projectedServerStream Message Sender) :
  ps_received s = true -> receive (recvValidated badRequest validate projected) n s = replicate n (inr EOF).
Proof.
  intros Hs. induction n as [|n IH]; [done|]. cbn [receive replicate]. unfold recvValidated at 1, projected at 1, RecvMsg. rewrite Hs. by rewrite IH.
Qed.

(** *** The guarantee *)

(** C34: with validation installed, an invalid request is answered with INVALID_ARGUMENT
    and the texts and field paths of its violations, whatever the interceptors after it
    and the handler are, and a valid one, or a value that is no message, is handed on
    unchanged; on a projected stream the handler receives the request once if it is
    valid and never if it is not. *)
Theorem validation_guards validate v (vs : (forall A, (_ -> A) -> _ -> A)) :
  Validation badRequest (inl validate) = inl v ->
  (forall A, @ValidationStream badRequest Message Other (inl validate) (@projectedServerStream Message unit) A = inl (vs A)) ->
  (forall msg err, validate msg = Some err -> exists e, refusal err e /\
     (forall rest (handler : Message + Other -> Result Resp), chain (v :: rest) handler (inl msg) = Error e) /\
     (forall n, vs _ (fun recv => receive recv (S n) (newProjectedServerStream msg tt)) projected = inr e :: replicate n (inr EOF))) /\
  (forall msg rest (handler : Message + Other -> Result Resp), validate msg = None ->
     chain (v :: rest) handler (inl msg) = chain rest handler (inl msg) /\
     (forall n, vs _ (fun recv => receive recv (S n) (newProjectedServerStream msg tt)) projected = inl (inl msg) :: replicate n (inr EOF))) /\
  (forall other rest (handler : Message + Other -> Result Resp), chain (v :: rest) handler (inr other) = chain rest handler (inr other)).
Proof.
  intros [= <-] Hs. assert (forall A, vs A = fun handler stream => handler (recvValidated badRequest validate stream)) as Hvs by (intros A; by injection (Hs A)).
  split_and!; [| |done].
  - intros msg err Hv. exists (validationToInvariantError badRequest err). split_and!; [apply validationToInvariantError_refusal| |].
    + intros rest handler. cbn [chain foldr]. by rewrite Hv.
    + intros n. rewrite Hvs. cbn [receive]. unfold recvValidated at 1. cbn. rewrite Hv. f_equal. by apply receive_drained.
  - intros msg rest handler Hv. split; [cbn [chain foldr]; by rewrite Hv|]. intros n. rewrite Hvs. cbn [receive]. unfold recvValidated at 1. cbn.
    rewrite Hv. f_equal. by apply receive_drained.
Qed.
End Guarding.

(** ** Witness *)

Definition quantityInvalid (msg : Z) : option Invalid :=
  if (0 <? msg)%Z then None else Some (mkInvalid "validation error" (Some [mkViolation (Some ["item"; ""; "quantity"]) "must be positive"])).
Lemma validation_guards_witness :
  exists e v, Validation (fun _ => None) (inl quantityInvalid) = inl v /\
    violationText (mkInvalid "validation error" (Some [mkViolation (Some ["item"; ""; "quantity"]) "must be positive"])) = "item.quantity: must be positive" /\
    chain [v] (fun _ : Z + unit => Value tt) (inl 0%Z) = Error e.
Proof.
  destruct (validation_guards (Message := Z) (Other := unit) (Resp := unit) (fun _ => None) quantityInvalid _ (fun A handler stream => _) eq_refl ltac:(reflexivity)) as [H _].
  destruct (H 0%Z _ eq_refl) as (e&_&Hc&_). eexists e, _. split_and!; [reflexivity|vm_compute; reflexivity|apply Hc].
Defined.
