(* ===== verification/OpenApiModel.v ===== *)
(** * The OpenAPI importer: names and the protobuf model (src/go/internal/openapiimport/model.go)

    The parts of a protobuf file the importer builds, and how the names of an OpenAPI
    document become protobuf names.  Go's Unicode tables are a class; its laws fix them
    on ASCII. *)
From S2P Require Import Prelude GoStrings StringFacts Json JsonParse.

Module OpenApiModel.

(** ** Characters *)

Class UnicodeTables : Type := {
  IsLetter : N -> bool;
  IsDigit : N -> bool;
  IsUpper : N -> bool;
  IsLower : N -> bool;
  ToUpperRune : N -> N;
  ToLowerRune : N -> N;
  EqualFold : string -> string -> bool
}.
Definition upperLetter (r : N) : bool := (65 <=? r)%N && (r <=? 90)%N.
Definition lowerLetter (r : N) : bool := (97 <=? r)%N && (r <=? 122)%N.
Definition decimalDigit (r : N) : bool := (48 <=? r)%N && (r <=? 57)%N.
Class UnicodeLaws `{UnicodeTables} : Prop := {
  IsLetter_ascii r : (r < 128)%N -> IsLetter r = upperLetter r || lowerLetter r;
  IsDigit_ascii r : (r < 128)%N -> IsDigit r = decimalDigit r;
  IsUpper_ascii r : (r < 128)%N -> IsUpper r = upperLetter r;
  IsLower_ascii r : (r < 128)%N -> IsLower r = lowerLetter r;
  ToUpperRune_ascii r : (r < 128)%N -> ToUpperRune r = if lowerLetter r then (r - 32)%N else r;
  ToLowerRune_ascii r : (r < 128)%N -> ToLowerRune r = if upperLetter r then (r + 32)%N else r
}.

(** [[]rune(s)] and [string(runes)]. *)
Definition runesOf (s : string) : list N := map codeOf (decode s).
Definition textOfRunes (rs : list N) : string := String.concat "" (map encodeRune rs).

(** ** Patterns *)

Definition nonEmpty (p : ascii -> bool) (s : string) : bool :=
  match s with EmptyString => false | _ => allBytes p s end.
Definition alphaByte (c : ascii) : bool := isLower c || isUpper c.
Definition identStart (c : ascii) : bool := alphaByte c || Ascii.eqb c USCORE.
Definition identByte (c : ascii) : bool := identStart c || isDigit c.
(** [^[A-Za-z_][A-Za-z0-9_]*$]. *)
Definition protoIdentifier (s : string) : bool :=
  match s with EmptyString => false | String c r => identStart c && allBytes identByte r end.

Definition packageSegment (s : string) : bool :=
  match s with
  | EmptyString => false
  | String c r => isLower c && allBytes (fun d => isLower d || isDigit d || Ascii.eqb d USCORE) r
  end.
Definition packagePattern (s : string) : bool := forallb packageSegment (Split s ".").

Definition goPackageByte (c : ascii) : bool := alphaByte c || isDigit c || negb (noByte c "._~-").
Definition goPackageSegment (s : string) : bool :=
  match s with
  | EmptyString => false
  | String c r => (alphaByte c || isDigit c) && allBytes goPackageByte r
  end.
Definition goPackagePattern (s : string) : bool :=
  let segments := Split s SLASH in (2 <=? length segments)%nat && forallb goPackageSegment segments.

(** ** The protobuf model *)

Record constraint : Type := mkConstraint { ct_path : string; ct_value : string }.

(** A type by its kind; lists and maps have no name of their own. *)
Inductive protoType : Type :=
  | typeScalar (name : string) (constraints : list constraint)
  | typeMessage (name : string)
  | typeList (constraints : list constraint) (element : protoType)
  | typeMap (constraints : list constraint) (element : protoType).

Definition pt_name (t : protoType) : string :=
  match t with typeScalar name _ => name | typeMessage name => name | _ => "" end.
Definition pt_constraints (t : protoType) : list constraint :=
  match t with typeScalar _ l => l | typeMessage _ => [] | typeList l _ => l | typeMap l _ => l end.
Definition collection (t : protoType) : bool :=
  match t with typeList _ _ => true | typeMap _ _ => true | _ => false end.

Record protoField : Type := mkField {
  pf_name : string;
  pf_jsonName : string;
  pf_comment : string;
  pf_fieldType : protoType;
  pf_number : Z;
  pf_required : bool;
  pf_deprecated : bool
}.
Record protoMessage : Type := mkMessage { pm_name : string; pm_comment : string; pm_fields : list protoField }.
Record protoMethod : Type := mkMethod {
  me_name : string;
  me_comment : string;
  me_input : string;
  me_output : string;
  me_httpMethod : string;
  me_httpPath : string;
  me_body : string;
  me_responseBody : string;
  me_deprecated : bool
}.
Record protoService : Type := mkService { ps_name : string; ps_comment : string; ps_methods : list protoMethod }.
Record protoFile : Type := mkFile {
  fi_packageName : string;
  fi_goPackage : string;
  fi_service : protoService;
  fi_messages : gmap string protoMessage;
  fi_imports : gset string
}.

Definition declaration (t : protoType) : string :=
  match t with
  | typeList _ element => "repeated " +:+ pt_name element
  | typeMap _ element => "map<string, " +:+ pt_name element +:+ ">"
  | _ => pt_name t
  end.
Definition hasPresence (t : protoType) : bool := negb (collection t).
Definition needsOptionalKeyword (t : protoType) : bool :=
  match t with typeScalar name _ => noByte "." name | _ => false end.
Definition fieldConstraints (t : protoType) : list constraint :=
  match t with
  | typeList l element => l ++ map (fun rule => mkConstraint ("repeated.items." +:+ ct_path rule) (ct_value rule)) (pt_constraints element)
  | typeMap l element => l ++ map (fun rule => mkConstraint ("map.values." +:+ ct_path rule) (ct_value rule)) (pt_constraints element)
  | _ => pt_constraints t
  end.

(** ** Packages *)

Definition protoKeywords : list string :=
  ["bool"; "bytes"; "double"; "enum"; "extend"; "extensions"; "false"; "fixed32"; "fixed64"; "float"; "group"; "import"; "int32"; "int64";
   "map"; "max"; "message"; "oneof"; "option"; "optional"; "package"; "public"; "repeated"; "required"; "reserved"; "returns"; "rpc";
   "service"; "sfixed32"; "sfixed64"; "sint32"; "sint64"; "stream"; "string"; "syntax"; "to"; "true"; "uint32"; "uint64"; "weak"].
Definition reservedWord (s : string) : bool := bool_decide (s ∈ protoKeywords).

Definition validatePackage (name : string) : Outcome unit :=
  _ ← failIf (negb (packagePattern name))
    ("package " +:+ Quote name +:+ " must be a lowercase protobuf package such as example.catalog.v1");
  forEach (fun segment => failIf (reservedWord segment)
    ("package " +:+ Quote name +:+ " uses reserved protobuf keyword " +:+ Quote segment)) (Split name ".").
Definition validateGoPackage (name : string) : Outcome unit :=
  _ ← failIf (negb (goPackagePattern name))
    ("go package " +:+ Quote name +:+ " must be a portable Go import path such as github.com/acme/project/gen/example/v1");
  failIf (negb (noByte ";" name)) ("go package " +:+ Quote name +:+ " must not contain a semicolon package alias").

(** ** Names *)

Section Names.
Context `{UnicodeTables}.

Definition flush (word : list N) (words : list string) : list string :=
  match word with [] => words | _ => words ++ [textOfRunes word] end.
(** [word] is the word that has been started, empty if there is none. *)
Fixpoint splitLoop (rs word : list N) (words : list string) : list string :=
  match rs with
  | [] => flush word words
  | current :: rest =>
      if negb (IsLetter current) && negb (IsDigit current) then splitLoop rest [] (flush word words)
      else
        match list.last word with
        | None => splitLoop rest [current] words
        | Some previous =>
            let nextLower := match rest with next :: _ => IsLower next | [] => false end in
            if IsUpper current && (IsLower previous || IsDigit previous || (IsUpper previous && nextLower))
            then splitLoop rest [current] (flush word words)
            else splitLoop rest (word ++ [current]) words
        end
  end.
Definition splitWords (value : string) : list string := splitLoop (runesOf value) [] [].

(** [strings.ToLower] and [strings.ToUpper]. *)
Definition UToLower (s : string) : string := textOfRunes (map ToLowerRune (runesOf s)).
Definition UToUpper (s : string) : string := textOfRunes (map ToUpperRune (runesOf s)).

Definition startsWithDigit (s : string) : bool := match s with String c _ => isDigit c | EmptyString => false end.

Definition capitalized (word : string) : string :=
  if String.eqb word "" then "" else let lower := UToLower word in UToUpper (takeString 1 lower) +:+ dropBytes 1 lower.
Definition protoTypeName (value : string) : string :=
  let name := String.concat "" (map capitalized (splitWords value)) in
  let name := if String.eqb name "" then "Api" else name in
  if startsWithDigit name then "Api" +:+ name else name.

Definition protoFieldName (value : string) : string :=
  let name := Join (map UToLower (splitWords value)) "_" in
  let name := if String.eqb name "" then "field" else name in
  let name := if startsWithDigit name then "field_" +:+ name else name in
  if reservedWord name then name +:+ "_" else name.

Fixpoint jsonNameLoop (rs : list N) (upperNext : bool) : list N :=
  match rs with
  | [] => []
  | current :: rest =>
      if (current =? 95)%N then jsonNameLoop rest true
      else (if upperNext then ToUpperRune current else current) :: jsonNameLoop rest false
  end.
Definition defaultJSONName (protoName : string) : string := textOfRunes (jsonNameLoop (runesOf protoName) false).

Definition comment (summary description : string) : string :=
  let summary := TrimSpace summary in
  let description := TrimSpace description in
  if String.eqb summary "" then description
  else if String.eqb description "" then summary
  else if EqualFold summary description then description
  else summary +:+ str1 LF +:+ str1 LF +:+ description.
End Names.

Definition sortedKeys {V} (values : gmap string V) : list string := sortStrings (map fst (map_to_list values)).

(** The tables restricted to ASCII. *)
Definition asciiTables : UnicodeTables := {|
  IsLetter r := upperLetter r || lowerLetter r;
  IsDigit := decimalDigit;
  IsUpper := upperLetter;
  IsLower := lowerLetter;
  ToUpperRune r := if lowerLetter r then (r - 32)%N else r;
  ToLowerRune r := if upperLetter r then (r + 32)%N else r;
  EqualFold a b := String.eqb (ToLower a) (ToLower b)
|}.
Lemma asciiTables_laws : @UnicodeLaws asciiTables.
Proof. by constructor. Qed.

Example names :
  (map (@protoTypeName asciiTables) ["list pets"; "getHTTPStatus2x"; "42"; "--"],
   map (@protoFieldName asciiTables) ["petId"; "HTTPServer"; "message"; "2nd"; "a-b_c"],
   map (@defaultJSONName asciiTables) ["pet_id"; "message_"; "a_2b"])
  = (["ListPets"; "GetHttpStatus2x"; "Api42"; "Api"], ["pet_id"; "http_server"; "message_"; "field_2nd"; "a_b_c"], ["petId"; "message"; "a2b"]).
Proof. vm_compute. reflexivity. Qed.
End OpenApiModel.

(** ** The OpenAPI importer: the document

    What the importer reads of the model [libopenapi] builds from a document: schema
    proxies, parameters, bodies, responses and operations, field by field.  A keyword
    that is only tested for being there is a boolean.  Also the numbers of a schema and
    the comparisons and texts Go has for them. *)
Module OpenApiDoc.

(** ** Numbers

    A float64: finite, by its shortest decimal form, or not. *)
Inductive Number : Type :=
  | Finite (f : Float64)
  | Infinite (negative : bool)
  | NotANumber.

Fixpoint digitsValue (acc : Z) (digits : string) : Z :=
  match digits with
  | EmptyString => acc
  | String c r => digitsValue (10 * acc + (Z.of_N (byteN c) - 48)) r
  end.
(** The value is [mantissa f * 10 ^ exponent f]. *)
Definition mantissa (f : Float64) : Z := (if f_negative f then -1 else 1) * digitsValue 0 (f_digits f).
Definition exponent (f : Float64) : Z := f_point f - Z.of_nat (String.length (f_digits f)).
Definition compareFloat (f g : Float64) : comparison :=
  let e := Z.min (exponent f) (exponent g) in
  (mantissa f * 10 ^ (exponent f - e) ?= mantissa g * 10 ^ (exponent g - e))%Z.

(** [a < b] and [a == b]. *)
Definition less (a b : Number) : bool :=
  match a, b with
  | Finite f, Finite g => match compareFloat f g with Lt => true | _ => false end
  | Infinite true, Finite _ => true
  | Finite _, Infinite false => true
  | Infinite true, Infinite false => true
  | _, _ => false
  end.
Definition equal (a b : Number) : bool :=
  match a, b with
  | Finite f, Finite g => match compareFloat f g with Eq => true | _ => false end
  | Infinite n, Infinite m => Bool.eqb n m
  | _, _ => false
  end.

(** [math.Trunc(f) == f], and [int64(f)] of such an [f]. *)
Definition integral (f : Float64) : bool :=
  (0 <=? exponent f)%Z || (mantissa f mod 10 ^ (- exponent f) =? 0)%Z.
Definition toInteger (f : Float64) : Z :=
  if (0 <=? exponent f)%Z then mantissa f * 10 ^ exponent f else mantissa f / 10 ^ (- exponent f).

(** [strconv.FormatFloat(f, 'g', -1, bits)], and the [%v] verb. *)
Definition twoDigits (z : Z) : string := if (z <? 10)%Z then "0" +:+ FormatInt z else FormatInt z.
Definition FormatG (f : Float64) : string :=
  let exp := (f_point f - 1)%Z in
  if negb (String.eqb (f_digits f) "") && ((exp <? -4)%Z || (6 <=? exp)%Z) then
    signText f +:+ takeString 1 (f_digits f)
    +:+ (if 1 <? String.length (f_digits f) then "." +:+ dropBytes 1 (f_digits f) else "")
    +:+ (if (exp <? 0)%Z then "e-" else "e+") +:+ twoDigits (Z.abs exp)
  else FormatFloat f.
Definition FormatNumber (n : Number) : string :=
  match n with Finite f => FormatG f | Infinite true => "-Inf" | Infinite false => "+Inf" | NotANumber => "NaN" end.

Example number_texts :
  map FormatG [mkFloat false "" 0; mkFloat true "15" 1; mkFloat false "1" 6; mkFloat false "1234567" 7; mkFloat false "1" (-4); mkFloat false "12" (-3)]
  = ["0"; "-1.5"; "100000"; "1.234567e+06"; "1e-05"; "0.00012"].
Proof. reflexivity. Qed.

(** ** Schemas *)

(** Keywords the importer refuses, by their presence. *)
Record Rejected : Type := mkRejected {
  r_allOf : bool; r_oneOf : bool; r_anyOf : bool; r_not : bool; r_discriminator : bool; r_prefixItems : bool;
  r_contains : bool; r_minContains : bool; r_maxContains : bool; r_if : bool; r_then : bool; r_else : bool;
  r_dependentSchemas : bool; r_dependentRequired : bool; r_patternProperties : bool; r_defs : bool; r_propertyNames : bool;
  r_unevaluatedItems : bool; r_unevaluatedProperties : bool; r_multipleOf : bool; r_const : bool; r_default : bool;
  r_schemaTypeRef : bool; r_id : bool; r_anchor : bool; r_dynamicAnchor : bool; r_dynamicRef : bool; r_vocabulary : bool;
  r_contentEncoding : bool; r_contentMediaType : bool; r_contentSchema : bool; r_xml : bool
}.
Definition noRejected : Rejected :=
  mkRejected false false false false false false false false false false false false false false false false false false false false
    false false false false false false false false false false false false.

(** The value of an enum entry as its YAML node decodes. *)
Inductive EnumNode : Type :=
  | NilNode
  | DecodeFails (e : string)
  | StringNode (s : string)
  | OtherNode.

Record Keywords : Type := mkKeywords {
  k_rejected : Rejected;
  k_nullable : option bool;
  k_readOnly : option bool;
  k_writeOnly : option bool;
  k_enum : option (list EnumNode);
  k_type : list string;
  k_format : string;
  k_minLength : option Z;
  k_maxLength : option Z;
  k_pattern : string;
  k_minimum : option Number;
  k_maximum : option Number;
  k_exclusiveMinimum : option (bool + Number);
  k_exclusiveMaximum : option (bool + Number);
  k_minItems : option Z;
  k_maxItems : option Z;
  k_uniqueItems : option bool;
  k_required : list string;
  k_minProperties : option Z;
  k_maxProperties : option Z;
  k_title : string;
  k_description : string;
  k_deprecated : option bool
}.

(** A proxy is a reference, with or without siblings, or holds a schema; [items] and
    [additionalProperties] are a proxy, possibly nil, or a boolean. *)
Inductive Proxy : Type :=
  | RefTo (siblings : bool) (reference : string)
  | BuildFails (e : string)
  | BooleanSchema
  | Inline (k : Keywords) (items : option (option Proxy + bool)) (properties : option (list (string * option Proxy)))
      (additionalProperties : option (option Proxy + bool)).

Record Schema : Type := mkSchema {
  s_keywords : Keywords;
  s_items : option (option Proxy + bool);
  s_properties : option (list (string * option Proxy));
  s_additionalProperties : option (option Proxy + bool)
}.

(** ** Operations *)

Record Param : Type := mkParam {
  p_name : string;
  p_in : string;
  p_description : string;
  p_required : option bool;
  p_deprecated : bool;
  p_allowEmptyValue : bool;
  p_allowReserved : bool;
  p_style : string;
  p_explode : option bool;
  p_schema : option Proxy;
  p_content : bool
}.
Record MediaType : Type := mkMedia { mt_schema : option Proxy; mt_itemSchema : bool; mt_encoding : bool }.
Definition Content : Type := list (string * option MediaType).
Record RequestBody : Type := mkBody { rb_description : string; rb_required : option bool; rb_content : Content }.
Record Response : Type := mkResponse { re_summary : string; re_description : string; re_headers : bool; re_links : bool; re_content : Content }.
Record Responses : Type := mkResponses { rs_codes : option (list (string * option Response)); rs_default : option Response }.
Record Operation : Type := mkOperation {
  o_operationId : string;
  o_summary : string;
  o_description : string;
  o_deprecated : option bool;
  o_callbacks : bool;
  o_security : bool;
  o_servers : bool;
  o_parameters : list (option Param);
  o_requestBody : option RequestBody;
  o_responses : option Responses
}.
Record PathItem : Type := mkPathItem {
  i_reference : bool;
  i_additionalOperations : bool;
  i_servers : bool;
  i_parameters : list (option Param);
  i_get : option Operation;
  i_post : option Operation;
  i_put : option Operation;
  i_patch : option Operation;
  i_delete : option Operation;
  i_head : option Operation;
  i_options : option Operation;
  i_trace : option Operation;
  i_query : option Operation
}.
Record Info : Type := mkInfo { in_title : string; in_description : string }.
(** [d_build] is [BuildSchema] of a proxy that is a reference: the keywords of what it
    points to, nothing for a boolean schema, or an error. *)
Record Document : Type := mkDocument {
  d_jsonSchemaDialect : string;
  d_info : option Info;
  d_webhooks : bool;
  d_servers : bool;
  d_security : bool;
  d_paths : option (list (string * option PathItem));
  d_schemas : option (list (string * option Proxy));
  d_build : string -> option Keywords + string
}.
End OpenApiDoc.
