(* ===== verification/OpenApiSchema.v ===== *)
(** * The OpenAPI importer: schemas (src/go/internal/openapiimport/schema.go)

    The conversion of schema proxies to protobuf types, with the state the converter
    keeps.  It follows references between components, so it runs on fuel; every other
    function of it is given the conversion of the schemas inside. *)
From S2P Require Import Prelude GoStrings StringFacts Json JsonParse OpenApiModel.
Import OpenApiModel OpenApiDoc.

Module OpenApiSchema.

(** ** The converter *)

(** [c_service] is the name of the service; the set of warnings is the list of them. *)
Record converter : Type := mkConverter {
  c_service : string;
  c_messages : gmap string protoMessage;
  c_imports : gset string;
  c_messageOrigins : gmap string string;
  c_componentTypes : gmap string protoType;
  c_building : gset string;
  c_warnings : list string;
  c_operationNames : gmap string string
}.

(** A computation on the converter that may fail. *)
Definition M (A : Type) : Type := converter -> Outcome (A * converter).
#[export] Instance M_ret : MRet M := fun A a c => Ok (a, c).
#[export] Instance M_bind : MBind M := fun A B k m c => match m c with Ok (a, c') => k a c' | Err e => Err e | Panic e => Panic e | NoFuel => NoFuel end.
Definition lift {A} (m : Outcome A) : M A := fun c => match m with Ok a => Ok (a, c) | Err e => Err e | Panic e => Panic e | NoFuel => NoFuel end.
Definition fail {A} (msg : string) : M A := fun _ => Err msg.
Definition modify (f : converter -> converter) : M unit := fun c => Ok (tt, f c).
Definition gets {A} (f : converter -> A) : M A := fun c => Ok (f c, c).
(** [fmt.Errorf("prefix: %w", err)]. *)
Definition wrap {A} (prefix : string) (m : M A) : M A := fun c => match m c with Err e => Err (prefix +:+ e) | r => r end.
Fixpoint foldM {A S} (f : S -> A -> M S) (l : list A) (s : S) : M S :=
  match l with
  | [] => mret s
  | x :: l => s ← f s x; foldM f l s
  end.

Definition setMessages ms c := mkConverter (c_service c) ms (c_imports c) (c_messageOrigins c) (c_componentTypes c) (c_building c) (c_warnings c) (c_operationNames c).
Definition setImports paths c := mkConverter (c_service c) (c_messages c) paths (c_messageOrigins c) (c_componentTypes c) (c_building c) (c_warnings c) (c_operationNames c).
Definition setOrigins os c := mkConverter (c_service c) (c_messages c) (c_imports c) os (c_componentTypes c) (c_building c) (c_warnings c) (c_operationNames c).
Definition setTypes ts c := mkConverter (c_service c) (c_messages c) (c_imports c) (c_messageOrigins c) ts (c_building c) (c_warnings c) (c_operationNames c).
Definition setBuilding b c := mkConverter (c_service c) (c_messages c) (c_imports c) (c_messageOrigins c) (c_componentTypes c) b (c_warnings c) (c_operationNames c).
Definition setWarnings ws c := mkConverter (c_service c) (c_messages c) (c_imports c) (c_messageOrigins c) (c_componentTypes c) (c_building c) ws (c_operationNames c).
Definition setOperations ns c := mkConverter (c_service c) (c_messages c) (c_imports c) (c_messageOrigins c) (c_componentTypes c) (c_building c) (c_warnings c) ns.

Definition addImport (path : string) : M unit := modify (fun c => setImports ({[path]} ∪ c_imports c) c).
Definition warn (message : string) : M unit := modify (fun c =>
  if decide (message ∈ c_warnings c) then c else setWarnings (c_warnings c ++ [message]) c).

Definition schemaValidateImport : string := "buf/validate/validate.proto".
Definition timestampImport : string := "google/protobuf/timestamp.proto".

Definition escapeJSONPointer (value : string) : string := ReplaceAll (ReplaceAll value "~" "~0") "/" "~1".
Definition internalComponentReference (reference section : string) : Outcome string :=
  let prefix := "#/components/" +:+ section +:+ "/" in
  if negb (HasPrefix reference prefix) then
    Err ("expected an internal " +:+ section +:+ " component reference, got " +:+ Quote reference)
  else
    let name := TrimPrefix reference prefix in
    if String.eqb name "" || negb (noByte SLASH name) then Err ("invalid internal component reference " +:+ Quote reference)
    else Ok (ReplaceAll (ReplaceAll name "~1" "/") "~0" "~").

(** ** Checks *)

Definition present {A} (o : option A) : bool := match o with Some _ => true | None => false end.
Definition isTrue (o : option bool) : bool := match o with Some b => b | None => false end.
Definition filled {A} (l : list A) : bool := match l with [] => false | _ => true end.
Definition entries {A} (o : option (list A)) : bool := match o with Some l => filled l | None => false end.
(** The first condition that holds is the error. *)
Definition checks (l : list (bool * string)) : Outcome unit := forEach (fun c => failIf c.1 c.2) l.

Definition unsupportedSchemaKeyword (pointer keyword : string) : string :=
  pointer +:+ "/" +:+ keyword +:+ ": keyword has no supported lossless protobuf mapping".

Definition validateCommonSchema (schema : Schema) (pointer : string) : Outcome unit :=
  let k := s_keywords schema in
  let r := k_rejected k in
  let unsupported keyword := unsupportedSchemaKeyword pointer keyword in
  checks [
    (r_allOf r, unsupported "allOf");
    (r_oneOf r, unsupported "oneOf");
    (r_anyOf r, unsupported "anyOf");
    (r_not r, unsupported "not");
    (r_discriminator r, unsupported "discriminator");
    (r_prefixItems r, unsupported "prefixItems");
    (r_contains r || r_minContains r || r_maxContains r, unsupported "contains");
    (r_if r || r_then r || r_else r, unsupported "if/then/else");
    (r_dependentSchemas r, unsupported "dependentSchemas");
    (r_dependentRequired r, unsupported "dependentRequired");
    (r_patternProperties r, unsupported "patternProperties");
    (r_defs r, unsupported "$defs");
    (r_propertyNames r, unsupported "propertyNames");
    (r_unevaluatedItems r, unsupported "unevaluatedItems");
    (r_unevaluatedProperties r, unsupported "unevaluatedProperties");
    (r_multipleOf r, unsupported "multipleOf");
    (r_const r, unsupported "const");
    (r_default r, pointer +:+ "/default: OpenAPI defaults are not protobuf presence semantics and cannot be imported safely");
    (isTrue (k_nullable k), pointer +:+ "/nullable: nullable values cannot be represented without changing the protobuf JSON shape");
    (isTrue (k_readOnly k), pointer +:+ "/readOnly: request/response-specific fields require separate protobuf messages");
    (isTrue (k_writeOnly k), pointer +:+ "/writeOnly: request/response-specific fields require separate protobuf messages");
    (r_schemaTypeRef r || r_id r || r_anchor r || r_dynamicAnchor r || r_dynamicRef r || r_vocabulary r,
      pointer +:+ ": custom JSON Schema dialect, identity, anchor, and dynamic-reference keywords are not supported");
    (r_contentEncoding r || r_contentMediaType r || r_contentSchema r,
      pointer +:+ ": contentEncoding, contentMediaType, and contentSchema are not supported");
    (r_xml r, pointer +:+ "/xml: XML serialization metadata cannot be represented in protobuf");
    (match k_enum k with Some [] => true | _ => false end, pointer +:+ "/enum: enum must contain at least one value");
    (bool_decide ("null" ∈ k_type k), pointer +:+ "/type: nullable type unions cannot be represented without changing the protobuf JSON shape")
  ].

Definition schemaKind (schema : Schema) (pointer : string) : Outcome string :=
  match k_type (s_keywords schema) with
  | _ :: _ :: _ => Err (pointer +:+ "/type: type unions are not supported; use one non-null type")
  | [kind] => Ok kind
  | [] =>
      if present (s_properties schema) || present (s_additionalProperties schema) then Ok "object"
      else if present (s_items schema) then Ok "array"
      else Err (pointer +:+ "/type: an explicit OpenAPI schema type is required")
  end.

Definition rejectKeywords (schema : Schema) (pointer : string) (allowString allowNumeric allowArray allowObject : bool) : Outcome unit :=
  let k := s_keywords schema in
  let unsupported keyword := unsupportedSchemaKeyword pointer keyword in
  checks [
    (negb allowString && present (k_minLength k), unsupported "minLength");
    (negb allowString && present (k_maxLength k), unsupported "maxLength");
    (negb allowString && negb (String.eqb (k_pattern k) ""), unsupported "pattern");
    (negb allowString && negb allowNumeric && negb (String.eqb (k_format k) ""), unsupported "format");
    (negb allowNumeric && present (k_minimum k), unsupported "minimum");
    (negb allowNumeric && present (k_maximum k), unsupported "maximum");
    (negb allowNumeric && present (k_exclusiveMinimum k), unsupported "exclusiveMinimum");
    (negb allowNumeric && present (k_exclusiveMaximum k), unsupported "exclusiveMaximum");
    (negb allowArray && present (s_items schema), unsupported "items");
    (negb allowArray && present (k_minItems k), unsupported "minItems");
    (negb allowArray && present (k_maxItems k), unsupported "maxItems");
    (negb allowArray && isTrue (k_uniqueItems k), unsupported "uniqueItems");
    (negb allowObject && entries (s_properties schema), unsupported "properties");
    (negb allowObject && present (s_additionalProperties schema), unsupported "additionalProperties");
    (negb allowObject && filled (k_required k), unsupported "required");
    (negb allowObject && present (k_minProperties k), unsupported "minProperties");
    (negb allowObject && present (k_maxProperties k), unsupported "maxProperties")
  ].
Definition enumText (pointer : string) : string :=
  pointer +:+ "/enum: only string enums have a stable OpenAPI-to-Protobuf JSON mapping".
Definition rejectNonBooleanKeywords (schema : Schema) (pointer : string) : Outcome unit :=
  _ ← failIf (entries (k_enum (s_keywords schema))) (enumText pointer);
  rejectKeywords schema pointer false false false false.
Definition rejectNonStringKeywords (schema : Schema) (pointer : string) : Outcome unit := rejectKeywords schema pointer true false false false.
Definition rejectNonNumericKeywords (schema : Schema) (pointer : string) : Outcome unit := rejectKeywords schema pointer false true false false.
Definition rejectNonArrayKeywords (schema : Schema) (pointer : string) : Outcome unit :=
  _ ← failIf (entries (k_enum (s_keywords schema))) (unsupportedSchemaKeyword pointer "enum");
  rejectKeywords schema pointer false false true false.
Definition rejectNonObjectKeywords (schema : Schema) (pointer : string) : Outcome unit :=
  _ ← failIf (entries (k_enum (s_keywords schema))) (unsupportedSchemaKeyword pointer "enum");
  rejectKeywords schema pointer false false false true.

(** ** Scalars *)

Definition hasStringConstraints (schema : Schema) : bool :=
  let k := s_keywords schema in
  present (k_minLength k) || present (k_maxLength k) || negb (String.eqb (k_pattern k) "") || entries (k_enum k).

Definition stringEnum (nodes : option (list EnumNode)) (pointer : string) : Outcome (list string) :=
  values ← foldOutcome (fun values node =>
    match node with
    | NilNode => Err (pointer +:+ "/enum: enum values must be strings")
    | DecodeFails e => Err (pointer +:+ "/enum: decode value: " +:+ e)
    | OtherNode => Err (pointer +:+ "/enum: only string enum values have a stable OpenAPI-to-Protobuf JSON mapping")
    | StringNode value =>
        if decide (value ∈ values) then Err (pointer +:+ "/enum: duplicate value " +:+ Quote value) else Ok (values ++ [value])
    end) (default [] nodes) [];
  Ok (sortStrings values).

Record numericBound : Type := mkBound { b_value : Number; b_exclusive : bool }.

Definition stricterLower (left : option numericBound) (right : numericBound) : numericBound :=
  match left with
  | None => right
  | Some l => if less (b_value l) (b_value right) || (equal (b_value right) (b_value l) && b_exclusive right) then right else l
  end.
Definition stricterUpper (left : option numericBound) (right : numericBound) : numericBound :=
  match left with
  | None => right
  | Some l => if less (b_value right) (b_value l) || (equal (b_value right) (b_value l) && b_exclusive right) then right else l
  end.

(** One side of the bounds: the inclusive keyword and the exclusive one, which is a
    flag on it or a bound of its own. *)
Definition numericSide (stricter : option numericBound -> numericBound -> numericBound) (inclusive : option Number)
    (exclusive : option (bool + Number)) (missing : string) : Outcome (option numericBound) :=
  let bound := (fun v => mkBound v false) <$> inclusive in
  match exclusive with
  | None => Ok bound
  | Some (inl false) => Ok bound
  | Some (inl true) => match bound with None => Err missing | Some b => Ok (Some (mkBound (b_value b) true)) end
  | Some (inr v) => Ok (Some (stricter bound (mkBound v true)))
  end.
Definition finiteBound (b : option numericBound) : bool :=
  match b with Some (mkBound (Finite _) _) => true | None => true | _ => false end.

Definition numericBounds (schema : Schema) (pointer : string) : Outcome (option numericBound * option numericBound) :=
  let k := s_keywords schema in
  lower ← numericSide stricterLower (k_minimum k) (k_exclusiveMinimum k) (pointer +:+ "/exclusiveMinimum: boolean true requires minimum");
  upper ← numericSide stricterUpper (k_maximum k) (k_exclusiveMaximum k) (pointer +:+ "/exclusiveMaximum: boolean true requires maximum");
  _ ← failIf (negb (finiteBound lower) || negb (finiteBound upper)) (pointer +:+ ": numeric bounds must be finite");
  _ ← match lower, upper with
      | Some l, Some u =>
          failIf (less (b_value u) (b_value l) || (equal (b_value l) (b_value u) && (b_exclusive l || b_exclusive u)))
            (pointer +:+ ": numeric bounds do not admit any value")
      | _, _ => Ok tt
      end;
  Ok (lower, upper).

(** What the importer needs of Go's libraries: conversion to float32, nothing when it
    overflows, and the error of compiling a pattern. *)
Class GoLib : Type := { float32 : Float64 -> option Float64; compileError : string -> option string }.

Section Convert.
Context `{UnicodeTables} `{GoLib}.

(** The bounds it is given are finite; infinities are outside every range of integers and
    of float32, and a number that is none is no integer. *)
Definition numericLiteral (value : Number) (protoName : string) (integer : bool) : Outcome string :=
  let text := FormatNumber value in
  if integer then
    match value with
    | Finite f =>
        if negb (integral f) then Err (text +:+ " is not an integer")
        else if (toInteger f <? minInt32)%Z || (maxInt32 <? toInteger f)%Z then Err (text +:+ " is outside the int32 range")
        else Ok (FormatInt (toInteger f))
    | Infinite _ => Err (text +:+ " is outside the int32 range")
    | NotANumber => Err (text +:+ " is not an integer")
    end
  else if String.eqb protoName "float" then
    match value with
    | Finite f =>
        match float32 f with
        | None => Err (text +:+ " is outside the float range")
        | Some g => Ok (FormatG g)
        end
    | Infinite _ => Err (text +:+ " is outside the float range")
    | NotANumber => Ok text
    end
  else Ok text.

Definition boundRule (bound : option numericBound) (protoName : string) (integer : bool) (inclusive exclusive prefix : string)
    : Outcome (list constraint) :=
  match bound with
  | None => Ok []
  | Some b =>
      value ← wrapErr prefix (numericLiteral (b_value b) protoName integer);
      Ok [mkConstraint (protoName +:+ "." +:+ (if b_exclusive b then exclusive else inclusive)) value]
  end.
Definition numericRules (schema : Schema) (protoName : string) (integer : bool) (pointer : string) : Outcome (list constraint) :=
  '(lower, upper) ← numericBounds schema pointer;
  lowerRules ← boundRule lower protoName integer "gte" "gt" (pointer +:+ ": lower bound: ");
  upperRules ← boundRule upper protoName integer "lte" "lt" (pointer +:+ ": upper bound: ");
  Ok (lowerRules ++ upperRules).

Definition booleanType (schema : Schema) (pointer : string) : M protoType :=
  _ ← lift (rejectNonBooleanKeywords schema pointer);
  mret (typeScalar "bool" []).

Definition plainFormats : list string := [""; "email"; "hostname"; "ip"; "ipv4"; "ipv6"; "uri"; "uri-reference"; "uuid"].

(** The rules of a string, in the order they are appended. *)
Definition lengthRule (bound : option Z) (path error : string) : Outcome (list constraint) :=
  match bound with
  | None => Ok []
  | Some n => _ ← failIf (n <? 0)%Z error; Ok [mkConstraint path (FormatInt n)]
  end.
Definition exceeds (low high : option Z) : bool :=
  match low, high with Some l, Some h => (h <? l)%Z | _, _ => false end.
Definition stringRules (schema : Schema) (pointer : string) : Outcome (list constraint) :=
  let k := s_keywords schema in
  minRule ← lengthRule (k_minLength k) "string.min_len" (pointer +:+ "/minLength: must be non-negative");
  maxRule ← lengthRule (k_maxLength k) "string.max_len" (pointer +:+ "/maxLength: must be non-negative");
  _ ← failIf (exceeds (k_minLength k) (k_maxLength k)) (pointer +:+ ": minLength exceeds maxLength");
  patternRule ←
    (if String.eqb (k_pattern k) "" then Ok []
     else match compileError (k_pattern k) with
          | Some e => Err (pointer +:+ "/pattern: pattern is not compatible with Protovalidate's RE2 syntax: " +:+ e)
          | None => Ok [mkConstraint "string.pattern" (Quote (k_pattern k))]
          end);
  let formatRule :=
    if String.eqb (k_format k) "" then []
    else [mkConstraint ("string." +:+ (if String.eqb (k_format k) "uri-reference" then "uri_ref" else ReplaceAll (k_format k) "-" "_")) "true"] in
  enumValues ← stringEnum (k_enum k) pointer;
  Ok (minRule ++ maxRule ++ patternRule ++ formatRule ++ map (fun value => mkConstraint "string.in" (Quote value)) enumValues).

Definition importRules (rules : list constraint) : M unit := if filled rules then addImport schemaValidateImport else mret tt.

Definition stringType (schema : Schema) (pointer : string) : M protoType :=
  let format := k_format (s_keywords schema) in
  _ ← lift (rejectNonStringKeywords schema pointer);
  if String.eqb format "byte" then
    _ ← lift (failIf (hasStringConstraints schema)
      (pointer +:+ ": minLength, maxLength, pattern, and enum constrain encoded text and cannot be transferred to protobuf bytes"));
    mret (typeScalar "bytes" [])
  else if String.eqb format "date-time" then
    _ ← lift (failIf (hasStringConstraints schema) (pointer +:+ ": string constraints cannot be transferred to google.protobuf.Timestamp"));
    _ ← addImport timestampImport;
    mret (typeMessage "google.protobuf.Timestamp")
  else
    _ ← lift (failIf (negb (bool_decide (format ∈ plainFormats)))
      (pointer +:+ "/format: string format " +:+ Quote format +:+ " has no canonical protobuf representation"));
    rules ← lift (stringRules schema pointer);
    _ ← importRules rules;
    mret (typeScalar "string" rules).

Definition integerType (schema : Schema) (pointer : string) : M protoType :=
  _ ← lift (rejectNonNumericKeywords schema pointer);
  _ ← lift (failIf (negb (String.eqb (k_format (s_keywords schema)) "int32"))
    (pointer +:+ "/format: integers require format " +:+ Quote "int32" +:+
     "; unformatted and 64-bit OpenAPI integers do not preserve ProtoJSON semantics"));
  _ ← lift (failIf (entries (k_enum (s_keywords schema))) (enumText pointer));
  rules ← lift (numericRules schema "int32" true pointer);
  _ ← importRules rules;
  mret (typeScalar "int32" rules).

Definition numberType (schema : Schema) (pointer : string) : M protoType :=
  let format := k_format (s_keywords schema) in
  _ ← lift (rejectNonNumericKeywords schema pointer);
  _ ← lift (failIf (entries (k_enum (s_keywords schema))) (enumText pointer));
  _ ← lift (failIf (String.eqb format "")
    (pointer +:+ "/format: numbers require format " +:+ Quote "float" +:+ " or " +:+ Quote "double" +:+ " so protobuf precision is explicit"));
  _ ← lift (failIf (negb (String.eqb format "double") && negb (String.eqb format "float"))
    (pointer +:+ "/format: number format " +:+ Quote format +:+ " is not supported"));
  let protoName := if String.eqb format "float" then "float" else "double" in
  rules ← lift (numericRules schema protoName false pointer);
  _ ← addImport schemaValidateImport;
  mret (typeScalar protoName (rules ++ [mkConstraint (protoName +:+ ".finite") "true"])).

(** ** Messages *)

(** Every message is registered once, so the one that is there is another one. *)
Definition addMessage (message : protoMessage) (origin : string) : M unit :=
  let name := pm_name message in
  _ ← lift (failIf (String.eqb name "") (origin +:+ ": generated message name is empty"));
  _ ← lift (failIf (negb (protoIdentifier name))
    (origin +:+ ": generated message name " +:+ Quote name +:+ " is not a portable protobuf identifier"));
  c ← gets id;
  _ ← lift (failIf (String.eqb name (c_service c))
    (origin +:+ ": message name " +:+ Quote name +:+ " collides with the generated service name"));
  match c_messages c !! name with
  | Some _ =>
      fail (origin +:+ ": message name " +:+ Quote name +:+ " collides with " +:+ default "" (c_messageOrigins c !! name)
        +:+ " after protobuf normalization")
  | None =>
      modify (fun c => setOrigins (<[name := origin]> (c_messageOrigins c)) (setMessages (<[name := message]> (c_messages c)) c))
  end.

(** The message is shared: a field appended to it shows in the file. *)
Definition appendField (name : string) (field : protoField) : M unit := modify (fun c =>
  setMessages (alter (fun m => mkMessage (pm_name m) (pm_comment m) (pm_fields m ++ [field])) name (c_messages c)) c).

(** 19000 to 19999 are reserved for the implementation of protobuf. *)
Definition protobufFieldNumber (index : nat) : Z :=
  let number := (Z.of_nat index + 1)%Z in if (19000 <=? number)%Z then (number + 1000)%Z else number.

Section Nested.
Context (doc : Document) (typeForSchema : Proxy -> string -> string -> M protoType).

(** [BuildSchema] of the proxy of a property, after its conversion. *)
Definition buildKeywords (proxy : Proxy) : option Keywords + string :=
  match proxy with
  | RefTo _ reference => d_build doc reference
  | BuildFails e => inr e
  | BooleanSchema => inl None
  | Inline k _ _ _ => inl (Some k)
  end.

Definition propertiesOf (schema : Schema) : gmap string (option Proxy) :=
  foldl (fun m kv => <[kv.1 := kv.2]> m) ∅ (default [] (s_properties schema)).

(** One property: its index, its name, and the properties of the fields so far. *)
Definition addProperty (messageName : string) (required : list string) (properties : gmap string (option Proxy)) (pointer : string)
    (fieldOrigins : gmap string string) (property : nat * string) : M (gmap string string) :=
  let '(index, wireName) := property in
  let fieldPointer := pointer +:+ "/properties/" +:+ escapeJSONPointer wireName in
  _ ← lift (failIf (String.eqb wireName "")
    (fieldPointer +:+ ": an empty JSON property name cannot be preserved as a protobuf json_name"));
  match mjoin (properties !! wireName) with
  | None => fail (fieldPointer +:+ ": property schema is required")
  | Some proxy =>
      let fieldName := protoFieldName wireName in
      _ ← lift (failIf (negb (protoIdentifier fieldName))
        (fieldPointer +:+ ": generated field name " +:+ Quote fieldName +:+ " is not a portable protobuf identifier"));
      match fieldOrigins !! fieldName with
      | Some previous =>
          fail (fieldPointer +:+ ": protobuf field name " +:+ Quote fieldName +:+ " collides with property " +:+ Quote previous
            +:+ " after normalization")
      | None =>
          fieldType ← typeForSchema proxy (messageName +:+ protoTypeName wireName) fieldPointer;
          let isRequired := bool_decide (wireName ∈ required) in
          _ ← lift (failIf (isRequired && collection fieldType)
            (fieldPointer +:+ ": required arrays and maps cannot preserve property presence in protobuf"));
          match buildKeywords proxy with
          | inr e => fail (fieldPointer +:+ ": build property schema: " +:+ e)
          | inl None => fail (fieldPointer +:+ ": boolean schemas are not supported")
          | inl (Some k) =>
              let fieldComment := comment (k_title k) (k_description k) in
              let fieldComment := if String.eqb fieldComment "" then "OpenAPI field " +:+ Quote wireName +:+ "." else fieldComment in
              _ ← appendField messageName
                (mkField fieldName wireName fieldComment fieldType (protobufFieldNumber index) isRequired (isTrue (k_deprecated k)));
              _ ← (if isRequired then addImport schemaValidateImport else mret tt);
              mret (<[fieldName := wireName]> fieldOrigins)
          end
      end
  end.

(** The properties that are required but not declared are looked for in the order they
    are listed; the code goes through a map. *)
Definition checkRequired (required : list string) (properties : gmap string (option Proxy)) (pointer : string) : Outcome unit :=
  _ ← foldOutcome (fun seen name =>
        if decide (name ∈ seen) then Err (pointer +:+ "/required: property " +:+ Quote name +:+ " appears more than once")
        else Ok (seen ++ [name])) required [];
  forEach (fun name => failIf (negb (present (properties !! name)))
    (pointer +:+ "/required: property " +:+ Quote name +:+ " is required but is not declared in this closed object")) required.

Definition populateMessage (messageName : string) (schema : Schema) (pointer : string) : M unit :=
  let required := k_required (s_keywords schema) in
  let properties := propertiesOf schema in
  _ ← lift (checkRequired required properties pointer);
  _ ← foldM (addProperty messageName required properties pointer) (imap pair (sortedKeys properties)) ∅;
  mret tt.

(** A lower bound on a collection must be zero. *)
Definition collectionRule (low high : option Z) (path minName maxName pointer : string) : Outcome (list constraint) :=
  _ ← match low with
      | None => Ok tt
      | Some n =>
          _ ← failIf (n <? 0)%Z (pointer +:+ "/" +:+ minName +:+ ": must be non-negative");
          failIf (0 <? n)%Z (pointer +:+ "/" +:+ minName +:+
            ": a positive lower bound cannot preserve absent versus empty collection semantics in protobuf")
      end;
  rules ← lengthRule high path (pointer +:+ "/" +:+ maxName +:+ ": must be non-negative");
  _ ← failIf (exceeds low high) (pointer +:+ ": " +:+ minName +:+ " exceeds " +:+ maxName);
  Ok rules.

Definition arrayType (schema : Schema) (suggestedName pointer : string) : M protoType :=
  let k := s_keywords schema in
  _ ← lift (rejectNonArrayKeywords schema pointer);
  match s_items schema with
  | Some (inr _) => fail (pointer +:+ "/items: boolean and tuple item schemas are not supported")
  | None | Some (inl None) => fail (pointer +:+ "/items: array items must have one schema")
  | Some (inl (Some proxy)) =>
      element ← typeForSchema proxy (protoTypeName suggestedName +:+ "Item") (pointer +:+ "/items");
      _ ← lift (failIf (collection element) (pointer +:+ "/items: nested arrays and maps cannot be represented as a protobuf repeated field"));
      sizeRules ← lift (collectionRule (k_minItems k) (k_maxItems k) "repeated.max_items" "minItems" "maxItems" pointer);
      uniqueRules ←
        (if isTrue (k_uniqueItems k) then
           match element with
           | typeMessage _ => fail (pointer +:+ "/uniqueItems: Protovalidate uniqueness is not defined for repeated message values")
           | _ => mret [mkConstraint "repeated.unique" "true"]
           end
         else mret []);
      let rules := sizeRules ++ uniqueRules in
      _ ← importRules (rules ++ pt_constraints element);
      mret (typeList rules element)
  end.

Definition mapType (schema : Schema) (proxy : Proxy) (suggestedName pointer : string) : M protoType :=
  let k := s_keywords schema in
  value ← typeForSchema proxy (protoTypeName suggestedName +:+ "Value") (pointer +:+ "/additionalProperties");
  _ ← lift (failIf (collection value) (pointer +:+ "/additionalProperties: protobuf map values cannot be arrays or maps"));
  rules ← lift (collectionRule (k_minProperties k) (k_maxProperties k) "map.max_pairs" "minProperties" "maxProperties" pointer);
  _ ← importRules (rules ++ pt_constraints value);
  mret (typeMap rules value).

Definition objectType (schema : Schema) (suggestedName pointer componentName : string) : M protoType :=
  let k := s_keywords schema in
  _ ← lift (rejectNonObjectKeywords schema pointer);
  match s_additionalProperties schema with
  | None => fail (pointer +:+ "/additionalProperties: objects must be explicitly closed with false or be a typed map")
  | Some (inl None) => fail (pointer +:+ "/additionalProperties: typed map values require a schema")
  | Some (inl (Some proxy)) =>
      _ ← lift (failIf (entries (s_properties schema)) (pointer +:+ ": objects cannot mix named properties with additional map values"));
      _ ← lift (failIf (filled (k_required k)) (pointer +:+ "/required: typed maps cannot express named required properties"));
      mapType schema proxy suggestedName pointer
  | Some (inr true) => fail (pointer +:+ "/additionalProperties: open objects cannot be represented by a protobuf message")
  | Some (inr false) =>
      _ ← lift (failIf (present (k_minProperties k) || present (k_maxProperties k))
        (pointer +:+ ": minProperties and maxProperties cannot be represented for a structured protobuf message"));
      let messageName := protoTypeName suggestedName in
      _ ← lift (failIf (negb (protoIdentifier messageName))
        (pointer +:+ ": generated message name " +:+ Quote messageName +:+ " is not a portable protobuf identifier"));
      let text := comment (k_title k) (k_description k) in
      let text := if String.eqb text "" then "OpenAPI schema for " +:+ messageName +:+ "." else text in
      _ ← addMessage (mkMessage messageName text []) pointer;
      let value := typeMessage messageName in
      _ ← (if String.eqb componentName "" then mret tt
           else modify (fun c => setTypes (<[componentName := value]> (c_componentTypes c)) c));
      _ ← populateMessage messageName schema pointer;
      mret value
  end.

Definition typeForResolvedSchema (schema : Schema) (suggestedName pointer componentName : string) : M protoType :=
  _ ← lift (validateCommonSchema schema pointer);
  kind ← lift (schemaKind schema pointer);
  if String.eqb kind "boolean" then booleanType schema pointer
  else if String.eqb kind "string" then stringType schema pointer
  else if String.eqb kind "integer" then integerType schema pointer
  else if String.eqb kind "number" then numberType schema pointer
  else if String.eqb kind "array" then arrayType schema suggestedName pointer
  else if String.eqb kind "object" then objectType schema suggestedName pointer componentName
  else fail (pointer +:+ ": unsupported schema type " +:+ Quote kind).

(** [build] until the component is converted. *)
Definition componentType (name pointer : string) : M protoType :=
  c ← gets id;
  match c_componentTypes c !! name with
  | Some value => mret value
  | None =>
      if decide (name ∈ c_building c) then
        fail (pointer +:+ ": component " +:+ Quote name +:+ " has a recursive alias, array, or map; recursion requires an object message")
      else
        match mjoin (assoc name (default [] (d_schemas doc))) with
        | None => fail (pointer +:+ ": schema component " +:+ Quote name +:+ " does not exist")
        | Some proxy =>
            let origin := "#/components/schemas/" +:+ escapeJSONPointer name in
            _ ← modify (fun c => setBuilding ({[name]} ∪ c_building c) c);
            value ← wrap (origin +:+ ": ")
              match proxy with
              | RefTo _ _ => typeForSchema proxy (protoTypeName name) origin
              | BuildFails e => fail e
              | BooleanSchema => fail "boolean schemas are not supported"
              | Inline k items properties additional =>
                  typeForResolvedSchema (mkSchema k items properties additional) (protoTypeName name) origin name
              end;
            _ ← modify (fun c => setBuilding (c_building c ∖ {[name]}) (setTypes (<[name := value]> (c_componentTypes c)) c));
            mret value
        end
  end.
End Nested.

Fixpoint typeForSchema (doc : Document) (fuel : nat) (proxy : Proxy) (suggestedName pointer : string) : M protoType :=
  match fuel with
  | O => fun _ => NoFuel
  | S fuel =>
      match proxy with
      | RefTo siblings reference =>
          _ ← lift (failIf siblings (pointer +:+ ": $ref siblings are not supported; move the constraints into the referenced component"));
          name ← wrap (pointer +:+ ": ") (lift (internalComponentReference reference "schemas"));
          componentType doc (typeForSchema doc fuel) name pointer
      | BuildFails e => fail (pointer +:+ ": build schema: " +:+ e)
      | BooleanSchema => fail (pointer +:+ ": boolean schemas are not supported")
      | Inline k items properties additional =>
          typeForResolvedSchema doc (typeForSchema doc fuel) (mkSchema k items properties additional) suggestedName pointer ""
      end
  end.
End Convert.
End OpenApiSchema.
