(* ===== verification/OpenApiImport.v ===== *)
(** * The OpenAPI importer: operations (src/go/internal/openapiimport/operation.go and importer.go)

    Requests and responses of an operation, the operations of a document, and the
    conversion of the document to the service and the messages of a protobuf file. *)
From S2P Require Import Prelude GoStrings StringFacts Json JsonParse OpenApiModel OpenApiSchema.
Import OpenApiModel OpenApiDoc OpenApiSchema.

Module OpenApiImport.

(** ** Path templates *)

(** The pieces of a path, literals and the names of variables: a variable is a brace, a
    name without braces that is not empty, and a closing brace. [pending] is the text
    after the last opening brace. *)
Fixpoint partsLoop (s literal : string) (pending : option string) : list (string + string) :=
  match s with
  | EmptyString => [inl (literal +:+ match pending with Some name => "{" +:+ name | None => "" end)]
  | String c r =>
      match pending with
      | None => if Ascii.eqb c "{" then partsLoop r literal (Some "") else partsLoop r (literal +:+ str1 c) None
      | Some name =>
          if Ascii.eqb c "{" then partsLoop r (literal +:+ "{" +:+ name) (Some "")
          else if Ascii.eqb c "}" then
            if String.eqb name "" then partsLoop r (literal +:+ "{}") None
            else inl literal :: inr name :: partsLoop r "" None
          else partsLoop r literal (Some (name +:+ str1 c))
      end
  end.
Definition pathParts (path : string) : list (string + string) := partsLoop path "" None.
Definition pathVariables (path : string) : list string :=
  omap (fun part => match part with inr name => Some name | inl _ => None end) (pathParts path).
Definition pathLiterals (path : string) : string :=
  String.concat "" (omap (fun part => match part with inl text => Some text | inr _ => None end) (pathParts path)).
Definition pathVariableSegment (segment : string) : bool :=
  match pathParts segment with [inl EmptyString; inr _; inl EmptyString] => true | _ => false end.
(** [strings.ContainsAny]. *)
Definition containsAny (s chars : string) : bool := negb (allBytes (fun c => noByte c chars) s).

(** ** Operations *)

Record operationSpec : Type := mkSpec {
  sp_httpMethod : string;
  sp_path : string;
  sp_pathItem : PathItem;
  sp_operation : Operation;
  sp_pointer : string
}.
Record importedParameter : Type := mkImported { ip_parameter : Param; ip_pointer : string }.

(** Parameters by their place and name; [merged] keeps the order they first appeared in. *)
Notation Merged := (list (string * importedParameter)).
Definition setMerged (key : string) (p : importedParameter) (merged : Merged) : Merged :=
  map (fun kp => if String.eqb kp.1 key then (key, p) else kp) merged.
Definition parameterKey (p : Param) : string := p_in p +:+ str1 NUL +:+ p_name p.
Definition addParameter (basePointer : string) (override : bool) (st : Merged * list string) (entry : nat * option Param)
    : Outcome (Merged * list string) :=
  let '(merged, seen) := st in
  let '(index, parameter) := entry in
  let pointer := basePointer +:+ "/" +:+ FormatInt (Z.of_nat index) in
  match parameter with
  | None => Err (pointer +:+ ": parameter is empty")
  | Some p =>
      _ ← failIf (String.eqb (p_name p) "" || String.eqb (p_in p) "") (pointer +:+ ": parameter name and in are required");
      let key := parameterKey p in
      let duplicate := pointer +:+ ": duplicate " +:+ p_in p +:+ " parameter " +:+ Quote (p_name p) in
      _ ← failIf (bool_decide (key ∈ seen)) duplicate;
      match assoc key merged with
      | None => Ok (merged ++ [(key, mkImported p pointer)], seen ++ [key])
      | Some _ => _ ← failIf (negb override) duplicate; Ok (setMerged key (mkImported p pointer) merged, seen ++ [key])
      end
  end.
Definition addParameters (basePointer : string) (override : bool) (parameters : list (option Param)) (merged : Merged) : Outcome Merged :=
  '(merged, _) ← foldOutcome (addParameter basePointer override) (imap pair parameters) (merged, []);
  Ok merged.
Definition mergeParameters (spec : operationSpec) : Outcome (list importedParameter) :=
  merged ← addParameters ("#/paths/" +:+ escapeJSONPointer (sp_path spec) +:+ "/parameters") false (i_parameters (sp_pathItem spec)) [];
  merged ← addParameters (sp_pointer spec +:+ "/parameters") true (o_parameters (sp_operation spec)) merged;
  Ok (map snd merged).

Definition wireScalar (t : protoType) : bool := match t with typeScalar _ _ => true | _ => false end.
Definition wireQuery (t : protoType) : bool :=
  match t with typeScalar _ _ => true | typeList _ element => wireScalar element | _ => false end.
Definition normalizedFieldCollision (message name first second : string) : string :=
  message +:+ ": field name " +:+ Quote name +:+ " collides between " +:+ first +:+ " and " +:+ second +:+ " after protobuf normalization".

(** ** Media types *)

Definition mediaSchema (media : MediaType) (pointer : string) : Outcome Proxy :=
  _ ← failIf (mt_encoding media) (pointer +:+ "/application~1json/encoding: per-property encodings are not supported");
  _ ← failIf (mt_itemSchema media) (pointer +:+ "/application~1json/itemSchema: OpenAPI 3.2 itemSchema is not supported");
  match mt_schema media with
  | None => Err (pointer +:+ "/application~1json/schema: schema is required")
  | Some schema => Ok schema
  end.
Definition jsonMediaSchema (content : Content) (pointer : string) : Outcome Proxy :=
  match content with
  | [] => Err (pointer +:+ ": application/json content is required")
  | _ =>
      match (if (length content =? 1)%nat then mjoin (assoc "application/json" content) else None) with
      | None => Err (pointer +:+ ": exactly application/json is supported; found " +:+ Join (sortStrings (map fst content)) ", ")
      | Some media => mediaSchema media pointer
      end
  end.
Definition responseHasContract (response : option Response) : bool :=
  match response with None => false | Some r => filled (re_content r) || re_headers r || re_links r end.

(** [strconv.Atoi]. *)
Definition Atoi (s : string) : option Z :=
  let magnitude d := Z.of_N <$> (N.of_uint <$> DecimalString.NilZero.uint_of_string d) in
  z ← match s with
      | String "-" d => Z.opp <$> magnitude d
      | String "+" d => magnitude d
      | _ => magnitude s
      end;
  if (- 2 ^ 63 <=? z)%Z && (z <? 2 ^ 63)%Z then Some z else None.

Definition query_le (a b : importedParameter) : Prop :=
  if String.eqb (p_name (ip_parameter a)) (p_name (ip_parameter b)) then string_le (ip_pointer a) (ip_pointer b)
  else string_le (p_name (ip_parameter a)) (p_name (ip_parameter b)).
#[export] Instance query_le_dec a b : Decision (query_le a b).
Proof. unfold query_le. destruct (String.eqb _ _); apply _. Defined.
Definition spec_le (a b : operationSpec) : Prop :=
  if String.eqb (sp_path a) (sp_path b) then string_le (sp_httpMethod a) (sp_httpMethod b) else string_le (sp_path a) (sp_path b).
#[export] Instance spec_le_dec a b : Decision (spec_le a b).
Proof. unfold spec_le. destruct (String.eqb _ _); apply _. Defined.

Section Convert.
Context `{UnicodeTables} `{GoLib} (doc : Document).

(** ** Fuel *)

(** How deep the schemas written inside a proxy are nested. *)
Fixpoint depth (p : Proxy) : nat :=
  let inner o := match o with Some (inl (Some q)) => depth q | _ => 0 end in
  match p with
  | Inline _ items properties additional =>
      S (Nat.max (inner items) (Nat.max (inner additional)
        (match properties with
         | Some l => foldr (fun kv n => Nat.max (match kv.2 with Some q => depth q | None => 0 end) n) 0 l
         | None => 0
         end)))
  | _ => 0
  end.
(** Enough to go once through every component. *)
Definition componentsFuel : nat :=
  foldr (fun kv n => (match kv.2 with Some q => S (S (depth q)) | None => 0 end) + n) 0 (default [] (d_schemas doc)).
Definition typeFor (proxy : Proxy) (suggestedName pointer : string) : M protoType :=
  typeForSchema doc (S (depth proxy) + componentsFuel) proxy suggestedName pointer.

(** ** Requests *)

Definition schemaFromParameter (p : Param) : Outcome Proxy :=
  _ ← failIf (p_content p) "content-based parameters are not supported";
  match p_schema p with
  | None => Err "parameter schema is required"
  | Some schema => Ok schema
  end.

Definition isFalse (o : option bool) : bool := match o with Some b => negb b | None => false end.
Definition checkParameter (p : Param) (pointer : string) (path : bool) : Outcome unit :=
  _ ← checks [
    (p_allowEmptyValue p, pointer +:+ "/allowEmptyValue: empty-value parameter semantics are not supported");
    (p_allowReserved p, pointer +:+ "/allowReserved: reserved-character query semantics are not supported")
  ];
  if path then checks [
    (negb (String.eqb (p_style p) "") && negb (String.eqb (p_style p) "simple"),
      pointer +:+ "/style: path style " +:+ Quote (p_style p) +:+ " is not supported");
    (isTrue (p_explode p), pointer +:+ "/explode: exploded path parameters are not supported");
    (negb (isTrue (p_required p)), pointer +:+ "/required: path parameters must be required")
  ]
  else checks [
    (negb (String.eqb (p_style p) "") && negb (String.eqb (p_style p) "form"),
      pointer +:+ "/style: query style " +:+ Quote (p_style p) +:+ " is not supported");
    (isFalse (p_explode p), pointer +:+ "/explode: non-exploded query parameters are not supported")
  ].

(** The number of a field is given when the message is complete. *)
Definition parameterField (imported : importedParameter) (parentName : string) (path : bool) : M protoField :=
  let p := ip_parameter imported in
  let pointer := ip_pointer imported in
  _ ← lift (checkParameter p pointer path);
  schema ← wrap (pointer +:+ ": ") (lift (schemaFromParameter p));
  let fieldName := protoFieldName (p_name p) in
  _ ← lift (failIf (negb (protoIdentifier fieldName))
    (pointer +:+ "/name: generated field name " +:+ Quote fieldName +:+ " is not a portable protobuf identifier"));
  fieldType ← typeFor schema (parentName +:+ protoTypeName (p_name p)) (pointer +:+ "/schema");
  let required := path || isTrue (p_required p) in
  _ ← lift (failIf (required && collection fieldType)
    (pointer +:+ "/required: required arrays and maps cannot preserve parameter presence in protobuf"));
  let description := TrimSpace (p_description p) in
  let description := if String.eqb description "" then "OpenAPI " +:+ p_in p +:+ " parameter " +:+ Quote (p_name p) +:+ "." else description in
  mret (mkField fieldName (p_name p) description fieldType 0 required (p_deprecated p)).

Definition requestBody (body : RequestBody) (suggestedName pointer : string) : M (protoType * string * bool) :=
  schema ← lift (jsonMediaSchema (rb_content body) (pointer +:+ "/content"));
  fieldType ← typeFor schema suggestedName (pointer +:+ "/content/application~1json/schema");
  let required := isTrue (rb_required body) in
  _ ← lift (failIf (required && collection fieldType)
    (pointer +:+ "/required: required arrays and maps cannot preserve request-body presence in protobuf"));
  let description := TrimSpace (rb_description body) in
  mret (fieldType, if String.eqb description "" then "JSON request body." else description, required).

(** The fields so far, where each came from, and the path. *)
Record requestState : Type := mkRequestState { rq_fields : list protoField; rq_origins : gmap string string; rq_path : string }.
Definition addRequestField (messageName : string) (field : protoField) (pointer : string) (path : string) (st : requestState) : M requestState :=
  match rq_origins st !! pf_name field with
  | Some previous => fail (normalizedFieldCollision messageName (pf_name field) previous pointer)
  | None => mret (mkRequestState (rq_fields st ++ [field]) (<[pf_name field := pointer]> (rq_origins st)) path)
  end.

Definition checkPath (spec : operationSpec) : Outcome unit :=
  let path := sp_path spec in
  _ ← failIf (negb (HasPrefix path "/")) (sp_pointer spec +:+ ": OpenAPI paths must start with /");
  _ ← failIf (containsAny (pathLiterals path) "{}?#*")
    (sp_pointer spec +:+ ": path " +:+ Quote path +:+ " contains an unsupported template, wildcard, query, or fragment");
  forEach (fun segment => failIf (containsAny segment "{}" && negb (pathVariableSegment segment))
    (sp_pointer spec +:+ ": path variables must occupy a complete segment; got " +:+ Quote segment)) (Split (TrimByte SLASH path) SLASH).

Definition checkLocation (imported : importedParameter) : Outcome unit :=
  let place := p_in (ip_parameter imported) in
  if String.eqb place "path" || String.eqb place "query" then Ok tt
  else if String.eqb place "header" || String.eqb place "cookie" then
    Err (ip_pointer imported +:+ ": " +:+ place +:+ " parameters cannot be represented by the canonical protobuf request")
  else Err (ip_pointer imported +:+ "/in: unsupported parameter location " +:+ Quote place).
Definition located (place : string) (imported : importedParameter) : bool := String.eqb (p_in (ip_parameter imported)) place.

(** One placeholder of the path. *)
Definition addPathParameter (spec : operationSpec) (messageName : string) (pathParameters : gmap string importedParameter)
    (st : requestState * list string) (wireName : string) : M (requestState * list string) :=
  let '(rq, seen) := st in
  match pathParameters !! wireName with
  | None => fail (sp_pointer spec +:+ ": path placeholder " +:+ Quote wireName +:+ " has no matching path parameter")
  | Some imported =>
      if decide (wireName ∈ seen) then mret (rq, seen)
      else
        field ← parameterField imported messageName true;
        _ ← lift (failIf (negb (wireScalar (pf_fieldType field))) (ip_pointer imported +:+ "/schema: path parameters must be scalar"));
        rq ← addRequestField messageName field (ip_pointer imported)
          (ReplaceAll (rq_path rq) ("{" +:+ wireName +:+ "}") ("{" +:+ pf_name field +:+ "}")) rq;
        mret (rq, seen ++ [wireName])
  end.

Definition addBody (spec : operationSpec) (methodName : string) (rq : requestState) : M (requestState * string) :=
  match o_requestBody (sp_operation spec) with
  | None => mret (rq, "")
  | Some body =>
      let pointer := sp_pointer spec +:+ "/requestBody" in
      _ ← lift (failIf (String.eqb (sp_httpMethod spec) "get" || String.eqb (sp_httpMethod spec) "delete")
        (pointer +:+ ": HTTP " +:+ UToUpper (sp_httpMethod spec) +:+ " request bodies are not imported"));
      '(bodyType, bodyDescription, bodyRequired) ← requestBody body (methodName +:+ "RequestBody") pointer;
      rq ← addRequestField (methodName +:+ "Request") (mkField "body" "body" bodyDescription bodyType 0 bodyRequired false) pointer (rq_path rq) rq;
      mret (rq, "body")
  end.

Definition addQueryParameter (messageName : string) (rq : requestState) (imported : importedParameter) : M requestState :=
  field ← parameterField imported messageName false;
  _ ← lift (failIf (negb (wireQuery (pf_fieldType field))) (ip_pointer imported +:+ "/schema: query parameters must be scalar or arrays of scalars"));
  addRequestField messageName field (ip_pointer imported) (rq_path rq) rq.

Definition numbered (fields : list protoField) : list protoField :=
  imap (fun index f => mkField (pf_name f) (pf_jsonName f) (pf_comment f) (pf_fieldType f) (protobufFieldNumber index) (pf_required f) (pf_deprecated f)) fields.

Definition annotationsImport : string := "google/api/annotations.proto".
Definition emptyImport : string := "google/protobuf/empty.proto".
Definition emptyMessage : string := "google.protobuf.Empty".

(** The request message, the path and the body selector. Path parameters no placeholder
    names are looked for in the order of their names; the code goes through a map. *)
Definition buildRequest (spec : operationSpec) (methodName : string) : M (string * string * string) :=
  let messageName := methodName +:+ "Request" in
  _ ← lift (checkPath spec);
  parameters ← lift (mergeParameters spec);
  _ ← lift (forEach checkLocation parameters);
  let pathParameters : gmap string importedParameter :=
    foldl (fun m p => <[p_name (ip_parameter p) := p]> m) ∅ (filter (fun p => located "path" p = true) parameters) in
  '(rq, seen) ← foldM (addPathParameter spec messageName pathParameters) (pathVariables (sp_path spec)) (mkRequestState [] ∅ (sp_path spec), []);
  _ ← lift (forEach (fun wireName => failIf (negb (bool_decide (wireName ∈ seen)))
    (default "" (ip_pointer <$> pathParameters !! wireName) +:+ ": path parameter " +:+ Quote wireName +:+ " is not present in the path template"))
    (sortedKeys pathParameters));
  '(rq, bodySelector) ← addBody spec methodName rq;
  rq ← foldM (addQueryParameter messageName) (merge_sort query_le (filter (fun p => located "query" p = true) parameters)) rq;
  _ ← addImport annotationsImport;
  match rq_fields rq with
  | [] =>
      _ ← addImport emptyImport;
      mret (emptyMessage, rq_path rq, bodySelector)
  | fields =>
      _ ← addMessage (mkMessage messageName ("Request for " +:+ methodName +:+ ".") (numbered fields)) (sp_pointer spec +:+ " request");
      mret (messageName, rq_path rq, bodySelector)
  end.

(** ** Responses *)

Definition successCode (pointer : string) (codes : list string) (code : string) : Outcome (list string) :=
  match Atoi code with
  | None =>
      _ ← failIf (HasPrefix code "2") (pointer +:+ "/responses/" +:+ escapeJSONPointer code +:+ ": wildcard success responses are ambiguous");
      Ok codes
  | Some value => Ok (if (200 <=? value)%Z && (value <=? 299)%Z then codes ++ [code] else codes)
  end.

Definition warnIf (cond : bool) (message : string) : M unit := if cond then warn message else mret tt.

(** The field that holds the response. *)
Definition responseField (t : protoType) : string :=
  match t with
  | typeMessage name => if HasPrefix name "google.protobuf." then "value" else protoFieldName name
  | typeList _ _ => "items"
  | typeMap _ _ => "values"
  | typeScalar _ _ => "value"
  end.

Definition buildResponse (spec : operationSpec) (methodName : string) : M (string * string) :=
  let pointer := sp_pointer spec in
  let notEncoded code := pointer +:+ "/responses/" +:+ escapeJSONPointer code +:+
    " was not encoded; model HTTP errors as gRPC statuses in the canonical service" in
  match (responses ← o_responses (sp_operation spec); codes ← rs_codes responses; Some (codes, rs_default responses)) with
  | None => fail (pointer +:+ "/responses: at least one response is required")
  | Some (codes, defaultResponse) =>
      successCodes ← lift (foldOutcome (successCode pointer) (map fst codes) []);
      match sortStrings successCodes with
      | [success] =>
          _ ← warnIf (negb (String.eqb success "200"))
            (pointer +:+ "/responses/" +:+ escapeJSONPointer success +:+
             " success status is not encoded; canonical gRPC has one ordinary success outcome");
          _ ← foldM (fun _ kv => warnIf (negb (String.eqb kv.1 success) && responseHasContract kv.2) (notEncoded kv.1)) codes tt;
          _ ← warnIf (responseHasContract defaultResponse) (notEncoded "default");
          let responsePointer := pointer +:+ "/responses/" +:+ escapeJSONPointer success in
          match mjoin (assoc success codes) with
          | None => fail (responsePointer +:+ ": response is empty")
          | Some response =>
              _ ← warnIf (re_headers response) (responsePointer +:+ "/headers were not encoded; use gRPC response metadata explicitly");
              _ ← warnIf (re_links response) (responsePointer +:+ "/links were not encoded");
              if negb (filled (re_content response)) then
                _ ← addImport emptyImport;
                mret (emptyMessage, "")
              else
                schema ← lift (jsonMediaSchema (re_content response) (responsePointer +:+ "/content"));
                fieldType ← typeFor schema (methodName +:+ "ResponseBody") (responsePointer +:+ "/content/application~1json/schema");
                let fieldName := responseField fieldType in
                let text := comment (re_summary response) (re_description response) in
                let text := if String.eqb text "" then "Response from " +:+ methodName +:+ "." else text in
                let messageName := methodName +:+ "Response" in
                _ ← addMessage (mkMessage messageName text [mkField fieldName fieldName text fieldType 1 false false]) responsePointer;
                mret (messageName, fieldName)
          end
      | l =>
          fail (pointer +:+ "/responses: exactly one explicit 2xx response is required; found " +:+ FormatInt (Z.of_nat (length l)))
      end
  end.

(** ** Methods *)

Definition fallbackMethodName (method path : string) : string :=
  let words := method :: mjoin (map (fun part => match part with
                                               | inl text => splitWords text
                                               | inr name => "by" :: splitWords name
                                               end) (pathParts path)) in
  protoTypeName (Join words " ").
Definition operationComment (spec : operationSpec) : string :=
  let value := comment (o_summary (sp_operation spec)) (o_description (sp_operation spec)) in
  if String.eqb value "" then UToUpper (sp_httpMethod spec) +:+ " " +:+ sp_path spec +:+ "." else value.

Definition convertOperation (spec : operationSpec) : M protoMethod :=
  let operation := sp_operation spec in
  let pointer := sp_pointer spec in
  _ ← lift (failIf (o_callbacks operation) (pointer +:+ "/callbacks: callbacks cannot be represented by a unary gRPC method"));
  _ ← warnIf (o_security operation) (pointer +:+ " security requirements remain caller-owned HTTP authentication policy");
  _ ← warnIf (o_servers operation) (pointer +:+ "/servers were not encoded; service endpoints remain deployment configuration");
  let methodName :=
    if String.eqb (o_operationId operation) "" then fallbackMethodName (sp_httpMethod spec) (sp_path spec)
    else protoTypeName (o_operationId operation) in
  _ ← lift (failIf (negb (protoIdentifier methodName))
    (pointer +:+ "/operationId: generated RPC name " +:+ Quote methodName +:+ " is not a portable protobuf identifier"));
  previous ← gets (fun c => c_operationNames c !! methodName);
  match previous with
  | Some previous => fail (pointer +:+ ": RPC name " +:+ Quote methodName +:+ " collides with " +:+ previous +:+ " after protobuf normalization")
  | None =>
      _ ← modify (fun c => setOperations (<[methodName := pointer]> (c_operationNames c)) c);
      '(request, httpPath, body) ← buildRequest spec methodName;
      '(response, responseBody) ← buildResponse spec methodName;
      mret (mkMethod methodName (operationComment spec) request response (sp_httpMethod spec) httpPath body responseBody
        (isTrue (o_deprecated operation)))
  end.

Definition candidates (item : PathItem) : list (string * option Operation) :=
  [("get", i_get item); ("post", i_post item); ("put", i_put item); ("patch", i_patch item); ("delete", i_delete item);
   ("head", i_head item); ("options", i_options item); ("trace", i_trace item); ("query", i_query item)].
Definition supportedMethods : list string := ["get"; "post"; "put"; "patch"; "delete"].

Definition pathOperations (specs : list operationSpec) (entry : string * option PathItem) : M (list operationSpec) :=
  let '(path, item) := entry in
  let place := "#/paths/" +:+ escapeJSONPointer path in
  match item with
  | None => fail (place +:+ ": path item is empty")
  | Some item =>
      _ ← lift (checks [
        (i_reference item, place +:+ ": path-item references are not supported; inline the path item before importing");
        (i_additionalOperations item, place +:+ ": OpenAPI 3.2 additional operations are not supported")
      ]);
      _ ← warnIf (i_servers item) (place +:+ "/servers were not encoded; service endpoints remain deployment configuration");
      lift (foldOutcome (fun specs candidate =>
        match candidate.2 with
        | None => Ok specs
        | Some operation =>
            let pointer := place +:+ "/" +:+ candidate.1 in
            _ ← failIf (negb (bool_decide (candidate.1 ∈ supportedMethods)))
              (pointer +:+ ": HTTP " +:+ UToUpper candidate.1 +:+ " is not supported by google.api.http import");
            Ok (specs ++ [mkSpec candidate.1 path item operation pointer])
        end) (candidates item) specs)
  end.
Definition operations (paths : list (string * option PathItem)) : M (list operationSpec) :=
  specs ← foldM pathOperations paths [];
  match specs with
  | [] => fail "#/paths: at least one supported HTTP operation is required"
  | _ => mret (merge_sort spec_le specs)
  end.

(** ** The document *)

Definition openAPI31BaseDialect : string := "https://spec.openapis.org/oas/3.1/dialect/base".
Definition newConverter (service : string) : converter := mkConverter service ∅ ∅ ∅ ∅ ∅ [] ∅.

Definition serviceName (serviceOverride : string) (info : Info) : string :=
  let name := protoTypeName (if String.eqb serviceOverride "" then in_title info else serviceOverride) in
  if HasSuffix name "Service" then name else name +:+ "Service".

Definition convertPaths (info : Info) : M (list protoMethod) :=
  _ ← lift (failIf (d_webhooks doc) "#/webhooks: OpenAPI webhooks cannot be represented by unary gRPC methods");
  _ ← warnIf (d_servers doc) "#/servers were not encoded; service endpoints remain deployment configuration";
  _ ← warnIf (d_security doc) "OpenAPI security requirements remain caller-owned HTTP authentication policy and were not encoded in protobuf";
  match d_paths doc with
  | None | Some [] => fail "#/paths: at least one OpenAPI operation is required"
  | Some paths =>
      specs ← operations paths;
      foldM (fun methods spec => method ← convertOperation spec; mret (methods ++ [method])) specs []
  end.

Definition convert (serviceOverride : string) : Outcome (protoService * converter) :=
  _ ← failIf (negb (String.eqb (d_jsonSchemaDialect doc) "") && negb (String.eqb (d_jsonSchemaDialect doc) openAPI31BaseDialect))
    ("#/jsonSchemaDialect: custom JSON Schema dialect " +:+ Quote (d_jsonSchemaDialect doc) +:+ " is not supported");
  match d_info doc with
  | None => Err "OpenAPI info object is required"
  | Some info =>
      _ ← failIf (String.eqb (TrimSpace (in_title info)) "") "#/info/title: OpenAPI info.title is required";
      let name := serviceName serviceOverride info in
      _ ← failIf (negb (protoIdentifier name))
        ((if String.eqb serviceOverride "" then "#/info/title" else "--service") +:+ ": generated service name " +:+ Quote name +:+
         " is not a portable protobuf identifier");
      '(methods, c) ← convertPaths info (newConverter name);
      Ok (mkService name (comment (in_title info) (in_description info)) methods, c)
  end.
End Convert.
End OpenApiImport.
