(* ===== verification/OpenApiRender.v ===== *)
(** * The OpenAPI importer: rendering (src/go/internal/openapiimport/render.go and Convert of importer.go)

    The text of the protobuf file, and the importer as a whole; [libopenapi], which
    parses a document and lists its references, is a parameter. *)
From S2P Require Import Prelude GoStrings StringFacts Json JsonParse OpenApiModel OpenApiSchema OpenApiImport.
Import OpenApiModel OpenApiDoc OpenApiSchema OpenApiImport.

Module OpenApiRender.

Definition fieldBehaviorImport : string := "google/api/field_behavior.proto".
Definition NL : string := str1 LF.

(** [strings.TrimRight(line, " \t")]. *)
Fixpoint trimLeftBlank (s : string) : string :=
  match s with
  | String c r => if Ascii.eqb c " " || Ascii.eqb c TAB then trimLeftBlank r else s
  | EmptyString => EmptyString
  end.
Definition trimRightBlank (s : string) : string := revString (trimLeftBlank (revString s)).

Definition commentLine (indent line : string) : string :=
  indent +:+ "//" +:+ (if String.eqb (TrimSpace line) "" then "" else " " +:+ trimRightBlank line) +:+ NL.
Definition writeIndentedComment (value indent : string) : string :=
  let value := TrimSpace (ReplaceAll (ReplaceAll value (str1 CR +:+ NL) NL) (str1 CR) NL) in
  if String.eqb value "" then "" else String.concat "" (map (commentLine indent) (Split value LF)).
Definition writeComment (value : string) : string := writeIndentedComment value "".

Definition quoted (value : string) : string := Quote value.

Definition writeMethod (m : protoMethod) : Outcome string :=
  _ ← checks [
    (String.eqb (me_name m) "" || String.eqb (me_input m) "" || String.eqb (me_output m) "",
      "render protobuf: RPC name, input, and output must not be empty");
    (negb (protoIdentifier (me_name m)), "render protobuf: RPC name " +:+ Quote (me_name m) +:+ " is not a portable identifier");
    (negb (bool_decide (me_httpMethod m ∈ supportedMethods)),
      "render protobuf: RPC " +:+ me_name m +:+ " has unsupported HTTP method " +:+ Quote (me_httpMethod m));
    (String.eqb (me_httpPath m) "", "render protobuf: RPC " +:+ me_name m +:+ " has an empty HTTP path")
  ];
  Ok (writeIndentedComment (me_comment m) "  "
    +:+ "  rpc " +:+ me_name m +:+ "(" +:+ me_input m +:+ ") returns (" +:+ me_output m +:+ ") {" +:+ NL
    +:+ (if String.eqb (me_body m) "" && String.eqb (me_responseBody m) "" then
           "    option (google.api.http) = {" +:+ me_httpMethod m +:+ ": " +:+ quoted (me_httpPath m) +:+ "};" +:+ NL
         else
           "    option (google.api.http) = {" +:+ NL
           +:+ "      " +:+ me_httpMethod m +:+ ": " +:+ quoted (me_httpPath m) +:+ NL
           +:+ (if String.eqb (me_body m) "" then "" else "      body: " +:+ quoted (me_body m) +:+ NL)
           +:+ (if String.eqb (me_responseBody m) "" then "" else "      response_body: " +:+ quoted (me_responseBody m) +:+ NL)
           +:+ "    };" +:+ NL)
    +:+ (if me_deprecated m then "    option deprecated = true;" +:+ NL else "")
    +:+ "  }" +:+ NL).

Definition rule_le (a b : constraint) : Prop :=
  if String.eqb (ct_path a) (ct_path b) then string_le (ct_value a) (ct_value b) else string_le (ct_path a) (ct_path b).
#[export] Instance rule_le_dec a b : Decision (rule_le a b).
Proof. unfold rule_le. destruct (String.eqb _ _); apply _. Defined.

Section Render.
Context `{UnicodeTables}.

Definition fieldOptions (field : protoField) : list string :=
  (if negb (String.eqb (pf_jsonName field) "") && negb (String.eqb (pf_jsonName field) (defaultJSONName (pf_name field)))
   then ["json_name = " +:+ quoted (pf_jsonName field)] else [])
  ++ (if pf_deprecated field then ["deprecated = true"] else [])
  ++ (if pf_required field then
        "(google.api.field_behavior) = REQUIRED"
        :: (if hasPresence (pf_fieldType field) then ["(buf.validate.field).required = true"] else [])
      else [])
  ++ map (fun rule => "(buf.validate.field)." +:+ ct_path rule +:+ " = " +:+ ct_value rule)
       (merge_sort rule_le (fieldConstraints (pf_fieldType field))).

Fixpoint optionLines (options : list string) : string :=
  match options with
  | [] => ""
  | [option] => "    " +:+ option +:+ NL
  | option :: options => "    " +:+ option +:+ "," +:+ NL +:+ optionLines options
  end.
Definition writeOptions (options : list string) : string :=
  match options with
  | [] => ""
  | [option] => " [" +:+ option +:+ "]"
  | _ => " [" +:+ NL +:+ optionLines options +:+ "  ]"
  end.

Definition writeField (messageName : string) (index : nat) (field : protoField) : Outcome string :=
  _ ← checks [
    (String.eqb (pf_name field) "" || String.eqb (declaration (pf_fieldType field)) "",
      "render protobuf: message " +:+ messageName +:+ " field " +:+ FormatInt (Z.of_nat index + 1) +:+ " has an empty name or type");
    (negb (protoIdentifier (pf_name field)),
      "render protobuf: message " +:+ messageName +:+ " field name " +:+ Quote (pf_name field) +:+ " is not a portable identifier");
    ((pf_number field <=? 0)%Z,
      "render protobuf: message " +:+ messageName +:+ " field " +:+ pf_name field +:+ " has invalid number " +:+ FormatInt (pf_number field))
  ];
  Ok (writeIndentedComment (pf_comment field) "  " +:+ "  "
    +:+ (if needsOptionalKeyword (pf_fieldType field) then "optional " else "")
    +:+ declaration (pf_fieldType field) +:+ " " +:+ pf_name field +:+ " = " +:+ FormatInt (pf_number field)
    +:+ writeOptions (fieldOptions field) +:+ ";" +:+ NL).

Definition fieldImports (field : protoField) : list string :=
  (if pf_required field then [fieldBehaviorImport] else [])
  ++ (if (pf_required field && hasPresence (pf_fieldType field)) || filled (fieldConstraints (pf_fieldType field))
      then [schemaValidateImport] else []).
Definition fileImports (file : protoFile) : gset string :=
  fi_imports file ∪ {[annotationsImport]}
  ∪ list_to_set (mjoin (map (fun nm => mjoin (map fieldImports (pm_fields nm.2))) (map_to_list (fi_messages file)))).

Definition writeMessage (file : protoFile) (name : string) : Outcome string :=
  match fi_messages file !! name with
  | None => Panic "the name is a key of the messages"
  | Some message =>
      _ ← checks [
        (String.eqb (pm_name message) "", "render protobuf: message registered as " +:+ Quote name +:+ " has an empty name");
        (negb (String.eqb (pm_name message) name),
          "render protobuf: message registered as " +:+ Quote name +:+ " is named " +:+ Quote (pm_name message))
      ];
      fields ← mapOutcome (fun '(index, field) => writeField (pm_name message) index field) (imap pair (pm_fields message));
      Ok (NL +:+ writeComment (pm_comment message) +:+ "message " +:+ pm_name message +:+ " {" +:+ NL +:+ String.concat "" fields +:+ "}" +:+ NL)
  end.

Definition renderProto (file : protoFile) : Outcome string :=
  let service := fi_service file in
  _ ← validatePackage (fi_packageName file);
  _ ← validateGoPackage (fi_goPackage file);
  _ ← checks [
    (negb (protoIdentifier (ps_name service)), "render protobuf: service name " +:+ Quote (ps_name service) +:+ " is not a portable identifier");
    (negb (filled (ps_methods service)), "render protobuf: service has no methods")
  ];
  methods ← mapOutcome writeMethod (ps_methods service);
  messages ← mapOutcome (writeMessage file) (sortedKeys (fi_messages file));
  Ok ("// Imported from OpenAPI by invariant-openapi." +:+ NL
    +:+ "// Review this one-way conversion, then maintain protobuf as the canonical contract." +:+ NL +:+ NL
    +:+ "syntax = " +:+ Quote "proto3" +:+ ";" +:+ NL +:+ NL
    +:+ "package " +:+ fi_packageName file +:+ ";" +:+ NL
    +:+ NL +:+ String.concat "" (map (fun path => "import " +:+ quoted path +:+ ";" +:+ NL) (sortStrings (elements (fileImports file))))
    +:+ NL +:+ "option go_package = " +:+ quoted (fi_goPackage file) +:+ ";" +:+ NL +:+ NL
    +:+ writeComment (ps_comment service) +:+ "service " +:+ ps_name service +:+ " {" +:+ NL
    +:+ Join methods NL +:+ "}" +:+ NL
    +:+ String.concat "" messages).

(** ** The importer *)

Definition MaxDocumentBytes : Z := 16777216.
Record Options : Type := mkOptions { op_package : string; op_goPackage : string; op_service : string }.
(** A reference of the document: its text, and the line and column of its key. *)
Record Reference : Type := mkReference { rf_raw : string; rf_key : option (Z * Z) }.
(** [NewDocumentWithConfiguration], [GetVersion] and [BuildV3Model] with its references. *)
Context `{GoLib} (newDocument : string -> string + string) (buildV3Model : string -> Document * list Reference + string).

Definition versionTail (s : string) : bool :=
  match s with
  | EmptyString => true
  | String c r => (Ascii.eqb c "+" || Ascii.eqb c "-") && nonEmpty (fun d => alphaByte d || isDigit d || negb (noByte d ".-")) r
  end.
Fixpoint afterDigits (s : string) : string :=
  match s with
  | String c r => if isDigit c then afterDigits r else s
  | EmptyString => EmptyString
  end.
(** [^3\.(0|1)\.\d+([+-][0-9A-Za-z.-]+)?$]. *)
Definition openAPIVersion (s : string) : bool :=
  (HasPrefix s "3.0." || HasPrefix s "3.1.")
  && match dropBytes 4 s with String c r => isDigit c && versionTail (afterDigits r) | EmptyString => false end.

Definition checkReference (r : Reference) : Outcome unit :=
  let location := match rf_key r with
                  | Some (line, column) => "$ref at line " +:+ FormatInt line +:+ ", column " +:+ FormatInt column
                  | None => "$ref"
                  end in
  failIf (negb (HasPrefix (rf_raw r) "#"))
    (location +:+ " points outside the input document (" +:+ Quote (rf_raw r) +:+ "); bundle the OpenAPI document before importing").

(** [newDocument] gives the version; the source and the sorted warnings are the result. *)
Definition Convert (spec : string) (options : Options) : Outcome (string * list string) :=
  let size := Z.of_nat (String.length spec) in
  _ ← checks [
    (String.eqb spec "", "OpenAPI document is empty");
    ((MaxDocumentBytes <? size)%Z,
      "OpenAPI document is " +:+ FormatInt size +:+ " bytes; maximum is " +:+ FormatInt MaxDocumentBytes)
  ];
  _ ← validatePackage (op_package options);
  _ ← validateGoPackage (op_goPackage options);
  match newDocument spec with
  | inr e => Err ("parse OpenAPI document: " +:+ e)
  | inl version =>
      _ ← failIf (negb (openAPIVersion version)) ("unsupported OpenAPI version " +:+ Quote version +:+ "; expected 3.0.x or 3.1.x");
      match buildV3Model spec with
      | inr e => Err ("build OpenAPI model: " +:+ e)
      | inl (doc, references) =>
          _ ← forEach checkReference references;
          '(service, c) ← convert doc (op_service options);
          source ← renderProto (mkFile (op_package options) (op_goPackage options) service (c_messages c) (c_imports c));
          Ok (source, sortStrings (c_warnings c))
      end
  end.
End Render.
End OpenApiRender.
