(* ===== verification/OpenApiSchemaSpec.v ===== *)
(** * The conversion of schemas: what it keeps and that it ends

    A type the importer gives refers to messages of the file, the messages have
    distinct portable names with distinct numbers, and the conversion of any proxy
    returns. *)
From S2P Require Import Prelude GoStrings StringFacts Json JsonParse Termination BundleSpec OpenApiModel OpenApiSchema OpenApiImport.
Import OpenApiModel OpenApiDoc OpenApiSchema OpenApiImport.

(** ** The monad *)

Lemma import_M_bind_Ok {A B} (m : M A) (k : A -> M B) c r : (m ≫= k) c = Ok r <-> exists a c1, m c = Ok (a, c1) /\ k a c1 = Ok r.
Proof.
  unfold mbind, M_bind. destruct (m c) as [[a c1]| | |]; split; try done; [by eauto|by intros (?&?&[= <- <-]&?)|..]; by intros (?&?&?&?).
Qed.
Lemma M_bind_NoFuel {A B} (m : M A) (k : A -> M B) c :
  (m ≫= k) c = NoFuel <-> m c = NoFuel \/ exists a c1, m c = Ok (a, c1) /\ k a c1 = NoFuel.
Proof.
  unfold mbind, M_bind. destruct (m c) as [[a c1]| | |]; split; try done; try naive_solver.
Qed.
Lemma import_lift_Ok {A} (m : Outcome A) c r : lift m c = Ok r <-> exists a, m = Ok a /\ r = (a, c).
Proof. unfold lift. destruct m; split; try done; naive_solver. Qed.
Lemma lift_NoFuel {A} (m : Outcome A) c : lift m c = NoFuel <-> m = NoFuel.
Proof. unfold lift. by destruct m. Qed.
Lemma wrap_Ok {A} p (m : M A) c r : wrap p m c = Ok r <-> m c = Ok r.
Proof. unfold wrap. by destruct (m c). Qed.
Lemma wrap_NoFuel {A} p (m : M A) c : wrap p m c = NoFuel <-> m c = NoFuel.
Proof. unfold wrap. by destruct (m c). Qed.
Lemma modify_Ok f c r : modify f c = Ok r <-> r = (tt, f c).
Proof. unfold modify. naive_solver. Qed.
Lemma gets_Ok {A} (f : converter -> A) c r : gets f c = Ok r <-> r = (f c, c).
Proof. unfold gets. naive_solver. Qed.
Lemma import_mret_Ok {A} (a : A) c r : (mret a : M A) c = Ok r <-> r = (a, c).
Proof. unfold mret, M_ret. naive_solver. Qed.

(** Case analysis on the steps of a computation known to succeed. *)
Ltac m_step H :=
  lazymatch type of H with
  | (?m ≫= ?k) ?c = Ok _ =>
      apply import_M_bind_Ok in H; let a := fresh "v" in let c1 := fresh "c" in let Ha := fresh "Hv" in destruct H as (a & c1 & Ha & H); m_step Ha
  | lift _ _ = Ok _ =>
      apply import_lift_Ok in H; let a := fresh "v" in let E := fresh "E" in destruct H as (a & H & E); simplify_eq
  | wrap _ _ _ = Ok _ => apply wrap_Ok in H; m_step H
  | modify _ _ = Ok _ => apply modify_Ok in H; simplify_eq
  | gets _ _ = Ok _ => apply gets_Ok in H; simplify_eq
  | mret _ _ = Ok _ => apply import_mret_Ok in H; simplify_eq
  | fail _ _ = Ok _ => discriminate H
  | _ => idtac
  end.
Ltac m_inv H := repeat (progress m_step H); cbv beta in *.
(** One step, with names for its value, the state after it and its equation. *)
Tactic Notation "m_next" hyp(H) "as" ident(a) ident(c) ident(E) := apply import_M_bind_Ok in H as (a & c & E & H).
(** A step that only checks. *)
Ltac m_check H :=
  apply import_M_bind_Ok in H; let a := fresh "v" in let c1 := fresh "c" in let E := fresh "Hcheck" in let E' := fresh "E" in
  destruct H as (a & c1 & E & H); apply import_lift_Ok in E as (? & E & E'); injection E' as ??; subst;
  try (apply failIf_Ok in E).

Lemma foldM_Ok {A S} (f : S -> A -> M S) (P : list A -> S -> converter -> Prop) l s c s' c' :
  (forall done_ x todo s c s' c', l = done_ ++ x :: todo -> P done_ s c -> f s x c = Ok (s', c') -> P (done_ ++ [x]) s' c') ->
  P [] s c -> foldM f l s c = Ok (s', c') -> P l s' c'.
Proof.
  intros Hstep H0. assert (forall todo done_ s c, l = done_ ++ todo -> P done_ s c -> foldM f todo s c = Ok (s', c') -> P l s' c') as Hgen.
  { induction todo as [|x todo IH]; intros done_ s1 c1 Hl HP Hf; cbn [foldM] in Hf.
    - m_inv Hf. by rewrite app_nil_r.
    - m_inv Hf. eapply IH; [|by eapply Hstep|exact Hf]. by rewrite <- app_assoc. }
  by apply (Hgen l []).
Qed.

Lemma indexed {A} (l : list A) done_ i x todo : imap pair l = done_ ++ (i, x) :: todo -> i = length done_.
Proof.
  intros Hl. assert (imap pair l !! length done_ = Some (i, x)) as Hlk by (by rewrite Hl, list_lookup_middle).
  rewrite list_lookup_imap in Hlk. destruct (l !! length done_); cbn in Hlk; congruence.
Qed.

(** ** Well-formed state *)

(** The types a field may have: known scalars, messages of the file, the timestamp, and
    collections of these. *)
Definition scalarNames : list string := ["bool"; "string"; "bytes"; "int32"; "float"; "double"].
Inductive leafOk (c : converter) : protoType -> Prop :=
  | leaf_scalar name rules : name ∈ scalarNames -> leafOk c (typeScalar name rules)
  | leaf_message name m : c_messages c !! name = Some m -> leafOk c (typeMessage name)
  | leaf_timestamp : timestampImport ∈ c_imports c -> leafOk c (typeMessage "google.protobuf.Timestamp").
Inductive typeOk (c : converter) : protoType -> Prop :=
  | type_leaf t : leafOk c t -> typeOk c t
  | type_list rules t : leafOk c t -> typeOk c (typeList rules t)
  | type_map rules t : leafOk c t -> typeOk c (typeMap rules t).

Record fieldOk (c : converter) (f : protoField) : Prop := {
  fo_name : protoIdentifier (pf_name f) = true;
  fo_type : typeOk c (pf_fieldType f);
  fo_required : pf_required f = true -> collection (pf_fieldType f) = false
}.
Record messageOk (c : converter) (m : protoMessage) : Prop := {
  mo_fields : Forall (fieldOk c) (pm_fields m);
  mo_names : NoDup (map pf_name (pm_fields m));
  mo_numbers : map pf_number (pm_fields m) = map protobufFieldNumber (seq 0 (length (pm_fields m)))
}.
Record Wf (c : converter) : Prop := {
  wf_message n m : c_messages c !! n = Some m -> pm_name m = n /\ protoIdentifier n = true /\ n <> c_service c /\ messageOk c m;
  wf_types n t : c_componentTypes c !! n = Some t -> typeOk c t
}.

(** What a conversion of a schema leaves as it is: it only adds. *)
Record extends (c c' : converter) : Prop := {
  ex_service : c_service c' = c_service c;
  ex_messages : c_messages c ⊆ c_messages c';
  ex_imports : c_imports c ⊆ c_imports c';
  ex_types : dom (c_componentTypes c) ⊆ dom (c_componentTypes c');
  ex_building : c_building c' = c_building c;
  ex_operations : c_operationNames c' = c_operationNames c
}.
#[export] Instance extends_preorder : PreOrder extends.
Proof.
  split; [intros c; by constructor|]. intros a b c [] []. constructor; try congruence; by etransitivity.
Qed.

Lemma leafOk_mono c c' t : c_messages c ⊆ c_messages c' -> c_imports c ⊆ c_imports c' -> leafOk c t -> leafOk c' t.
Proof.
  intros Hm Hi [name rules Hn|name m Hn|Ht]; [by constructor| |constructor; by apply Hi].
  econstructor. by eapply lookup_weaken.
Qed.
Lemma typeOk_mono c c' t : c_messages c ⊆ c_messages c' -> c_imports c ⊆ c_imports c' -> typeOk c t -> typeOk c' t.
Proof. intros Hm Hi [t' Ht|rules t' Ht|rules t' Ht]; constructor; by eapply leafOk_mono. Qed.
Lemma fieldOk_mono c c' f : c_messages c ⊆ c_messages c' -> c_imports c ⊆ c_imports c' -> fieldOk c f -> fieldOk c' f.
Proof. intros Hm Hi []. constructor; [done|by eapply typeOk_mono|done]. Qed.
Lemma messageOk_mono c c' m : c_messages c ⊆ c_messages c' -> c_imports c ⊆ c_imports c' -> messageOk c m -> messageOk c' m.
Proof. intros Hm Hi []. constructor; [|done|done]. eapply list.Forall_impl; [done|]. intros f. by apply fieldOk_mono. Qed.

Lemma leafOk_extends c c' t : extends c c' -> leafOk c t -> leafOk c' t.
Proof. intros []. by apply leafOk_mono. Qed.
Lemma typeOk_extends c c' t : extends c c' -> typeOk c t -> typeOk c' t.
Proof. intros []. by apply typeOk_mono. Qed.

(** A state with the same messages and component types, and no fewer imports. *)
Lemma Wf_same c c' :
  c_service c' = c_service c -> c_messages c' = c_messages c -> c_componentTypes c' = c_componentTypes c ->
  c_imports c ⊆ c_imports c' -> Wf c -> Wf c'.
Proof.
  intros Hs Hm Ht Hi [H1 H2]. constructor.
  - intros n m Hn. rewrite Hm in Hn. rewrite Hs. destruct (H1 n m Hn) as (?&?&?&?). split_and!; try done.
    eapply messageOk_mono; [|done|done]. by rewrite Hm.
  - intros n t Hn. rewrite Ht in Hn. eapply typeOk_mono; [|done|by eapply H2]. by rewrite Hm.
Qed.

Lemma Wf_publish n t c : Wf c -> typeOk c t -> Wf (setTypes (<[n := t]> (c_componentTypes c)) c).
Proof.
  intros [H1 H2] Ht. constructor.
  - intros k m Hk. destruct (H1 k m Hk) as (?&?&?&?). split_and!; try done. by apply (messageOk_mono c).
  - cbn. intros k t' [[<- <-]|[_ Hk]]%lookup_insert_Some.
    + by apply (typeOk_mono c).
    + apply (typeOk_mono c); [done..|by eapply H2].
Qed.

(** Publishing the identity of a message as that of a component. *)
Lemma published_Ok component name m c u c' :
  Wf c -> c_messages c !! name = Some m ->
  (if String.eqb component "" then mret tt else modify (fun c => setTypes (<[component := typeMessage name]> (c_componentTypes c)) c)) c = Ok (u, c') ->
  Wf c' /\ extends c c' /\ c_messages c' = c_messages c.
Proof.
  intros Hc Hm Hp. destruct (String.eqb component ""); m_inv Hp; [done|]. split_and!; [|constructor; cbn; try done; set_solver|done].
  apply Wf_publish; [done|]. constructor. by econstructor.
Qed.

(** A conversion is sound: it keeps the state well formed, only adds to it, and what it
    returns is a type of the new state. *)
Definition sound (m : M protoType) : Prop :=
  forall c t c', Wf c -> m c = Ok (t, c') -> Wf c' /\ extends c c' /\ typeOk c' t.

Lemma addImport_Wf path c : Wf c -> Wf (setImports ({[path]} ∪ c_imports c) c) /\ extends c (setImports ({[path]} ∪ c_imports c) c).
Proof. intros Hc. split; [eapply Wf_same; cbn; try done; set_solver|constructor; cbn; try done; set_solver]. Qed.
Lemma importRules_Ok rules c u c' : Wf c -> importRules rules c = Ok (u, c') -> Wf c' /\ extends c c'.
Proof.
  intros Hc. unfold importRules, addImport. destruct (filled rules); intros Hr; m_inv Hr; [by apply addImport_Wf|by split].
Qed.

Lemma filled_Wf_scalar c name rules : name ∈ scalarNames -> typeOk c (typeScalar name rules).
Proof. intros. by do 2 constructor. Qed.

(** ** Messages *)

Lemma Wf_addMessage m c :
  Wf c -> protoIdentifier (pm_name m) = true -> pm_name m <> c_service c -> c_messages c !! pm_name m = None -> messageOk c m ->
  forall origins, let c' := setOrigins origins (setMessages (<[pm_name m := m]> (c_messages c)) c) in Wf c' /\ extends c c'.
Proof.
  intros Hc Hi Hs Hn Hm origins. cbv zeta. set (c' := setOrigins _ _).
  assert (c_messages c ⊆ c_messages c') as Hsub by (by apply insert_subseteq).
  split; [|by constructor]. destruct Hc as [H1 H2]. constructor.
  - intros n m' Hn'. cbn in Hn'. apply lookup_insert_Some in Hn' as [[<- <-]|[Hne Hn']].
    + split_and!; [done..|]. by eapply messageOk_mono.
    + destruct (H1 n m' Hn') as (?&?&?&?). split_and!; [done..|]. by eapply messageOk_mono.
  - intros n t Ht. cbn in Ht. eapply typeOk_mono; [exact Hsub|done|by eapply H2].
Qed.

Lemma addMessage_Ok m origin c u c' :
  addMessage m origin c = Ok (u, c') ->
  protoIdentifier (pm_name m) = true /\ pm_name m <> c_service c /\ c_messages c !! pm_name m = None /\
  c' = setOrigins (<[pm_name m := origin]> (c_messageOrigins c)) (setMessages (<[pm_name m := m]> (c_messages c)) c).
Proof.
  unfold addMessage. intros Ha. m_inv Ha. rewrite failIf_Ok in *. unfold id in *.
  destruct (c_messages c !! pm_name m) eqn:E; [done|]. m_inv Ha. split_and!; try done.
  - by apply negb_false_iff.
  - by apply String.eqb_neq.
Qed.

(** Numbers are given in order, positive, distinct and outside the reserved range. *)
Lemma protobufFieldNumber_ok i :
  (0 < protobufFieldNumber i)%Z /\ ~ (19000 <= protobufFieldNumber i <= 19999)%Z.
Proof. unfold protobufFieldNumber. destruct (Z.leb_spec 19000 (Z.of_nat i + 1)); lia. Qed.
Lemma protobufFieldNumber_mono i j : (i < j)%nat -> (protobufFieldNumber i < protobufFieldNumber j)%Z.
Proof.
  intros Hij. unfold protobufFieldNumber. destruct (Z.leb_spec 19000 (Z.of_nat i + 1)), (Z.leb_spec 19000 (Z.of_nat j + 1)); lia.
Qed.
#[export] Instance protobufFieldNumber_inj : Inj (=) (=) protobufFieldNumber.
Proof.
  intros i j He. destruct (Nat.lt_trichotomy i j) as [Hl|[->|Hl]]; [|done|]; apply protobufFieldNumber_mono in Hl; lia.
Qed.

Lemma Wf_appendField n m f c :
  Wf c -> c_messages c !! n = Some m -> fieldOk c f -> pf_name f ∉ map pf_name (pm_fields m) ->
  pf_number f = protobufFieldNumber (length (pm_fields m)) ->
  Wf (setMessages (alter (fun m => mkMessage (pm_name m) (pm_comment m) (pm_fields m ++ [f])) n (c_messages c)) c).
Proof.
  intros [H1 H2] Hn Hf Hnew Hnum. set (c' := setMessages _ _).
  assert (forall t, leafOk c t -> leafOk c' t) as Hleaf.
  { intros t [name rules Ht|name m' Ht|Ht]; [by constructor| |by constructor]. cbn.
    destruct (decide (name = n)) as [->|]; [eapply leaf_message; cbn; by rewrite lookup_alter_eq, Ht|eapply leaf_message; cbn; by rewrite lookup_alter_ne]. }
  assert (forall t, typeOk c t -> typeOk c' t) as Htype by (intros t [t' ?|r t' ?|r t' ?]; constructor; by apply Hleaf).
  assert (forall f, fieldOk c f -> fieldOk c' f) as Hfield by (intros g []; constructor; auto).
  constructor.
  - intros k m' Hk. cbn in Hk |- *. destruct (decide (k = n)) as [->|Hne].
    + rewrite lookup_alter_eq, Hn in Hk. injection Hk as <-. destruct (H1 n m Hn) as (Hm&Hi&Hs&[Ha Hb Hd]). cbn. split_and!; [done..|].
      constructor; cbn.
      * apply list.Forall_app. split; [|by constructor; [apply Hfield|]]. eapply list.Forall_impl; [exact Ha|exact Hfield].
      * rewrite map_app. apply list.NoDup_app. split_and!; [done| |cbn; apply list.NoDup_singleton]. cbn. intros x Hx ->%list_elem_of_singleton. done.
      * rewrite map_app, Hd, length_app. cbn. rewrite Nat.add_1_r, seq_S, map_app. cbn. by rewrite Hnum.
    + rewrite lookup_alter_ne in Hk by done. destruct (H1 k m' Hk) as (?&?&?&[Ha Hb Hd]). split_and!; [done..|].
      constructor; [|done|done]. eapply list.Forall_impl; [exact Ha|exact Hfield].
  - intros k t Hk. apply Htype. by eapply H2.
Qed.

(** ** Scalars *)

Section Sound.
Context `{UnicodeTables} `{GoLib}.

Lemma typeOk_leaf c t : typeOk c t -> collection t = false -> leafOk c t.
Proof. by intros [t' Ht|r t' _|r t' _]. Qed.

Lemma booleanType_sound schema pointer : sound (booleanType schema pointer).
Proof. intros c t c' Hc Hb. unfold booleanType in Hb. m_inv Hb. split_and!; [done..|]. apply filled_Wf_scalar. set_solver. Qed.
Lemma stringType_sound schema pointer : sound (stringType schema pointer).
Proof.
  intros c t c' Hc Hs. unfold stringType in Hs. m_inv Hs. destruct (String.eqb _ "byte"); m_inv Hs.
  { split_and!; [done..|]. apply filled_Wf_scalar. set_solver. }
  destruct (String.eqb _ "date-time"); unfold addImport in Hs; m_inv Hs.
  - destruct (addImport_Wf timestampImport c Hc). split_and!; [done..|]. do 2 constructor. cbn. set_solver.
  - lazymatch goal with Hi : importRules _ _ = Ok _ |- _ => apply importRules_Ok in Hi; [destruct Hi|done] end.
    split_and!; [done..|]. apply filled_Wf_scalar. set_solver.
Qed.
Lemma integerType_sound schema pointer : sound (integerType schema pointer).
Proof.
  intros c t c' Hc Hs. unfold integerType in Hs. m_inv Hs.
  lazymatch goal with Hi : importRules _ _ = Ok _ |- _ => apply importRules_Ok in Hi; [destruct Hi|done] end.
  split_and!; [done..|]. apply filled_Wf_scalar. set_solver.
Qed.
Lemma numberType_sound schema pointer : sound (numberType schema pointer).
Proof.
  intros c t c' Hc Hs. unfold numberType, addImport in Hs. m_inv Hs. destruct (addImport_Wf schemaValidateImport c Hc).
  split_and!; [done..|]. apply filled_Wf_scalar. destruct (String.eqb _ "float"); set_solver.
Qed.

(** ** Collections and messages *)

Section Nested.
Context (doc : Document) (rec : Proxy -> string -> string -> M protoType) (Hrec : forall proxy name pointer, sound (rec proxy name pointer)).

Lemma arrayType_sound schema name pointer : sound (arrayType rec schema name pointer).
Proof.
  intros c t c' Hc Ha. unfold arrayType in Ha. m_check Ha. destruct (s_items schema) as [[[proxy|]|b]|]; try done.
  m_next Ha as element c1 Hr. m_check Ha. m_check Ha. m_next Ha as uniqueRules c2 Hu. m_next Ha as u c3 Hi. m_inv Ha.
  apply Hrec in Hr as (Hc1&Hex&Ht); [|done]. assert (c2 = c1) as ->.
  { destruct (isTrue _); [destruct element|]; m_inv Hu; done. }
  apply importRules_Ok in Hi as [Hc3 Hex']; [|done]. split_and!; [done|by etransitivity|].
  apply type_list. apply typeOk_leaf in Ht; [|done]. by eapply leafOk_extends.
Qed.
Lemma mapType_sound schema proxy name pointer : sound (mapType rec schema proxy name pointer).
Proof.
  intros c t c' Hc Ha. unfold mapType in Ha. m_next Ha as value c1 Hr. m_check Ha. m_check Ha. m_next Ha as u c2 Hi. m_inv Ha.
  apply Hrec in Hr as (Hc1&Hex&Ht); [|done]. apply importRules_Ok in Hi as [Hc3 Hex']; [|done]. split_and!; [done|by etransitivity|].
  apply type_map. apply typeOk_leaf in Ht; [|done]. by eapply leafOk_extends.
Qed.

(** The state without a message: what a conversion that fills that message extends. *)
Definition without (name : string) (c : converter) : converter := setMessages (delete name (c_messages c)) c.

Record filling (name : string) (required : list string) (base : converter) (m : protoMessage) (names : list string)
    (fieldOrigins : gmap string string) (c : converter) : Prop := {
  fl_wf : Wf c;
  fl_extends : extends (without name base) c;
  fl_message : exists m', c_messages c !! name = Some m' /\ pm_comment m' = pm_comment m /\
    map (fun f => (pf_jsonName f, pf_name f, pf_required f)) (pm_fields m') =
      map (fun w => (w, protoFieldName w, bool_decide (w ∈ required))) names /\
    forall n, is_Some (fieldOrigins !! n) <-> n ∈ map pf_name (pm_fields m')
}.

Lemma filling_start name required base m :
  Wf base -> c_messages base !! name = Some m -> pm_fields m = [] -> filling name required base m [] ∅ base.
Proof.
  intros Hb Hm Hf. constructor; [done| |].
  - constructor; cbn; try done. apply delete_subseteq.
  - exists m. rewrite Hf. cbn. split_and!; try done. intros n. rewrite lookup_empty. split; [by intros [? ?]|]. by intros ?%not_elem_of_nil.
Qed.

Lemma addProperty_filling name required properties pointer base m names origins c w origins' c' :
  filling name required base m names origins c ->
  addProperty doc rec name required properties pointer origins (length names, w) c = Ok (origins', c') ->
  filling name required base m (names ++ [w]) origins' c'.
Proof.
  intros [Hc Hex (m'&Hm'&Hcom&Hkeys&Ho)] Ha. unfold addProperty in Ha. m_check Ha.
  destruct (mjoin (properties !! w)) as [proxy|]; [|done]. m_check Ha. destruct (origins !! _) as [previous|] eqn:Hprev; [done|].
  m_next Ha as fieldType c1 Hr. m_check Ha. destruct (buildKeywords doc proxy) as [[k|]|e]; [|done|done].
  m_next Ha as u1 c2 Happ. m_next Ha as u2 c3 Himp. m_inv Ha. unfold appendField in Happ. m_inv Happ.
  apply Hrec in Hr as (Hc1&Hex1&Ht); [|done].
  assert (c_messages c1 !! name = Some m') as Hm1 by (eapply lookup_weaken; [done|apply (ex_messages _ _ Hex1)]).
  set (f := mkField _ _ _ _ _ _ _) in *.
  assert (length (pm_fields m') = length names) as Hlen by (apply (f_equal length) in Hkeys; by rewrite !length_map in Hkeys).
  assert (protoFieldName w ∉ map pf_name (pm_fields m')) as Hnew.
  { rewrite <- Ho, Hprev. by intros [? ?]. }
  pose proof (Wf_appendField name m' f c1 Hc1 Hm1) as Hw. set (c2 := setMessages _ _) in *.
  assert (Wf c2) as Hc2.
  { apply Hw; [|done|cbn; by rewrite Hlen]. constructor; cbn; [by apply negb_false_iff|done|].
    intros Hreq. by destruct (andb_false_elim _ _ Hcheck1) as [Hq|?]; [rewrite Hreq in Hq|]. }
  assert (Wf c3 /\ extends c2 c3) as [Hc' Hex2].
  { destruct (bool_decide _); unfold addImport in Himp; m_inv Himp; [by apply addImport_Wf|by split]. }
  constructor; [done| |].
  - etransitivity; [|exact Hex2]. destruct Hex, Hex1. constructor; cbn in *; try congruence; try (by etransitivity).
    apply map_subseteq_spec. intros n mn Hn. apply lookup_delete_Some in Hn as [Hne Hn]. rewrite lookup_alter_ne by done.
    eapply lookup_weaken; [|done]. eapply lookup_weaken; [|done]. by rewrite lookup_delete_ne.
  - exists (mkMessage (pm_name m') (pm_comment m') (pm_fields m' ++ [f])). cbn. split_and!; [|done|..].
    + eapply lookup_weaken; [|apply (ex_messages _ _ Hex2)]. cbn. by rewrite lookup_alter_eq, Hm1.
    + by rewrite !map_app, Hkeys.
    + intros n. rewrite map_app, elem_of_app. cbn. rewrite list_elem_of_singleton, <- Ho, lookup_insert_is_Some.
      destruct (decide (protoFieldName w = n)); naive_solver.
Qed.

(** The message of a closed object has one field for each property, in the order of
    their names, that keeps the name and whether it is required. *)
Definition objectFields (schema : Schema) : list (string * string * bool) :=
  map (fun w => (w, protoFieldName w, bool_decide (w ∈ k_required (s_keywords schema)))) (sortedKeys (propertiesOf schema)).

Lemma populateMessage_filling name schema pointer base m u c' :
  Wf base -> c_messages base !! name = Some m -> pm_fields m = [] -> populateMessage doc rec name schema pointer base = Ok (u, c') ->
  exists origins, filling name (k_required (s_keywords schema)) base m (sortedKeys (propertiesOf schema)) origins c'.
Proof.
  intros Hb Hm Hf Hp. unfold populateMessage in Hp. m_check Hp. m_next Hp as origins c1 Hfold. m_inv Hp.
  set (names := sortedKeys (propertiesOf schema)) in *. set (required := k_required (s_keywords schema)) in *. exists origins.
  set (P := fun (done_ : list (nat * string)) o c => filling name required base m (map snd done_) o c).
  assert (P (imap pair names) origins c1) as Hend.
  { eapply (foldM_Ok (addProperty doc rec name required (propertiesOf schema) pointer) P); [| |exact Hfold].
    - intros done_ [i w] todo o c o' c2 Hl HP Ha. unfold P in *. rewrite map_app. cbn [map snd].
      apply indexed in Hl as ->. rewrite <- (length_map snd) in Ha. by eapply addProperty_filling.
    - unfold P. cbn [map]. by apply filling_start. }
  unfold P in Hend. assert (map snd (imap pair names) = names) as Hn; [|by rewrite Hn in Hend].
  change (map snd) with (fmap (M:=list) (@snd nat string)). rewrite fmap_imap.
  change (imap (const id) names = names). rewrite imap_const. apply list_fmap_id.
Qed.

Lemma objectType_Ok schema name pointer component c t c' :
  Wf c -> objectType doc rec schema name pointer component c = Ok (t, c') ->
  Wf c' /\ extends c c' /\ typeOk c' t /\
  (s_additionalProperties schema = Some (inr false) -> exists m, t = typeMessage (pm_name m) /\ pm_name m = protoTypeName name /\
     c_messages c !! pm_name m = None /\ c_messages c' !! pm_name m = Some m /\
     map (fun f => (pf_jsonName f, pf_name f, pf_required f)) (pm_fields m) = objectFields schema).
Proof.
  intros Hc Ho. unfold objectType in Ho. m_check Ho. destruct (s_additionalProperties schema) as [[[proxy|]|[]]|]; try done.
  { m_check Ho. m_check Ho. apply mapType_sound in Ho as (?&?&?); [|done]. by split_and!. }
  m_check Ho. m_check Ho. set (messageName := protoTypeName name) in *.
  lazymatch type of Ho with context [mkMessage messageName ?x []] => set (text := x) in * end.
  m_next Ho as u1 c1 Ha. m_next Ho as u2 c2 Hpub. m_next Ho as u3 c3 Hp. m_inv Ho.
  apply addMessage_Ok in Ha as (Hid&Hs&Hn&->). cbn [pm_name] in *.
  destruct (Wf_addMessage (mkMessage messageName text []) c Hc Hid Hs Hn ltac:(constructor; cbn; by constructor)
    (<[messageName := pointer]> (c_messageOrigins c))) as [Hc1 Hex1]. cbn [pm_name] in *.
  set (c1 := setOrigins _ _) in *. assert (c_messages c1 !! messageName = Some (mkMessage messageName text [])) as Hm1 by (cbn; by rewrite lookup_insert_eq).
  assert (Wf c2 /\ extends c1 c2 /\ c_messages c2 = c_messages c1) as (Hc2&Hex2&Hm2) by (by eapply published_Ok).
  rewrite <- Hm2 in Hm1. apply (populateMessage_filling _ _ _ _ (mkMessage messageName text [])) in Hp as (origins&[Hc3 Hex3 (m'&Hm'&_&Hkeys&_)]); [|done..].
  assert (extends c c3) as Hex.
  { destruct Hex1, Hex2, Hex3. constructor; cbn in *; try congruence; try (by repeat (etransitivity; [eassumption|])).
    etransitivity; [|eassumption]. rewrite Hm2. cbn. by rewrite delete_insert_id. }
  destruct (wf_message _ Hc3 _ _ Hm') as [Hname _]. split_and!; [done|done|constructor; by econstructor|].
  intros _. exists m'. rewrite Hname. split_and!; [done..|]. exact Hkeys.
Qed.
Lemma objectType_sound schema name pointer component : sound (objectType doc rec schema name pointer component).
Proof. intros c t c' Hc Ho. apply objectType_Ok in Ho as (?&?&?&_); [|done]. by split_and!. Qed.

Lemma typeForResolvedSchema_sound schema name pointer component : sound (typeForResolvedSchema doc rec schema name pointer component).
Proof.
  intros c t c' Hc Hr. unfold typeForResolvedSchema in Hr. m_check Hr. m_check Hr.
  destruct (String.eqb _ "boolean"); [exact (booleanType_sound _ _ _ _ _ Hc Hr)|].
  destruct (String.eqb _ "string"); [exact (stringType_sound _ _ _ _ _ Hc Hr)|].
  destruct (String.eqb _ "integer"); [exact (integerType_sound _ _ _ _ _ Hc Hr)|].
  destruct (String.eqb _ "number"); [exact (numberType_sound _ _ _ _ _ Hc Hr)|].
  destruct (String.eqb _ "array"); [exact (arrayType_sound _ _ _ _ _ _ Hc Hr)|].
  destruct (String.eqb _ "object"); [exact (objectType_sound _ _ _ _ _ _ _ Hc Hr)|done].
Qed.

Lemma componentType_sound name pointer : sound (componentType doc rec name pointer).
Proof.
  intros c t c' Hc Hr. unfold componentType in Hr. m_next Hr as c0 c1 Hg. m_inv Hg. unfold id in *.
  destruct (c_componentTypes c !! name) as [value|] eqn:Hv; [m_inv Hr; split_and!; [done..|exact (wf_types _ Hc _ _ Hv)]|].
  destruct (decide (name ∈ c_building c)) as [|Hnb]; [done|]. destruct (mjoin _) as [proxy|]; [|done].
  m_next Hr as u1 c1 Hb. m_inv Hb. m_next Hr as value c2 Hw. m_next Hr as u2 c3 Hd. m_inv Hd. m_inv Hr.
  apply wrap_Ok in Hw. set (c1 := setBuilding _ c) in *. assert (Wf c1) as Hc1 by (by apply (Wf_same c)).
  assert (Wf c2 /\ extends c1 c2 /\ typeOk c2 value) as (Hc2&Hex&Ht).
  { destruct proxy; try done; [by eapply Hrec|by eapply typeForResolvedSchema_sound]. }
  set (c3 := setBuilding (c_building c2 ∖ {[name]}) _).
  assert (Wf c3) as Hc3 by (apply (Wf_same (setTypes (<[name := value]> (c_componentTypes c2)) c2)); [done..|by apply Wf_publish]).
  split_and!; [done| |by apply (typeOk_mono c2)]. destruct Hex. constructor; cbn in *; try done; [set_solver|]. rewrite ex_building0. set_solver.
Qed.
End Nested.

Theorem typeForSchema_sound doc fuel proxy name pointer : sound (typeForSchema doc fuel proxy name pointer).
Proof.
  revert proxy name pointer. induction fuel as [|fuel IH]; intros proxy name pointer c t c' Hc Hr; [done|]. cbn [typeForSchema] in Hr.
  destruct proxy as [siblings reference|e| |k items properties additional]; try done.
  - m_check Hr. m_next Hr as n c1 Hn. apply wrap_Ok in Hn. m_inv Hn. by eapply componentType_sound.
  - by eapply typeForResolvedSchema_sound.
Qed.
End Sound.

(** ** The conversion of schemas ends

    References between components are followed, so the conversion of a proxy is not
    structural: it ends because a component that is being converted is never entered
    again.  The fuel the importer uses is enough for every document. *)
Import OpenApiModel OpenApiDoc OpenApiSchema OpenApiImport.

(** ** Steps that need no fuel *)

Lemma totalO_checks l : totalO (checks l).
Proof. apply totalO_forEach. intros x. apply totalO_failIf. Qed.
Lemma totalO_mapOutcome {A B} (f : A -> Outcome B) l : (forall x, totalO (f x)) -> totalO (mapOutcome f l).
Proof. intros Hf. induction l; cbn; [done|]. apply totalO_bind; [done|]. intros y. by apply totalO_bind. Qed.
#[export] Hint Resolve totalO_checks totalO_mapOutcome : total.

(** A step at a state: the next one starts where it ended. *)
Lemma totalO_next {A B} (m : M A) (k : A -> M B) c :
  totalO (m c) -> (forall a c1, m c = Ok (a, c1) -> totalO (k a c1)) -> totalO ((m ≫= k) c).
Proof. intros Hm Hk [?|(a&c1&Ha&Hn)]%M_bind_NoFuel; [done|]. by eapply Hk. Qed.
Lemma totalO_lift {A} (m : Outcome A) c : totalO m -> totalO (lift m c).
Proof. intros Hm ?%lift_NoFuel. done. Qed.
Lemma totalO_wrap {A} p (m : M A) c : totalO (m c) -> totalO (wrap p m c).
Proof. intros Hm ?%wrap_NoFuel. done. Qed.
(** A check, after which the state is the same. *)
Lemma totalO_check {A B} (m : Outcome A) (k : A -> M B) c : totalO m -> (forall a, totalO (k a c)) -> totalO ((lift m ≫= k) c).
Proof. intros Hm Hk. apply totalO_next; [by apply totalO_lift|]. intros a c1 (x&_&[= -> ->])%import_lift_Ok. apply Hk. Qed.

Lemma totalO_foldM {A S} (f : S -> A -> M S) (P : list A -> S -> converter -> Prop) l s c :
  (forall done_ x todo s c, l = done_ ++ x :: todo -> P done_ s c -> totalO (f s x c)) ->
  (forall done_ x todo s c s' c', l = done_ ++ x :: todo -> P done_ s c -> f s x c = Ok (s', c') -> P (done_ ++ [x]) s' c') ->
  P [] s c -> totalO (foldM f l s c).
Proof.
  intros Ht Hstep H0. assert (forall todo done_ s c, l = done_ ++ todo -> P done_ s c -> totalO (foldM f todo s c)) as Hgen; [|by apply (Hgen l [])].
  induction todo as [|x todo IH]; intros done_ s1 c1 Hl HP; cbn [foldM]; [done|]. apply totalO_next; [by eapply Ht|].
  intros s2 c2 Hf. eapply IH; [|by eapply Hstep]. by rewrite <- app_assoc.
Qed.

Ltac pure_total := repeat (first [solve [eauto with total] | total_step]).

Section Checks.
Context `{UnicodeTables} `{GoLib}.

Lemma rejectKeywords_total schema pointer a b c d : totalO (rejectKeywords schema pointer a b c d).
Proof. apply totalO_checks. Qed.
Lemma stringEnum_total nodes pointer : totalO (stringEnum nodes pointer).
Proof. unfold stringEnum. pure_total. Qed.
Lemma numericSide_total f i e m : totalO (numericSide f i e m).
Proof. unfold numericSide. pure_total. Qed.
Lemma boundRule_total b n i x y p : totalO (boundRule b n i x y p).
Proof. unfold boundRule, numericLiteral. pure_total. Qed.
Lemma numericRules_total schema n i pointer : totalO (numericRules schema n i pointer).
Proof.
  unfold numericRules, numericBounds. repeat first [apply totalO_bind; [|intros ?]|apply numericSide_total|apply boundRule_total|total_step].
Qed.
Lemma lengthRule_total b p e : totalO (lengthRule b p e).
Proof. unfold lengthRule. pure_total. Qed.
Lemma stringRules_total schema pointer : totalO (stringRules schema pointer).
Proof.
  unfold stringRules. cbv zeta. repeat first [apply totalO_bind; [|intros ?]|apply lengthRule_total|apply stringEnum_total|total_step].
Qed.
Lemma collectionRule_total a b c d e f : totalO (collectionRule a b c d e f).
Proof. unfold collectionRule. repeat first [apply totalO_bind; [|intros ?]|apply lengthRule_total|total_step]. Qed.
Lemma checkRequired_total r p pointer : totalO (checkRequired r p pointer).
Proof. unfold checkRequired. pure_total. Qed.
Lemma schemaKind_total schema pointer : totalO (schemaKind schema pointer).
Proof. unfold schemaKind. pure_total. Qed.
Lemma importRules_total rules c : totalO (importRules rules c).
Proof. unfold importRules, addImport. by destruct (filled rules). Qed.
Lemma addMessage_total m origin c : totalO (addMessage m origin c).
Proof. unfold addMessage. repeat (apply totalO_check; [apply totalO_failIf|intros ?]). by destruct (_ !! _). Qed.

Lemma scalar_total (m : Schema -> string -> M protoType) schema pointer c :
  m = booleanType \/ m = stringType \/ m = integerType \/ m = numberType -> totalO (m schema pointer c).
Proof.
  intros [->|[->|[->| ->]]]; unfold booleanType, stringType, integerType, numberType, rejectNonBooleanKeywords, rejectNonStringKeywords, rejectNonNumericKeywords.
  all: repeat first [apply totalO_check; [solve [apply stringRules_total|apply numericRules_total|pure_total]|intros ?] | apply totalO_next; [solve [apply importRules_total|done]|intros ???]
    | done | lazymatch goal with |- totalO ((if ?b then _ else _) _) => destruct b end].
Qed.
End Checks.
#[export] Hint Resolve rejectKeywords_total stringEnum_total numericRules_total lengthRule_total stringRules_total collectionRule_total
  checkRequired_total schemaKind_total importRules_total addMessage_total : total.

(** ** The measure *)

Section Measure.
Context `{UnicodeTables} `{GoLib} (doc : Document).

(** What is left to enter: the components that are neither converted nor being converted. *)
Definition entered (c : converter) (name : string) : bool := bool_decide (name ∈ c_building c) || bool_decide (name ∈ dom (c_componentTypes c)).
Definition weight (q : option Proxy) : nat := match q with Some q => S (S (depth q)) | None => 0 end.
Definition remaining (c : converter) : nat :=
  foldr (fun kv n => (if entered c kv.1 then 0 else weight kv.2) + n) 0 (default [] (d_schemas doc)).

Lemma remaining_le c : remaining c <= componentsFuel doc.
Proof. unfold remaining, componentsFuel. induction (default [] _) as [|kv l IH]; cbn; [done|]. unfold weight at 1. destruct (entered c kv.1); lia. Qed.
Lemma remaining_extends c c' : extends c c' -> remaining c' <= remaining c.
Proof.
  intros [_ _ _ Htypes Hbuilding _]. unfold remaining. induction (default [] _) as [|kv l IH]; cbn; [done|]. destruct (entered c kv.1) eqn:E; [|destruct (entered c' kv.1); lia].
  assert (entered c' kv.1 = true) as ->; [|lia]. unfold entered in *. rewrite Hbuilding. apply orb_true_iff in E as [E|E]; apply orb_true_iff; [by left|right].
  apply bool_decide_eq_true in E. apply bool_decide_eq_true. set_solver.
Qed.
Lemma remaining_enter name q c :
  mjoin (assoc name (default [] (d_schemas doc))) = Some q -> name ∉ c_building c -> name ∉ dom (c_componentTypes c) ->
  remaining (setBuilding ({[name]} ∪ c_building c) c) + S (S (depth q)) <= remaining c.
Proof.
  intros Hq Hb Ht. unfold remaining. set (c' := setBuilding _ c).
  assert (forall n, entered c n = true -> entered c' n = true) as Hmono.
  { intros n [E|E]%orb_true_iff; apply orb_true_iff; [left|by right]. apply bool_decide_eq_true in E. apply bool_decide_eq_true. cbn. set_solver. }
  assert (forall l, foldr (fun kv n => (if entered c' kv.1 then 0 else weight kv.2) + n) 0 l <= foldr (fun kv n => (if entered c kv.1 then 0 else weight kv.2) + n) 0 l) as Hle.
  { induction l as [|kv l IH]; cbn; [done|]. pose proof (Hmono kv.1). destruct (entered c kv.1), (entered c' kv.1); first [lia|naive_solver]. }
  induction (default [] _) as [|[k v] l IH]; [done|]. cbn [assoc] in Hq. cbn [foldr fst snd]. case_decide as Hk.
  - subst k. cbn in Hq. subst v. assert (entered c name = false) as -> by (unfold entered; by rewrite !bool_decide_eq_false_2).
    assert (entered c' name = true) as -> by (unfold entered; rewrite bool_decide_eq_true_2; [done|cbn; set_solver]). specialize (Hle l). cbn. lia.
  - specialize (IH Hq). pose proof (Hmono k). destruct (entered c k), (entered c' k); first [lia|naive_solver].
Qed.

(** ** The functions that convert what is inside *)

Section Nested.
Context (fuel : nat) (rec : Proxy -> string -> string -> M protoType) (Hsound : forall proxy name pointer, sound (rec proxy name pointer)).
Context (Hrec : forall proxy name pointer c, Wf c -> S (depth proxy) + remaining c <= fuel -> totalO (rec proxy name pointer c)).

Definition inside (schema : Schema) (p : Proxy) : Prop :=
  s_items schema = Some (inl (Some p)) \/ s_additionalProperties schema = Some (inl (Some p)) \/
  exists l name, s_properties schema = Some l /\ (name, Some p) ∈ l.
Definition fits (schema : Schema) (c : converter) : Prop := Wf c /\ forall p, inside schema p -> S (depth p) + remaining c <= fuel.

Lemma fits_extends schema c c' : fits schema c -> Wf c' -> extends c c' -> fits schema c'.
Proof. intros [_ Hf] Hc' Hex. split; [done|]. intros p Hp. pose proof (Hf p Hp). pose proof (remaining_extends _ _ Hex). lia. Qed.

Lemma arrayType_total schema name pointer c : fits schema c -> totalO (arrayType rec schema name pointer c).
Proof.
  intros [Hc Hf]. unfold arrayType. apply totalO_check; [unfold rejectNonArrayKeywords; pure_total|intros _].
  destruct (s_items schema) as [[[proxy|]|b]|] eqn:Hi; try done. apply totalO_next; [apply Hrec; [done|]; apply Hf; by left|]. intros element c1 _.
  apply totalO_check; [apply totalO_failIf|intros _]. apply totalO_check; [apply collectionRule_total|intros rules].
  apply totalO_next; [destruct (isTrue _); [by destruct element|done]|]. intros unique c2 _. apply totalO_next; [apply importRules_total|done].
Qed.
Lemma importMap_total schema proxy name pointer c :
  fits schema c -> s_additionalProperties schema = Some (inl (Some proxy)) -> totalO (mapType rec schema proxy name pointer c).
Proof.
  intros [Hc Hf] Hp. unfold mapType. apply totalO_next; [apply Hrec; [done|]; apply Hf; by right; left|]. intros value c1 _.
  apply totalO_check; [apply totalO_failIf|intros _]. apply totalO_check; [apply collectionRule_total|intros rules].
  apply totalO_next; [apply importRules_total|done].
Qed.

Lemma addProperty_total name required properties pointer origins index w c :
  Wf c -> (forall p, properties !! w = Some (Some p) -> S (depth p) + remaining c <= fuel) ->
  totalO (addProperty doc rec name required properties pointer origins (index, w) c).
Proof.
  intros Hc Hf. unfold addProperty. apply totalO_check; [apply totalO_failIf|intros _].
  destruct (properties !! w) as [[proxy|]|] eqn:Hp; cbn [mjoin option_join]; try done.
  apply totalO_check; [apply totalO_failIf|intros _]. destruct (origins !! _); [done|].
  apply totalO_next; [apply Hrec; [done|by apply Hf]|]. intros fieldType c1 _. apply totalO_check; [apply totalO_failIf|intros _].
  destruct (buildKeywords doc proxy) as [[k|]|e]; try done. apply totalO_next; [done|]. intros _ c2 _.
  apply totalO_next; [by destruct (bool_decide _)|]. done.
Qed.

Lemma foldl_insert_Some (l : list (string * option Proxy)) (m : gmap string (option Proxy)) n p :
  foldl (fun m kv => <[kv.1 := kv.2]> m) m l !! n = Some p -> m !! n = Some p \/ (n, p) ∈ l.
Proof.
  revert m. induction l as [|[k v] l IH]; intros m Hn; cbn in Hn; [by left|]. apply IH in Hn as [Hn|Hn]; [|right; by right].
  apply lookup_insert_Some in Hn as [[<- <-]|[_ Hn]]; [right; by left|by left].
Qed.
Lemma propertiesOf_inside schema w p : propertiesOf schema !! w = Some (Some p) -> inside schema p.
Proof.
  intros [Hn|Hn]%foldl_insert_Some; [by rewrite lookup_empty in Hn|]. right. right.
  destruct (s_properties schema) as [l|]; [|by apply not_elem_of_nil in Hn]. by exists l, w.
Qed.
Lemma remaining_without name c : remaining (without name c) = remaining c.
Proof. done. Qed.

Lemma populateMessage_total name schema pointer c m :
  fits schema c -> c_messages c !! name = Some m -> pm_fields m = [] -> totalO (populateMessage doc rec name schema pointer c).
Proof.
  intros [Hc Hf] Hm Hempty. unfold populateMessage. apply totalO_check; [apply checkRequired_total|intros _]. apply totalO_next; [|done].
  set (names := sortedKeys (propertiesOf schema)).
  apply (totalO_foldM _ (fun done_ o c' => filling name (k_required (s_keywords schema)) c m (map snd done_) o c')).
  - intros done_ [i w] todo o c' _ Hfill. apply addProperty_total; [apply Hfill|]. intros p Hp%propertiesOf_inside.
    pose proof (Hf p Hp). destruct Hfill as [_ Hex _]. apply remaining_extends in Hex. rewrite remaining_without in Hex. lia.
  - intros done_ [i w] todo o c' o' c2 Hl HP Ha. apply indexed in Hl as ->. rewrite <- (length_map snd) in Ha. rewrite map_app.
    by eapply addProperty_filling.
  - by apply filling_start.
Qed.

Lemma objectType_total schema name pointer component c : fits schema c -> totalO (objectType doc rec schema name pointer component c).
Proof.
  intros Hf. unfold objectType. apply totalO_check; [unfold rejectNonObjectKeywords; pure_total|intros _].
  destruct (s_additionalProperties schema) as [[[proxy|]|[]]|] eqn:Hp; try done.
  - apply totalO_check; [apply totalO_failIf|intros _]. apply totalO_check; [apply totalO_failIf|intros _]. by apply importMap_total.
  - apply totalO_check; [apply totalO_failIf|intros _]. apply totalO_check; [apply totalO_failIf|intros _].
    lazymatch goal with |- context [mkMessage ?n ?x []] => set (messageName := n); set (text := x) end.
    apply totalO_next; [apply addMessage_total|]. intros u1 c1 (Hid&Hs&Hn&->)%addMessage_Ok. cbn [pm_name] in *.
    destruct (Wf_addMessage (mkMessage messageName text []) c (proj1 Hf) Hid Hs Hn ltac:(constructor; cbn; by constructor)
      (<[messageName := pointer]> (c_messageOrigins c))) as [Hc1 Hex1]. cbn [pm_name] in *. set (c1 := setOrigins _ _) in *.
    apply totalO_next; [by destruct (String.eqb component "")|]. intros u2 c2 Hpub.
    assert (Wf c2 /\ extends c1 c2 /\ c_messages c2 = c_messages c1) as (Hc2&Hex2&Hm2) by (eapply published_Ok; [done| |exact Hpub]; cbn; by rewrite lookup_insert_eq).
    apply totalO_next; [|done]. apply (populateMessage_total _ _ _ _ (mkMessage messageName text [])); [|rewrite Hm2; cbn; by rewrite lookup_insert_eq|done].
    eapply fits_extends; [exact Hf|done|by etransitivity].
Qed.

Lemma typeForResolvedSchema_total schema name pointer component c :
  fits schema c -> totalO (typeForResolvedSchema doc rec schema name pointer component c).
Proof.
  intros Hf. unfold typeForResolvedSchema. apply totalO_check; [apply totalO_checks|intros _]. apply totalO_check; [apply schemaKind_total|intros kind].
  destruct (String.eqb kind "boolean"); [by apply scalar_total; left|].
  destruct (String.eqb kind "string"); [by apply scalar_total; right; left|].
  destruct (String.eqb kind "integer"); [by apply scalar_total; right; right; left|].
  destruct (String.eqb kind "number"); [by apply scalar_total; right; right; right|].
  destruct (String.eqb kind "array"); [by apply arrayType_total|].
  destruct (String.eqb kind "object"); [by apply objectType_total|done].
Qed.

Lemma inline_inside k items properties additional p :
  inside (mkSchema k items properties additional) p -> depth p < depth (Inline k items properties additional).
Proof.
  intros [Hp|[Hp|(l&n&Hp&Hin)]]; cbn in Hp; subst; cbn [depth]; [lia|lia|].
  assert (depth p <= foldr (fun kv n => Nat.max (match kv.2 with Some q => depth q | None => 0 end) n) 0 l); [|lia].
  induction l as [|kv l IH]; [by apply not_elem_of_nil in Hin|]. cbn. apply elem_of_cons in Hin as [<-|Hin]; cbn; [lia|]. apply IH in Hin. lia.
Qed.

Lemma componentType_total name pointer c : Wf c -> remaining c <= fuel -> totalO (componentType doc rec name pointer c).
Proof.
  intros Hc Hf. unfold componentType. apply totalO_next; [done|]. intros c0 c1 Hg. m_inv Hg. unfold id.
  destruct (c_componentTypes c !! name) as [value|] eqn:Hv; [done|]. destruct (decide (name ∈ c_building c)) as [|Hnb]; [done|].
  destruct (mjoin _) as [proxy|] eqn:Hp; [|done]. apply totalO_next; [done|]. intros u1 c1 Hb. m_inv Hb.
  pose proof (remaining_enter name proxy c Hp Hnb ltac:(by apply not_elem_of_dom)) as Hr. set (c1 := setBuilding _ c) in *.
  assert (Wf c1) as Hc1 by (by apply (Wf_same c)). apply totalO_next; [|intros value c2 _; by apply totalO_next]. apply totalO_wrap.
  destruct proxy as [siblings reference|e| |k items properties additional]; try done.
  - apply Hrec; [done|lia].
  - apply typeForResolvedSchema_total. split; [done|]. intros p Hin%inline_inside. lia.
Qed.
End Nested.

(** The conversion of any proxy, from any state, ends. *)
Lemma typeForSchema_total fuel proxy name pointer c :
  Wf c -> S (depth proxy) + remaining c <= fuel -> totalO (typeForSchema doc fuel proxy name pointer c).
Proof.
  revert proxy name pointer c. induction fuel as [|fuel IH]; intros proxy name pointer c Hc Hf; [lia|]. cbn [typeForSchema].
  pose proof (typeForSchema_sound doc fuel) as Hsound. destruct proxy as [siblings reference|e| |k items properties additional]; try done.
  - apply totalO_check; [apply totalO_failIf|intros _]. apply totalO_next; [apply totalO_wrap, totalO_lift; unfold internalComponentReference; pure_total|].
    intros n c1 Hn. apply wrap_Ok in Hn. m_inv Hn. eapply componentType_total; try done. cbn in Hf. lia.
  - eapply typeForResolvedSchema_total; try done. split; [done|]. intros p Hin%inline_inside. lia.
Qed.
Lemma typeFor_total proxy name pointer c : Wf c -> totalO (typeFor doc proxy name pointer c).
Proof. intros Hc. apply typeForSchema_total; [done|]. pose proof (remaining_le c). lia. Qed.
End Measure.
