(* ===== verification/OpenApiNames.v ===== *)
(** * Path templates of the importer

    A path the importer accepts is read back from its pieces, and replacing a
    placeholder in its text is replacing it in the pieces. *)
From S2P Require Import Prelude GoStrings StringFacts Json JsonParse ClickHouseFacts OpenApiModel OpenApiSchema OpenApiImport.
Import OpenApiModel OpenApiDoc OpenApiSchema OpenApiImport.

Notation Part := (string + string)%type.
Definition plain (s : string) : Prop := noByte "{" s = true /\ noByte "}" s = true.

(** A literal, then placeholders each followed by a literal, without stray braces. *)
Inductive template : list Part -> Prop :=
  | template_end l : plain l -> template [inl l]
  | template_var l n parts : plain l -> plain n -> n <> "" -> template parts -> template (inl l :: inr n :: parts).
Definition partText (part : Part) : string := match part with inl l => l | inr n => "{" +:+ n +:+ "}" end.
Definition unparse (parts : list Part) : string := foldr (fun part t => partText part +:+ t) "" parts.

Lemma plain_cons c s : plain (String c s) <-> c <> "{"%char /\ c <> "}"%char /\ plain s.
Proof. unfold plain. rewrite !noByte_cons. tauto. Qed.
Lemma plain_append s t : plain (s +:+ t) <-> plain s /\ plain t.
Proof. unfold plain. rewrite !noByte_append, !andb_true_iff. tauto. Qed.

(** ** Reading *)

Lemma append_snoc s c t : (s +:+ str1 c) +:+ t = s +:+ String c t.
Proof. by rewrite append_assoc. Qed.

Lemma partsLoop_plain l s acc : plain l -> partsLoop (l +:+ s) acc None = partsLoop s (acc +:+ l) None.
Proof.
  revert acc. induction l as [|c l IH]; intros acc Hl; [by rewrite append_nil_r|]. apply plain_cons in Hl as (Ho&_&Hl).
  rewrite append_cons. cbn [partsLoop]. rewrite (proj2 (Ascii.eqb_neq c "{") Ho), IH by done. by rewrite append_snoc.
Qed.
Lemma partsLoop_pending n s acc p : plain n -> partsLoop (n +:+ s) acc (Some p) = partsLoop s acc (Some (p +:+ n)).
Proof.
  revert p. induction n as [|c n IH]; intros p Hn; [by rewrite append_nil_r|]. apply plain_cons in Hn as (Ho&Hc&Hn).
  rewrite append_cons. cbn [partsLoop]. rewrite (proj2 (Ascii.eqb_neq c "{") Ho), (proj2 (Ascii.eqb_neq c "}") Hc), IH by done. by rewrite append_snoc.
Qed.
Lemma partsLoop_var n s acc : plain n -> n <> "" -> partsLoop ("{" +:+ n +:+ "}" +:+ s) acc None = inl acc :: inr n :: partsLoop s "" None.
Proof.
  intros Hn Hne. change ("{" +:+ n +:+ "}" +:+ s) with (String "{" (n +:+ "}" +:+ s)). cbn [partsLoop Ascii.eqb Bool.eqb].
  rewrite partsLoop_pending by done. change ("}" +:+ s) with (String "}" s). change ("" +:+ n) with n. cbn [partsLoop].
  rewrite (proj2 (String.eqb_neq n "") Hne). done.
Qed.

Lemma partsLoop_unparse parts acc :
  template parts -> partsLoop (unparse parts) acc None = match parts with inl l :: rest => inl (acc +:+ l) :: rest | _ => [] end.
Proof.
  intros Ht. revert acc. induction Ht as [l Hl|l n parts Hl Hn Hne Ht IH]; intros acc; cbn [unparse foldr partText].
  - rewrite partsLoop_plain by done. cbn [partsLoop]. by rewrite append_nil_r.
  - fold (unparse parts). rewrite partsLoop_plain, !append_assoc, partsLoop_var by done. rewrite IH. by destruct Ht.
Qed.
Lemma pathParts_unparse parts : template parts -> pathParts (unparse parts) = parts.
Proof. intros Ht. unfold pathParts. rewrite partsLoop_unparse by done. by destruct Ht. Qed.

(** ** The pieces of a path *)

Definition pendingText (p : option string) : string := match p with Some n => "{" +:+ n | None => "" end.
Lemma unparse_partsLoop s acc p : unparse (partsLoop s acc p) = acc +:+ pendingText p +:+ s.
Proof.
  revert acc p. induction s as [|c s IH]; intros acc p; cbn [partsLoop].
  - unfold unparse. cbn [foldr partText]. by rewrite !append_nil_r.
  - destruct p as [n|].
    + destruct (Ascii.eqb_spec c "{") as [->|Ho]; [rewrite IH; cbn [pendingText]; by rewrite !append_assoc|].
      destruct (Ascii.eqb_spec c "}") as [->|Hc].
      * destruct (String.eqb_spec n "") as [->|Hn]; [rewrite IH; cbn [pendingText]; by rewrite !append_assoc|].
        unfold unparse. cbn [foldr partText]. fold (unparse (partsLoop s "" None)). rewrite IH. cbn [pendingText]. by rewrite !append_assoc.
      * rewrite IH. cbn [pendingText]. by rewrite !append_assoc.
    + destruct (Ascii.eqb_spec c "{") as [->|Ho]; rewrite IH; cbn [pendingText]; by rewrite ?append_assoc.
Qed.
Lemma unparse_pathParts path : unparse (pathParts path) = path.
Proof. unfold pathParts. by rewrite unparse_partsLoop. Qed.

Definition literals (parts : list Part) : list string := omap (fun part => match part with inl l => Some l | inr _ => None end) parts.
Lemma partsLoop_head s acc p : exists x rest, partsLoop s acc p = inl (acc +:+ x) :: rest.
Proof.
  revert acc p. induction s as [|c s IH]; intros acc p; cbn [partsLoop]; [by eexists _, _|].
  assert (forall y p', exists x rest, partsLoop s (acc +:+ y) p' = inl (acc +:+ x) :: rest) as IH'.
  { intros y p'. destruct (IH (acc +:+ y) p') as (x&rest&->). eexists _, _. by rewrite append_assoc. }
  destruct p as [n|]; repeat case_match; try apply IH'; try apply IH. exists "", (inr n :: partsLoop s "" None). by rewrite append_nil_r.
Qed.
Lemma partsLoop_template s acc p :
  Forall plain (literals (partsLoop s acc p)) -> plain acc -> match p with Some n => plain n | None => True end -> template (partsLoop s acc p).
Proof.
  revert acc p. induction s as [|c s IH]; intros acc p Hf Ha Hp; cbn [partsLoop] in *.
  - destruct p as [n|]; [|by rewrite append_nil_r; constructor]. apply list.Forall_cons in Hf as [[_ Hf]%plain_append _].
    by apply plain_cons in Hf as [? _].
  - assert (forall acc' p', Forall plain (literals (partsLoop s acc' p')) -> plain acc') as Hhead.
    { intros acc' p' Hf'. destruct (partsLoop_head s acc' p') as (x&rest&E). rewrite E in Hf'. apply list.Forall_cons in Hf' as [Hx _].
      by apply plain_append in Hx as [? _]. }
    destruct p as [n|].
    + destruct (Ascii.eqb_spec c "{") as [->|Ho].
      { apply Hhead in Hf. rewrite plain_append in Hf. destruct Hf as [_ [? _]%plain_cons]. done. }
      destruct (Ascii.eqb_spec c "}") as [->|Hc].
      * destruct (String.eqb n "") eqn:Hn.
        { apply Hhead in Hf. rewrite plain_append in Hf. destruct Hf as [_ [? _]%plain_cons]. done. }
        apply String.eqb_neq in Hn. constructor; [done..|]. apply IH; [|done|done]. by apply list.Forall_cons in Hf as [_ Hf].
      * apply IH; [done..|]. rewrite plain_append. split; [done|]. by apply plain_cons.
    + destruct (Ascii.eqb_spec c "{") as [->|Ho]; [by apply IH|]. pose proof (Hhead _ _ Hf). by apply IH.
Qed.

Lemma plain_concat l : plain (String.concat "" l) -> Forall plain l.
Proof.
  induction l as [|s l IH]; [by constructor|]. destruct l as [|t l]; [intros Hs; by constructor|].
  change (String.concat "" (s :: t :: l)) with (s +:+ String.concat "" (t :: l)). intros [Hs Hl]%plain_append. constructor; [done|by apply IH].
Qed.
Lemma containsAny_false s chars c : containsAny s chars = false -> noByte c chars = false -> noByte c s = true.
Proof.
  unfold containsAny. intros Hs%negb_false_iff Hc. induction s as [|d s IH]; [done|]. cbn in Hs. apply andb_true_iff in Hs as [Hd Hs].
  apply noByte_cons. split; [|by apply IH]. intros ->. congruence.
Qed.
Lemma pathParts_template path : containsAny (pathLiterals path) "{}?#*" = false -> template (pathParts path).
Proof.
  intros Hc. apply partsLoop_template; [|done|done]. apply plain_concat. split; by eapply containsAny_false.
Qed.

(** ** Replacing *)

Definition renamePart (w f : string) (part : Part) : Part := match part with inl l => inl l | inr n => inr (if String.eqb n w then f else n) end.

Lemma ReplaceAll_plain l t p new : noByte "{" l = true -> ReplaceAll (l +:+ t) (String "{" p) new = l +:+ ReplaceAll t (String "{" p) new.
Proof.
  induction l as [|c l IH]; [done|]. intros [Hc Hl]%noByte_cons. rewrite append_cons, ReplaceAll_skip, IH by done. done.
Qed.
Lemma HasPrefix_closed n w t : plain n -> plain w -> HasPrefix (n +:+ "}" +:+ t) (w +:+ "}") = true -> n = w.
Proof.
  revert w. induction n as [|c n IH]; intros [|d w] Hn Hw; [done|..].
  - apply plain_cons in Hw as (_&Hd&_). rewrite append_cons. by intros [->%Ascii.eqb_eq _]%andb_true_iff.
  - apply plain_cons in Hn as (_&Hc&_). rewrite append_cons. by intros [<-%Ascii.eqb_eq _]%andb_true_iff.
  - apply plain_cons in Hn as (_&_&Hn). apply plain_cons in Hw as (_&_&Hw). rewrite !append_cons. cbn [HasPrefix].
    intros [->%Ascii.eqb_eq Hp]%andb_true_iff. f_equal. by apply IH.
Qed.
Lemma ReplaceAll_var n w t new : plain n -> plain w ->
  ReplaceAll ("{" +:+ n +:+ "}" +:+ t) ("{" +:+ w +:+ "}") new =
  (if String.eqb n w then new else "{" +:+ n +:+ "}") +:+ ReplaceAll t ("{" +:+ w +:+ "}") new.
Proof.
  intros Hn Hw. change ("{" +:+ w +:+ "}") with (String "{" (w +:+ "}")). destruct (String.eqb_spec n w) as [->|Hne].
  - rewrite <- (ReplaceAll_match "{" (w +:+ "}") t new). f_equal. change (String "{" (w +:+ "}") +:+ t) with (String "{" ((w +:+ "}") +:+ t)). by rewrite append_assoc.
  - unfold ReplaceAll at 1. change ("{" +:+ n +:+ "}" +:+ t) with (String "{" (n +:+ "}" +:+ t)). cbn [replaceFrom].
    change (HasPrefix (String "{" (n +:+ "}" +:+ t)) (String "{" (w +:+ "}"))) with (HasPrefix (n +:+ "}" +:+ t) (w +:+ "}")).
    destruct (HasPrefix _ _) eqn:Hp; [by apply HasPrefix_closed in Hp|]. fold (ReplaceAll (n +:+ "}" +:+ t) (String "{" (w +:+ "}")) new).
    rewrite <- (append_assoc n), ReplaceAll_plain; [by rewrite append_cons|]. rewrite noByte_append. by destruct Hn as [-> _].
Qed.

Lemma template_rename w f parts : plain f -> f <> "" -> template parts -> template (map (renamePart w f) parts).
Proof. intros Hf Hne Ht. induction Ht as [l Hl|l n parts Hl Hn Hn' Ht IH]; cbn; constructor; try done; by destruct (String.eqb n w). Qed.
Lemma unparse_rename w f parts : template parts -> plain w ->
  ReplaceAll (unparse parts) ("{" +:+ w +:+ "}") ("{" +:+ f +:+ "}") = unparse (map (renamePart w f) parts).
Proof.
  intros Ht Hw. induction Ht as [l Hl|l n parts Hl Hn Hne Ht IH]; cbn [map unparse foldr partText renamePart].
  - change ("{" +:+ w +:+ "}") with (String "{" (w +:+ "}")). rewrite ReplaceAll_plain by (by destruct Hl). done.
  - fold (unparse parts) (unparse (map (renamePart w f) parts)). rewrite <- IH.
    change ("{" +:+ w +:+ "}") with (String "{" (w +:+ "}")) at 1. rewrite ReplaceAll_plain by (by destruct Hl). f_equal.
    change (String "{" (w +:+ "}")) with ("{" +:+ w +:+ "}"). rewrite !append_assoc, ReplaceAll_var by done. destruct (String.eqb n w); by rewrite ?append_assoc.
Qed.

(** An identifier has no braces. *)
Lemma protoIdentifier_plain s : protoIdentifier s = true -> plain s /\ s <> "".
Proof.
  destruct s as [|c s]; [done|]. intros [Hc Hs]%andb_true_iff. split; [|done].
  assert (forall d, identByte d = true -> d <> "{"%char /\ d <> "}"%char) as Hd by (intros d; split; intros ->; done).
  assert (allBytes identByte (String c s) = true) as Ha by (cbn; unfold identByte at 1; by rewrite Hc, Hs).
  clear Hc Hs. induction (String c s) as [|d t IH]; [done|]. apply andb_true_iff in Ha as [Hi Ha]. destruct (Hd d Hi). apply plain_cons. by auto.
Qed.

(** ** Names of the importer

    On ASCII text Go's tables are known, and the field name of a portable identifier is
    one. *)
Import OpenApiModel.

Section Names.
Context `{UnicodeLaws}.

Definition asciiBytes (s : string) : bool := allBytes (fun c => (byteN c <? 128)%N) s.
Fixpoint codes (s : string) : list N := match s with EmptyString => [] | String c r => byteN c :: codes r end.

Lemma runesOf_ascii s : asciiBytes s = true -> runesOf s = codes s.
Proof.
  induction s as [|c s IH]; [done|]. intros [Hc Hs]%andb_true_iff. unfold runesOf in *. cbn [decode].
  assert (inRange 0 127 c = true) as ->. { unfold inRange. apply andb_true_iff. rewrite !N.leb_le. apply N.ltb_lt in Hc. lia. }
  cbn [map codeOf codes]. by rewrite IH.
Qed.
Lemma encodeRune_ascii r : (r < 128)%N -> encodeRune r = str1 (ascii_of_N r).
Proof.
  intros Hr. unfold encodeRune. assert (((55296 <=? r) && (r <=? 57343) || (1114111 <? r))%N = false) as ->.
  { apply orb_false_iff. split; [apply andb_false_iff; left; apply N.leb_gt; lia|apply N.ltb_ge; lia]. }
  by rewrite (proj2 (N.ltb_lt _ _) Hr).
Qed.
Lemma byteN_plain r : (r < 256)%N -> byteN (ascii_of_N r) = r.
Proof. intros Hr. unfold byteN. by apply N_ascii_embedding. Qed.

(** Letters and digits. *)
Definition alnum (r : N) : Prop := (r < 128)%N /\ upperLetter r || lowerLetter r || decimalDigit r = true.
Definition lowerAlnum (r : N) : Prop := (r < 128)%N /\ lowerLetter r || decimalDigit r = true.

Lemma textOfRunes_cons r rs : textOfRunes (r :: rs) = encodeRune r +:+ textOfRunes rs.
Proof. unfold textOfRunes. cbn [map]. destruct (map encodeRune rs); [by cbn; rewrite append_nil_r|done]. Qed.
Lemma textOfRunes_codes rs : Forall (fun r => (r < 128)%N) rs -> codes (textOfRunes rs) = rs /\ asciiBytes (textOfRunes rs) = true.
Proof.
  induction 1 as [|r rs Hr _ [IH1 IH2]]; [done|]. rewrite textOfRunes_cons, encodeRune_ascii by done. change (str1 (ascii_of_N r) +:+ textOfRunes rs) with (String (ascii_of_N r) (textOfRunes rs)).
  unfold asciiBytes in *. cbn [codes allBytes]. rewrite byteN_plain by lia. split; [by rewrite IH1|]. by rewrite (proj2 (N.ltb_lt _ _) Hr), IH2.
Qed.

(** The words of ASCII text are made of letters and digits. *)
Lemma splitLoop_alnum rs word words :
  Forall (fun r => (r < 128)%N) rs -> Forall alnum word -> Forall (fun w => exists rs, w = textOfRunes rs /\ rs <> [] /\ Forall alnum rs) words ->
  Forall (fun w => exists rs, w = textOfRunes rs /\ rs <> [] /\ Forall alnum rs) (splitLoop rs word words).
Proof.
  intros Hrs. revert word words.
  assert (forall word words, Forall alnum word -> Forall (fun w => exists rs, w = textOfRunes rs /\ rs <> [] /\ Forall alnum rs) words ->
    Forall (fun w => exists rs, w = textOfRunes rs /\ rs <> [] /\ Forall alnum rs) (flush word words)) as Hflush.
  { intros word words Hw Hws. unfold flush. destruct word as [|r word]; [done|]. apply list.Forall_app. split; [done|]. constructor; [|constructor]. by eexists. }
  induction Hrs as [|r rs Hr _ IH]; intros word words Hw Hws; cbn [splitLoop]; [by apply Hflush|].
  rewrite IsLetter_ascii, IsDigit_ascii by done. destruct (upperLetter r || lowerLetter r) eqn:El, (decimalDigit r) eqn:Ed; cbn [negb andb].
  4: by apply IH; [constructor|apply Hflush].
  all: assert (alnum r) as Hal by (split; [done|]; by rewrite El, ?Ed).
  all: destruct (list.last word); [|apply IH; [by constructor|done]].
  all: destruct (_ && _); [apply IH; [by constructor|by apply Hflush]|apply IH; [|done]; apply list.Forall_app; by split; [|constructor]].
Qed.

Lemma lowered rs : Forall alnum rs -> rs <> [] -> exists ls, UToLower (textOfRunes rs) = textOfRunes ls /\ ls <> [] /\ Forall lowerAlnum ls.
Proof.
  intros Hrs Hne. assert (Forall (fun r => (r < 128)%N) rs) as Hascii by (eapply list.Forall_impl; [done|]; by intros r [? _]).
  destruct (textOfRunes_codes rs Hascii) as [Hc Ha]. unfold UToLower. rewrite runesOf_ascii, Hc by done. exists (map ToLowerRune rs). split_and!; [done|by destruct rs|].
  clear Hne Hc Ha Hascii. induction Hrs as [|r rs [Hr Hal] _ IH]; cbn; constructor; [|done]. rewrite ToLowerRune_ascii by done.
  unfold lowerAlnum, upperLetter, lowerLetter, decimalDigit in *. destruct ((65 <=? r) && (r <=? 90))%N eqn:E; [|by rewrite orb_false_l in Hal].
  apply andb_true_iff in E as [E1%N.leb_le E2%N.leb_le]. split; [lia|]. apply orb_true_iff. left. apply andb_true_iff. rewrite !N.leb_le. lia.
Qed.

Lemma lowerAlnum_text ls : Forall lowerAlnum ls -> allBytes identByte (textOfRunes ls) = true.
Proof.
  induction 1 as [|r rs [Hr Hal] _ IH]; [done|]. rewrite textOfRunes_cons, encodeRune_ascii by done. change (str1 (ascii_of_N r) +:+ textOfRunes rs) with (String (ascii_of_N r) (textOfRunes rs)).
  cbn [allBytes]. rewrite IH, andb_true_r.
  unfold identByte, identStart, alphaByte, isLower, isUpper, isDigit, inRange. rewrite byteN_plain by lia. unfold lowerLetter, decimalDigit in Hal.
  apply orb_true_iff in Hal as [->| ->]; by rewrite ?orb_true_r.
Qed.
Lemma allBytes_Join p l sep : Forall (fun s => allBytes p s = true) l -> allBytes p sep = true -> allBytes p (Join l sep) = true.
Proof.
  intros Hl Hs. induction Hl as [|s l Hh _ IH]; [done|]. destruct l as [|t l]; [done|].
  change (Join (s :: t :: l) sep) with (s +:+ sep +:+ Join (t :: l) sep). rewrite !allBytes_append. by rewrite Hh, Hs, IH.
Qed.

(** The field name of ASCII text is a portable identifier. *)
Lemma protoFieldName_identifier s : asciiBytes s = true -> protoIdentifier (protoFieldName s) = true.
Proof.
  intros Hs. unfold protoFieldName. set (name := Join _ _).
  assert (allBytes identByte name = true) as Hname.
  { unfold name. apply allBytes_Join; [|done]. unfold splitWords. rewrite runesOf_ascii by done.
    assert (Forall (fun w => exists rs, w = textOfRunes rs /\ rs <> [] /\ Forall alnum rs) (splitLoop (codes s) [] [])) as Hw.
    { apply splitLoop_alnum; [|constructor|constructor]. clear name. induction s as [|c s IH]; [constructor|]. cbn in Hs.
      apply andb_true_iff in Hs as [Hc%N.ltb_lt Hs]. constructor; [done|by apply IH]. }
    induction Hw as [|w l (rs&->&Hne&Hal) _ IH]; cbn; constructor; [|done]. destruct (lowered rs Hal Hne) as (ls&->&_&Hls). by apply lowerAlnum_text. }
  assert (forall t, allBytes identByte t = true -> t <> "" -> startsWithDigit t = false -> protoIdentifier t = true) as Hid.
  { intros [|c t] Ht Hne Hd; [done|]. cbn [allBytes startsWithDigit protoIdentifier] in *. apply andb_true_iff in Ht as [Hc Ht]. rewrite Ht, andb_true_r. unfold identByte in Hc. by rewrite Hd, orb_false_r in Hc. }
  set (name1 := if String.eqb name "" then _ else _).
  assert (allBytes identByte name1 = true /\ name1 <> "") as [H1 H1'].
  { unfold name1. destruct (String.eqb_spec name ""); [done|done]. }
  set (name2 := if startsWithDigit name1 then _ else _).
  assert (protoIdentifier name2 = true) as H2.
  { unfold name2. destruct (startsWithDigit name1) eqn:Ed; [|by apply Hid]. apply Hid; [|done|done]. by rewrite allBytes_append, H1. }
  destruct (reservedWord name2); [|done]. destruct name2 as [|c t]; [done|]. rewrite append_cons. cbn [protoIdentifier] in *. apply andb_true_iff in H2 as [-> H2].
  rewrite allBytes_append, H2. done.
Qed.
Lemma protoIdentifier_ascii s : protoIdentifier s = true -> asciiBytes s = true.
Proof.
  destruct s as [|c s]; [done|]. intros [Hc Hs]%andb_true_iff.
  assert (forall d, identByte d = true -> (byteN d <? 128)%N = true) as Hd.
  { intros d. unfold identByte, identStart, alphaByte, isLower, isUpper, isDigit, inRange. rewrite !orb_true_iff, !andb_true_iff, !N.leb_le, N.ltb_lt.
    intros [[[?|?]|Hu]|?]; try lia. apply Ascii.eqb_eq in Hu as ->. done. }
  unfold asciiBytes. cbn [allBytes]. apply andb_true_iff. split; [apply Hd; unfold identByte; by rewrite Hc|]. induction s as [|d s IH]; [done|].
  cbn [allBytes] in Hs |- *. apply andb_true_iff in Hs as [Hi Hs]. by rewrite (Hd d Hi), IH.
Qed.
End Names.
