(* ===== verification/OpenApiSpec.v ===== *)
(** * What the OpenAPI importer promises

    The protobuf file it builds is consistent: every type it mentions is in it, names
    and numbers are distinct and portable, and the HTTP rule of a method names fields of
    its request and response.  Such a file is always rendered, and conversion ends. *)
From S2P Require Import Prelude GoStrings StringFacts Json JsonParse Termination BundleSpec OpenApiModel OpenApiSchema OpenApiImport OpenApiRender OpenApiSchemaSpec OpenApiNames.
Import OpenApiModel OpenApiDoc OpenApiSchema OpenApiImport OpenApiRender.

(** ** Fields of a request *)

Record requestOk (c : converter) (rq : requestState) : Prop := {
  ro_fields : Forall (fieldOk c) (rq_fields rq);
  ro_names : NoDup (map pf_name (rq_fields rq));
  ro_origins n : is_Some (rq_origins rq !! n) <-> n ∈ map pf_name (rq_fields rq)
}.
Lemma fieldOk_extends c c' f : extends c c' -> fieldOk c f -> fieldOk c' f.
Proof. intros []. by apply fieldOk_mono. Qed.
Lemma requestOk_extends c c' rq : extends c c' -> requestOk c rq -> requestOk c' rq.
Proof. intros Hex []. constructor; [|done|done]. eapply list.Forall_impl; [done|]. intros f. by apply fieldOk_extends. Qed.

Lemma addRequestField_Ok name field pointer path rq c rq' c' :
  requestOk c rq -> fieldOk c field -> addRequestField name field pointer path rq c = Ok (rq', c') ->
  c' = c /\ requestOk c rq' /\ rq_fields rq' = rq_fields rq ++ [field] /\ rq_path rq' = path.
Proof.
  intros [Hf Hn Ho] Hfield Ha. unfold addRequestField in Ha. destruct (rq_origins rq !! pf_name field) eqn:Hp; [done|]. m_inv Ha. split_and!; try done.
  constructor; cbn.
  - apply list.Forall_app. by split; [|constructor].
  - rewrite map_app. apply list.NoDup_app. split_and!; [done| |apply list.NoDup_singleton]. cbn. intros n Hin ->%list_elem_of_singleton.
    apply Ho in Hin. rewrite Hp in Hin. by destruct Hin.
  - intros n. rewrite map_app, elem_of_app. cbn. rewrite list_elem_of_singleton, <- Ho, lookup_insert_is_Some.
    destruct (decide (pf_name field = n)); naive_solver.
Qed.

Section Requests.
Context `{UnicodeTables} `{GoLib} (doc : Document).

Lemma typeFor_sound proxy name pointer : sound (typeFor doc proxy name pointer).
Proof. apply typeForSchema_sound. Qed.

Lemma parameterField_Ok imported parent path c f c' :
  Wf c -> parameterField doc imported parent path c = Ok (f, c') ->
  Wf c' /\ extends c c' /\ fieldOk c' f /\ pf_jsonName f = p_name (ip_parameter imported) /\ (path = true -> pf_required f = true).
Proof.
  intros Hc Hp. unfold parameterField in Hp. m_check Hp. m_next Hp as schema c1 Hs. apply wrap_Ok in Hs. m_inv Hs. m_check Hp.
  m_next Hp as fieldType c2 Ht. m_check Hp. m_inv Hp. apply typeFor_sound in Ht as (Hc2&Hex&Ht); [|done]. split_and!; try done.
  - constructor; cbn; [by apply negb_false_iff|done|]. intros Hr. by destruct (andb_false_elim _ _ Hcheck1) as [Hq|?]; [rewrite Hr in Hq|].
  - intros ->. done.
Qed.

(** *** The path *)

(** A placeholder that is the name of a required scalar field. *)
Definition bound (fields : list protoField) (n : string) : Prop :=
  exists f, f ∈ fields /\ pf_name f = n /\ pf_required f = true /\ wireScalar (pf_fieldType f) = true.
Lemma bound_app fields more n : bound fields n -> bound (fields ++ more) n.
Proof. intros (f&Hf&?). exists f. split; [|done]. apply elem_of_app. by left. Qed.

(** The text of the path while placeholders are replaced: the literals of the template,
    and each placeholder bound or still to come. *)
Definition pathOk (path : string) (rq : requestState) (seen : list string) : Prop :=
  exists parts, template parts /\ rq_path rq = unparse parts /\ literals parts = literals (pathParts path) /\
    forall n, inr n ∈ parts -> bound (rq_fields rq) n \/ (n ∈ pathVariables path /\ n ∉ seen).

Lemma template_plain parts n : template parts -> inr n ∈ parts -> plain n /\ n <> "".
Proof.
  intros Ht. induction Ht as [l Hl|l k parts Hl Hk Hne Ht IH]; rewrite ?elem_of_cons.
  - intros [?|Hn]; [done|by apply not_elem_of_nil in Hn].
  - intros [?|[[= ->]|?]]; [done|done|by apply IH].
Qed.
Lemma pathVariables_elem path n : n ∈ pathVariables path <-> inr n ∈ pathParts path.
Proof.
  unfold pathVariables. rewrite list_elem_of_omap. split; [intros ([l|k]&Hin&E); [done|by injection E as ->]|]. intros Hin. by exists (inr n).
Qed.
Lemma literals_rename w f parts : literals (map (renamePart w f) parts) = literals parts.
Proof. unfold literals. induction parts as [|[l|n] parts IH]; cbn; [done|by f_equal|done]. Qed.

Lemma addPathParameter_Ok spec name parameters rq seen w c rq' seen' c' :
  Wf c -> requestOk c rq -> template (pathParts (sp_path spec)) -> pathOk (sp_path spec) rq seen -> w ∈ pathVariables (sp_path spec) ->
  addPathParameter doc spec name parameters (rq, seen) w c = Ok ((rq', seen'), c') ->
  Wf c' /\ extends c c' /\ requestOk c' rq' /\ pathOk (sp_path spec) rq' seen' /\ w ∈ seen' /\ seen ⊆ seen'.
Proof.
  intros Hc Hrq Htpl (parts&Ht&Htext&Hlit&Hb) Hw Ha. unfold addPathParameter in Ha. destruct (parameters !! w) as [imported|]; [|done].
  destruct (decide (w ∈ seen)) as [Hs|Hs]; [m_inv Ha; split_and!; try done; by exists parts|].
  m_next Ha as field c1 Hp. m_check Ha. m_next Ha as rq1 c2 Hadd. m_inv Ha. apply parameterField_Ok in Hp as (Hc1&Hex&Hf&_&Hreq); [|done].
  apply addRequestField_Ok in Hadd as (->&Hrq'&Hfields&Hpath); [|by eapply requestOk_extends|done]. apply negb_false_iff in Hcheck.
  apply pathVariables_elem in Hw as Hw'. destruct (template_plain _ _ Htpl Hw') as [Hpw _].
  destruct (protoIdentifier_plain (pf_name field)) as [Hpf Hne]; [apply Hf|]. split_and!; try done; [|set_solver..].
  exists (map (renamePart w (pf_name field)) parts). split_and!; [by apply template_rename| |by rewrite literals_rename|].
  - rewrite Hpath, Htext. by apply unparse_rename.
  - assert (bound (rq_fields rq1) (pf_name field)) as Hbf.
    { exists field. rewrite Hfields. split_and!; [set_solver|done|by apply Hreq|done]. }
    intros n ([l|k]&E&Hin)%list_elem_of_fmap; [done|]. cbn in E. injection E as ->. destruct (String.eqb_spec k w) as [->|Hk]; [by left|].
    destruct (Hb k Hin) as [Hk'|[? ?]]; [left; rewrite Hfields; by apply bound_app|right; set_solver].
Qed.

Lemma requestOk_start c path : requestOk c (mkRequestState [] ∅ path).
Proof. constructor; cbn; [constructor|constructor|]. intros n. rewrite lookup_empty. split; [by intros [? ?]|by intros ?%not_elem_of_nil]. Qed.
Lemma pathOk_start path : template (pathParts path) -> pathOk path (mkRequestState [] ∅ path) [].
Proof.
  intros Ht. exists (pathParts path). split_and!; [done|by rewrite unparse_pathParts|done|]. intros n Hn%pathVariables_elem. right.
  split; [done|by apply not_elem_of_nil].
Qed.

Lemma pathParameters_Ok spec name parameters c rq seen c' :
  Wf c -> template (pathParts (sp_path spec)) ->
  foldM (addPathParameter doc spec name parameters) (pathVariables (sp_path spec)) (mkRequestState [] ∅ (sp_path spec), []) c = Ok ((rq, seen), c') ->
  Wf c' /\ extends c c' /\ requestOk c' rq /\ template (pathParts (rq_path rq)) /\ literals (pathParts (rq_path rq)) = literals (pathParts (sp_path spec)) /\
  forall n, n ∈ pathVariables (rq_path rq) -> bound (rq_fields rq) n.
Proof.
  intros Hc Htpl Hf.
  set (P := fun (done_ : list string) (st : requestState * list string) c1 =>
    Wf c1 /\ extends c c1 /\ requestOk c1 st.1 /\ pathOk (sp_path spec) st.1 st.2 /\ done_ ⊆ st.2).
  assert (P (pathVariables (sp_path spec)) (rq, seen) c') as (Hc'&Hex&Hrq&(parts&Ht&Htext&Hlit&Hb)&Hseen).
  { eapply (foldM_Ok _ P); [| |exact Hf].
    - intros done_ w todo [rq1 seen1] c1 [rq2 seen2] c2 Hl (Hc1&Hex1&Hrq1&Hp1&Hs1) Ha. cbn [fst snd] in *.
      apply addPathParameter_Ok in Ha as (?&?&?&?&?&?); try done; [|rewrite Hl; set_solver].
      split_and!; cbn; try done; [by etransitivity|]. intros x [Hx| ->%list_elem_of_singleton]%elem_of_app; [set_solver|done].
    - split_and!; cbn; try done.
      + apply requestOk_start.
      + by apply pathOk_start. }
  cbn [fst snd] in *. split_and!; try done.
  - by rewrite Htext, pathParts_unparse.
  - by rewrite Htext, pathParts_unparse.
  - intros n. rewrite pathVariables_elem, Htext, pathParts_unparse by done. intros Hn. destruct (Hb n Hn) as [?|[? ?]]; [done|set_solver].
Qed.

Lemma rooted_path p p' :
  template (pathParts p) -> template (pathParts p') -> literals (pathParts p') = literals (pathParts p) -> HasPrefix p "/" = true -> HasPrefix p' "/" = true.
Proof.
  intros Ht Ht' Hl. rewrite <- (unparse_pathParts p), <- (unparse_pathParts p').
  assert (exists l rest, pathParts p = inl l :: rest /\ (l = "" -> HasPrefix (unparse (pathParts p)) "/" = false)) as (l&rest&E&Hne)
    by (destruct Ht as [l Hl'|l n parts ? ? ?]; eexists _, _; (split; [done|]); by intros ->).
  assert (exists rest', pathParts p' = inl l :: rest') as (rest'&E').
  { rewrite E in Hl. destruct Ht' as [l' Hl'|l' n parts ? ? ?]; cbn in Hl; injection Hl as -> _; by eexists. }
  intros Hp. destruct l as [|a l]; [by rewrite Hne in Hp|]. rewrite E in Hp. rewrite E'.
  apply HasPrefix_spec in Hp as [t Hp]. injection Hp as -> _. apply HasPrefix_spec. by eexists.
Qed.

(** *** The body and the query *)

Lemma requestBody_Ok body name pointer c t d r c' :
  Wf c -> requestBody doc body name pointer c = Ok ((t, d, r), c') -> Wf c' /\ extends c c' /\ typeOk c' t /\ (r = true -> collection t = false).
Proof.
  intros Hc Hb. unfold requestBody in Hb. m_check Hb. m_next Hb as fieldType c1 Ht. m_check Hb. m_inv Hb.
  apply typeFor_sound in Ht as (?&?&?); [|done]. split_and!; try done. intros Hr. by destruct (andb_false_elim _ _ Hcheck0) as [Hq|?]; [rewrite Hr in Hq|].
Qed.
Lemma addBody_Ok spec name rq c rq' selector c' :
  Wf c -> requestOk c rq -> addBody doc spec name rq c = Ok ((rq', selector), c') ->
  Wf c' /\ extends c c' /\ requestOk c' rq' /\ (exists more, rq_fields rq' = rq_fields rq ++ more) /\ rq_path rq' = rq_path rq /\
  (selector = "" \/ selector ∈ map pf_name (rq_fields rq')).
Proof.
  intros Hc Hrq Hb. unfold addBody in Hb. destruct (o_requestBody _) as [body|]; [|m_inv Hb; split_and!; try done; [exists []; by rewrite app_nil_r|by left]].
  m_check Hb. m_next Hb as v c1 Hr. destruct v as [[t d] r]. m_next Hb as rq1 c2 Ha. m_inv Hb. apply requestBody_Ok in Hr as (Hc1&Hex&Ht&Hr); [|done].
  apply addRequestField_Ok in Ha as (->&Hrq'&Hfields&Hpath); [|by eapply requestOk_extends|by constructor].
  split_and!; try done; [by eexists|]. right. rewrite Hfields, map_app. set_solver.
Qed.
Lemma addQueryParameter_Ok name rq imported c rq' c' :
  Wf c -> requestOk c rq -> addQueryParameter doc name rq imported c = Ok (rq', c') ->
  Wf c' /\ extends c c' /\ requestOk c' rq' /\ (exists more, rq_fields rq' = rq_fields rq ++ more) /\ rq_path rq' = rq_path rq.
Proof.
  intros Hc Hrq Hq. unfold addQueryParameter in Hq. m_next Hq as field c1 Hp. m_check Hq. apply parameterField_Ok in Hp as (Hc1&Hex&Hf&_); [|done].
  apply addRequestField_Ok in Hq as (->&Hrq'&Hfields&Hpath); [|by eapply requestOk_extends|done]. split_and!; try done. by eexists.
Qed.
Lemma queryParameters_Ok name l rq c rq' c' :
  Wf c -> requestOk c rq -> foldM (addQueryParameter doc name) l rq c = Ok (rq', c') ->
  Wf c' /\ extends c c' /\ requestOk c' rq' /\ (exists more, rq_fields rq' = rq_fields rq ++ more) /\ rq_path rq' = rq_path rq.
Proof.
  intros Hc Hrq Hf.
  eapply (foldM_Ok _ (fun _ rq1 c1 => Wf c1 /\ extends c c1 /\ requestOk c1 rq1 /\ (exists more, rq_fields rq1 = rq_fields rq ++ more) /\ rq_path rq1 = rq_path rq)); [| |exact Hf].
  - intros _ x _ rq1 c1 rq2 c2 _ (Hc1&Hex1&Hrq1&(more&Hm)&Hp1) Ha. apply addQueryParameter_Ok in Ha as (?&?&?&(more'&Hm')&?); [|done..].
    split_and!; try done; [by etransitivity| |congruence]. exists (more ++ more'). by rewrite Hm', Hm, app_assoc.
  - split_and!; try done. exists []. by rewrite app_nil_r.
Qed.

(** *** The request *)

Definition inputOk (c : converter) (input path body : string) : Prop :=
  (input = emptyMessage /\ emptyImport ∈ c_imports c /\ body = "" /\ pathVariables path = []) \/
  exists m, c_messages c !! input = Some m /\ (body = "" \/ body ∈ map pf_name (pm_fields m)) /\ forall n, n ∈ pathVariables path -> bound (pm_fields m) n.

Lemma numbered_names fields : map pf_name (numbered fields) = map pf_name fields.
Proof.
  unfold numbered. change (map pf_name) with (fmap (M:=list) pf_name). rewrite fmap_imap. change (imap (const pf_name) fields = pf_name <$> fields). apply imap_const.
Qed.
Lemma numbered_elem fields f : f ∈ numbered fields -> exists g, g ∈ fields /\ pf_name f = pf_name g /\ pf_fieldType f = pf_fieldType g /\ pf_required f = pf_required g.
Proof.
  intros (i&Hi)%list_elem_of_lookup. unfold numbered in Hi. rewrite list_lookup_imap in Hi. destruct (fields !! i) as [g|] eqn:E; [|done].
  cbn in Hi. injection Hi as <-. exists g. split_and!; try done. by eapply list_elem_of_lookup_2.
Qed.
Lemma numbered_bound fields n : bound fields n -> bound (numbered fields) n.
Proof.
  intros (f&(i&Hi)%list_elem_of_lookup&Hn&Hr&Hs). eexists. split; [apply list_elem_of_lookup; exists i; unfold numbered; by rewrite list_lookup_imap, Hi|].
  by cbn.
Qed.
Lemma numbered_messageOk c name text rq : requestOk c rq -> messageOk c (mkMessage name text (numbered (rq_fields rq))).
Proof.
  intros [Hf Hn _]. constructor; cbn.
  - apply list.Forall_forall. intros f (g&Hg&E1&E2&E3)%numbered_elem. rewrite list.Forall_forall in Hf. destruct (Hf g Hg) as [H1 H2 H3].
    constructor; [by rewrite E1|by rewrite E2|by rewrite E2, E3].
  - by rewrite numbered_names.
  - unfold numbered. rewrite length_imap. apply list_eq. intros i. change (map pf_number) with (fmap (M:=list) pf_number).
    change (map protobufFieldNumber) with (fmap (M:=list) protobufFieldNumber). rewrite !list_lookup_fmap, list_lookup_imap.
    destruct (rq_fields rq !! i) as [g|] eqn:E; cbn.
    + rewrite lookup_seq_lt; [done|]. by eapply lookup_lt_Some.
    + by rewrite lookup_seq_ge by (by apply lookup_ge_None).
Qed.

Lemma buildRequest_Ok spec name c input path body c' :
  Wf c -> buildRequest doc spec name c = Ok ((input, path, body), c') ->
  Wf c' /\ extends c c' /\ inputOk c' input path body /\ HasPrefix path "/" = true /\ template (pathParts path) /\
  literals (pathParts path) = literals (pathParts (sp_path spec)).
Proof.
  intros Hc Hb. unfold buildRequest in Hb. m_check Hb. unfold checkPath in Hcheck. outcome_inv Hcheck. apply negb_false_iff in Hv.
  pose proof (pathParts_template _ Hv0) as Htpl. m_check Hb. m_check Hb. m_next Hb as st c1 Hf. destruct st as [rq seen]. m_check Hb.
  apply pathParameters_Ok in Hf as (Hc1&Hex1&Hrq1&Ht1&Hl1&Hb1); [|done..]. m_next Hb as st c2 Hbody. destruct st as [rq2 selector].
  apply addBody_Ok in Hbody as (Hc2&Hex2&Hrq2&(more2&Hm2)&Hp2&Hsel); [|done..]. m_next Hb as rq3 c3 Hq.
  apply queryParameters_Ok in Hq as (Hc3&Hex3&Hrq3&(more3&Hm3)&Hp3); [|done..]. m_next Hb as u c4 Hi. unfold addImport in Hi. m_inv Hi.
  destruct (addImport_Wf annotationsImport c3 Hc3) as [Hc4 Hex4]. set (c4 := setImports _ _) in *.
  assert (extends c c4) as Hex by (etransitivity; [exact Hex1|]; etransitivity; [exact Hex2|]; by etransitivity).
  assert (rq_path rq3 = rq_path rq) as Hpath by congruence. assert (rq_fields rq3 = rq_fields rq ++ more2 ++ more3) as Hfields by (by rewrite Hm3, Hm2, app_assoc).
  assert (forall n, n ∈ pathVariables (rq_path rq3) -> bound (rq_fields rq3) n) as Hbound.
  { intros n. rewrite Hpath, Hfields. intros Hn. by apply bound_app, Hb1. }
  assert (HasPrefix (rq_path rq3) "/" = true) as Hroot by (rewrite Hpath; by eapply rooted_path).
  destruct (rq_fields rq3) as [|f fields] eqn:Efields.
  - m_next Hb as u2 c5 Hi. unfold addImport in Hi. m_inv Hi. m_inv Hb. destruct (addImport_Wf emptyImport c4 Hc4) as [Hc5 Hex5].
    split_and!; [done|by etransitivity| |done|by rewrite Hpath|by rewrite Hpath]. left. split_and!; [done|cbn; set_solver| |].
    + symmetry in Hfields. apply app_eq_nil in Hfields as [Hr [Hm _]%app_eq_nil]. rewrite Hm2, Hr, Hm in Hsel. cbn in Hsel. by destruct Hsel as [?|?%not_elem_of_nil].
    + destruct (pathVariables (rq_path rq3)) as [|n l]; [done|]. destruct (Hbound n) as (g&Hg&_); [by left|by apply not_elem_of_nil in Hg].
  - rewrite <- Efields in Hb. m_next Hb as u2 c5 Ha. m_inv Hb. apply addMessage_Ok in Ha as (Hid&Hs&Hn&->). cbn [pm_name] in *.
    edestruct (Wf_addMessage (mkMessage (name +:+ "Request") ("Request for " +:+ name +:+ ".") (numbered (rq_fields rq3))) c4) as [Hc5 Hex5];
      [done..|apply numbered_messageOk; exact (requestOk_extends _ _ _ Hex4 Hrq3)|]. cbn [pm_name] in *.
    split_and!; [exact Hc5|by etransitivity| |done|by rewrite Hpath|by rewrite Hpath]. right. eexists. split; [cbn; by rewrite lookup_insert_eq|]. cbn [pm_fields].
    rewrite numbered_names. split; [|intros n Hin; apply numbered_bound; rewrite Efields; by apply Hbound]. destruct Hsel as [->|Hsel]; [by left|right].
    rewrite Efields, Hm3, map_app. set_solver.
Qed.
End Requests.

(** ** Responses *)

Section Operations.
Context `{UnicodeLaws} `{GoLib} (doc : Document).

Definition outputOk (c : converter) (output responseBody : string) : Prop :=
  (output = emptyMessage /\ emptyImport ∈ c_imports c /\ responseBody = "") \/
  exists m f, c_messages c !! output = Some m /\ pm_fields m = [f] /\ pf_name f = responseBody.

Lemma warn_Ok message c u c' : Wf c -> warn message c = Ok (u, c') -> Wf c' /\ extends c c' /\ c_messages c' = c_messages c.
Proof.
  intros Hc Hw. unfold warn in Hw. m_inv Hw. case_decide; [done|]. split_and!; [by apply (Wf_same c)|by constructor|done].
Qed.
Lemma warnIf_Ok cond message c u c' : Wf c -> warnIf cond message c = Ok (u, c') -> Wf c' /\ extends c c'.
Proof. intros Hc Hw. destruct cond; cbn in Hw; [by apply warn_Ok in Hw as (?&?&_)|m_inv Hw; done]. Qed.

Lemma responseField_identifier c t : Wf c -> typeOk c t -> protoIdentifier (responseField t) = true.
Proof.
  intros Hc [t' [name rules Hn|name m Hm|Ht]|rules t' _|rules t' _]; try done. cbn. destruct (HasPrefix name _); [done|].
  apply protoFieldName_identifier, protoIdentifier_ascii. by destruct (wf_message _ Hc _ _ Hm) as (_&?&_).
Qed.

Lemma warnings_Ok {A} (f : A -> bool * string) l c u c' :
  Wf c -> foldM (fun _ x => warnIf (f x).1 (f x).2) l tt c = Ok (u, c') -> Wf c' /\ extends c c'.
Proof.
  intros Hc Hf. eapply (foldM_Ok _ (fun _ _ c1 => Wf c1 /\ extends c c1)); [| |exact Hf]; [|done].
  intros _ x _ [] c1 [] c2 _ [Hc1 Hex1] Hw. apply warnIf_Ok in Hw as [? ?]; [|done]. split; [done|by etransitivity].
Qed.

Lemma buildResponse_Ok spec name c output body c' :
  Wf c -> buildResponse doc spec name c = Ok ((output, body), c') -> Wf c' /\ extends c c' /\ outputOk c' output body.
Proof.
  intros Hc Hb. unfold buildResponse in Hb. destruct (o_responses _ ≫= _) as [[codes def]|]; [|done]. m_check Hb.
  destruct (sortStrings x) as [|success [|? ?]]; try done. m_next Hb as u1 c1 Hw1. m_next Hb as u2 c2 Hw2. m_next Hb as u3 c3 Hw3.
  apply warnIf_Ok in Hw1 as [Hc1 Hex1]; [|done].
  apply (warnings_Ok (fun kv => (negb (String.eqb kv.1 success) && responseHasContract kv.2, _))) in Hw2 as [Hc2 Hex2]; [|done].
  apply warnIf_Ok in Hw3 as [Hc3 Hex3]; [|done]. destruct (mjoin _) as [response|]; [|done].
  m_next Hb as u4 c4 Hw4. m_next Hb as u5 c5 Hw5. apply warnIf_Ok in Hw4 as [Hc4 Hex4]; [|done]. apply warnIf_Ok in Hw5 as [Hc5 Hex5]; [|done].
  assert (extends c c5) as Hex by (repeat (etransitivity; [eassumption|]); done). clear Hex1 Hex2 Hex3 Hex4 Hex5 Hc1 Hc2 Hc3 Hc4.
  destruct (negb _).
  - m_next Hb as u6 c6 Hi. unfold addImport in Hi. m_inv Hi. m_inv Hb. destruct (addImport_Wf emptyImport c5 Hc5) as [Hc6 Hex6].
    split_and!; [done|by etransitivity|]. left. split_and!; [done|cbn; set_solver|done].
  - m_check Hb. m_next Hb as fieldType c6 Ht. m_next Hb as u7 c7 Ha. m_inv Hb. apply typeFor_sound in Ht as (Hc6&Hex6&Ht); [|done].
    apply addMessage_Ok in Ha as (Hid&Hs&Hn&->). cbn [pm_name] in *. lazymatch goal with |- context [mkMessage ?n ?t ?fs] => set (m := mkMessage n t fs) in * end.
    assert (messageOk c6 m) as Hm.
    { constructor; cbn; [|apply list.NoDup_singleton|done]. constructor; [|constructor]. constructor; cbn; [by eapply responseField_identifier|done|done]. }
    destruct (Wf_addMessage m c6 Hc6 Hid Hs Hn Hm (<[pm_name m := sp_pointer spec +:+ "/responses/" +:+ escapeJSONPointer success]> (c_messageOrigins c6))) as [Hc7 Hex7].
    split_and!; [exact Hc7|by repeat (etransitivity; [eassumption|])|]. right. eexists m, _. split_and!; [cbn; by rewrite lookup_insert_eq|done|done].
Qed.

(** ** Methods *)

Record methodOk (c : converter) (m : protoMethod) : Prop := {
  mk_name : protoIdentifier (me_name m) = true;
  mk_http : me_httpMethod m ∈ supportedMethods;
  mk_rooted : HasPrefix (me_httpPath m) "/" = true;
  mk_template : template (pathParts (me_httpPath m));
  mk_input : inputOk c (me_input m) (me_httpPath m) (me_body m);
  mk_output : outputOk c (me_output m) (me_responseBody m)
}.
Lemma inputOk_mono c c' i p b : c_messages c ⊆ c_messages c' -> c_imports c ⊆ c_imports c' -> inputOk c i p b -> inputOk c' i p b.
Proof.
  intros Hm Hi [(->&?&?&?)|(m&Hl&?&?)]; [left; split_and!; try done; set_solver|right]. exists m. split_and!; try done. by eapply lookup_weaken.
Qed.
Lemma outputOk_mono c c' o b : c_messages c ⊆ c_messages c' -> c_imports c ⊆ c_imports c' -> outputOk c o b -> outputOk c' o b.
Proof.
  intros Hm Hi [(->&?&?)|(m&f&Hl&?&?)]; [left; split_and!; try done; set_solver|right]. exists m, f. split_and!; try done. by eapply lookup_weaken.
Qed.
Lemma methodOk_mono c c' m : c_messages c ⊆ c_messages c' -> c_imports c ⊆ c_imports c' -> methodOk c m -> methodOk c' m.
Proof. intros Hm Hi []. constructor; try done; [by eapply inputOk_mono|by eapply outputOk_mono]. Qed.

Lemma convertOperation_Ok spec c m c' :
  Wf c -> sp_httpMethod spec ∈ supportedMethods -> convertOperation doc spec c = Ok (m, c') ->
  Wf c' /\ c_service c' = c_service c /\ c_messages c ⊆ c_messages c' /\ c_imports c ⊆ c_imports c' /\ methodOk c' m /\
  c_operationNames c !! me_name m = None /\ dom (c_operationNames c') = {[me_name m]} ∪ dom (c_operationNames c).
Proof.
  intros Hc Hh Hb. unfold convertOperation in Hb. m_check Hb. m_next Hb as u1 c1 Hw1. m_next Hb as u2 c2 Hw2.
  apply warnIf_Ok in Hw1 as [Hc1 Hex1]; [|done]. apply warnIf_Ok in Hw2 as [Hc2 Hex2]; [|done]. m_check Hb.
  lazymatch type of Hcheck0 with negb (protoIdentifier ?n) = false => set (name := n) in * end. apply negb_false_iff in Hcheck0.
  m_next Hb as previous c3 Hg. m_inv Hg. destruct (c_operationNames c2 !! name) eqn:Hprev; [done|].
  m_next Hb as u3 c3 Hset. m_inv Hset. set (c3 := setOperations _ c2) in *. assert (Wf c3) as Hc3 by (by apply (Wf_same c2)).
  m_next Hb as v c4 Hrq. destruct v as [[request path] body]. apply buildRequest_Ok in Hrq as (Hc4&Hex4&Hin&Hroot&Htpl&_); [|done].
  m_next Hb as v c5 Hrs. destruct v as [response responseBody]. apply buildResponse_Ok in Hrs as (Hc5&Hex5&Hout); [|done]. m_inv Hb.
  assert (extends c c2) as Hex by (by etransitivity). pose proof (ex_operations _ _ Hex) as Hops. destruct Hex, Hex4, Hex5. cbn in *.
  split_and!; [done|congruence|by repeat (etransitivity; [eassumption|])|by repeat (etransitivity; [eassumption|])| |by rewrite <- Hops| ].
  - constructor; cbn; try done. by eapply inputOk_mono.
  - rewrite ex_operations1, ex_operations0. cbn. rewrite dom_insert_L, Hops. done.
Qed.

(** ** The document *)

Lemma pathOperations_Ok specs entry c specs' c' :
  Wf c -> Forall (fun s => sp_httpMethod s ∈ supportedMethods) specs -> pathOperations specs entry c = Ok (specs', c') ->
  Wf c' /\ extends c c' /\ Forall (fun s => sp_httpMethod s ∈ supportedMethods) specs'.
Proof.
  intros Hc Hs Hp. destruct entry as [path [item|]]; [|done]. unfold pathOperations in Hp. m_check Hp. m_next Hp as u c1 Hw.
  apply warnIf_Ok in Hw as [Hc1 Hex1]; [|done]. m_inv Hp. split_and!; [done..|]. revert specs Hs Hp.
  induction (candidates item) as [|[n [operation|]] l IH]; intros specs Hs Hp; cbn [foldOutcome fst snd] in Hp.
  - by injection Hp as <-.
  - outcome_inv Hp. apply (IH (specs ++ [mkSpec n path item operation ("#/paths/" +:+ escapeJSONPointer path +:+ "/" +:+ n)])); [|exact Hp].
    apply list.Forall_app. split; [done|]. constructor; [|constructor]. cbn. by apply negb_false_iff, bool_decide_eq_true in Hv0.
  - by apply (IH specs).
Qed.
Lemma operations_Ok paths c specs c' :
  Wf c -> operations paths c = Ok (specs, c') -> Wf c' /\ extends c c' /\ Forall (fun s => sp_httpMethod s ∈ supportedMethods) specs /\ specs <> [].
Proof.
  intros Hc Ho. unfold operations in Ho. m_next Ho as specs0 c1 Hf.
  apply (foldM_Ok _ (fun _ specs c1 => Wf c1 /\ extends c c1 /\ Forall (fun s => sp_httpMethod s ∈ supportedMethods) specs)) in Hf as (Hc1&Hex1&Hs); [|clear..|].
  - destruct specs0 as [|spec specs0]; [done|]. m_inv Ho. split_and!; try done.
    + by rewrite merge_sort_Permutation.
    + intros E. pose proof (merge_sort_Permutation spec_le (spec :: specs0)) as Hp. rewrite E in Hp. by apply Permutation_nil_cons in Hp.
  - intros _ x _ specs1 c1 specs2 c2 _ (Hc1&Hex1&Hs1) Hp. apply pathOperations_Ok in Hp as (?&?&?); [|done..]. split_and!; try done. by etransitivity.
  - by split_and!.
Qed.

(** The numbers protobuf allows are positive and outside the range it reserves.  Those of
    the fields of a message increase, so they are distinct, leave no allowed number out, and
    are at most a thousand above the count of the fields. *)
Definition allowed (number : Z) : Prop := (0 < number)%Z /\ ~ (19000 <= number <= 19999)%Z.
Record numbersOk (numbers : list Z) : Prop := {
  no_increase i j a b : numbers !! i = Some a -> numbers !! j = Some b -> i < j -> (a < b)%Z;
  no_allowed : Forall allowed numbers;
  no_gap a b : b ∈ numbers -> allowed a -> (a < b)%Z -> a ∈ numbers;
  no_bound : Forall (fun number => number <= Z.of_nat (length numbers) + 1000)%Z numbers
}.
Lemma protobufFieldNumber_onto a : allowed a -> exists i, a = protobufFieldNumber i.
Proof.
  intros [Ha Hr]. unfold protobufFieldNumber. destruct (Z.lt_ge_cases a 19000).
  - exists (Z.to_nat (a - 1)). destruct (Z.leb_spec 19000 (Z.of_nat (Z.to_nat (a - 1)) + 1)); lia.
  - exists (Z.to_nat (a - 1001)). destruct (Z.leb_spec 19000 (Z.of_nat (Z.to_nat (a - 1001)) + 1)); lia.
Qed.
Lemma numbersOk_seq n : numbersOk (map protobufFieldNumber (seq 0 n)).
Proof.
  assert (forall i a, map protobufFieldNumber (seq 0 n) !! i = Some a -> i < n /\ a = protobufFieldNumber i) as Hl.
  { intros i a. change (map protobufFieldNumber) with (fmap (M:=list) protobufFieldNumber). rewrite list_lookup_fmap. intros (j&[-> Hj]%lookup_seq&->)%fmap_Some. done. }
  assert (forall i, i < n -> protobufFieldNumber i ∈ map protobufFieldNumber (seq 0 n)) as Hin.
  { intros i Hi. apply list_elem_of_In, in_map, in_seq. lia. }
  constructor.
  - intros i j a b [_ ->]%Hl [_ ->]%Hl. apply protobufFieldNumber_mono.
  - apply list.Forall_forall. intros a (i&[_ ->]%Hl)%list_elem_of_lookup. apply protobufFieldNumber_ok.
  - intros a b (j&[Hj ->]%Hl)%list_elem_of_lookup (i&->)%protobufFieldNumber_onto Hlt. apply Hin.
    destruct (Nat.lt_trichotomy i j) as [?|[->|Hji%protobufFieldNumber_mono]]; lia.
  - rewrite length_map, length_seq. apply list.Forall_forall. intros a (i&[Hi ->]%Hl)%list_elem_of_lookup. unfold protobufFieldNumber.
    destruct (Z.leb_spec 19000 (Z.of_nat i + 1)); lia.
Qed.
Lemma Wf_numbers c n m : Wf c -> c_messages c !! n = Some m -> numbersOk (map pf_number (pm_fields m)).
Proof. intros Hc Hm. destruct (wf_message _ Hc _ _ Hm) as (_&_&_&[_ _ ->]). apply numbersOk_seq. Qed.

Record fileOk (service : protoService) (c : converter) : Prop := {
  fi_service_name : protoIdentifier (ps_name service) = true /\ ps_name service = c_service c;
  fi_nonempty : ps_methods service <> [];
  fi_methods : Forall (methodOk c) (ps_methods service);
  fi_method_names : NoDup (map me_name (ps_methods service));
  fi_wf : Wf c;
  fi_numbers name m : c_messages c !! name = Some m -> numbersOk (map pf_number (pm_fields m))
}.

Lemma convertPaths_Ok info c methods c' :
  Wf c -> c_operationNames c = ∅ -> convertPaths doc info c = Ok (methods, c') ->
  Wf c' /\ c_service c' = c_service c /\ methods <> [] /\ Forall (methodOk c') methods /\ NoDup (map me_name methods).
Proof.
  intros Hc Hnames Hp. unfold convertPaths in Hp. m_check Hp. m_next Hp as u1 c1 Hw1. m_next Hp as u2 c2 Hw2.
  apply warnIf_Ok in Hw1 as [Hc1 Hex1]; [|done]. apply warnIf_Ok in Hw2 as [Hc2 Hex2]; [|done].
  destruct (d_paths doc) as [[|entry paths]|]; try done. m_next Hp as specs c3 Ho. apply operations_Ok in Ho as (Hc3&Hex3&Hs&Hne); [|done].
  assert (extends c c3) as Hex by (etransitivity; [exact Hex1|]; by etransitivity).
  set (P := fun (done_ : list operationSpec) ms c4 => Wf c4 /\ c_service c4 = c_service c /\ length ms = length done_ /\ Forall (methodOk c4) ms /\
    NoDup (map me_name ms) /\ dom (c_operationNames c4) = list_to_set (map me_name ms)).
  assert (P specs methods c') as (?&?&Hlen&?&?&_).
  { eapply (foldM_Ok _ P); [| |exact Hp].
    - intros done_ spec todo ms c4 ms' c5 Hl (Hc4&Hs4&Hlen&Hf&Hn&Hd) Ha. m_next Ha as m c6 Hm. m_inv Ha.
      apply convertOperation_Ok in Hm as (Hc6&Hs6&Hsub&Hsubi&Hm&Hfresh&Hdom); [|done|].
      2: { rewrite list.Forall_forall in Hs. apply Hs. set_solver. }
      unfold P. split_and!; [done|congruence|rewrite !length_app; cbn; lia| | |].
      + apply list.Forall_app. split; [|by constructor]. eapply list.Forall_impl; [exact Hf|]. intros y. by apply methodOk_mono.
      + rewrite map_app. apply list.NoDup_app. split_and!; [done| |apply list.NoDup_singleton]. cbn. intros n Hin ->%list_elem_of_singleton.
        apply not_elem_of_dom in Hfresh. rewrite Hd in Hfresh. by apply Hfresh, elem_of_list_to_set.
      + rewrite Hdom, Hd, map_app. cbn. set_solver.
    - unfold P. split_and!; [done|apply (ex_service _ _ Hex)|done|by constructor|apply base.NoDup_nil_2|]. rewrite (ex_operations _ _ Hex), Hnames. set_solver. }
  split_and!; try done. intros ->. by destruct specs.
Qed.

Lemma newConverter_Wf name : Wf (newConverter name).
Proof. constructor; intros n x Hn; cbn in Hn; by rewrite lookup_empty in Hn. Qed.

Lemma convert_fileOk serviceOverride service c : convert doc serviceOverride = Ok (service, c) -> fileOk service c.
Proof.
  intros Hc. unfold convert in Hc. apply bind_Ok in Hc as (u1&_&Hc). destruct (d_info doc) as [info|]; [|done].
  apply bind_Ok in Hc as (u2&_&Hc). apply bind_Ok in Hc as (u3&Hid&Hc). apply bind_Ok in Hc as ([methods c1]&Hp&Hc).
  apply failIf_Ok, negb_false_iff in Hid. apply convertPaths_Ok in Hp as (?&Hs&?&?&?); [|apply newConverter_Wf|done]. injection Hc as <- <-. constructor; try done.
  intros n m. by apply Wf_numbers.
Qed.
End Operations.

(** ** The OpenAPI importer returns, and renders what it converts *)
Import OpenApiModel OpenApiDoc OpenApiSchema OpenApiImport OpenApiRender.

(** ** Rendering *)

Lemma checks_Ok l : checks l = Ok tt <-> Forall (fun c => c.1 = false) l.
Proof.
  unfold checks. rewrite forEach_Ok. split; intros Hl; (eapply list.Forall_impl; [exact Hl|]); intros [b e]; cbn; by rewrite failIf_Ok.
Qed.
Lemma mapOutcome_exists {A B} (f : A -> Outcome B) l : (forall x, x ∈ l -> exists y, f x = Ok y) -> exists ys, mapOutcome f l = Ok ys.
Proof.
  induction l as [|x l IH]; intros Hf; [by exists []|]. destruct (Hf x) as [y Hy]; [by left|]. destruct IH as [ys Hys]; [intros z Hz; apply Hf; by right|].
  exists (y :: ys). cbn. by rewrite Hy, Hys.
Qed.
Lemma identifier_nonempty s : protoIdentifier s = true -> String.eqb s "" = false.
Proof. by destruct s. Qed.

Section Render.
Context `{UnicodeLaws} `{GoLib}.

Lemma declaration_nonempty c t : Wf c -> typeOk c t -> String.eqb (declaration t) "" = false.
Proof.
  intros Hc [t' [name rules Hn|name m Hm|Ht]|rules t' _|rules t' _]; try done; cbn.
  - apply String.eqb_neq. intros ->. set_solver.
  - apply identifier_nonempty. by destruct (wf_message _ Hc _ _ Hm) as (_&?&_).
Qed.

Lemma writeField_Ok c name index f : Wf c -> fieldOk c f -> (0 < pf_number f)%Z -> exists out, writeField name index f = Ok out.
Proof.
  intros Hc [Hn Ht _] Hnum. unfold writeField. rewrite (proj2 (checks_Ok _)); [by eexists|]. repeat constructor; cbn.
  - by rewrite (identifier_nonempty _ Hn), (declaration_nonempty c).
  - by rewrite Hn.
  - by apply Z.leb_gt.
Qed.
Lemma writeMessage_Ok file c name : Wf c -> fi_messages file = c_messages c -> is_Some (c_messages c !! name) -> exists out, writeMessage file name = Ok out.
Proof.
  intros Hc Hf [m Hm]. unfold writeMessage. rewrite Hf, Hm. destruct (wf_message _ Hc _ _ Hm) as (Hname&Hid&_&[Hfields _ Hnums]).
  rewrite (proj2 (checks_Ok _)); [|repeat constructor; cbn; rewrite Hname; [by apply identifier_nonempty|by rewrite String.eqb_refl]]. cbn [mbind outcome_bind].
  destruct (mapOutcome_exists (fun '(index, field) => writeField (pm_name m) index field) (imap pair (pm_fields m))) as [ys ->]; [|by eexists].
  intros [i f] (k&Hk)%list_elem_of_lookup. rewrite list_lookup_imap in Hk. destruct (pm_fields m !! k) as [g|] eqn:E; [|done]. cbn in Hk. injection Hk as <- <-.
  eapply writeField_Ok; [done| |].
  - rewrite list.Forall_forall in Hfields. apply Hfields. by eapply list_elem_of_lookup_2.
  - assert (map pf_number (pm_fields m) !! k = Some (pf_number g)) as Hg by (change (map pf_number) with (fmap (M:=list) pf_number); by rewrite list_lookup_fmap, E).
    rewrite Hnums in Hg. change (map protobufFieldNumber) with (fmap (M:=list) protobufFieldNumber) in Hg. rewrite list_lookup_fmap in Hg.
    destruct (seq 0 _ !! k); [|done]. cbn in Hg. injection Hg as <-. apply protobufFieldNumber_ok.
Qed.
Lemma writeMethod_Ok c m : Wf c -> methodOk c m -> exists out, writeMethod m = Ok out.
Proof.
  intros Hc [Hn Hh Hr _ Hin Hout]. unfold writeMethod. rewrite (proj2 (checks_Ok _)); [by eexists|].
  assert (forall n, n = emptyMessage \/ is_Some (c_messages c !! n) -> String.eqb n "" = false) as Hne.
  { intros n [->|[msg Hm]]; [done|]. apply identifier_nonempty. by destruct (wf_message _ Hc _ _ Hm) as (_&?&_). }
  assert (String.eqb (me_input m) "" = false) as Hi by (apply Hne; destruct Hin as [(?&_)|(msg&Hm&_)]; [by left|right; by eexists]).
  assert (String.eqb (me_output m) "" = false) as Ho by (apply Hne; destruct Hout as [(?&_)|(msg&f&Hm&_)]; [by left|right; by eexists]).
  repeat constructor; cbn [fst].
  - by rewrite (identifier_nonempty _ Hn), Hi, Ho.
  - by rewrite Hn.
  - by rewrite bool_decide_eq_true_2.
  - by destruct (me_httpPath m).
Qed.
Lemma renderProto_Ok service c pkg goPkg :
  fileOk service c -> validatePackage pkg = Ok tt -> validateGoPackage goPkg = Ok tt ->
  exists source, renderProto (mkFile pkg goPkg service (c_messages c) (c_imports c)) = Ok source.
Proof.
  intros [[Hid _] Hne Hm _ Hc] Hp Hg. unfold renderProto. cbn [fi_service fi_packageName fi_goPackage fi_messages]. rewrite Hp, Hg. cbn [mbind outcome_bind].
  rewrite (proj2 (checks_Ok _)); [|repeat constructor; cbn; [by rewrite Hid|by destruct (ps_methods service)]]. cbn [mbind outcome_bind].
  destruct (mapOutcome_exists writeMethod (ps_methods service)) as [methods ->].
  { intros m Hin. rewrite list.Forall_forall in Hm. by eapply writeMethod_Ok, Hm. }
  cbn [mbind outcome_bind]. destruct (mapOutcome_exists (writeMessage (mkFile pkg goPkg service (c_messages c) (c_imports c))) (sortedKeys (c_messages c))) as [messages ->]; [|by eexists].
  intros name Hin. eapply writeMessage_Ok; [done|done|]. unfold sortedKeys in Hin. rewrite sortStrings_Permutation in Hin.
  apply list_elem_of_fmap in Hin as ([n m]&->&Hin). apply elem_of_map_to_list in Hin. by eexists.
Qed.
End Render.

(** ** Conversion *)

Lemma totalO_foldM_simple {A S} (f : S -> A -> M S) (P : S -> converter -> Prop) l s c :
  (forall s x c, P s c -> totalO (f s x c)) -> (forall s x c s' c', P s c -> f s x c = Ok (s', c') -> P s' c') -> P s c -> totalO (foldM f l s c).
Proof. intros Ht Hp. apply (totalO_foldM f (fun _ => P)); naive_solver. Qed.

Section Ends.
Context `{UnicodeLaws} `{GoLib} (doc : Document).

Lemma warnIf_total cond message c : totalO (warnIf cond message c).
Proof. by destruct cond. Qed.
Lemma jsonMediaSchema_total content pointer : totalO (jsonMediaSchema content pointer).
Proof. unfold jsonMediaSchema, mediaSchema. pure_total. Qed.

Lemma parameterField_total imported parent path c : Wf c -> totalO (parameterField doc imported parent path c).
Proof.
  intros Hc. unfold parameterField, checkParameter, schemaFromParameter. apply totalO_check; [pure_total|intros _].
  apply totalO_next; [apply totalO_wrap, totalO_lift; pure_total|]. intros schema c1 Hs. apply wrap_Ok in Hs. m_inv Hs.
  apply totalO_check; [apply totalO_failIf|intros _]. apply totalO_next; [by apply typeFor_total|]. intros t c2 _.
  by apply totalO_check; [apply totalO_failIf|intros _].
Qed.
Lemma addPathParameter_total spec name parameters st w c : Wf c -> totalO (addPathParameter doc spec name parameters st w c).
Proof.
  intros Hc. destruct st as [rq seen]. unfold addPathParameter. destruct (parameters !! w); [|done]. destruct (decide _); [done|].
  apply totalO_next; [by apply parameterField_total|]. intros field c1 _. apply totalO_check; [apply totalO_failIf|intros _].
  apply totalO_next; [unfold addRequestField; by destruct (_ !! _)|done].
Qed.
Lemma addBody_total spec name rq c : Wf c -> totalO (addBody doc spec name rq c).
Proof.
  intros Hc. unfold addBody, requestBody. destruct (o_requestBody _); [|done]. apply totalO_check; [apply totalO_failIf|intros _].
  apply totalO_next.
  - apply totalO_check; [apply jsonMediaSchema_total|intros schema]. apply totalO_next; [by apply typeFor_total|]. intros t c1 _.
    by apply totalO_check; [apply totalO_failIf|intros _].
  - intros [[t d] required] c1 _. apply totalO_next; [unfold addRequestField; by destruct (_ !! _)|done].
Qed.
Lemma addQueryParameter_total name rq imported c : Wf c -> totalO (addQueryParameter doc name rq imported c).
Proof.
  intros Hc. unfold addQueryParameter. apply totalO_next; [by apply parameterField_total|]. intros field c1 _.
  apply totalO_check; [apply totalO_failIf|intros _]. unfold addRequestField. by destruct (_ !! _).
Qed.

Lemma mergeParameters_total spec : totalO (mergeParameters spec).
Proof.
  unfold mergeParameters, addParameters. assert (forall b o st e, totalO (addParameter b o st e)) as Ha.
  { intros b o [merged seen] [i [p|]]; cbn [addParameter]; pure_total. }
  repeat first [apply totalO_bind; [|intros ?]|apply totalO_foldOutcome; intros; apply Ha|total_step].
Qed.
Lemma checkPath_total spec : totalO (checkPath spec).
Proof. unfold checkPath. pure_total. Qed.
Lemma checkLocation_total imported : totalO (checkLocation imported).
Proof. unfold checkLocation. pure_total. Qed.

Lemma buildRequest_total spec name c : Wf c -> totalO (buildRequest doc spec name c).
Proof.
  intros Hc. unfold buildRequest. apply totalO_next; [apply totalO_lift, checkPath_total|]. intros u c0 Hcheck. m_inv Hcheck.
  unfold checkPath in Hcheck. outcome_inv Hcheck. pose proof (pathParts_template _ Hv0) as Htpl.
  apply totalO_check; [apply mergeParameters_total|intros parameters]. apply totalO_check; [apply totalO_forEach, checkLocation_total|intros _].
  lazymatch goal with |- totalO ((foldM (addPathParameter _ _ _ ?ps) _ _ ≫= _) _) => set (pathParameters := ps) end.
  apply totalO_next.
  - apply (totalO_foldM _ (fun (done_ : list string) (st : requestState * list string) c1 =>
      Wf c1 /\ requestOk c1 st.1 /\ pathOk (sp_path spec) st.1 st.2)).
    + intros done_ w todo st c1 _ (Hc1&_). by apply addPathParameter_total.
    + intros done_ w todo [rq1 seen1] c1 [rq2 seen2] c2 Hl (Hc1&Hrq1&Hp1) Ha.
      apply addPathParameter_Ok in Ha as (?&?&?&?&_); try done. rewrite Hl. set_solver.
    + split_and!; [done|by apply requestOk_start|by apply pathOk_start].
  - intros [rq seen] c1 Hf. apply pathParameters_Ok in Hf as (Hc1&_&Hrq1&_); [|done..].
    apply totalO_check; [apply totalO_forEach; intros; apply totalO_failIf|intros _].
    apply totalO_next; [by apply addBody_total|]. intros [rq2 selector] c2 Hb. apply addBody_Ok in Hb as (Hc2&_&Hrq2&_); [|done..].
    apply totalO_next.
    + apply (totalO_foldM_simple _ (fun rq c => Wf c /\ requestOk c rq)); [intros ??? [? ?]; by apply addQueryParameter_total| |done].
      intros rq3 x c3 rq4 c4 [? ?] Ha. apply addQueryParameter_Ok in Ha as (?&?&?&_); done.
    + intros rq3 c3 _. apply totalO_next; [done|]. intros _ c4 _. destruct (rq_fields rq3); [done|]. apply totalO_next; [apply addMessage_total|done].
Qed.

Lemma buildResponse_total spec name c : Wf c -> totalO (buildResponse doc spec name c).
Proof.
  intros Hc. unfold buildResponse. destruct (o_responses _ ≫= _) as [[codes def]|]; [|done].
  apply totalO_check; [apply totalO_foldOutcome; intros; unfold successCode; pure_total|intros success].
  destruct (sortStrings success) as [|code [|? ?]]; try done. apply totalO_next; [apply warnIf_total|]. intros ? c1 Hw1. apply warnIf_Ok in Hw1 as [Hc1 _]; [|done].
  apply totalO_next; [apply (totalO_foldM_simple _ (fun _ _ => True)); try done; intros; apply warnIf_total|]. intros [] c2 Hw2.
  apply (warnings_Ok (fun kv => (negb (String.eqb kv.1 code) && responseHasContract kv.2, _))) in Hw2 as [Hc2 _]; [|done].
  apply totalO_next; [apply warnIf_total|]. intros ? c3 Hw3. apply warnIf_Ok in Hw3 as [Hc3 _]; [|done]. destruct (mjoin _) as [response|]; [|done].
  apply totalO_next; [apply warnIf_total|]. intros ? c4 Hw4. apply warnIf_Ok in Hw4 as [Hc4 _]; [|done].
  apply totalO_next; [apply warnIf_total|]. intros ? c5 Hw5. apply warnIf_Ok in Hw5 as [Hc5 _]; [|done].
  destruct (negb _); [by apply totalO_next|]. apply totalO_check; [apply jsonMediaSchema_total|intros schema].
  apply totalO_next; [by apply typeFor_total|]. intros t c6 _. apply totalO_next; [apply addMessage_total|done].
Qed.

Lemma convertOperation_total spec c : Wf c -> totalO (convertOperation doc spec c).
Proof.
  intros Hc. unfold convertOperation. apply totalO_check; [apply totalO_failIf|intros _].
  apply totalO_next; [apply warnIf_total|]. intros ? c1 Hw1. apply warnIf_Ok in Hw1 as [Hc1 _]; [|done].
  apply totalO_next; [apply warnIf_total|]. intros ? c2 Hw2. apply warnIf_Ok in Hw2 as [Hc2 _]; [|done].
  apply totalO_check; [apply totalO_failIf|intros _]. apply totalO_next; [done|]. intros previous c3 Hg. m_inv Hg. destruct (_ !! _); [done|].
  apply totalO_next; [done|]. intros ? c3 Hset. m_inv Hset. assert (Wf (setOperations (<[if String.eqb (o_operationId (sp_operation spec)) "" then fallbackMethodName (sp_httpMethod spec) (sp_path spec) else protoTypeName (o_operationId (sp_operation spec)) := sp_pointer spec]> (c_operationNames c2)) c2)) as Hc3 by (by apply (Wf_same c2)).
  apply totalO_next; [by apply buildRequest_total|]. intros [[request path] body] c4 Hrq. apply buildRequest_Ok in Hrq as (Hc4&_); [|done].
  apply totalO_next; [by apply buildResponse_total|]. by intros [response responseBody] c5 _.
Qed.

Lemma operations_total paths c : Wf c -> totalO (operations paths c).
Proof.
  intros Hc. unfold operations. apply totalO_next; [|intros specs c1 _; by destruct specs].
  apply (totalO_foldM_simple _ (fun specs c => Wf c /\ Forall (fun s => sp_httpMethod s ∈ supportedMethods) specs)); [| |by split].
  - intros specs [path [item|]] c1 [Hc1 _]; [|done]. unfold pathOperations. apply totalO_check; [apply totalO_checks|intros _].
    apply totalO_next; [apply warnIf_total|]. intros _ c2 _. apply totalO_lift, totalO_foldOutcome. intros; pure_total.
  - intros specs x c1 specs' c2 [Hc1 Hs] Hp. apply pathOperations_Ok in Hp as (?&_&?); done.
Qed.

Lemma convert_total serviceOverride : totalO (convert doc serviceOverride).
Proof.
  unfold convert. apply totalO_bind; [apply totalO_failIf|intros _]. destruct (d_info doc) as [info|]; [|done].
  apply totalO_bind; [apply totalO_failIf|intros _]. apply totalO_bind; [apply totalO_failIf|intros _]. set (c0 := newConverter _).
  assert (Wf c0) as Hc0 by apply newConverter_Wf. apply totalO_bind; [|by intros [methods c]]. unfold convertPaths.
  apply totalO_check; [apply totalO_failIf|intros _]. apply totalO_next; [apply warnIf_total|]. intros ? c1 Hw1. apply warnIf_Ok in Hw1 as [Hc1 _]; [|done].
  apply totalO_next; [apply warnIf_total|]. intros ? c2 Hw2. apply warnIf_Ok in Hw2 as [Hc2 _]; [|done].
  destruct (d_paths doc) as [[|entry paths]|]; try done. apply totalO_next; [by apply operations_total|]. intros specs c3 Ho.
  apply operations_Ok in Ho as (Hc3&_&Hs&_); [|done].
  apply (totalO_foldM _ (fun _ _ c => Wf c)); [| |done].
  - intros done_ spec todo ms c4 _ Hc4. apply totalO_next; [by apply convertOperation_total|done].
  - intros done_ spec todo ms c4 ms' c5 Hl Hc4 Ha. m_next Ha as m c6 Hm. apply import_mret_Ok in Ha. injection Ha as -> ->. apply convertOperation_Ok in Hm as (?&_); try done.
    rewrite list.Forall_forall in Hs. apply Hs. rewrite Hl. set_solver.
Qed.
End Ends.

Section Whole.
Context `{UnicodeLaws} `{GoLib}.

Lemma validatePackage_total name : totalO (validatePackage name).
Proof. unfold validatePackage. pure_total. Qed.
Lemma validateGoPackage_total name : totalO (validateGoPackage name).
Proof. unfold validateGoPackage. pure_total. Qed.
Lemma writeField_total name index f : totalO (writeField name index f).
Proof. unfold writeField. apply totalO_bind; [apply totalO_checks|done]. Qed.
Lemma renderProto_total file : totalO (renderProto file).
Proof.
  unfold renderProto. apply totalO_bind; [apply validatePackage_total|intros _]. apply totalO_bind; [apply validateGoPackage_total|intros _].
  apply totalO_bind; [apply totalO_checks|intros _]. apply totalO_bind; [apply totalO_mapOutcome; intros; unfold writeMethod; apply totalO_bind; [apply totalO_checks|done]|intros methods].
  apply totalO_bind; [|done]. apply totalO_mapOutcome. intros n. unfold writeMessage. destruct (_ !! _); [|done].
  apply totalO_bind; [apply totalO_checks|intros _]. apply totalO_bind; [|done]. apply totalO_mapOutcome. intros [i f]. apply writeField_total.
Qed.
Lemma Convert_total newDocument buildV3Model spec options : totalO (Convert newDocument buildV3Model spec options).
Proof.
  unfold Convert. apply totalO_bind; [apply totalO_checks|intros _]. apply totalO_bind; [apply validatePackage_total|intros _].
  apply totalO_bind; [apply validateGoPackage_total|intros _]. destruct (newDocument spec) as [version|]; [|done].
  apply totalO_bind; [apply totalO_failIf|intros _]. destruct (buildV3Model spec) as [[doc references]|]; [|done].
  apply totalO_bind; [apply totalO_forEach; intros r; unfold checkReference; apply totalO_failIf|intros _].
  apply totalO_bind; [apply convert_total|]. intros [service c]. apply totalO_bind; [apply renderProto_total|done].
Qed.
End Whole.
