(* ===== verification/OpenApiTheorems.v ===== *)
(** * The numeric bounds of the importer

    The rules the importer writes for an integer schema admit exactly the integers the
    schema admits. *)
From Stdlib Require Import QArith Qpower Lqa.
From Stdlib Require Import QArith.
From S2P Require Import Prelude GoStrings StringFacts Json JsonParse Termination OpenApiModel OpenApiSchema OpenApiImport OpenApiRender OpenApiSchemaSpec OpenApiNames OpenApiSpec.
Import OpenApiModel OpenApiDoc OpenApiSchema.

(** ** Values *)

Definition value (f : Float64) : Q := (inject_Z (mantissa f) * Qpower 10 (exponent f))%Q.

Lemma ten_pos e : (0 < Qpower 10 e)%Q.
Proof. by apply Qpower_0_lt. Qed.
Lemma inject_pow n : (0 <= n)%Z -> (inject_Z (10 ^ n) == Qpower 10 n)%Q.
Proof. intros Hn. by apply Zpower_Qpower. Qed.
Lemma value_scaled f e : (e <= exponent f)%Z -> (value f == inject_Z (mantissa f * 10 ^ (exponent f - e)) * Qpower 10 e)%Q.
Proof.
  intros He. unfold value. rewrite inject_Z_mult, inject_pow by lia. rewrite <- Qmult_assoc, <- Qpower_plus by done.
  by replace (exponent f - e + e)%Z with (exponent f) by lia.
Qed.
Lemma scaled_compare a b e : (inject_Z a * Qpower 10 e ?= inject_Z b * Qpower 10 e)%Q = (a ?= b)%Z.
Proof.
  pose proof (ten_pos e) as Hp. destruct (Z.compare_spec a b) as [->|Hl|Hl].
  - by apply Qeq_alt.
  - apply Qlt_alt, Qmult_lt_compat_r; [done|]. by rewrite <- Zlt_Qlt.
  - apply Qgt_alt, Qmult_lt_compat_r; [done|]. by rewrite <- Zlt_Qlt.
Qed.
Lemma compareFloat_value f g : compareFloat f g = (value f ?= value g)%Q.
Proof.
  unfold compareFloat. set (e := Z.min _ _). rewrite (value_scaled f e), (value_scaled g e) by lia. by rewrite scaled_compare.
Qed.

Lemma integral_value f : integral f = true -> (value f == inject_Z (toInteger f))%Q.
Proof.
  intros Hi. unfold integral in Hi. unfold value, toInteger. destruct (Z.leb_spec 0 (exponent f)) as [He|He].
  - by rewrite inject_Z_mult, inject_pow.
  - cbn in Hi. apply Z.eqb_eq in Hi. set (p := (10 ^ (- exponent f))%Z) in *.
    assert (mantissa f = p * (mantissa f / p))%Z as Hm by (apply Z.div_exact; [unfold p; lia|done]). rewrite Hm at 1.
    rewrite inject_Z_mult. unfold p at 1. rewrite inject_pow by lia. rewrite (Qmult_comm (Qpower _ _)), <- Qmult_assoc, <- Qpower_plus by done.
    replace (- exponent f + exponent f)%Z with 0%Z by lia. apply Qmult_1_r.
Qed.

(** ** What a schema admits *)

(** The bound is at most, or below, the integer; and the other way. *)
Definition atMost (strict : bool) (n : Number) (z : Z) : Prop :=
  match n with
  | Finite f => if strict then (value f < inject_Z z)%Q else (value f <= inject_Z z)%Q
  | Infinite negative => negative = true
  | NotANumber => False
  end.
Definition atLeast (strict : bool) (n : Number) (z : Z) : Prop :=
  match n with
  | Finite f => if strict then (inject_Z z < value f)%Q else (inject_Z z <= value f)%Q
  | Infinite negative => negative = false
  | NotANumber => False
  end.
(** A side of the range: the inclusive bound, made exclusive by a flag, and a bound that
    is exclusive by itself. *)
Definition sideAdmits (within : bool -> Number -> Z -> Prop) (inclusive : option Number) (exclusive : option (bool + Number)) (z : Z) : Prop :=
  (forall n, inclusive = Some n -> within (match exclusive with Some (inl b) => b | _ => false end) n z) /\
  (forall n, exclusive = Some (inr n) -> within true n z).
Definition admits (k : Keywords) (z : Z) : Prop :=
  sideAdmits atMost (k_minimum k) (k_exclusiveMinimum k) z /\ sideAdmits atLeast (k_maximum k) (k_exclusiveMaximum k) z.
Definition isNaN (n : option (bool + Number)) : Prop := n = Some (inr NotANumber).

Lemma compare_lt f g : (match compareFloat f g with Lt => true | _ => false end) = true <-> (value f < value g)%Q.
Proof. rewrite compareFloat_value, Qlt_alt. by destruct (_ ?= _)%Q. Qed.
Lemma compare_eq f g : (match compareFloat f g with Eq => true | _ => false end) = true <-> (value f == value g)%Q.
Proof. rewrite compareFloat_value, Qeq_alt. by destruct (_ ?= _)%Q. Qed.

(** Of two lower bounds the stricter one decides, and likewise above. *)
Ltac bound_cases := repeat match goal with b : bool |- _ => destruct b end; naive_solver.
Lemma stricter_lower a b z : b <> NotANumber ->
  let r := stricterLower (Some (mkBound a false)) (mkBound b true) in
  atMost (b_exclusive r) (b_value r) z <-> atMost false a z /\ atMost true b z.
Proof.
  intros Hb. unfold stricterLower. cbn [b_value b_exclusive]. rewrite andb_true_r.
  destruct a as [f|na|], b as [g|nb|]; cbn [less equal]; try done; try (by cbn; bound_cases).
  destruct (_ || _) eqn:E; cbn.
  - rewrite orb_true_iff, compare_lt, compare_eq in E. split; [|naive_solver]. intros ?. split; [|done]. destruct E; lra.
  - rewrite orb_false_iff, <- !not_true_iff_false, compare_lt, compare_eq in E. destruct E as [Hl He].
    split; [|naive_solver]. intros ?. split; [done|]. destruct (Qlt_le_dec (value f) (value g)); [by destruct Hl|].
    destruct (Qlt_le_dec (value g) (value f)); [lra|]. destruct He. lra.
Qed.
Lemma stricter_upper a b z : b <> NotANumber ->
  let r := stricterUpper (Some (mkBound a false)) (mkBound b true) in
  atLeast (b_exclusive r) (b_value r) z <-> atLeast false a z /\ atLeast true b z.
Proof.
  intros Hb. unfold stricterUpper. cbn [b_value b_exclusive]. rewrite andb_true_r.
  destruct a as [f|na|], b as [g|nb|]; cbn [less equal]; try done; try (by cbn; bound_cases).
  destruct (_ || _) eqn:E; cbn.
  - rewrite orb_true_iff, compare_lt, compare_eq in E. split; [|naive_solver]. intros ?. split; [|done]. destruct E; lra.
  - rewrite orb_false_iff, <- !not_true_iff_false, compare_lt, compare_eq in E. destruct E as [Hl He].
    split; [|naive_solver]. intros ?. split; [done|]. destruct (Qlt_le_dec (value g) (value f)); [by destruct Hl|].
    destruct (Qlt_le_dec (value f) (value g)); [lra|]. destruct He. lra.
Qed.

Definition boundAdmits (within : bool -> Number -> Z -> Prop) (b : option numericBound) (z : Z) : Prop :=
  match b with None => True | Some b => within (b_exclusive b) (b_value b) z end.

Lemma numericSide_exact within stricter inclusive exclusive missing b z :
  (forall right, stricter None right = right) ->
  (forall a e, e <> NotANumber -> let r := stricter (Some (mkBound a false)) (mkBound e true) in
     within (b_exclusive r) (b_value r) z <-> within false a z /\ within true e z) ->
  ~ isNaN exclusive -> numericSide stricter inclusive exclusive missing = Ok b ->
  boundAdmits within b z <-> sideAdmits within inclusive exclusive z.
Proof.
  intros Hnone Hboth Hnan Hs. unfold numericSide in Hs. unfold sideAdmits.
  destruct exclusive as [[[]|e]|], inclusive as [m|]; cbn in Hs; simplify_eq; cbn [boundAdmits b_exclusive b_value]; try naive_solver.
  rewrite Hnone. naive_solver.
Qed.

(** ** The rules *)

(** What Protovalidate makes of a rule on an int32. *)
Inductive meets (z : Z) : constraint -> Prop :=
  | meets_gte n : (n <= z)%Z -> meets z (mkConstraint "int32.gte" (FormatInt n))
  | meets_gt n : (n < z)%Z -> meets z (mkConstraint "int32.gt" (FormatInt n))
  | meets_lte n : (z <= n)%Z -> meets z (mkConstraint "int32.lte" (FormatInt n))
  | meets_lt n : (z < n)%Z -> meets z (mkConstraint "int32.lt" (FormatInt n)).

Section Rules.
Context `{GoLib}.

Lemma int32_literal v text : numericLiteral v "int32" true = Ok text ->
  exists f, v = Finite f /\ text = FormatInt (toInteger f) /\ (value f == inject_Z (toInteger f))%Q.
Proof.
  unfold numericLiteral. destruct v as [f| |]; [|done..]. destruct (integral f) eqn:E; [|done]. cbn.
  destruct (_ || _); [done|]. intros [= <-]. exists f. split_and!; [done..|by apply integral_value].
Qed.

Lemma meets_inv z path n : meets z (mkConstraint path (FormatInt n)) ->
  (path = "int32.gte" /\ n <= z \/ path = "int32.gt" /\ n < z \/ path = "int32.lte" /\ z <= n \/ path = "int32.lt" /\ z < n)%Z.
Proof.
  pose proof FormatInt_inj as Hinj. inversion 1; match goal with E : FormatInt _ = FormatInt _ |- _ => apply Hinj in E end; naive_solver.
Qed.

Lemma lowerRule_exact b prefix rules z : boundRule b "int32" true "gte" "gt" prefix = Ok rules ->
  Forall (meets z) rules <-> boundAdmits atMost b z.
Proof.
  unfold boundRule. destruct b as [[v x]|]; cbn [b_value b_exclusive boundAdmits]; [|intros [= <-]; by rewrite list.Forall_nil].
  intros Hr. destruct (numericLiteral v "int32" true) as [text| | |] eqn:E; cbn in Hr; simplify_eq.
  destruct (int32_literal v text E) as (f & -> & -> & Hf). rewrite list.Forall_singleton. unfold atMost.
  destruct x; rewrite Hf; rewrite <- ?Zlt_Qlt, <- ?Zle_Qle; (split; [intros Hm%meets_inv; naive_solver|by constructor]).
Qed.
Lemma upperRule_exact b prefix rules z : boundRule b "int32" true "lte" "lt" prefix = Ok rules ->
  Forall (meets z) rules <-> boundAdmits atLeast b z.
Proof.
  unfold boundRule. destruct b as [[v x]|]; cbn [b_value b_exclusive boundAdmits]; [|intros [= <-]; by rewrite list.Forall_nil].
  intros Hr. destruct (numericLiteral v "int32" true) as [text| | |] eqn:E; cbn in Hr; simplify_eq.
  destruct (int32_literal v text E) as (f & -> & -> & Hf). rewrite list.Forall_singleton. unfold atLeast.
  destruct x; rewrite Hf; rewrite <- ?Zlt_Qlt, <- ?Zle_Qle; (split; [intros Hm%meets_inv; naive_solver|by constructor]).
Qed.

Lemma numericBounds_exact schema pointer lower upper z :
  ~ isNaN (k_exclusiveMinimum (s_keywords schema)) -> ~ isNaN (k_exclusiveMaximum (s_keywords schema)) ->
  numericBounds schema pointer = Ok (lower, upper) ->
  boundAdmits atMost lower z /\ boundAdmits atLeast upper z <-> admits (s_keywords schema) z.
Proof.
  intros Hn Hx Hb. unfold numericBounds in Hb. set (k := s_keywords schema) in *.
  destruct (numericSide stricterLower _ _ _) as [l| | |] eqn:El; cbn in Hb; try done.
  destruct (numericSide stricterUpper _ _ _) as [u| | |] eqn:Eu; cbn in Hb; try done.
  assert (l = lower /\ u = upper) as [-> ->]
    by (destruct (failIf _ _); cbn in Hb; try done; destruct l, u; cbn in Hb; try destruct (failIf _ _); cbn in Hb; naive_solver).
  unfold admits. f_equiv.
  - apply (numericSide_exact atMost stricterLower _ _ _ _ z) in El; [done|done|intros; by apply stricter_lower|done].
  - apply (numericSide_exact atLeast stricterUpper _ _ _ _ z) in Eu; [done|done|intros; by apply stricter_upper|done].
Qed.
Lemma numericRules_exact schema pointer rules z :
  ~ isNaN (k_exclusiveMinimum (s_keywords schema)) -> ~ isNaN (k_exclusiveMaximum (s_keywords schema)) ->
  numericRules schema "int32" true pointer = Ok rules ->
  Forall (meets z) rules <-> admits (s_keywords schema) z.
Proof.
  intros Hn Hx Hr. unfold numericRules in Hr.
  destruct (numericBounds schema pointer) as [[lower upper]| | |] eqn:Eb; cbn in Hr; try done.
  destruct (boundRule lower _ _ _ _ _) as [ls| | |] eqn:El; cbn in Hr; try done.
  destruct (boundRule upper _ _ _ _ _) as [us| | |] eqn:Eu; cbn in Hr; simplify_eq.
  rewrite list.Forall_app, (lowerRule_exact _ _ _ z El), (upperRule_exact _ _ _ z Eu). by apply (numericBounds_exact schema pointer).
Qed.
End Rules.

(** ** What the OpenAPI importer promises

    A file that is imported is well formed and can be rendered, the conversion always
    ends, closed objects keep their properties and integer rules keep their range. *)
Import OpenApiModel OpenApiDoc OpenApiSchema OpenApiImport OpenApiRender.

(** ** A document *)

Definition plainKeywords (types : list string) (format : string) : Keywords :=
  mkKeywords noRejected None None None None types format None None "" None None None None None None None [] None None "" "" None.
Definition petKeywords : Keywords :=
  mkKeywords noRejected None None None None ["object"] "" None None "" None None None None None None None ["petId"] None None "Pet" "" None.
Definition ageKeywords : Keywords :=
  mkKeywords noRejected None None None None ["integer"] "int32" None None "" (Some (Finite (mkFloat false "" 0))) (Some (Finite (mkFloat false "15" 2)))
    (Some (inr (Finite (mkFloat true "1" 1)))) (Some (inl true)) None None None [] None None "" "" None.
Definition inlineType (types : list string) (format : string) : Proxy := Inline (plainKeywords types format) None None None.
Definition petProperties : list (string * option Proxy) :=
  [("petId", Some (inlineType ["string"] "")); ("age", Some (Inline ageKeywords None None None)); ("mate", Some (RefTo false "#/components/schemas/Pet"))].
Definition petSchema : Proxy := Inline petKeywords None (Some petProperties) (Some (inr false)).
Definition petParameter : Param := mkParam "pet-id" "path" "" (Some true) false false false "" None (Some (inlineType ["string"] "")) false.
Definition petOperation : Operation :=
  mkOperation "getPet" "" "" None false false false [Some petParameter] None
    (Some (mkResponses (Some [("200", Some (mkResponse "" "The pet" true false
      [("application/json", Some (mkMedia (Some (RefTo false "#/components/schemas/Pet")) false false))]))]) None)).
Definition petPath : PathItem := mkPathItem false false false [] (Some petOperation) None None None None None None None None.
Definition petDocument : Document :=
  mkDocument "" (Some (mkInfo "Pet Store" "")) false true false (Some [("/pets/{pet-id}", Some petPath)]) (Some [("Pet", Some petSchema)])
    (fun _ => inl (Some petKeywords)).
Definition plainLib : GoLib := {| float32 := Some; compileError := fun _ => None |}.
Definition petOptions : Options := mkOptions "acme.pets.v1" "example.com/acme/petsv1" "".

(** ** Objects *)

Lemma rejects_additional schema pointer s n a u :
  rejectKeywords schema pointer s n a false = Ok u -> s_additionalProperties schema = None.
Proof.
  destruct u. unfold rejectKeywords. rewrite checks_Ok, list.Forall_forall. intros Hall.
  specialize (Hall (negb false && present (s_additionalProperties schema), unsupportedSchemaKeyword pointer "additionalProperties")).
  destruct (s_additionalProperties schema); [|done]. cbn in Hall. discriminate Hall. apply list_elem_of_lookup. by exists 13.
Qed.

Section Objects.
Context `{UnicodeLaws} `{GoLib} (doc : Document).

Lemma resolved_object rec schema name pointer component c t c' :
  s_additionalProperties schema <> None -> typeForResolvedSchema doc rec schema name pointer component c = Ok (t, c') ->
  objectType doc rec schema name pointer component c = Ok (t, c').
Proof.
  intros Ha Hr. unfold typeForResolvedSchema in Hr. m_check Hr. m_check Hr.
  destruct (String.eqb _ "boolean").
  { unfold booleanType, rejectNonBooleanKeywords in Hr. m_check Hr. apply bind_Ok in Hcheck1 as (u&_&Hk). by apply rejects_additional in Hk. }
  destruct (String.eqb _ "string"); [unfold stringType, rejectNonStringKeywords in Hr; m_check Hr; by apply rejects_additional in Hcheck1|].
  destruct (String.eqb _ "integer"); [unfold integerType, rejectNonNumericKeywords in Hr; m_check Hr; by apply rejects_additional in Hcheck1|].
  destruct (String.eqb _ "number"); [unfold numberType, rejectNonNumericKeywords in Hr; m_check Hr; by apply rejects_additional in Hcheck1|].
  destruct (String.eqb _ "array").
  { unfold arrayType, rejectNonArrayKeywords in Hr. m_check Hr. apply bind_Ok in Hcheck1 as (u&_&Hk). by apply rejects_additional in Hk. }
  by destruct (String.eqb _ "object").
Qed.
Lemma typeFor_object k items properties additional name pointer c t c' :
  additional <> None -> typeFor doc (Inline k items properties additional) name pointer c = Ok (t, c') ->
  exists rec, (forall proxy name pointer, sound (rec proxy name pointer)) /\
    objectType doc rec (mkSchema k items properties additional) name pointer "" c = Ok (t, c').
Proof.
  intros Ha Ht. unfold typeFor in Ht. rewrite Nat.add_succ_l in Ht. exists (typeForSchema doc (depth (Inline k items properties additional) + componentsFuel doc)).
  split; [intros; apply typeForSchema_sound|]. by apply resolved_object.
Qed.
End Objects.

(** ** The promises *)

Section Promises.
Context `{UnicodeLaws} `{GoLib}.

(** C35: A document that converts gives a well-formed protobuf file.  The service has a
    portable name, at least one method, and methods of distinct portable names.  Every
    method's path is a template with the literals intact and each placeholder bound to a
    required scalar field of its request; its body and response selectors name fields of
    its messages.  Every message has a portable name of its own, other than the service's,
    and fields of distinct portable names, of types that are scalars, messages of the file
    or an imported one; no repeated or map field is required; and the numbers of its fields
    increase, are positive, outside 19000 to 19999 and otherwise without gaps. *)
Theorem import_wellformed (doc : Document) serviceOverride service c :
  convert doc serviceOverride = Ok (service, c) -> fileOk service c.
Proof. apply convert_fileOk. Qed.

(** C36: The importer always returns: the recursion through schemas and components ends on
    every document, recursive ones included.  When the checks on the input pass and the
    document converts, rendering does not fail: the result is a source and the warnings in
    order. *)
Theorem import_total newDocument buildV3Model spec options :
  Convert newDocument buildV3Model spec options <> NoFuel /\
  forall version doc references service c,
    spec <> "" -> (Z.of_nat (String.length spec) <= MaxDocumentBytes)%Z ->
    validatePackage (op_package options) = Ok tt -> validateGoPackage (op_goPackage options) = Ok tt ->
    newDocument spec = inl version -> openAPIVersion version = true -> buildV3Model spec = inl (doc, references) ->
    Forall (fun r => HasPrefix (rf_raw r) "#" = true) references -> convert doc (op_service options) = Ok (service, c) ->
    exists source, Convert newDocument buildV3Model spec options = Ok (source, sortStrings (c_warnings c)).
Proof.
  split.
  - apply Convert_total.
  - intros version doc references service c Hne Hsize Hp Hg Hd Hv Hb Hr Hc. unfold Convert. rewrite Hp, Hg, Hd, Hb, Hv, Hc.
    rewrite (proj2 (checks_Ok _)); [|repeat constructor; cbn [fst]; [by apply String.eqb_neq|by apply Z.ltb_ge]].
    rewrite (proj2 (forEach_Ok checkReference references tt)); [|eapply list.Forall_impl; [exact Hr|]; intros r E; unfold checkReference; by rewrite E].
    cbn [mbind outcome_bind negb failIf]. destruct (renderProto_Ok service c (op_package options) (op_goPackage options)) as [source ->]; [by eapply convert_fileOk|done..|].
    by exists source.
Qed.

(** C37: A closed object becomes a message of its own with exactly its properties: one
    field per property, in the order of the names, under the property's name as JSON name,
    required when the object requires it; and the schemas converted before are kept. *)
Theorem object_fields_exact (doc : Document) k items properties name pointer c t c' :
  Wf c -> typeFor doc (Inline k items properties (Some (inr false))) name pointer c = Ok (t, c') ->
  Wf c' /\ extends c c' /\
  exists m, t = typeMessage (pm_name m) /\ pm_name m = protoTypeName name /\ c_messages c !! pm_name m = None /\
    c_messages c' !! pm_name m = Some m /\
    map (fun f => (pf_jsonName f, pf_name f, pf_required f)) (pm_fields m)
      = objectFields (mkSchema k items properties (Some (inr false))).
Proof.
  intros Hc Ht. apply typeFor_object in Ht as [rec [Hrec Ht]]; [|done].
  pose proof (objectType_Ok doc rec Hrec _ _ _ _ _ _ _ Hc Ht) as (?&?&_&Hm). split_and!; [done..|by apply Hm].
Qed.

(** C38: The rules written for an integer schema admit exactly the integers its bounds
    admit, exclusive flags and exclusive bounds of their own included.  (An exclusive bound
    that is not a number is dropped beside an inclusive one.) *)
Theorem int32_rules_exact (schema : Schema) pointer c rules c' z :
  ~ isNaN (k_exclusiveMinimum (s_keywords schema)) -> ~ isNaN (k_exclusiveMaximum (s_keywords schema)) ->
  integerType schema pointer c = Ok (typeScalar "int32" rules, c') ->
  Forall (meets z) rules <-> admits (s_keywords schema) z.
Proof.
  intros Hn Hx Hi. unfold integerType in Hi. m_check Hi. m_check Hi. m_check Hi. m_check Hi. m_next Hi as u c1 Hu. apply import_mret_Ok in Hi.
  injection Hi as -> _. by apply (numericRules_exact schema pointer).
Qed.
End Promises.

(** ** On the document *)

Section Pets.
#[local] Existing Instance asciiTables.
#[local] Existing Instance asciiTables_laws.
#[local] Existing Instance plainLib.

Definition fromOk {A} (otherwise : A) (m : Outcome A) : A := match m with Ok a => a | _ => otherwise end.
Definition petFile : protoService * converter := fromOk (mkService "" "" [], newConverter "") (convert petDocument "").
Definition petType : protoType * converter :=
  fromOk (typeScalar "" [], newConverter "") (typeFor petDocument petSchema "Animal" "#" (newConverter "PetStoreService")).
Definition ageSchema : Schema := mkSchema ageKeywords None None None.

Example pet_file :
  (map (fun m => (me_name m, me_httpPath m, me_input m, me_responseBody m)) (ps_methods petFile.1), sortedKeys (c_messages petFile.2))
  = ([("GetPet", "/pets/{pet_id}", "GetPetRequest", "pet")], ["GetPetRequest"; "GetPetResponse"; "Pet"]).
Proof. vm_compute. reflexivity. Qed.

Lemma import_wellformed_witness : convert petDocument "" = Ok petFile /\ fileOk petFile.1 petFile.2.
Proof.
  assert (convert petDocument "" = Ok petFile) as E by (vm_compute; reflexivity). split; [exact E|].
  apply (import_wellformed petDocument ""). rewrite <- surjective_pairing. exact E.
Defined.

Lemma import_total_witness :
  exists source, Convert (fun _ => inl "3.1.0") (fun _ => inl (petDocument, [mkReference "#/components/schemas/Pet" None])) "doc" petOptions
    = Ok (source, sortStrings (c_warnings petFile.2)).
Proof.
  apply (proj2 (import_total (fun _ => inl "3.1.0") (fun _ => inl (petDocument, [mkReference "#/components/schemas/Pet" None])) "doc" petOptions)
    "3.1.0" petDocument [mkReference "#/components/schemas/Pet" None] petFile.1); try (vm_compute; reflexivity); [discriminate|vm_compute; discriminate|].
  constructor; [reflexivity|constructor].
Defined.

Lemma object_fields_exact_witness :
  exists m, petType.1 = typeMessage (pm_name m) /\
    map (fun f => (pf_jsonName f, pf_name f, pf_required f)) (pm_fields m) = [("age", "age", false); ("mate", "mate", false); ("petId", "pet_id", true)].
Proof.
  destruct (object_fields_exact petDocument petKeywords None (Some petProperties) "Animal" "#" (newConverter "PetStoreService") petType.1 petType.2)
    as (_ & _ & m & Ht & _ & _ & _ & Hf); [apply newConverter_Wf|vm_compute; reflexivity|].
  exists m. split; [exact Ht|]. rewrite Hf. vm_compute. reflexivity.
Defined.

Lemma int32_rules_exact_witness :
  Forall (meets 14) [mkConstraint "int32.gte" "0"; mkConstraint "int32.lt" "15"] <-> admits ageKeywords 14.
Proof.
  apply (int32_rules_exact ageSchema "#" (newConverter "S") _ (setImports {[schemaValidateImport]} (newConverter "S"))); [discriminate..|].
  vm_compute. reflexivity.
Defined.
End Pets.
