(* ===== verification/Tool.v ===== *)
(** * What the command-line tools stand on

    The file system, the standard streams and the flags, as far as cmd/invariant-schema
    and cmd/invariant-openapi use them (os, path/filepath, flag), and the atomic write the
    two tools share. *)
From S2P Require Import Prelude GoStrings StringFacts Json.

Module Files.

(** ** The world

    Paths are texts: one text names one file, and links are not followed.  The contents of
    a file survive a loss of power once they are synced; until then nothing is known of
    them.  [w_past] keeps every earlier state of the files, because an entry of a directory
    that was replaced may be there again after a loss of power.  [w_faults] is what the
    system answers to the next calls, and a call that fails may have written a part;
    [w_randoms] are the numbers [CreateTemp] draws. *)
Record File : Type := mkFile { f_data : string; f_mode : Z; f_synced : bool }.
Record Fault : Type := mkFault { ft_text : string; ft_wrote : nat }.
Record World : Type := mkWorld {
  w_files : gmap string File;
  w_past : list (gmap string File);
  w_faults : list (option Fault);
  w_randoms : list N;
  w_stdout : string;
  w_stderr : string
}.
Definition history (w : World) : list (gmap string File) := w_files w :: w_past w.

(** What a path may hold when the process is killed or the power fails. *)
Definition mayHold (w : World) (path : string) (c : option string) : Prop :=
  exists files, files ∈ history w /\
    match files !! path with
    | None => c = None
    | Some f => f_synced f = true -> c = Some (f_data f)
    end.

(** ** The monad

    A step ends with a value or leaves with an error; the world it leaves is kept. *)
Inductive Exit : Type :=
  | ErrHelp
  | ErrText (text : string)
  | Panicked (text : string)
  | OutOfFuel.
Definition IO (A : Type) : Type := World -> (A + Exit) * World.
#[export] Instance IO_ret : MRet IO := fun A a w => (inl a, w).
#[export] Instance IO_bind : MBind IO := fun A B k m w =>
  match m w with
  | (inl a, w') => k a w'
  | (inr e, w') => (inr e, w')
  end.
Definition leave {A} (e : Exit) : IO A := fun w => (inr e, w).
Definition throw {A} (text : string) : IO A := leave (ErrText text).
Definition throwIf (cond : bool) (text : string) : IO unit := if cond then throw text else mret tt.
Definition ofOutcome {A} (m : Outcome A) : IO A :=
  match m with
  | Ok a => mret a
  | Err e => throw e
  | Panic e => leave (Panicked e)
  | NoFuel => leave OutOfFuel
  end.
(** [fmt.Errorf("...: %w", err)]. *)
Definition wrapIO {A} (prefix : string) (m : IO A) : IO A := fun w =>
  match m w with
  | (inr (ErrText e), w') => (inr (ErrText (prefix +:+ e)), w')
  | r => r
  end.
(** [defer]: the cleanup runs whatever happened, and its error is dropped. *)
Definition deferred {A} (m : IO A) (cleanup : IO unit) : IO A := fun w =>
  let '(r, w1) := m w in (r, (cleanup w1).2).
(** The cleanup runs when the step failed. *)
Definition orElse {A} (m : IO A) (cleanup : IO unit) : IO A := fun w =>
  match m w with
  | (inr e, w1) => (inr e, (cleanup w1).2)
  | r => r
  end.

(** ** System calls *)

Definition ask : IO (option Fault) := fun w =>
  match w_faults w with
  | [] => (inl None, w)
  | f :: fs => (inl f, mkWorld (w_files w) (w_past w) fs (w_randoms w) (w_stdout w) (w_stderr w))
  end.
Definition look : IO (gmap string File) := fun w => (inl (w_files w), w).
Definition change (f : gmap string File -> gmap string File) : IO unit := fun w =>
  (inl tt, mkWorld (f (w_files w)) (history w) (w_faults w) (w_randoms w) (w_stdout w) (w_stderr w)).
(** A call that succeeds with an effect, or fails with none. *)
Definition call (f : gmap string File -> gmap string File) : IO unit :=
  answer ← ask;
  match answer with Some e => throw (ft_text e) | None => change f end.

Inductive Lookup (A : Type) : Type :=
  | Found (a : A)
  | NotExist (text : string)
  | Unreadable (text : string).
#[global] Arguments Found {A}.
#[global] Arguments NotExist {A}.
#[global] Arguments Unreadable {A}.

Definition lookupFile (op path : string) : IO (Lookup File) :=
  answer ← ask;
  match answer with
  | Some e => mret (Unreadable (ft_text e))
  | None =>
      files ← look;
      mret match files !! path with
           | Some f => Found f
           | None => NotExist (op +:+ " " +:+ path +:+ ": no such file or directory")
           end
  end.
Definition ReadFile (path : string) : IO (Lookup string) :=
  r ← lookupFile "open" path;
  mret match r with Found f => Found (f_data f) | NotExist e => NotExist e | Unreadable e => Unreadable e end.

(** [stdout.Write] and [fmt.Fprintf(stderr, ...)]; the error is the caller's to use. *)
Definition appendTo (toStdout : bool) (text : string) : IO unit := fun w =>
  (inl tt,
   if toStdout then mkWorld (w_files w) (w_past w) (w_faults w) (w_randoms w) (w_stdout w +:+ text) (w_stderr w)
   else mkWorld (w_files w) (w_past w) (w_faults w) (w_randoms w) (w_stdout w) (w_stderr w +:+ text)).
Definition print (toStdout : bool) (text : string) : IO (option string) :=
  answer ← ask;
  _ ← appendTo toStdout match answer with Some e => takeString (ft_wrote e) text | None => text end;
  mret (ft_text <$> answer).
Definition WriteStdout (text : string) : IO unit :=
  r ← print true text; match r with Some e => throw e | None => mret tt end.
Definition Fprint (toStdout : bool) (text : string) : IO unit := _ ← print toStdout text; mret tt.

(** ** Paths *)

Definition cleanStep (rooted : bool) (out : list string) (elem : string) : list string :=
  if String.eqb elem "" || String.eqb elem "." then out
  else if String.eqb elem ".." then
    match out with
    | top :: rest => if String.eqb top ".." then ".." :: out else rest
    | [] => if rooted then [] else [".."]
    end
  else elem :: out.
Definition Clean (path : string) : string :=
  if String.eqb path "" then "."
  else
    let rooted := HasPrefix path "/" in
    let text := Join (rev (foldl (cleanStep rooted) [] (Split path SLASH))) "/" in
    if rooted then "/" +:+ text else if String.eqb text "" then "." else text.
Definition Dir (path : string) : string :=
  match CutLast path SLASH with
  | Some (before, _) => Clean (before +:+ "/")
  | None => "."
  end.
Definition Base (path : string) : string :=
  if String.eqb path "" then "."
  else
    let stripped := revString (trimLeftByte SLASH (revString path)) in
    let last := match CutLast stripped SLASH with Some (_, after) => after | None => stripped end in
    if String.eqb last "" then "/" else last.

Example path_parts :
  (map Dir ["a"; "a/b"; "/a"; "a//b/../c"; "a/b/"; "../../x"], map Base ["a"; "a/b"; "/"; "a/b//"; ""])
  = ([".";  "a"; "/"; "a"; "a/b"; "../.."], ["a"; "b"; "/"; "b"; "."]).
Proof. reflexivity. Qed.

(** ** The atomic write *)

Definition joinPath (dir name : string) : string := if HasSuffix dir "/" then dir +:+ name else dir +:+ "/" +:+ name.
(** [os.CreateTemp] of a pattern that ends in [*.tmp]: names are drawn until one is free. *)
Fixpoint freshName (files : gmap string File) (prefix : string) (randoms : list N) : option (string * list N) :=
  match randoms with
  | [] => None
  | n :: randoms =>
      let name := prefix +:+ FormatUint n +:+ ".tmp" in
      match files !! name with
      | Some _ => freshName files prefix randoms
      | None => Some (name, randoms)
      end
  end.
Definition CreateTemp (dir base : string) : IO string :=
  if negb (noByte SLASH base) then throw ("createtemp ." +:+ base +:+ ".*.tmp: pattern contains path separator")
  else
    let prefix := joinPath dir ("." +:+ base +:+ ".") in
    answer ← ask;
    match answer with
    | Some e => throw (ft_text e)
    | None => fun w =>
        match freshName (w_files w) prefix (w_randoms w) with
        | None => (inr (ErrText ("createtemp " +:+ prefix +:+ "*.tmp: file already exists")), w)
        | Some (name, randoms) =>
            (inl name, mkWorld (<[name := mkFile "" 384 false]> (w_files w)) (history w) (w_faults w) randoms (w_stdout w) (w_stderr w))
        end
    end.

Definition setFile (path : string) (f : File -> File) : gmap string File -> gmap string File := alter f path.
Definition Chmod (path : string) (mode : Z) : IO unit := call (setFile path (fun f => mkFile (f_data f) mode (f_synced f))).
Definition WriteTo (path data : string) : IO unit :=
  answer ← ask;
  let written := match answer with Some e => takeString (ft_wrote e) data | None => data end in
  _ ← change (setFile path (fun f => mkFile (f_data f +:+ written) (f_mode f) false));
  match answer with Some e => throw (ft_text e) | None => mret tt end.
Definition Sync (path : string) : IO unit := call (setFile path (fun f => mkFile (f_data f) (f_mode f) true)).
Definition Close : IO unit := call id.
Definition Rename (from to : string) : IO unit :=
  call (fun files => match files !! from with Some f => <[to := f]> (delete from files) | None => files end).
Definition Remove (path : string) : IO unit := call (delete path).

Definition writeFileAtomically (path data : string) : IO unit :=
  let directory := Dir path in
  info ← lookupFile "stat" path;
  mode ← match info with
         | Found f => mret (f_mode f)
         | NotExist _ => mret 420%Z
         | Unreadable e => throw e
         end;
  temporaryPath ← CreateTemp directory (Base path);
  deferred
    (_ ← orElse (Chmod temporaryPath mode) Close;
     _ ← orElse (WriteTo temporaryPath data) Close;
     _ ← orElse (Sync temporaryPath) Close;
     _ ← Close;
     Rename temporaryPath path)
    (Remove temporaryPath).
End Files.

(** ** Flags *)

Module Flags.
Import Files.

Inductive FlagKind : Type := StringFlag | MessageFlag.
Record FlagDef : Type := mkFlag { fl_name : string; fl_kind : FlagKind; fl_default : string; fl_usage : string }.
Definition Values : Type := gmap string (list string).
Inductive Parsed : Type :=
  | ParsedFlags (values : Values) (positional : list string)
  | HelpRequested
  | BadFlags (text : string).

Inductive ArgText : Type :=
  | Positional
  | Terminator
  | BadSyntax
  | Named (name : string) (value : option string).
Definition EQUALS : ascii := "=".
Fixpoint cutValue (s : string) : string * option string :=
  match s with
  | EmptyString => (EmptyString, None)
  | String c r => if Ascii.eqb c EQUALS then (EmptyString, Some r) else let '(n, v) := cutValue r in (String c n, v)
  end.
Definition argName (name : string) : ArgText :=
  match name with
  | EmptyString => BadSyntax
  | String c r =>
      if Ascii.eqb c "-" || Ascii.eqb c EQUALS then BadSyntax
      else let '(n, v) := cutValue r in Named (String c n) v
  end.
Definition argText (s : string) : ArgText :=
  match s with
  | String "-" EmptyString => Positional
  | String "-" (String "-" EmptyString) => Terminator
  | String "-" (String "-" name) => argName name
  | String "-" name => argName name
  | _ => Positional
  end.

(** [flag.Value.Set]: a string replaces, a message name is appended. *)
Definition setFlag (d : FlagDef) (value : string) (values : Values) : string + Values :=
  match fl_kind d with
  | StringFlag => inr (<[fl_name d := [value]]> values)
  | MessageFlag =>
      if String.eqb value "" then inl "message name must not be empty"
      else inr (<[fl_name d := default [] (values !! fl_name d) ++ [value]]> values)
  end.
Definition findFlag (defs : list FlagDef) (name : string) : option FlagDef :=
  list_find (fun d => fl_name d = name) defs ≫= fun r => Some r.2.

(** [FlagSet.Parse], one argument or two at a time. *)
Fixpoint parse (defs : list FlagDef) (args : list string) (values : Values) {struct args} : Parsed :=
  match args with
  | [] => ParsedFlags values []
  | s :: rest =>
      match argText s with
      | Positional => ParsedFlags values args
      | Terminator => ParsedFlags values rest
      | BadSyntax => BadFlags ("bad flag syntax: " +:+ s)
      | Named name value =>
          match findFlag defs name with
          | None =>
              if String.eqb name "help" || String.eqb name "h" then HelpRequested
              else BadFlags ("flag provided but not defined: -" +:+ name)
          | Some d =>
              let invalid v e := BadFlags ("invalid value " +:+ Quote v +:+ " for flag -" +:+ name +:+ ": " +:+ e) in
              match value, rest with
              | Some v, _ => match setFlag d v values with inl e => invalid v e | inr values => parse defs rest values end
              | None, v :: rest => match setFlag d v values with inl e => invalid v e | inr values => parse defs rest values end
              | None, [] => BadFlags ("flag needs an argument: -" +:+ name)
              end
          end
      end
  end.

Definition usageLine (d : FlagDef) : string :=
  "  -" +:+ fl_name d +:+ match fl_kind d with StringFlag => " string" | MessageFlag => " value" end +:+ str1 LF
  +:+ "    " +:+ str1 TAB +:+ fl_usage d +:+ (if String.eqb (fl_default d) "" then "" else " (default " +:+ Quote (fl_default d) +:+ ")") +:+ str1 LF.
Definition flag_le (a b : FlagDef) : Prop := string_le (fl_name a) (fl_name b).
#[export] Instance flag_le_dec a b : Decision (flag_le a b).
Proof. unfold flag_le, string_le. apply _. Defined.
Definition flagUsage (command : string) (defs : list FlagDef) : string :=
  "Usage of " +:+ command +:+ ":" +:+ str1 LF +:+ String.concat "" (map usageLine (merge_sort flag_le defs)).

(** The flag set of a command, with ContinueOnError and its output on stderr. *)
Definition Parse (command : string) (defs : list FlagDef) (args : list string) : IO (Values * list string) :=
  match parse defs args ∅ with
  | ParsedFlags values positional => mret (values, positional)
  | HelpRequested => _ ← Fprint false (flagUsage command defs); leave ErrHelp
  | BadFlags text => _ ← Fprint false (text +:+ str1 LF); _ ← Fprint false (flagUsage command defs); throw text
  end.
Definition flagValue (values : Values) (d : FlagDef) : string :=
  match values !! fl_name d ≫= list.last with Some v => v | None => fl_default d end.
Definition flagList (values : Values) (d : FlagDef) : list string := default [] (values !! fl_name d).
End Flags.
