(* ===== verification/SchemaTool.v ===== *)
(** * The command-line tools (src/go/cmd)

    cmd/invariant-schema compiles descriptors into a schema bundle, migrates bundles and
    renders them; cmd/invariant-openapi imports OpenAPI documents.  Both run in the world
    of Tool.v. *)
From S2P Require Import Prelude GoStrings StringFacts Schema WellFormed Bundle Descriptor CompileBundle Json JsonParse Render Sqlite Postgres Iceberg Arrow Parquet ClickHouse Projection OpenApiModel OpenApiSchema OpenApiRender Tool.
Import Files Flags.

(** What the tools print of libraries: the Arrow stream, the text of a Parquet schema and
    the JSON of an Iceberg schema. *)
Class ToolRuntime `{Parquet.ParquetRuntime} : Type := {
  ipcStream : Arrow.ArrowSchema -> string + string;
  ParquetSchema_String : Parquet.ParquetSchema -> string;
  IcebergSchema_Marshal : Iceberg.IcebergSchema -> string + string
}.

Module SchemaTool.

Definition line (s : string) : string := s +:+ str1 LF.
Definition commands : string := "compile, migrate, arrow, parquet, iceberg, clickhouse, clickhouse-iceberg, postgres, or sqlite".
Definition usage : string := String.concat "" (map line [
  "usage:";
  "  invariant-schema compile --descriptor FILE [--message FULL_NAME ...] --output FILE";
  "    Without --message, messages marked (invariant.data.v1.dataset) are compiled.";
  "  invariant-schema migrate --bundle FILE --output FILE";
  "    Upgrade the supported historical SchemaBundle while retaining identities and tombstones.";
  "  invariant-schema arrow|parquet|iceberg|clickhouse|clickhouse-iceberg|postgres|sqlite --bundle FILE [--message FULL_NAME] [--output FILE|-]";
  "    PostgreSQL and SQLite render every dataset when --message is omitted; other targets require one dataset.";
  "    Arrow emits schema-only IPC; Lance/LanceDB consume that schema and Python arrow_table()/arrow_record_batch_reader() through their SDK."
]).

Definition noArguments (command : string) (positional : list string) : IO unit :=
  throwIf (negb (bool_decide (positional = []))) (command +:+ ": unexpected positional arguments: " +:+ Join positional " ").
(** [err] of a file that has to be there. *)
Definition mustRead (r : Lookup string) : IO string :=
  match r with Found s => mret s | NotExist e | Unreadable e => throw e end.

Section Compile.
Context `{Protoreflect} `{BundleRuntime} `{DescriptorRuntime}.

(** ** compile *)

Definition descriptorFlag : FlagDef := mkFlag "descriptor" StringFlag "" "FileDescriptorSet input".
Definition messagesFlag : FlagDef := mkFlag "message" MessageFlag "" "fully-qualified root message name (repeatable)".
Definition compileOutputFlag : FlagDef := mkFlag "output" StringFlag "" "SchemaBundle output".
Definition compileFlags : list FlagDef := [descriptorFlag; messagesFlag; compileOutputFlag].

Fixpoint firstDuplicate (sorted : list string) : option string :=
  match sorted with
  | x :: (y :: _) as l => if String.eqb x y then Some y else firstDuplicate l
  | _ => None
  end.

Definition loadPreviousBundle (path : string) : IO (option SchemaBundle) :=
  r ← ReadFile path;
  match r with
  | NotExist _ => mret None
  | Unreadable e => throw ("compile: read previous schema bundle " +:+ Quote path +:+ ": " +:+ e)
  | Found encoded =>
      previous ← wrapIO ("compile: parse previous schema bundle " +:+ Quote path +:+ ": ") (ofOutcome (ParseSchemaBundle encoded));
      mret (Some previous)
  end.

(** After the flags: the descriptor, the sorted messages and the output. *)
Definition compileTo (descriptorPath outputPath : string) (messages : list string) : IO unit :=
  r ← ReadFile descriptorPath;
  descriptor ← wrapIO ("compile: read descriptor " +:+ Quote descriptorPath +:+ ": ") (mustRead r);
  previous ← loadPreviousBundle outputPath;
  bundle ← ofOutcome (CompileDescriptorBytes descriptor messages previous);
  encoded ← wrapIO "compile: marshal schema bundle: " (ofOutcome (MarshalSchemaBundle (Some bundle)));
  wrapIO ("compile: write schema bundle " +:+ Quote outputPath +:+ ": ") (writeFileAtomically outputPath encoded).

Definition runCompile (args : list string) : IO unit :=
  '(values, positional) ← Parse "compile" compileFlags args;
  _ ← noArguments "compile" positional;
  let descriptorPath := flagValue values descriptorFlag in
  let outputPath := flagValue values compileOutputFlag in
  _ ← throwIf (String.eqb descriptorPath "") "compile: --descriptor is required";
  _ ← throwIf (String.eqb outputPath "") "compile: --output is required";
  _ ← throwIf (String.eqb outputPath "-") "compile: --output must be a file so schema identity history can be retained";
  let messages := sortStrings (flagList values messagesFlag) in
  match firstDuplicate messages with
  | Some name => throw ("compile: duplicate --message " +:+ Quote name)
  | None => compileTo descriptorPath outputPath messages
  end.

(** ** migrate *)

Definition bundleFlag (text : string) : FlagDef := mkFlag "bundle" StringFlag "" text.
Definition migrateFlags : list FlagDef :=
  [bundleFlag "historical SchemaBundle input"; mkFlag "output" StringFlag "" "migrated SchemaBundle output"].

Definition runMigrate (args : list string) : IO unit :=
  '(values, positional) ← Parse "migrate" migrateFlags args;
  _ ← noArguments "migrate" positional;
  let bundlePath := flagValue values (bundleFlag "") in
  let outputPath := flagValue values compileOutputFlag in
  _ ← throwIf (String.eqb bundlePath "") "migrate: --bundle is required";
  _ ← throwIf (String.eqb outputPath "" || String.eqb outputPath "-") "migrate: --output must be a file";
  r ← ReadFile bundlePath;
  encoded ← wrapIO ("migrate: read schema bundle " +:+ Quote bundlePath +:+ ": ") (mustRead r);
  bundle ← wrapIO "migrate: " (ofOutcome (ParseSchemaBundle encoded));
  migrated ← wrapIO "migrate: marshal schema bundle: " (ofOutcome (MarshalSchemaBundle (Some bundle)));
  wrapIO ("migrate: write schema bundle " +:+ Quote outputPath +:+ ": ") (writeFileAtomically outputPath migrated).
End Compile.

(** ** Rendering *)

Definition Compatibility_String (c : MappingCompatibility) : string :=
  match c with
  | LOSSLESS => "MAPPING_COMPATIBILITY_LOSSLESS"
  | RANGE_WIDENED => "MAPPING_COMPATIBILITY_RANGE_WIDENED"
  | PRECISION_REDUCED => "MAPPING_COMPATIBILITY_PRECISION_REDUCED"
  | REPRESENTATION_CHANGED => "MAPPING_COMPATIBILITY_REPRESENTATION_CHANGED"
  | UNSUPPORTED => "MAPPING_COMPATIBILITY_UNSUPPORTED"
  | RANGE_REDUCED => "MAPPING_COMPATIBILITY_RANGE_REDUCED"
  end.
(** No renderer gives a nil diagnostic. *)
Definition diagnosticLine (target : string) (d : MappingDiagnostic) : string :=
  line (target +:+ ": " +:+ Compatibility_String (compatibility d) +:+ ": " +:+ field_path d +:+ ": " +:+ message d).
Fixpoint writeDiagnostics (target : string) (diagnostics : list MappingDiagnostic) : IO unit :=
  match diagnostics with
  | [] => mret tt
  | d :: l => _ ← Fprint false (diagnosticLine target d); writeDiagnostics target l
  end.

Definition withFinalNewline (data : string) : string := if HasSuffix data (str1 LF) then data else data +:+ str1 LF.
Definition sourceOf (dataset : option DatasetSchema) : string := match dataset with Some ds => source_message ds | None => "" end.
Definition nameOf (dataset : option DatasetSchema) : string := match dataset with Some ds => ds_name ds | None => "" end.

Section Rendering.
Context `{BundleRuntime} `{Arrow.ArrowRuntime} `{Projection.IcebergRuntime} `{ToolRuntime}.

Definition render (target : string) (dataset : option DatasetSchema) : list MappingDiagnostic * Outcome string :=
  let failed step := target +:+ ": " +:+ step +:+ " message " +:+ Quote (sourceOf dataset) +:+ ": " in
  if String.eqb target "arrow" then
    let '(diagnostics, schema) := Arrow.Schema dataset in
    (diagnostics,
     s ← wrapErr (failed "render") schema;
     _ ← wrapErr (target +:+ ": write IPC stream for message " +:+ Quote (sourceOf dataset) +:+ ": ")
           (Arrow.WriteIPC (Some (fun s => match ipcStream s with inl e => Err e | inr _ => Ok tt end)) (Some s));
     Ok match ipcStream s with inr written => written | inl _ => "" end)
  else if String.eqb target "parquet" then
    match Parquet.Schema dataset with
    | Ok (schema, diagnostics) => (diagnostics, Ok (withFinalNewline (ParquetSchema_String schema)))
    | Err e => ([], Err (failed "render" +:+ e))
    | Panic e => ([], Panic e)
    | NoFuel => ([], NoFuel)
    end
  else if String.eqb target "iceberg" then
    let '(diagnostics, schema) := Iceberg.Schema dataset in
    (diagnostics,
     s ← wrapErr (failed "render") schema;
     encoded ← wrapErr (failed "encode") (Iceberg.JSON IcebergSchema_Marshal (Some s));
     Ok (withFinalNewline encoded))
  else if String.eqb target "clickhouse" then
    let '(diagnostics, schema) := ClickHouse.Schema dataset in
    (diagnostics,
     s ← wrapErr (failed "render") schema;
     Ok (withFinalNewline ("(" +:+ str1 LF +:+ ClickHouse.ColumnDeclarations (Some s) +:+ str1 LF +:+ ")")))
  else if String.eqb target "clickhouse-iceberg" then
    let '(diagnostics, projection) := Projection.ProjectToIceberg dataset in
    (diagnostics,
     p ← wrapErr (failed "project") projection;
     encoded ← wrapErr (failed "encode") (Projection.ProjectionJSON (Some p));
     Ok (withFinalNewline encoded))
  else if String.eqb target "postgres" then
    let '(diagnostics, ddl) := Postgres.DDL dataset in
    (diagnostics, text ← wrapErr (failed "render") ddl; Ok (withFinalNewline text))
  else if String.eqb target "sqlite" then
    let '(diagnostics, ddl) := Sqlite.DDL dataset in
    (diagnostics, text ← wrapErr (failed "render") ddl; Ok (withFinalNewline text))
  else ([], Err ("unsupported render target " +:+ Quote target)).
Definition renderWith (target : string) (dataset : option DatasetSchema) : IO string :=
  let '(diagnostics, artifact) := render target dataset in
  _ ← writeDiagnostics target diagnostics;
  ofOutcome artifact.

(** By message, then by name. *)
Definition dataset_le (a b : option DatasetSchema) : Prop :=
  if String.eqb (sourceOf a) (sourceOf b) then string_le (nameOf a) (nameOf b) else string_le (sourceOf a) (sourceOf b).
#[export] Instance dataset_le_dec a b : Decision (dataset_le a b).
Proof. unfold dataset_le, string_le. destruct (String.eqb _ _); apply _. Defined.

(** [strings.Map] of the ASCII capitals to small letters. *)
Definition lowerASCII (s : string) : string :=
  OpenApiModel.textOfRunes (map (fun r => if (65 <=? r)%N && (r <=? 90)%N then (r + 32)%N else r) (OpenApiModel.runesOf s)).

Fixpoint renderEach (target : string) (datasets : list (option DatasetSchema)) (seen : list string) : IO (list string) :=
  match datasets with
  | [] => mret []
  | dataset :: rest =>
      let name := lowerASCII (nameOf dataset) in
      _ ← throwIf (String.eqb target "sqlite" && bool_decide (name ∈ seen))
            ("sqlite: case-insensitive table collision " +:+ Quote (nameOf dataset));
      artifact ← renderWith target dataset;
      artifacts ← renderEach target rest (name :: seen);
      mret (artifact :: artifacts)
  end.
Definition renderSQLBundle (target : string) (bundle : SchemaBundle) : IO string :=
  _ ← throwIf (negb (OpenApiSchema.filled (datasets bundle))) (target +:+ ": bundle contains no datasets");
  artifacts ← renderEach target (merge_sort dataset_le (datasets bundle)) [];
  mret (Join artifacts (str1 LF)).

Definition readBundle (path : string) : IO SchemaBundle :=
  r ← ReadFile path;
  encoded ← wrapIO ("read schema bundle " +:+ Quote path +:+ ": ") (mustRead r);
  wrapIO ("parse schema bundle " +:+ Quote path +:+ ": ") (ofOutcome (ParseSchemaBundle encoded)).

(** The datasets that are there and come from the message. *)
Definition selectDataset (bundle : SchemaBundle) (messageName : string) : Outcome (option DatasetSchema) :=
  if String.eqb messageName "" then
    match datasets bundle with
    | [] => Err "bundle contains no datasets"
    | [dataset] => Ok dataset
    | l => Err ("--message is required because bundle contains " +:+ FormatInt (Z.of_nat (length l)) +:+ " datasets")
    end
  else
    match List.filter (fun ds => String.eqb (source_message ds) messageName) (omap id (datasets bundle)) with
    | [] => Err ("bundle does not contain message " +:+ Quote messageName)
    | [ds] => Ok (Some ds)
    | _ => Err ("bundle contains duplicate dataset " +:+ Quote messageName)
    end.

Definition messageFlag : FlagDef := mkFlag "message" StringFlag "" "fully-qualified source message name".
Definition artifactFlag : FlagDef := mkFlag "output" StringFlag "-" "artifact output file, or - for stdout".
Definition renderFlags : list FlagDef := [bundleFlag "SchemaBundle input"; messageFlag; artifactFlag].

Definition runRender (target : string) (args : list string) : IO unit :=
  '(values, positional) ← Parse target renderFlags args;
  _ ← noArguments target positional;
  let bundlePath := flagValue values (bundleFlag "") in
  let messageName := flagValue values messageFlag in
  let outputPath := flagValue values artifactFlag in
  _ ← throwIf (String.eqb bundlePath "") (target +:+ ": --bundle is required");
  _ ← throwIf (String.eqb outputPath "") (target +:+ ": --output must not be empty");
  bundle ← wrapIO (target +:+ ": ") (readBundle bundlePath);
  artifact ←
    (if (String.eqb target "postgres" || String.eqb target "sqlite") && String.eqb messageName "" then renderSQLBundle target bundle
     else
       dataset ← wrapIO (target +:+ ": ") (ofOutcome (selectDataset bundle messageName));
       renderWith target dataset);
  if String.eqb outputPath "-" then wrapIO (target +:+ ": write stdout: ") (WriteStdout artifact)
  else wrapIO (target +:+ ": write artifact " +:+ Quote outputPath +:+ ": ") (writeFileAtomically outputPath artifact).

(** ** The command *)

Context `{Protoreflect} `{DescriptorRuntime}.

Definition renderTargets : list string := ["arrow"; "parquet"; "iceberg"; "clickhouse"; "clickhouse-iceberg"; "postgres"; "sqlite"].
Definition run (args : list string) : IO unit :=
  match args with
  | [] => throw ("command required: " +:+ commands)
  | command :: args =>
      if String.eqb command "compile" then runCompile args
      else if String.eqb command "migrate" then runMigrate args
      else if decide (command ∈ renderTargets) then runRender command args
      else if decide (command ∈ ["help"; "-h"; "--help"]) then Fprint true usage
      else throw ("unknown command " +:+ Quote command +:+ "; expected " +:+ commands)
  end.
End Rendering.
End SchemaTool.

(** ** The exit of a command

    [main] of either tool: the exit status, and the error on stderr. *)
Definition mainOf (tool : string) (run : IO unit) (w : World) : Z * World :=
  match run w with
  | (inl _, w') | (inr ErrHelp, w') => (0%Z, w')
  | (inr (ErrText e), w') => (1%Z, (Fprint false (tool +:+ ": " +:+ e +:+ str1 LF) w').2)
  | (inr (Panicked e), w') => (2%Z, (Fprint false ("panic: " +:+ e) w').2)
  | (inr OutOfFuel, w') => (2%Z, w')
  end.

(** ** invariant-openapi *)

Module OpenApiTool.
Import OpenApiModel OpenApiDoc OpenApiSchema OpenApiRender.

Definition usage : string := String.concat "" (map SchemaTool.line [
  "usage:";
  "  invariant-openapi import --input FILE --package PACKAGE --go-package IMPORT [--service NAME] --output FILE|-";
  "";
  "The generated .proto is a one-way bootstrap artifact. Review it, then maintain protobuf as the canonical contract."
]).
Definition inputFlag : FlagDef := mkFlag "input" StringFlag "" "bundled OpenAPI 3.0 or 3.1 input".
Definition packageFlag : FlagDef := mkFlag "package" StringFlag "" "lowercase protobuf package".
Definition goPackageFlag : FlagDef := mkFlag "go-package" StringFlag "" "generated Go import path".
Definition serviceFlag : FlagDef := mkFlag "service" StringFlag "" "protobuf service name (defaults from info.title)".
Definition outputFlag : FlagDef := mkFlag "output" StringFlag "" "protobuf output file, or - for stdout".
Definition importFlags : list FlagDef := [inputFlag; packageFlag; goPackageFlag; serviceFlag; outputFlag].

(** One byte more than the limit is read. *)
Definition readBounded (path : string) : IO string :=
  r ← ReadFile path;
  content ← SchemaTool.mustRead r;
  let spec := takeString (Z.to_nat MaxDocumentBytes + 1) content in
  _ ← throwIf (MaxDocumentBytes <? Z.of_nat (String.length spec))%Z
        ("document exceeds the " +:+ FormatInt MaxDocumentBytes +:+ "-byte limit");
  mret spec.
Fixpoint writeWarnings (warnings : list string) : IO unit :=
  match warnings with
  | [] => mret tt
  | warning :: l =>
      r ← print false (SchemaTool.line ("warning: " +:+ warning));
      _ ← match r with Some e => throw ("import: write warning: " +:+ e) | None => mret tt end;
      writeWarnings l
  end.

Section Import.
Context `{UnicodeTables} `{GoLib} (newDocument : string -> string + string) (buildV3Model : string -> Document * list Reference + string).

Definition runImport (args : list string) : IO unit :=
  '(values, positional) ← Parse "import" importFlags args;
  _ ← SchemaTool.noArguments "import" positional;
  let inputPath := flagValue values inputFlag in
  let outputPath := flagValue values outputFlag in
  _ ← throwIf (String.eqb inputPath "") "import: --input is required";
  _ ← throwIf (String.eqb (flagValue values packageFlag) "") "import: --package is required";
  _ ← throwIf (String.eqb (flagValue values goPackageFlag) "") "import: --go-package is required";
  _ ← throwIf (String.eqb outputPath "") "import: --output is required";
  spec ← wrapIO ("import: read input " +:+ Quote inputPath +:+ ": ") (readBounded inputPath);
  '(source, warnings) ← wrapIO "import: " (ofOutcome (Convert newDocument buildV3Model spec
    (mkOptions (flagValue values packageFlag) (flagValue values goPackageFlag) (flagValue values serviceFlag))));
  _ ← writeWarnings warnings;
  if String.eqb outputPath "-" then wrapIO "import: write stdout: " (WriteStdout source)
  else wrapIO ("import: write output " +:+ Quote outputPath +:+ ": ") (writeFileAtomically outputPath source).

Definition run (args : list string) : IO unit :=
  match args with
  | [] => throw "command required: import"
  | command :: args =>
      if String.eqb command "import" then runImport args
      else if decide (command ∈ ["help"; "-h"; "--help"]) then Fprint true usage
      else throw ("unknown command " +:+ Quote command +:+ "; expected import")
  end.
End Import.
End OpenApiTool.
