(* ===== verification/ToolSpec.v ===== *)
(** * What the command-line tools keep

    A file is replaced as a whole or not at all, whatever call fails and whenever the
    process is killed or the power is lost; so the history in a schema bundle survives
    every series of compilations. *)
From S2P Require Import Prelude GoStrings StringFacts Sha256 Schema WellFormed Bundle Descriptor Compiler Examples CompilerFacts HistoryFacts Evolution CompiledTrees Termination CompileSpec CompileBundle BundleSpec MetadataSpec HttpConnect Json Arrow Parquet Projection Tool SchemaTool.
Import Files Flags.

(** ** Steps of the monad *)

Lemma IO_bind_run {A B} (m : IO A) (k : A -> IO B) w r w' :
  (m ≫= k) w = (r, w') <->
  (exists a w1, m w = (inl a, w1) /\ k a w1 = (r, w')) \/ (exists e, m w = (inr e, w') /\ r = inr e).
Proof.
  unfold mbind, IO_bind. destruct (m w) as [[a|e] w1]; split.
  - intros Hk. left. by exists a, w1.
  - intros [(?&?&[= <- <-]&Hk)|(?&?&_)]; [done|discriminate].
  - intros [= <- <-]. right. by exists e.
  - intros [(?&?&?&_)|(?&[= -> ->]&->)]; [discriminate|done].
Qed.

(** The files and their past are as before. *)
Definition untouched (w w' : World) : Prop := w_files w' = w_files w /\ w_past w' = w_past w.
#[export] Instance untouched_preorder : PreOrder untouched.
Proof. split; [by intros w|]. intros a b c [? ?] [? ?]. split; congruence. Qed.
Definition pure {A} (m : IO A) : Prop := forall w, untouched w (m w).2.

Lemma pure_ret {A} (a : A) : pure (mret a).
Proof. by intros w. Qed.
Lemma pure_leave {A} e : pure (leave (A := A) e).
Proof. by intros w. Qed.
Lemma pure_bind {A B} (m : IO A) (k : A -> IO B) : pure m -> (forall a, pure (k a)) -> pure (m ≫= k).
Proof.
  intros Hm Hk w. unfold mbind, IO_bind. specialize (Hm w). destruct (m w) as [[a|e] w1]; [|done].
  etransitivity; [exact Hm|apply Hk].
Qed.
Lemma pure_ask : pure ask.
Proof. intros w. unfold ask. by destruct (w_faults w). Qed.
Lemma pure_wrapIO {A} prefix (m : IO A) : pure m -> pure (wrapIO prefix m).
Proof. intros Hm w. unfold wrapIO. specialize (Hm w). by destruct (m w) as [[a|[]] w1]. Qed.
Lemma pure_ofOutcome {A} (m : Outcome A) : pure (ofOutcome m).
Proof. destruct m; by intros w. Qed.
Lemma pure_throwIf cond text : pure (throwIf cond text).
Proof. destruct cond; by intros w. Qed.
Lemma pure_print toStdout text : pure (print toStdout text).
Proof. apply pure_bind; [apply pure_ask|]. intros answer. apply pure_bind; [|intros; apply pure_ret]. intros w. by destruct toStdout. Qed.
Lemma pure_Fprint toStdout text : pure (Fprint toStdout text).
Proof. apply pure_bind; [apply pure_print|intros; apply pure_ret]. Qed.
Lemma pure_lookupFile op path : pure (lookupFile op path).
Proof. apply pure_bind; [apply pure_ask|]. intros [e|]; [apply pure_ret|]. by apply pure_bind; [intros w|intros; apply pure_ret]. Qed.
Lemma pure_ReadFile path : pure (ReadFile path).
Proof. apply pure_bind; [apply pure_lookupFile|intros; apply pure_ret]. Qed.
Lemma pure_Parse command defs args : pure (Parse command defs args).
Proof.
  unfold Parse. destruct (parse defs args ∅); [apply pure_ret| |]; repeat (apply pure_bind; [apply pure_Fprint|intros _]); apply pure_leave.
Qed.
#[export] Hint Resolve pure_ret pure_leave pure_bind pure_ask pure_wrapIO pure_ofOutcome pure_throwIf pure_print pure_Fprint pure_lookupFile
  pure_ReadFile pure_Parse : pure.

(** After a step that leaves the files alone the rest goes on from the same files. *)
Lemma pure_step {A B} (m : IO A) (k : A -> IO B) w r w' : pure m -> (m ≫= k) w = (r, w') ->
  untouched w w' \/ exists a w1, m w = (inl a, w1) /\ untouched w w1 /\ k a w1 = (r, w').
Proof.
  intros Hm Hr. specialize (Hm w). apply IO_bind_run in Hr as [(a&w1&Ha&Hk)|(e&Ha&->)]; rewrite Ha in Hm; [right|by left]. by exists a, w1.
Qed.
Lemma ofOutcome_inl {A} (m : Outcome A) w a w' : ofOutcome m w = (inl a, w') -> m = Ok a.
Proof. destruct m; intros E; try discriminate. by injection E as ->. Qed.
Lemma wrapIO_inl {A} prefix (m : Outcome A) w a w' : wrapIO prefix (ofOutcome m) w = (inl a, w') -> m = Ok a.
Proof. by destruct m; cbn; intros; simplify_eq. Qed.

Lemma lookupFile_cases op path w r w1 : lookupFile op path w = (r, w1) ->
  untouched w w1 /\ match r with
                   | inl (Found f) => w_files w !! path = Some f
                   | inl (NotExist _) => w_files w !! path = None
                   | inl (Unreadable _) => True
                   | inr _ => False
                   end.
Proof.
  intros Hr. pose proof (pure_lookupFile op path w) as Hu. rewrite Hr in Hu. split; [exact Hu|].
  unfold lookupFile in Hr. apply IO_bind_run in Hr as [(answer&w2&Ha&Hk)|(e&Ha&->)].
  - pose proof (pure_ask w) as [Hf _]. rewrite Ha in Hf. cbn in Hf. destruct answer as [e|]; [by injection Hk as <- _|].
    unfold mbind, IO_bind, look in Hk. rewrite Hf in Hk. injection Hk as <- _. by destruct (w_files w !! path).
  - unfold ask in Ha. by destruct (w_faults w).
Qed.

(** A call has its effect, or fails and has none. *)
Lemma call_cases f w r w' : call f w = (r, w') ->
  (r = inl tt /\ w_files w' = f (w_files w) /\ w_past w' = history w) \/ (exists e, r = inr (ErrText e) /\ untouched w w').
Proof.
  unfold call. intros [(answer&w1&Ha&Hk)|(e&Ha&->)]%IO_bind_run.
  - pose proof (pure_ask w) as [Hf Hp]. rewrite Ha in Hf, Hp. cbn in Hf, Hp. destruct answer as [e|]; cbn in Hk; injection Hk as <- <-.
    + right. eexists. split; [done|]. by split.
    + left. unfold history. by rewrite Hf, Hp.
  - unfold ask in Ha. by destruct (w_faults w).
Qed.

(** ** Names of temporary files *)

Lemma Base_last p s : s <> "" -> noByte SLASH s = true -> Base (p +:+ String SLASH s) = s.
Proof.
  intros Hs Hn. unfold Base. destruct (String.eqb_spec (p +:+ String SLASH s) "") as [E|_]; [by destruct p|].
  rewrite revString_append, trimLeftByte_id.
  - rewrite <- revString_append, revString_involutive, CutLast_append by done. by destruct s.
  - rewrite revString_cons, append_assoc. apply first_noByte; [by apply revString_nonempty|by rewrite noByte_revString].
Qed.
Lemma joinPath_slash dir name : exists p, joinPath dir name = p +:+ String SLASH name.
Proof.
  unfold joinPath. destruct (HasSuffix dir "/") eqn:E; [|by exists dir].
  unfold HasSuffix in E. apply HasPrefix_spec in E as [t Ht]. exists (revString t).
  rewrite <- (revString_involutive dir), Ht, revString_append. by rewrite append_assoc.
Qed.
Lemma FormatUint_noSlash n : noByte SLASH (FormatUint n) = true.
Proof. by apply digit_not; [|apply FormatUint_digits]. Qed.

(** The name of a temporary file is not the name it stands for. *)
Lemma temporary_other dir path n : noByte SLASH (Base path) = true ->
  joinPath dir ("." +:+ Base path +:+ ".") +:+ FormatUint n +:+ ".tmp" <> path.
Proof.
  intros Hb E. destruct (joinPath_slash dir ("." +:+ Base path +:+ ".")) as [p Hp]. rewrite Hp, append_assoc in E.
  set (b := Base path) in *.
  assert (Base path = ("." +:+ b +:+ ".") +:+ FormatUint n +:+ ".tmp") as E'.
  { rewrite <- E. cbn [String.append]. rewrite <- append_cons. apply Base_last; [by destruct b|].
    rewrite !noByte_append, Hb, FormatUint_noSlash. done. }
  fold b in E'. apply (f_equal String.length) in E'. rewrite !length_append in E'. cbn in E'. lia.
Qed.
Lemma freshName_free files prefix randoms name rest : freshName files prefix randoms = Some (name, rest) ->
  files !! name = None /\ exists n, name = prefix +:+ FormatUint n +:+ ".tmp".
Proof.
  induction randoms as [|n randoms IH]; [done|]. cbn [freshName]. destruct (files !! (prefix +:+ _)) eqn:E; [by apply IH|]. intros [= <- _]. split; [done|by exists n].
Qed.

(** ** The atomic write *)

Section Atomic.
Context (path : string) (w0 : World) (new : File).

(** A state of the files seen on the way. *)
Definition visible (files : gmap string File) : Prop :=
  files ∈ history w0 \/ files !! path = w_files w0 !! path \/ files !! path = Some new.
Definition safe (w : World) : Prop := Forall visible (history w).
(** Only the temporary file is new. *)
Definition writing (temp : string) (f : File) (w : World) : Prop := safe w /\ w_files w = <[temp := f]> (w_files w0).

Context (temp : string) (Hother : temp <> path) (Hfree : w_files w0 !! temp = None).

Lemma safe_untouched w w' : untouched w w' -> safe w -> safe w'.
Proof. intros [Hf Hp]. unfold safe, history. by rewrite Hf, Hp. Qed.
Lemma visible_temp f : visible (<[temp := f]> (w_files w0)).
Proof. right. left. by rewrite lookup_insert_ne. Qed.

Lemma safe_call g w r w' : safe w -> (w_files w' = g (w_files w) -> visible (w_files w')) -> call g w = (r, w') -> safe w'.
Proof.
  intros Hs Hg [(->&Hf&Hp)|(e&->&Hu)]%call_cases; [|by eapply safe_untouched]. unfold safe, history. rewrite Hp. constructor; [by apply Hg|exact Hs].
Qed.
Lemma setFile_temp g f : setFile temp g (<[temp := f]> (w_files w0)) = <[temp := g f]> (w_files w0).
Proof.
  unfold setFile. apply map_eq. intros q. destruct (decide (temp = q)) as [<-|Hq]; [by rewrite lookup_alter_eq, !lookup_insert_eq|].
  by rewrite lookup_alter_ne, !lookup_insert_ne.
Qed.
Lemma writing_setFile g f w r w' : writing temp f w -> call (setFile temp g) w = (r, w') ->
  (r = inl tt /\ writing temp (g f) w') \/ (exists e, r = inr (ErrText e) /\ writing temp f w').
Proof.
  intros [Hs Hw] Hc. assert (setFile temp g (w_files w) = <[temp := g f]> (w_files w0)) as Hset by (by rewrite Hw, setFile_temp).
  assert (safe w') as Hsafe by (eapply safe_call; [exact Hs| |exact Hc]; intros ->; rewrite Hset; apply visible_temp).
  apply call_cases in Hc as [(->&Hf&_)|(e&->&Hf&_)]; [left|right; exists e]; (split; [done|]); (split; [exact Hsafe|]); congruence.
Qed.
Lemma writing_Close f w r w' : writing temp f w -> Close w = (r, w') -> writing temp f w'.
Proof.
  intros [Hs Hw] Hc. split; [|by apply call_cases in Hc as [(_&Hf&_)|(e&_&Hf&_)]; rewrite Hf].
  eapply safe_call; [exact Hs| |exact Hc]. intros ->. cbn. rewrite Hw. apply visible_temp.
Qed.
Lemma writing_orElse m f g w r w' :
  (forall r1 w1, m w = (r1, w1) -> (r1 = inl tt /\ writing temp g w1) \/ (exists e, r1 = inr (ErrText e) /\ exists h, writing temp h w1)) ->
  orElse m Close w = (r, w') -> writing temp f w ->
  (r = inl tt /\ writing temp g w') \/ (exists e, r = inr (ErrText e) /\ exists h, writing temp h w').
Proof.
  intros Hm Ho Hw. unfold orElse in Ho. destruct (m w) as [r1 w1] eqn:E. destruct (Hm _ _ eq_refl) as [[-> Hw1]|(e&->&h&Hw1)].
  - injection Ho as <- <-. by left.
  - injection Ho as <- <-. right. exists e. split; [done|]. exists h. destruct (Close w1) as [r2 w2] eqn:Ec. by eapply writing_Close.
Qed.

Lemma writing_WriteTo data f w r w' : writing temp f w -> WriteTo temp data w = (r, w') ->
  (r = inl tt /\ writing temp (mkFile (f_data f +:+ data) (f_mode f) false) w') \/ (exists e, r = inr (ErrText e) /\ exists h, writing temp h w').
Proof.
  intros [Hs Hw]. unfold WriteTo. intros [(answer&w1&Ha&Hk)|(e&Ha&->)]%IO_bind_run; [|unfold ask in Ha; by destruct (w_faults w)].
  pose proof (pure_ask w) as Hu. rewrite Ha in Hu. cbn in Hu. apply (safe_untouched _ _ Hu) in Hs. destruct Hu as [Hf _]. rewrite <- Hf in Hw. clear Hf Ha w.
  set (g := fun f => mkFile (f_data f +:+ match answer with Some e => takeString (ft_wrote e) data | None => data end) (f_mode f) false) in *.
  unfold mbind, IO_bind, change in Hk. set (w2 := mkWorld _ _ _ _ _ _) in Hk.
  assert (writing temp (g f) w2) as Hw2.
  { assert (setFile temp g (w_files w1) = <[temp := g f]> (w_files w0)) as Hset by (by rewrite Hw, setFile_temp).
    split; [|done]. constructor; [|exact Hs]. cbn. rewrite Hset. apply visible_temp. }
  destruct answer as [e|]; injection Hk as <- <-; [right; exists (ft_text e); split; [done|]; by eexists|by left].
Qed.

Lemma writing_Rename f w r w' : f = new -> writing temp f w -> Rename temp path w = (r, w') ->
  safe w' /\ ((r = inl tt /\ w_files w' = <[path := new]> (w_files w0)) \/ (exists e, r = inr (ErrText e) /\ writing temp f w')).
Proof.
  intros -> [Hs Hw] Hc. set (g := fun files : gmap string File => match files !! temp with Some f => <[path := f]> (delete temp files) | None => files end) in *.
  assert (g (w_files w) = <[path := new]> (w_files w0)) as Hset.
  { unfold g. by rewrite Hw, lookup_insert_eq, delete_insert_id. }
  assert (safe w') as Hs'.
  { eapply (safe_call g); [exact Hs| |exact Hc]. intros ->. rewrite Hset. right. right. by rewrite lookup_insert_eq. }
  split; [exact Hs'|]. apply call_cases in Hc as [(->&Hf&_)|(e&->&Hf&_)]; [left; by rewrite Hf, <- Hset|right; exists e].
  split; [done|]. split; [exact Hs'|congruence].
Qed.

(** How a step on the temporary file ends, and how the write does. *)
Definition steps (g : File) (r : unit + Exit) (w : World) : Prop :=
  (r = inl tt /\ writing temp g w) \/ (exists e, r = inr (ErrText e) /\ exists f, writing temp f w).
Definition landed (r : unit + Exit) (w : World) : Prop :=
  safe w /\ ((r = inl tt /\ w_files w = <[path := new]> (w_files w0)) \/ (exists e, r = inr (ErrText e) /\ exists f, writing temp f w)).
Lemma landed_step (m k : IO unit) g w r w' :
  (forall r1 w1, m w = (r1, w1) -> steps g r1 w1) -> (forall w1 r w', writing temp g w1 -> k w1 = (r, w') -> landed r w') ->
  (m ≫= fun _ => k) w = (r, w') -> landed r w'.
Proof.
  intros Hm Hk [([]&w1&H1&H2)|(e&H1&->)]%IO_bind_run; destruct (Hm _ _ H1) as [[E Hw]|(t&E&f&Hw)]; try discriminate; [by eapply Hk|].
  split; [apply Hw|]. right. injection E as ->. exists t. split; [done|]. by exists f.
Qed.
Lemma steps_setFile g f w r w' : writing temp f w -> call (setFile temp g) w = (r, w') -> steps (g f) r w'.
Proof. intros Hw Hc. destruct (writing_setFile _ _ _ _ _ Hw Hc) as [?|(e&?&?)]; [by left|right; eauto]. Qed.

Lemma body_landed data mode w r w' : new = mkFile data mode true -> writing temp (mkFile "" 384 false) w ->
  (_ ← orElse (Chmod temp mode) Close; _ ← orElse (WriteTo temp data) Close; _ ← orElse (Sync temp) Close; _ ← Close; Rename temp path) w = (r, w') ->
  landed r w'.
Proof.
  intros Hnew Hw. eapply landed_step; [intros ? ? Ho; eapply writing_orElse; [|exact Ho|exact Hw]; intros; by eapply steps_setFile|]. clear w r w' Hw.
  intros w r w' Hw. eapply landed_step; [intros ? ? Ho; eapply writing_orElse; [|exact Ho|exact Hw]; intros; by eapply writing_WriteTo|]. clear w r w' Hw.
  intros w r w' Hw. eapply landed_step; [intros ? ? Ho; eapply writing_orElse; [|exact Ho|exact Hw]; intros; by eapply steps_setFile|]. clear w r w' Hw.
  intros w r w' Hw. eapply (landed_step _ _ (mkFile ("" +:+ data) mode true)).
  - intros r1 w1 Hc. pose proof (writing_Close _ _ _ _ Hw Hc) as Hw1. apply call_cases in Hc as [(->&_)|(e&->&_)]; [by left|right; eauto].
  - clear w r w' Hw. intros w r w' Hw Hr. apply (writing_Rename _ _ _ _) with (2 := Hw) in Hr as [Hs Hr]; [|by rewrite Hnew]. split; [exact Hs|].
    destruct Hr as [?|(e&->&Hf)]; [by left|right; eauto].
Qed.

(** Removing the temporary file leaves the rest. *)
Lemma Remove_rest base f w r w' : safe w -> base !! temp = None -> w_files w = base \/ w_files w = <[temp := f]> base ->
  base !! path = w_files w0 !! path \/ base !! path = Some new -> Remove temp w = (r, w') ->
  safe w' /\ (w_files w' = base \/ w_files w' = w_files w).
Proof.
  intros Hs Hn Hw Hv Hc.
  assert (delete temp (w_files w) = base) as Hset by (destruct Hw as [-> | ->]; [by apply delete_id|by apply delete_insert_id]).
  split; [|apply call_cases in Hc as [(_&Hf&_)|(e&_&Hf&_)]; [left; congruence|by right]].
  eapply (safe_call (delete temp)); [exact Hs| |exact Hc]. intros ->. rewrite Hset. by right.
Qed.
End Atomic.

Lemma CreateTemp_cases dir base w r w' : CreateTemp dir base w = (r, w') ->
  (exists e, r = inr (ErrText e) /\ untouched w w') \/
  (exists n, noByte SLASH base = true /\ let name := joinPath dir ("." +:+ base +:+ ".") +:+ FormatUint n +:+ ".tmp" in
    r = inl name /\ w_files w !! name = None /\ w_files w' = <[name := mkFile "" 384 false]> (w_files w) /\ w_past w' = history w).
Proof.
  unfold CreateTemp. destruct (noByte SLASH base) eqn:Hb; cbn [negb]; [|intros [= <- <-]; left; eexists; by split].
  intros [(answer&w1&Ha&Hk)|(e&Ha&->)]%IO_bind_run; [|unfold ask in Ha; by destruct (w_faults w)].
  pose proof (pure_ask w) as Hu. rewrite Ha in Hu. cbn in Hu. destruct answer as [e|]; [injection Hk as <- <-; left; eexists; by split|].
  destruct (freshName _ _ _) as [[name rest]|] eqn:Hn; injection Hk as <- <-; [|left; eexists; by split].
  right. apply freshName_free in Hn as [Hfree [n ->]]. exists n. destruct Hu as [Hf Hp]. rewrite Hf in Hfree. unfold history. cbn. by rewrite Hf, Hp.
Qed.

Definition replacement (data : string) (path : string) (w : World) : File :=
  mkFile data (match w_files w !! path with Some f => f_mode f | None => 420 end) true.
Lemma safe_start path w new : safe path w new w.
Proof. apply list.Forall_forall. intros s Hs. by left. Qed.

(** The path holds the replacement, or what it held and an error is returned with at most
    a temporary file left behind; on the way it held nothing else. *)
Definition replaced (path data : string) (w : World) (r : unit + Exit) (w' : World) : Prop :=
  safe path w (replacement data path w) w' /\
  match r with
  | inl _ => w_files w' = <[path := replacement data path w]> (w_files w)
  | inr e => (exists t, e = ErrText t) /\
      (w_files w' = w_files w \/ exists temp f, temp <> path /\ w_files w !! temp = None /\ w_files w' = <[temp := f]> (w_files w))
  end.
Lemma replaced_early path data w e w' : untouched w w' -> replaced path data w (inr (ErrText e)) w'.
Proof. intros Hu. split; [by eapply safe_untouched, safe_start|]. split; [by eexists|left; apply Hu]. Qed.

Lemma replaced_temp path data w n w1 r w' : let temp := joinPath (Dir path) ("." +:+ Base path +:+ ".") +:+ FormatUint n +:+ ".tmp" in
  noByte SLASH (Base path) = true -> w_files w !! temp = None ->
  w_files w1 = <[temp := mkFile "" 384 false]> (w_files w) -> w_past w1 = history w ->
  deferred (_ ← orElse (Chmod temp (f_mode (replacement data path w))) Close; _ ← orElse (WriteTo temp data) Close;
    _ ← orElse (Sync temp) Close; _ ← Close; Rename temp path) (Remove temp) w1 = (r, w') ->
  replaced path data w r w'.
Proof.
  intros temp Hb Hfree Hf Hp Hw. set (new := replacement data path w) in *. pose proof (temporary_other (Dir path) path n Hb) as Hother.
  fold temp in Hother.
  assert (writing path w new temp (mkFile "" 384 false) w1) as Hw1.
  { split; [|done]. unfold safe, history. rewrite Hp, Hf. constructor; [by apply visible_temp|apply safe_start]. }
  unfold deferred in Hw. lazymatch type of Hw with (match ?b with pair _ _ => _ end) = _ => destruct b as [r3 w3] eqn:Hbody end.
  injection Hw as <- <-. destruct (Remove temp w3) as [r4 w4] eqn:Hrm. cbn [snd].
  destruct (body_landed path w new temp Hother Hfree data (f_mode new) w1 r3 w3 eq_refl Hw1 Hbody) as [Hs3 [[-> Hf3]|(e&->&f&_&Hf3)]].
  - apply (Remove_rest path w new temp (<[path := new]> (w_files w)) new) in Hrm as [Hs4 Hf4];
      [|exact Hs3|by rewrite lookup_insert_ne|by left|right; by rewrite lookup_insert_eq]. split; [exact Hs4|]. by destruct Hf4 as [->| ->].
  - apply (Remove_rest path w new temp (w_files w) f) in Hrm as [Hs4 Hf4]; [|exact Hs3|exact Hfree|by right|by left]. split; [exact Hs4|].
    split; [by eexists|]. destruct Hf4 as [->|Hf4]; [by left|right]. exists temp, f. split_and!; [done..|by rewrite Hf4].
Qed.

Lemma writeFileAtomically_replaced path data w r w' : writeFileAtomically path data w = (r, w') -> replaced path data w r w'.
Proof.
  intros Hw. unfold writeFileAtomically in Hw.
  apply IO_bind_run in Hw as [(info&w1&Hi&Hw)|(e&Hi&->)]; [|by destruct (lookupFile_cases _ _ _ _ _ Hi)].
  destruct (lookupFile_cases _ _ _ _ _ Hi) as [Hu Hinfo]. clear Hi. apply IO_bind_run in Hw as [(mode&w2&Hm&Hw)|(e&Hm&->)].
  2: { destruct info; cbn in Hm; try discriminate. injection Hm as <- <-. by apply replaced_early. }
  assert (w2 = w1 /\ mode = f_mode (replacement data path w)) as [-> ->].
  { unfold replacement. destruct info; cbn in Hm; try discriminate; injection Hm as <- <-; by rewrite Hinfo. }
  apply IO_bind_run in Hw as [(temp&w2&Ht&Hw)|(e&Ht&->)]; (apply CreateTemp_cases in Ht as [(e'&E&Hu2)|(n&Hb&E&Hfree&Hf&Hp)]); try discriminate.
  - injection E as ->. destruct Hu as [Hu1 Hu2]. rewrite Hu1 in Hfree, Hf. unfold history in Hp. rewrite Hu1, Hu2 in Hp. by eapply replaced_temp.
  - injection E as ->. apply replaced_early. by etransitivity.
Qed.

(** C12: A write is atomic.  Whatever system call fails, and at every moment before, between
    and after the calls, the path holds what it held or the complete new contents, written
    out and synced, under the mode it had; when the write fails the file is as it was, and
    when it succeeds nothing else has changed. *)
Theorem atomic_write path data w r w' : w_past w = [] -> writeFileAtomically path data w = (r, w') ->
  let new := replacement data path w in
  (forall files, files ∈ history w' -> files !! path = w_files w !! path \/ files !! path = Some new) /\
  match r with
  | inl _ => w_files w' = <[path := new]> (w_files w)
  | inr _ => w_files w' !! path = w_files w !! path /\ w_files w ⊆ w_files w'
  end.
Proof.
  intros Hp [Hs Hr]%writeFileAtomically_replaced. split.
  - intros files Hf. unfold safe in Hs. rewrite list.Forall_forall in Hs. destruct (Hs files Hf) as [Hin|?]; [|done].
    unfold history in Hin. rewrite Hp in Hin. apply list_elem_of_singleton in Hin as ->. by left.
  - destruct r as [|e]; [done|]. destruct Hr as [_ [->|(temp&f&Ho&Hn&->)]]; [done|]. split; [by rewrite lookup_insert_ne|by apply insert_subseteq].
Qed.

(** ** The history in a bundle *)

Section History.
Context `{Protoreflect} `{BundleRuntime} `{DescriptorRuntime}.

(** What the path holds, where nothing is lost. *)
Definition holds (w : World) (path : string) (c : option string) : Prop :=
  match c with
  | None => w_files w !! path = None
  | Some data => exists mode, w_files w !! path = Some (mkFile data mode true)
  end.
(** A run of the compiler on the output, however it ends: [c'] is what is there afterwards. *)
Inductive attempt (path : string) (c c' : option string) : Prop :=
  | Attempt w args values positional :
      w_past w = [] -> holds w path c -> parse SchemaTool.compileFlags args ∅ = ParsedFlags values positional ->
      flagValue values SchemaTool.compileOutputFlag = path -> mayHold (SchemaTool.runCompile args w).2 path c' ->
      attempt path c c'.

Definition bundleExtends (b b' : SchemaBundle) : Prop :=
  forall d, Some d ∈ datasets b -> exists d', Some d' ∈ datasets b' /\ source_message d' = source_message d /\
    (forall e, e ∈ ledger d -> e ∈ ledger d') /\ (last_field_id d <= last_field_id d')%Z.
#[export] Instance bundleExtends_preorder : PreOrder bundleExtends.
Proof.
  split; [intros b d Hd; exists d; by split_and!|]. intros a b c Hab Hbc d (d1&Hd1&E1&L1&M1)%Hab.
  destruct (Hbc d1 Hd1) as (d2&Hd2&E2&L2&M2). exists d2. split_and!; [done|congruence|auto|lia].
Qed.
Definition stored (c : option string) (b : SchemaBundle) : Prop := exists encoded, c = Some encoded /\ ParseSchemaBundle encoded = Ok b.

(** The run gets to the write with a bundle compiled from what was there. *)
Lemma pure_mustRead a : pure (SchemaTool.mustRead a).
Proof. destruct a; by intros w. Qed.
Lemma loadPrevious_cases path w r w' : SchemaTool.loadPreviousBundle path w = (inl r, w') ->
  untouched w w' /\ match r with
                   | None => w_files w !! path = None
                   | Some p => exists f, w_files w !! path = Some f /\ ParseSchemaBundle (f_data f) = Ok p
                   end.
Proof.
  unfold SchemaTool.loadPreviousBundle, ReadFile. intros [(a&w1&Ha&Hk)|(e&_&?)]%IO_bind_run; [|done].
  apply IO_bind_run in Ha as [(b&w2&Hl&Ha)|(e&_&?)]; [|done]. injection Ha as <- <-. apply lookupFile_cases in Hl as [Hu Hl].
  destruct b as [f|e|e]; cbn in Hk; try discriminate; [|by injection Hk as <- <-].
  apply IO_bind_run in Hk as [(p&w3&Hp&Hk)|(e&_&?)]; [|done]. injection Hk as <- <-. unfold wrapIO in Hp.
  destruct (ParseSchemaBundle (f_data f)) as [b| | |] eqn:E; cbn in Hp; try discriminate. injection Hp as <- <-. split; [done|by exists f].
Qed.

Lemma pure_loadPrevious path : pure (SchemaTool.loadPreviousBundle path).
Proof.
  unfold SchemaTool.loadPreviousBundle. apply pure_bind; [apply pure_ReadFile|]. intros [s|e|e]; [|apply pure_ret|apply pure_leave].
  apply pure_bind; [apply pure_wrapIO, pure_ofOutcome|intros; apply pure_ret].
Qed.
(** A compilation from what was there, ready to be written. *)
Definition compiledFrom (c : option string) (encoded : string) : Prop :=
  exists previous descriptor messages bundle,
    match previous with None => c = None | Some p => stored c p end /\
    CompileDescriptorBytes descriptor messages previous = Ok bundle /\ MarshalSchemaBundle (Some bundle) = Ok encoded.

Lemma compileTo_cases descriptorPath path messages w r w' c : holds w path c ->
  SchemaTool.compileTo descriptorPath path messages w = (r, w') ->
  untouched w w' \/ exists w1 encoded r1, untouched w w1 /\ compiledFrom c encoded /\ replaced path encoded w1 r1 w'.
Proof.
  intros Hc Hr. unfold SchemaTool.compileTo in Hr.
  apply pure_step in Hr as [?|(a&w1&_&Hu1&Hr)]; [by left| |apply pure_ReadFile].
  apply pure_step in Hr as [?|(descriptor&w2&_&Hu2&Hr)]; [left; by etransitivity| |apply pure_wrapIO, pure_mustRead].
  assert (untouched w w2) as Hw2 by (by etransitivity). clear Hu1 Hu2.
  apply pure_step in Hr as [?|(previous&w3&Hp&Hu3&Hr)]; [left; by etransitivity| |apply pure_loadPrevious].
  assert (untouched w w3) as Hw3 by (by etransitivity). apply loadPrevious_cases in Hp as [_ Hprev]. rewrite (proj1 Hw2) in Hprev.
  apply pure_step in Hr as [?|(bundle&w4&Hb&Hu4&Hr)]; [left; by etransitivity| |apply pure_ofOutcome].
  apply ofOutcome_inl in Hb. assert (untouched w w4) as Hw4 by (by etransitivity).
  apply pure_step in Hr as [?|(encoded&w5&He&Hu5&Hr)]; [left; by etransitivity| |apply pure_wrapIO, pure_ofOutcome].
  apply wrapIO_inl in He. right. destruct (writeFileAtomically path encoded w5) as [r1 w6] eqn:Hwrite. exists w5, encoded, r1.
  split_and!; [by etransitivity| |].
  - exists previous, descriptor, messages, bundle. split_and!; [|done..]. destruct previous as [p|], c as [data|]; cbn in Hc.
    + destruct Hc as [mode Hc], Hprev as (f&Hf&Hparse). rewrite Hc in Hf. injection Hf as <-. by exists data.
    + destruct Hprev as (f&Hf&_). congruence.
    + destruct Hc as [mode Hc]. congruence.
    + done.
  - unfold wrapIO in Hr. rewrite Hwrite in Hr. apply writeFileAtomically_replaced in Hwrite.
    by destruct r1 as [|[]]; injection Hr as <- <-.
Qed.

Lemma runCompile_cases args values positional path w c : holds w path c ->
  parse SchemaTool.compileFlags args ∅ = ParsedFlags values positional -> flagValue values SchemaTool.compileOutputFlag = path ->
  let w' := (SchemaTool.runCompile args w).2 in
  untouched w w' \/ exists w1 encoded r1, untouched w w1 /\ compiledFrom c encoded /\ replaced path encoded w1 r1 w'.
Proof.
  intros Hc Hparse Hpath w'. subst w'. destruct (SchemaTool.runCompile args w) as [r w'] eqn:Hr. cbn [snd]. unfold SchemaTool.runCompile, Parse in Hr.
  rewrite Hparse in Hr. apply pure_step in Hr as [?|([v pos]&w1&E&_&Hr)]; [by left| |apply pure_ret]. injection E as <- <- <-. rewrite Hpath in Hr.
  do 4 (apply pure_step in Hr as [?|([]&?&E&_&Hr)]; [by left| |apply pure_throwIf];
    unfold SchemaTool.noArguments, throwIf in E; destruct (_ : bool) in E; cbn in E; [discriminate|injection E as <-]).
  destruct (SchemaTool.firstDuplicate _); [injection Hr as <- <-; by left|]. by eapply compileTo_cases.
Qed.

Lemma holds_lookup w path c c' (files : gmap string File) : holds w path c -> files !! path = w_files w !! path ->
  match files !! path with None => c' = None | Some f => f_synced f = true -> c' = Some (f_data f) end -> c' = c.
Proof. intros Hc Hf Hm. rewrite Hf in Hm. destruct c as [data|]; [destruct Hc as [mode Hc]|]; rewrite Hc in Hm; [by apply Hm|done]. Qed.
Lemma attempt_cases path c c' : attempt path c c' -> c' = c \/ exists encoded, c' = Some encoded /\ compiledFrom c encoded.
Proof.
  intros [w args values positional Hp Hc Hparse Hpath (files&Hin&Hm)].
  destruct (runCompile_cases args values positional path w c Hc Hparse Hpath) as [[Hf Hpast]|(w1&encoded&r1&[Hf Hpast]&Hcomp&Hs&_)].
  - left. unfold history in Hin. rewrite Hf, Hpast, Hp in Hin. apply list_elem_of_singleton in Hin as ->. by eapply holds_lookup.
  - unfold safe in Hs. rewrite list.Forall_forall in Hs. destruct (Hs _ Hin) as [Hv|[Hv|Hv]].
    + left. unfold history in Hv. rewrite Hf, Hpast, Hp in Hv. apply list_elem_of_singleton in Hv as ->. by eapply holds_lookup.
    + left. rewrite Hf in Hv. by eapply holds_lookup.
    + right. exists encoded. split; [|done]. rewrite Hv in Hm. by apply Hm.
Qed.

Context `{!DescriptorRuntimeLaws wfRegistry} `{!BundleRuntimeLaws}.

Lemma attempt_extends path c c' b : attempt path c c' -> stored c b -> exists b', stored c' b' /\ bundleExtends b b'.
Proof.
  intros [->|(encoded&->&previous&descriptor&messages&bundle&Hprev&Hcomp&Henc)]%attempt_cases Hb; [by exists b|].
  destruct Hb as (data&->&Hparse). destruct previous as [p|]; [|done]. destruct Hprev as (data'&[= <-]&Hp). rewrite Hparse in Hp. injection Hp as <-.
  exists bundle. split; [exists encoded; split; [done|eapply parse_marshal; [by eapply compiled_whole|done]]|]. intros d. by eapply bundle_extended.
Qed.

(** C6: The history of a schema bundle is never lost.  Over any series of runs of the
    compiler on one output, with any descriptors and flags, each of which may fail at any
    system call, be killed at any moment or lose power, what the output holds still
    parses, to a bundle with every dataset that was there and every stable id and name ever
    recorded for it. *)
Theorem history_survives path c c' b : rtc (attempt path) c c' -> stored c b -> exists b', stored c' b' /\ bundleExtends b b'.
Proof.
  intros Hr. revert b. induction Hr as [c|c c1 c' Ha _ IH]; intros b Hb; [by exists b|].
  destruct (attempt_extends _ _ _ _ Ha Hb) as (b1&Hb1&He). destruct (IH b1 Hb1) as (b'&Hb'&He'). exists b'. split; [done|]. by etransitivity.
Qed.
End History.

(** ** SQL for a whole bundle *)

#[local] Existing Instance SchemaTool.dataset_le_dec.

Section Sql.
Context `{Arrow.ArrowRuntime} `{Projection.IcebergRuntime} `{ToolRuntime}.

Lemma renderWith_inl target dataset w artifact w' : SchemaTool.renderWith target dataset w = (inl artifact, w') ->
  (SchemaTool.render target dataset).2 = Ok artifact.
Proof.
  unfold SchemaTool.renderWith. destruct (SchemaTool.render target dataset) as [diagnostics r]. intros [(u&w1&_&Hr)|(e&_&?)]%IO_bind_run; [|done].
  by apply ofOutcome_inl in Hr.
Qed.
Lemma renderEach_exact target l seen w artifacts w' : SchemaTool.renderEach target l seen w = (inl artifacts, w') ->
  Forall2 (fun dataset artifact => (SchemaTool.render target dataset).2 = Ok artifact) l artifacts /\
  (target = "sqlite" -> NoDup (map (fun d => SchemaTool.lowerASCII (SchemaTool.nameOf d)) l) /\
     forall d, d ∈ l -> SchemaTool.lowerASCII (SchemaTool.nameOf d) ∉ seen).
Proof.
  revert seen w artifacts. induction l as [|dataset l IH]; intros seen w artifacts Hr; cbn [SchemaTool.renderEach] in Hr.
  { injection Hr as <- <-. split; [done|]. intros _. split; [constructor|]. intros d Hd. by apply not_elem_of_nil in Hd. }
  set (name := SchemaTool.lowerASCII (SchemaTool.nameOf dataset)) in *.
  apply IO_bind_run in Hr as [(u&w1&Hc&Hr)|(e&_&?)]; [|done]. apply IO_bind_run in Hr as [(artifact&w2&Ha&Hr)|(e&_&?)]; [|done].
  apply IO_bind_run in Hr as [(rest&w3&Hrest&Hr)|(e&_&?)]; [|done]. injection Hr as <- <-. apply renderWith_inl in Ha. apply IH in Hrest as [Hall Hnames].
  split; [by constructor|]. intros ->. destruct (Hnames eq_refl) as [Hnd Hnew]. unfold throwIf in Hc. rewrite String.eqb_refl in Hc. cbn [andb] in Hc.
  case_bool_decide as Hin; [discriminate|]. cbn [map]. split.
  - constructor; [|done]. intros (d&E&Hd)%list_elem_of_fmap. apply (Hnew d Hd). rewrite <- E. left.
  - intros d [->|Hd]%elem_of_cons; [done|]. intros Hs. apply (Hnew d Hd). by right.
Qed.
(** The text is that of every dataset, by message, and no two tables of SQLite have names
    that differ in case only. *)
Lemma sql_bundle_exact target bundle w text w' : SchemaTool.renderSQLBundle target bundle w = (inl text, w') ->
  exists artifacts, text = Join artifacts (str1 LF) /\
    Forall2 (fun dataset artifact => (SchemaTool.render target dataset).2 = Ok artifact) (merge_sort SchemaTool.dataset_le (datasets bundle)) artifacts /\
    (target = "sqlite" -> NoDup (map (fun d => SchemaTool.lowerASCII (SchemaTool.nameOf d)) (datasets bundle))).
Proof.
  unfold SchemaTool.renderSQLBundle. intros [(u&w1&_&Hr)|(e&_&?)]%IO_bind_run; [|done]. apply IO_bind_run in Hr as [(artifacts&w2&Ha&Hr)|(e&_&?)]; [|done].
  injection Hr as <- <-. apply renderEach_exact in Ha as [Hall Hnames]. exists artifacts. split_and!; [done..|]. intros Ht.
  destruct (Hnames Ht) as [Hnd _]. eapply list.NoDup_Permutation_proper; [|exact Hnd]. apply Permutation_map. by rewrite merge_sort_Permutation.
Qed.
End Sql.

(** ** On a disk

    The bundle of the first version is there; the second version is compiled, the first
    time with a disk that is full. *)

#[local] Instance EnumValue_dec : EqDecision EnumValue.
Proof. solve_decision. Defined.
#[local] Instance EnumType_dec : EqDecision EnumType.
Proof. solve_decision. Defined.
#[local] Instance TimestampType_dec : EqDecision TimestampType.
Proof. solve_decision. Defined.
#[local] Instance DecimalType_dec : EqDecision DecimalType.
Proof. solve_decision. Defined.
#[local] Instance FieldMeta_dec : EqDecision FieldMeta.
Proof. solve_decision. Defined.
#[local] Instance RetiredField_dec : EqDecision RetiredField.
Proof. solve_decision. Defined.
Fixpoint DataType_dec (x y : DataType) {struct x} : Decision (x = y)
with Kind_dec (x y : DataTypeKind) {struct x} : Decision (x = y)
with Field_dec (x y : Field) {struct x} : Decision (x = y).
Proof.
  - refine (match x, y with mkDataType p k, mkDataType p' k' => cast_if_and (decide (p = p')) (Kind_dec k k') end); abstract congruence.
  - destruct x as [|p|e|s|l|m|t|d|j|d|u|f], y as [|p'|e'|s'|l'|m'|t'|d'|j'|d'|u'|f']; try (right; discriminate).
    + by left.
    + refine (cast_if (decide (p = p'))); abstract congruence.
    + refine (cast_if (decide (e = e'))); abstract congruence.
    + refine (cast_if (@option_eq_dec _ (@list_eq_dec _ (@option_eq_dec _ Field_dec)) s s')); abstract congruence.
    + refine (cast_if (@option_eq_dec _ (@prod_eq_dec _ (@option_eq_dec _ Field_dec) _ _) l l')); abstract congruence.
    + refine (cast_if (@option_eq_dec _ (@prod_eq_dec _ (@option_eq_dec _ Field_dec) _ (@option_eq_dec _ Field_dec)) m m')); abstract congruence.
    + refine (cast_if (decide (t = t'))); abstract congruence.
    + refine (cast_if (decide (d = d'))); abstract congruence.
    + refine (cast_if (decide (j = j'))); abstract congruence.
    + refine (cast_if (decide (d = d'))); abstract congruence.
    + refine (cast_if (decide (u = u'))); abstract congruence.
    + refine (cast_if (decide (f = f'))); abstract congruence.
  - refine (match x, y with mkField m t, mkField m' t' => cast_if_and (decide (m = m')) (@option_eq_dec _ DataType_dec t t') end); abstract congruence.
Defined.
#[local] Instance Dataset_dec : EqDecision DatasetSchema.
Proof. pose proof Field_dec : EqDecision Field. solve_decision. Defined.
#[local] Instance Bundle_dec : EqDecision SchemaBundle.

Proof. solve_decision. Defined.

Definition shopCodec : BundleRuntime := {|
  Bundle_Unmarshal s := if String.eqb s "one" then inr bundleV1 else if String.eqb s "two" then inr bundleV2 else inl "not a bundle";
  Bundle_Marshal b := if decide (b = bundleV1) then inr "one" else if decide (b = bundleV2) then inr "two" else inl "too large";
  Bundle_ProtoReflect _ := Bundle.mkMessage "" []
|}.
Lemma shopCodec_laws : @BundleRuntimeLaws shopCodec.
Proof.
  constructor. intros b encoded _. cbn. destruct (decide (b = bundleV1)) as [->|_]; [by intros [= <-]|].
  destruct (decide (b = bundleV2)) as [->|_]; [by intros [= <-]|done].
Qed.

Definition disk (faults : list (option Fault)) : World :=
  mkWorld (<["out/shop.bin" := mkFile "one" 384 true]> {["shop.pb" := mkFile "v2" 420 true]}) [] faults [7%N; 8%N] "" "".
Definition full : Fault := mkFault "no space left on device" 1.
Definition compileArgs : list string := ["--descriptor=shop.pb"; "-message"; "shop.v1.Order"; "--output"; "out/shop.bin"].

Section Shop.
#[local] Existing Instance shopRuntime.
#[local] Existing Instance shopCodec.
#[local] Existing Instance shopRuntime_laws.
#[local] Existing Instance shopCodec_laws.

Lemma atomic_write_witness :
  let '(r, w') := writeFileAtomically "out/shop.bin" "two" (disk [None; None; None; Some full]) in
  r = inr (ErrText "no space left on device") /\
  (forall files, files ∈ history w' -> files !! "out/shop.bin" = Some (mkFile "one" 384 true) \/ files !! "out/shop.bin" = Some (mkFile "two" 384 true)).
Proof.
  destruct (writeFileAtomically "out/shop.bin" "two" (disk [None; None; None; Some full])) as [r w'] eqn:E. split.
  - change r with (r, w').1. rewrite <- E. vm_compute. reflexivity.
  - exact (proj1 (atomic_write "out/shop.bin" "two" (disk [None; None; None; Some full]) r w' eq_refl E)).
Defined.

Lemma history_survives_witness :
  exists b', stored (Some "two") b' /\ bundleExtends bundleV1 b'.
Proof.
  apply (history_survives "out/shop.bin" (Some "one") (Some "two") bundleV1); [|exists "one"; split; vm_compute; reflexivity].
  apply rtc_l with (Some "one"); [|apply rtc_once].
  - apply (Attempt _ _ _ (disk [None; None; None; None; None; Some full]) compileArgs
      (<["output" := ["out/shop.bin"]]> (<["message" := ["shop.v1.Order"]]> {["descriptor" := ["shop.pb"]]})) []);
      [reflexivity|exists 384%Z; reflexivity|vm_compute; reflexivity|vm_compute; reflexivity|].
    eexists. split; [left|]. vm_compute. intros _. reflexivity.
  - apply (Attempt _ _ _ (disk []) compileArgs
      (<["output" := ["out/shop.bin"]]> (<["message" := ["shop.v1.Order"]]> {["descriptor" := ["shop.pb"]]})) []);
      [reflexivity|exists 384%Z; reflexivity|vm_compute; reflexivity|vm_compute; reflexivity|].
    eexists. split; [left|]. vm_compute. intros _. reflexivity.
Defined.
End Shop.
