(* ===== verification/Serve.v ===== *)
(** * Serving (src/go/server.go ServeProjections, http.go serveHTTP, mcp.go run, grpc_client.go)

    The loops that run projections, as machines of the events their goroutines and
    channels allow: ServeProjections waits for the first projection and stops the others,
    a session of MCP reads lines until its input or its context ends and waits for its
    calls, and the HTTP server drains.  Also the call a proxy makes, the copy of a request
    and the plain pages of the HTTP server. *)
From S2P Require Import Prelude GoStrings StringFacts Json Metadata MetadataSpec Connect ParsedDescriptor JsonSchema Server Stream HttpHandler RawJson Errors Mcp McpSpec.
Import Metadata Connect Stream HttpHandler.

Module Serve.

(** ** Projections *)

Record Projection : Type := mkProjection { kind : string; port : Z }.
Definition HTTP (port : Z) : Projection := mkProjection "http" port.
Definition MCP : Projection := mkProjection "mcp" 0.
Definition CLI : Projection := mkProjection "cli" 0.

(** What a projection returns: nothing or an error. *)
Definition Result : Type := option GoError.
Definition serveOne (serveMCP serveCLI : Result) (serveHTTP : Z -> Result) (p : Projection) : Result :=
  if String.eqb (kind p) "mcp" then serveMCP
  else if String.eqb (kind p) "cli" then serveCLI
  else if String.eqb (kind p) "http" then serveHTTP (port p)
  else Some (plainError ("unknown projection: " +:+ kind p)).

(** ** ServeProjections

    The goroutines are numbered; each sends its result on a channel with room for all.
    The caller waits for one, cancels the context and takes the rest. *)
Inductive Caller : Type :=
  | Waiting
  | Draining (first : Result) (due : nat)
  | Returned (first : Result).
Record Serving : Type := mkServing {
  sv_results : list (option Result);
  sv_channel : list Result;
  sv_canceled : bool;
  sv_caller : Caller
}.
Inductive Event : Type :=
  | Finished (i : nat) (r : Result)
  | ParentCanceled
  | Received
  | Returns.
Definition start (n : nat) : Serving := mkServing (replicate n None) [] false Waiting.
(** A step, when it can be taken. *)
Definition step (s : Serving) (ev : Event) : option Serving :=
  match ev with
  | Finished i r =>
      match sv_results s !! i with
      | Some None => Some (mkServing (<[i := Some r]> (sv_results s)) (sv_channel s ++ [r]) (sv_canceled s) (sv_caller s))
      | _ => None
      end
  | ParentCanceled => Some (mkServing (sv_results s) (sv_channel s) true (sv_caller s))
  | Received =>
      match sv_channel s, sv_caller s with
      | r :: channel, Waiting => Some (mkServing (sv_results s) channel true (Draining r (length (sv_results s) - 1)))
      | _ :: channel, Draining first (S due) => Some (mkServing (sv_results s) channel (sv_canceled s) (Draining first due))
      | _, _ => None
      end
  | Returns =>
      match sv_caller s with
      | Draining first O => Some (mkServing (sv_results s) (sv_channel s) (sv_canceled s) (Returned first))
      | _ => None
      end
  end.
Fixpoint exec (s : Serving) (evs : list Event) : option Serving :=
  match evs with
  | [] => Some s
  | ev :: evs => s' ← step s ev; exec s' evs
  end.

Inductive Start : Type :=
  | Refused (e : GoError)
  | Alone (p : Projection)
  | Together (s : Serving).
Section OnServer.
Context {UnaryInterceptor StreamInterceptor HeaderProvider MetadataMapper : Type}.
Notation Srv := (@Server.Server UnaryInterceptor StreamInterceptor HeaderProvider MetadataMapper).

Definition ServeProjections (projections : list Projection) (s : Srv) : Srv * Start :=
  match projections with
  | [] => (s, Refused (plainError "no projections specified"))
  | [p] => (Server.freeze s, Alone p)
  | _ => (Server.freeze s, Together (start (length projections)))
  end.

(** ** The native server *)

Definition GRPCServer (s : Srv) : Srv := Server.freeze s.
(** [Serve]: the listener is there or not, and [serve] is what gRPC returns. *)
Definition Serve (listener : bool) (serve : Result) (s : Srv) : Srv * Result :=
  if listener then (Server.freeze s, serve) else (s, Some (plainError "invariant: Serve requires a listener")).
(** A snapshot of the tools. *)
Definition Tools (s : Srv) : gmap string Server.Tool := Server.tools s.

(** The catalog page. *)
Definition handleToolCatalog (s : Srv) : Response :=
  mkResponse 200 (setValue "Content-Type" "application/json" ∅)
    (Marshal (JObject [("tools", JArray (map Mcp.fromAny (Server.ToolCatalog s)))]) +:+ str1 LF).
End OnServer.

(** ** serveHTTP

    What ends it: the context, and then how the drain and the close went, or the
    listener.  [closed] tells whether an error is http.ErrServerClosed. *)
Inductive Ended : Type :=
  | ContextEnded (ctx : ContextError) (shutdown close : Result)
  | ListenerEnded (err : Result) (closed : bool).
(** [errors.Join]: the errors that are there, one a line; it wraps each. *)
Record Joined : Type := mkJoined { jn_text : string; jn_wraps : list GoError }.
Definition joinErrors (errs : list Result) : option Joined :=
  match omap id errs with
  | [] => None
  | l => Some (mkJoined (Join (map ge_text l) (str1 LF)) l)
  end.
Definition wrapped (prefix : string) (e : GoError) : GoError := mkError (prefix +:+ ge_text e) (ge_status e) (ge_ctx e).
Definition serveHTTP (e : Ended) : option Joined :=
  match e with
  | ContextEnded ctx None _ => joinErrors [Some (contextError ctx)]
  | ContextEnded ctx (Some shutdown) close =>
      joinErrors [Some (contextError ctx); Some (wrapped "HTTP graceful shutdown: " shutdown); close]
  | ListenerEnded None _ => None
  | ListenerEnded (Some err) closed => if closed then None else joinErrors [Some err]
  end.

(** ** Pages *)

Definition healthBody : string :=
  "{" +:+ str1 DQUOTE +:+ "status" +:+ str1 DQUOTE +:+ ":" +:+ str1 DQUOTE +:+ "ok" +:+ str1 DQUOTE +:+ "}".
Definition handleHealth : Response := mkResponse 200 (setValue "Content-Type" "application/json" ∅) healthBody.
(** The descriptor set as it marshals, when there is one. *)
Definition handleDescriptor (fds : option (string + string)) : Response :=
  match fds with
  | None => Mcp.plainResponse 404 "no descriptor available"
  | Some (inl e) => Mcp.plainResponse 500 ("marshal descriptor: " +:+ e)
  | Some (inr bytes) => mkResponse 200 (setValue "Content-Type" protoContentType ∅) bytes
  end.

(** ** A session of MCP *)

(** [bufio.Scanner] with lines of less than a megabyte: a final line may lack its end,
    and a carriage return before the end is dropped. *)
Definition maxLine : nat := 1024 * 1024.
Definition tooLong : GoError := plainError "bufio.Scanner: token too long".
Definition dropCR (line : string) : string := TrimSuffix line (str1 CR).
Fixpoint scanned (pieces : list string) (readErr : Result) : list string * Result :=
  match pieces with
  | [] => ([], readErr)
  | [final] =>
      if maxLine <=? String.length final then ([], Some tooLong)
      else (if String.eqb final "" then [] else [dropCR final], readErr)
  | line :: rest =>
      if maxLine <=? String.length line then ([], Some tooLong)
      else let '(lines, err) := scanned rest readErr in (dropCR line :: lines, err)
  end.
Definition scanLines (input : string) (readErr : Result) : list string * Result := scanned (Split input LF) readErr.

Section Session.
Context (syntaxError : string -> option string) {Moment : Type}.
Context (dispatch : Moment -> Mcp.jsonRPCRequest -> Outcome (option Mcp.jsonRPCResponse)).

(** The loop of [run]: the session, the parent's context, the calls that were told to
    stop, and the result of the loop once it has ended.  [dispatch] is what a call
    returns, stopped or not; a panic of it ends the process. *)
Record Running : Type := mkRunning {
  ru_session : Mcp.mcpSession;
  ru_parent : option ContextError;
  ru_stopped : list nat;
  ru_loop : option Result
}.
Definition newRunning : Running := mkRunning Mcp.newMCPSession None [] None.
Inductive RunEvent : Type :=
  | LineScanned (t : Moment) (line : string)
  | ScanEnded (err : Result)
  | ParentEnded (c : ContextError)
  | LoopStops
  | CallEnds (t : Moment) (k : nat)
  | CallWrites (k : nat).
Definition setSession (ru : Running) (m : Mcp.mcpSession) : Running := mkRunning m (ru_parent ru) (ru_stopped ru) (ru_loop ru).
(** A step, when it can be taken. *)
Definition runStep (ru : Running) (ev : RunEvent) : option (Outcome Running) :=
  match ev with
  | LineScanned t line =>
      match ru_loop ru with
      | None => Some (m ← Mcp.readLine syntaxError dispatch t line (ru_session ru); Ok (setSession ru m))
      | Some _ => None
      end
  | ScanEnded err =>
      match ru_loop ru with
      | None =>
          Some (Ok (mkRunning (ru_session ru) (ru_parent ru) (ru_stopped ru)
            (Some match ru_parent ru with Some c => Some (contextError c) | None => err end)))
      | Some _ => None
      end
  | ParentEnded c =>
      match ru_parent ru with
      | None => Some (Ok (mkRunning (ru_session ru) (Some c) (ru_stopped ru) (ru_loop ru)))
      | Some _ => None
      end
  | LoopStops =>
      match ru_loop ru, ru_parent ru with
      | None, Some c =>
          Some (Ok (mkRunning (ru_session ru) (ru_parent ru) (map snd (map_to_list (Mcp.inflight (ru_session ru)))) (Some (Some (contextError c)))))
      | _, _ => None
      end
  | CallEnds t k =>
      match Mcp.c_state <$> Mcp.calls (ru_session ru) !! k with
      | Some Mcp.Running => Some (m ← Mcp.finishCall dispatch t k (ru_session ru); Ok (setSession ru m))
      | _ => None
      end
  | CallWrites k =>
      match Mcp.c_state <$> Mcp.calls (ru_session ru) !! k with
      | Some (Mcp.Writing _) => Some (Ok (setSession ru (Mcp.writeCall k (ru_session ru))))
      | _ => None
      end
  end.
Fixpoint runExec (ru : Running) (evs : list RunEvent) : option (Outcome Running) :=
  match evs with
  | [] => Some (Ok ru)
  | ev :: evs => match runStep ru ev with
                 | Some (Ok ru') => runExec ru' evs
                 | stuck => stuck
                 end
  end.
(** [wg.Wait] and the return. *)
Definition callEnded (c : Mcp.mcpInflightCall) : bool := match Mcp.c_state c with Mcp.Ended => true | _ => false end.
Definition returned (ru : Running) : option Result :=
  r ← ru_loop ru; if forallb callEnded (Mcp.calls (ru_session ru)) then Some r else None.
End Session.
Arguments ScanEnded {_} err.
Arguments ParentEnded {_} c.
Arguments LoopStops {_}.
Arguments CallWrites {_} k.

(** ** Proxies *)

Section Proxy.
Context {Message : Type} `{MetadataLib}.

(** The metadata of the incoming call is sent on, and what the connection reports is set
    on the transport. *)
Definition callProto (incoming outgoing : option MD) (conn : option MD -> Message -> MD * MD * (Message + GoError)) (req : Message)
    : (MD * MD) * (Message + GoError) :=
  let sent := match incoming with
              | Some i => Some (MD_Join (default ∅ outgoing) i)
              | None => outgoing
              end in
  let '(header, trailer, reply) := conn sent req in
  ((header, trailer), reply).

(** The handler of a proxied method: a request an interceptor replaced may be no message. *)
Definition proxyUnaryMethodDesc (fullMethod : string) (newRequest : option (Message + GoError)) (caller : Message -> HttpHandler.Result Message)
    (interceptor : option ((Message + string -> HttpHandler.Result Message) -> Message + string -> HttpHandler.Result Message))
    : HttpHandler.Result Message :=
  let internal text := Error (statusError (mkStatus Internal text [])) in
  match newRequest with
  | None => internal ("no request type registered for " +:+ fullMethod)
  | Some (inr e) => Error e
  | Some (inl request) =>
      let terminal (r : Message + string) :=
        match r with
        | inl message => caller message
        | inr goType => internal ("request for " +:+ fullMethod +:+ " does not implement proto.Message: " +:+ goType)
        end in
      match interceptor with
      | None => terminal (inl request)
      | Some interceptor => interceptor terminal (inl request)
      end
  end.
End Proxy.

(** ** Copying a request *)

Section Copy.
Context {Contents : Type} (empty : Contents) (marshal : Contents -> string + GoError) (unmarshal : string -> Contents * option GoError).

(** A message: its full name, its Go type, the identity of its descriptor, its contents. *)
Record Dynamic : Type := mkDynamic { dy_name : string; dy_go : string; dy_descriptor : nat; dy_contents : Contents }.
Definition setContents (c : Contents) (m : Dynamic) : Dynamic := mkDynamic (dy_name m) (dy_go m) (dy_descriptor m) c.
Definition copyProtoMessage (dst src : Dynamic + string) : (Dynamic + string) * option GoError :=
  match dst, src with
  | inr goType, _ => (dst, Some (plainError ("decode target does not implement proto.Message: " +:+ goType)))
  | _, inr goType => (dst, Some (plainError ("request does not implement proto.Message: " +:+ goType)))
  | inl d, inl s =>
      if negb (String.eqb (dy_name d) (dy_name s)) then
        (dst, Some (statusError (mkStatus InvalidArgument
          ("request message type " +:+ Quote (dy_name s) +:+ " does not match expected " +:+ Quote (dy_name d)) [])))
      else if String.eqb (dy_go d) (dy_go s) && (dy_descriptor d =? dy_descriptor s)%nat then (inl (setContents (dy_contents s) d), None)
      else
        match marshal (dy_contents s) with
        | inr e => (inl (setContents empty d), Some e)
        | inl data => let '(c, err) := unmarshal data in (inl (setContents c d), err)
        end
  end.
End Copy.

(** ** Servers from descriptors *)

(** The decoder, the linker and the file system are parameters; the server starts from
    the parsed set and the linked files. *)
Definition serverFromRawBytes {Files} (unmarshal : string -> FileDescriptorSet + string) (newFiles : FileDescriptorSet -> Files + string)
    (data : string) : Outcome (ParsedDescriptor * Files) :=
  match unmarshal data with
  | inr e => Err ("unmarshal FileDescriptorSet: " +:+ e)
  | inl fds =>
      parsed ← parseFileDescriptorSet fds;
      match newFiles fds with
      | inr e => Err ("build file descriptors: " +:+ e)
      | inl files => Ok (parsed, files)
      end
  end.
Definition ServerFromDescriptor {Files} (readFile : string -> string + string) (unmarshal : string -> FileDescriptorSet + string)
    (newFiles : FileDescriptorSet -> Files + string) (path : string) : Outcome (ParsedDescriptor * Files) :=
  match readFile path with
  | inr e => Err e
  | inl data => serverFromRawBytes unmarshal newFiles data
  end.
End Serve.

(** ** What serving guarantees *)
Import Serve.

(** *** Projections *)

(** The results in the order they were sent. *)
Definition results (evs : list Event) : list Result := omap (fun ev => match ev with Finished _ r => Some r | _ => None end) evs.
Definition stopped (s : Serving) : Prop := Forall is_Some (sv_results s).
Definition callerEvent (ev : Event) : Prop := ev = Received \/ ev = Returns.

Record servingInv (n : nat) (evs : list Event) (s : Serving) : Prop := {
  si_length : length (sv_results s) = n;
  si_sent : length (omap id (sv_results s)) = length (results evs);
  si_caller : exists taken, results evs = taken ++ sv_channel s /\
    match sv_caller s with
    | Waiting => taken = []
    | Draining first due => head taken = Some first /\ length taken + due = n /\ sv_canceled s = true
    | Returned first => head taken = Some first /\ length taken = n /\ sv_canceled s = true
    end
}.

Lemma sent_insert {A} (l : list (option A)) i r : l !! i = Some None -> length (omap id (<[i := Some r]> l)) = S (length (omap id l)).
Proof.
  revert i. induction l as [|[x|] l IH]; intros [|i] Hi; try done; cbn in *; [by rewrite IH|by rewrite IH].
Qed.
Lemma sent_all {A} (l : list (option A)) : Forall is_Some l <-> length (omap id l) = length l.
Proof.
  assert (length (omap id l) <= length l) as Hle by (induction l as [|[x|] l IH]; cbn; lia).
  induction l as [|[x|] l IH]; [done|..]; rewrite list.Forall_cons; cbn in *.
  - assert (length (omap id l) <= length l) as Hl by lia. rewrite (IH Hl). split; [intros [_ ?]; lia|]. intros. split; [by eexists|lia].
  - split; [by intros [[? ?] _]|]. assert (length (omap id l) <= length l) by (clear; induction l as [|[x|] l IH]; cbn; lia). lia.
Qed.
Lemma servingInv_start n : servingInv n [] (start n).
Proof.
  constructor; cbn; [by rewrite length_replicate| |by exists []]. induction n as [|n IH]; [done|exact IH].
Qed.
Lemma results_app evs more : results (evs ++ more) = results evs ++ results more.
Proof. apply omap_app. Qed.

Lemma servingInv_step n evs s ev s' : 1 <= n -> servingInv n evs s -> step s ev = Some s' -> servingInv n (evs ++ [ev]) s'.
Proof.
  intros Hn [Hlen Hsent (taken&Htaken&Hcaller)] Hs. destruct s as [rs channel canceled caller]. cbn in *. unfold step in Hs. cbn in Hs. destruct ev as [i r| | |].
  - destruct (rs !! i) as [[?|]|] eqn:Hi; try discriminate. injection Hs as <-. constructor; cbn.
    + by rewrite length_insert.
    + rewrite sent_insert, Hsent, results_app, length_app by done. cbn. lia.
    + exists taken. rewrite results_app, Htaken, <- app_assoc. done.
  - injection Hs as <-. constructor; cbn; rewrite ?results_app, ?app_nil_r; [done..|]. exists taken. destruct caller; naive_solver.
  - destruct channel as [|r channel]; [discriminate|]. destruct caller as [|first [|due]|first]; try discriminate; injection Hs as <-;
      (constructor; cbn; rewrite ?results_app, ?app_nil_r; [done..|]).
    + subst taken. exists [r]. rewrite Htaken. split; [done|]. split_and!; [done|cbn; lia|done].
    + exists (taken ++ [r]). rewrite Htaken, <- app_assoc. split; [done|]. destruct Hcaller as (Hf&Hd&Hc). rewrite length_app. cbn.
      split_and!; [by destruct taken|lia|done].
  - destruct caller as [|first [|due]|first]; try discriminate. injection Hs as <-. constructor; cbn; rewrite ?results_app, ?app_nil_r; [done..|].
    exists taken. split; [done|]. destruct Hcaller as (?&?&?). split_and!; [done|lia|done].
Qed.
Lemma exec_app s evs more : exec s (evs ++ more) = exec s evs ≫= fun s' => exec s' more.
Proof. revert s. induction evs as [|ev evs IH]; intros s; [done|]. cbn. destruct (step s ev); [apply IH|done]. Qed.
Lemma servingInv_exec n evs more s s' : 1 <= n -> servingInv n evs s -> exec s more = Some s' -> servingInv n (evs ++ more) s'.
Proof.
  intros Hn. revert evs s. induction more as [|ev more IH]; intros evs s Hi He; cbn in He; [injection He as <-; by rewrite app_nil_r|].
  destruct (step s ev) as [s1|] eqn:Hs; [|discriminate]. apply (IH (evs ++ [ev]) s1) in He; [by rewrite <- app_assoc in He|by eapply servingInv_step].
Qed.

(** Once every projection has stopped the caller gets all results. *)
Lemma drains s first due : sv_caller s = Draining first due -> length (sv_channel s) = due ->
  exists more s', Forall callerEvent more /\ exec s more = Some s' /\ sv_caller s' = Returned first.
Proof.
  revert s. induction due as [|due IH]; intros [rs channel canceled caller] Hc Hl; cbn in *; subst caller.
  - exists [Returns]. eexists. split; [repeat constructor; by right|]. by split.
  - destruct channel as [|r channel]; [discriminate|]. destruct (IH (mkServing rs channel canceled (Draining first due))) as (more&s'&Hm&He&Hr); [done|by cbn in *; lia|].
    exists (Received :: more), s'. split; [constructor; [by left|done]|]. by cbn.
Qed.

(** C39: Whatever the interleaving of its projections, ServeProjections returns the first
    result that was sent, and only after every projection has stopped; from that result
    on the others are told to stop; and once they have all stopped it returns, whatever
    has happened before. *)
Theorem serve_first_result n evs s : 1 <= n -> exec (start n) evs = Some s ->
  (forall first, sv_caller s = Returned first -> head (results evs) = Some first /\ stopped s) /\
  (sv_caller s <> Waiting -> sv_canceled s = true) /\
  (stopped s -> exists more s' first, Forall callerEvent more /\ exec s more = Some s' /\ sv_caller s' = Returned first).
Proof.
  intros Hn He. apply (servingInv_exec n [] evs) in He as [Hlen Hsent (taken&Htaken&Hcaller)]; [|done|apply servingInv_start]. cbn [app] in *.
  assert (length (omap id (sv_results s)) <= length (sv_results s)) as Hle by (clear; induction (sv_results s) as [|[x|] l IH]; cbn; lia).
  assert (length (results evs) = length taken + length (sv_channel s)) as Hsum by (by rewrite Htaken, length_app).
  unfold stopped. rewrite sent_all. destruct (sv_caller s) as [|first due|first] eqn:Ec; split_and!; try done; try naive_solver.
  - intros Hall. subst taken. destruct s as [rs channel canceled caller]. cbn in *. subst caller. destruct channel as [|r channel]; [cbn in *; lia|].
    destruct (drains (mkServing rs channel true (Draining r (length rs - 1))) r (length rs - 1)) as (more&s'&Hm&He&Hr); [done|cbn [sv_channel length] in *; lia|].
    exists (Received :: more), s', r. split_and!; [constructor; [by left|done]|done|done].
  - intros Hall. destruct (drains s first due) as (more&s'&Hm&He&Hr); [done|destruct Hcaller as (_&?&_); lia|]. by exists more, s', first.
  - intros f [= <-]. destruct Hcaller as (Hf&Hd&_). rewrite Htaken. split; [by destruct taken|apply sent_all; lia].
Qed.

(** *** Sessions *)

Section Sessions.
Context (syntaxError : string -> option string) {Moment : Type}.
Context (dispatch : Moment -> Mcp.jsonRPCRequest -> Outcome (option Mcp.jsonRPCResponse)).
Notation runExec := (Serve.runExec syntaxError dispatch).
Notation runStep := (Serve.runStep syntaxError dispatch).
Notation sessionStep := (Mcp.sessionStep syntaxError dispatch).

(** What the session itself sees. *)
Definition sessionEvent (ev : @RunEvent Moment) : option Mcp.Event :=
  match ev with
  | LineScanned t line => Some (Mcp.EvLine t line)
  | CallEnds t k => Some (Mcp.EvFinish t k)
  | CallWrites k => Some (Mcp.EvWrite k)
  | _ => None
  end.
Definition sessionEvents (evs : list RunEvent) : list Mcp.Event := omap sessionEvent evs.

Lemma runStep_session ru ev o : runStep ru ev = Some o ->
  (ru' ← o; Ok (ru_session ru')) = foldOutcome sessionStep (sessionEvents [ev]) (ru_session ru).
Proof.
  intros Hs. destruct ev as [t line|err|c| |t k|k]; cbn in Hs; repeat case_match; simplify_eq; try done; cbn.
  - by destruct (Mcp.readLine _ _ _ _ _).
  - by destruct (Mcp.finishCall _ _ _ _).
Qed.
Lemma runExec_session ru evs o : runExec ru evs = Some o ->
  (ru' ← o; Ok (ru_session ru')) = foldOutcome sessionStep (sessionEvents evs) (ru_session ru).
Proof.
  revert ru. induction evs as [|ev evs IH]; intros ru He; cbn in He; [by injection He as <-|].
  change (ev :: evs) with ([ev] ++ evs). unfold sessionEvents. rewrite omap_app, foldOutcome_app. fold (sessionEvents [ev]) (sessionEvents evs).
  destruct (runStep ru ev) as [o1|] eqn:Hs; [|discriminate]. rewrite <- (runStep_session _ _ _ Hs).
  destruct o1 as [ru1| | |]; [by apply IH|by injection He as <-..].
Qed.
Lemma runExec_run evs o : runExec newRunning evs = Some o -> (ru' ← o; Ok (ru_session ru')) = Mcp.run syntaxError dispatch (sessionEvents evs).
Proof. apply runExec_session. Qed.

(** Why the loop ended. *)
Definition reason (evs : list (@RunEvent Moment)) (ru : Running) (r : Result) : Prop :=
  (exists c, ParentEnded c ∈ evs /\ ru_parent ru = Some c /\ r = Some (contextError c)) \/ ScanEnded r ∈ evs.
Definition reasoned (evs : list RunEvent) (ru : Running) : Prop :=
  (forall c, ru_parent ru = Some c -> ParentEnded c ∈ evs) /\ (forall r, ru_loop ru = Some r -> reason evs ru r).
Lemma reasoned_more evs ev ru : reasoned evs ru -> reasoned (evs ++ [ev]) ru.
Proof. unfold reasoned, reason. set_solver. Qed.
Lemma runStep_reason evs ru ev ru' : reasoned evs ru -> runStep ru ev = Some (Ok ru') -> reasoned (evs ++ [ev]) ru'.
Proof.
  intros Hr Hs. destruct ev as [t line|err|c| |t k|k]; cbn in Hs.
  - destruct (ru_loop ru) eqn:?; [done|]. injection Hs as (m&_&[= <-])%bind_Ok. by apply reasoned_more.
  - destruct (ru_loop ru) eqn:?; [done|]. injection Hs as <-. destruct Hr as [Hp _]. unfold reasoned, reason. cbn. split; [set_solver|].
    destruct (ru_parent ru) as [c|]; [|set_solver]. intros r [= <-]. left. exists c. set_solver.
  - destruct (ru_parent ru) eqn:Hp; [done|]. injection Hs as <-. destruct Hr as [_ Hl]. unfold reasoned, reason in *. cbn. rewrite Hp in Hl. set_solver.
  - destruct (ru_loop ru) eqn:?; [done|]. destruct (ru_parent ru) as [c|] eqn:Hp; [|done]. injection Hs as <-. destruct Hr as [Hr _].
    unfold reasoned, reason. cbn. rewrite ?Hp in *. split; [set_solver|]. intros r [= <-]. left. exists c. set_solver.
  - destruct (_ <$> _) as [[]|]; try done. injection Hs as (m&_&[= <-])%bind_Ok. by apply reasoned_more.
  - destruct (_ <$> _) as [[]|]; try done. injection Hs as <-. by apply reasoned_more.
Qed.
Lemma runExec_reason evs ru : runExec newRunning evs = Some (Ok ru) -> reasoned evs ru.
Proof.
  assert (forall more evs ru ru', reasoned evs ru -> runExec ru more = Some (Ok ru') -> reasoned (evs ++ more) ru') as Hall; [|intros He; by apply (Hall evs [] newRunning)].
  induction more as [|ev more IH]; intros evs' ru0 ru' Hr He; cbn in He; [injection He as <-; by rewrite app_nil_r|].
  destruct (runStep ru0 ev) as [[ru1| | |]|] eqn:Hs; try discriminate. replace (evs' ++ ev :: more) with ((evs' ++ [ev]) ++ more) by (by rewrite <- app_assoc).
  apply (IH _ ru1); [|done]. by eapply runStep_reason.
Qed.

(** A call that has not ended can take a step, and then less is left to do. *)
Definition callDue (c : Mcp.mcpInflightCall) : nat := match Mcp.c_state c with Mcp.Running => 2 | Mcp.Writing _ => 1 | Mcp.Ended => 0 end.
Definition due (ru : Running) : nat := list_sum (map callDue (Mcp.calls (ru_session ru))).
Lemma due_alter f k l c : l !! k = Some c -> callDue (f c) < callDue c -> list_sum (map callDue (alter f k l)) < list_sum (map callDue l).
Proof.
  revert k. induction l as [|x l IH]; intros [|k] Hk Hf; [done..| |].
  - injection Hk as ->. by apply Nat.add_lt_mono_r.
  - by apply Nat.add_lt_mono_l, (IH k).
Qed.
Lemma first_due (l : list Mcp.mcpInflightCall) : forallb callEnded l = false -> exists k c, l !! k = Some c /\ callEnded c = false.
Proof.
  induction l as [|x l IH]; [done|]. cbn. destruct (callEnded x) eqn:E; [|intros _; by exists 0, x]. intros (k&c&Hk&Hc)%IH. by exists (S k), c.
Qed.
Lemma updateCall_request k f m j : (forall c, Mcp.c_request (f c) = Mcp.c_request c) ->
  Mcp.c_request <$> Mcp.calls (Mcp.updateCall k f m) !! j = Mcp.c_request <$> Mcp.calls m !! j.
Proof. intros Hf. rewrite lookup_updateCall. destruct (decide (j = k)); [|done]. destruct (Mcp.calls m !! j); cbn; [by rewrite Hf|done]. Qed.
Definition callEvent (result : nat -> Moment) (ev : RunEvent) : Prop := exists k, ev = CallEnds (result k) k \/ ev = CallWrites k.
Lemma session_returns result ru r : ru_loop ru = Some r -> exists more, Forall (callEvent result) more /\
  match runExec ru more with
  | Some (Ok ru') => returned ru' = Some r
  | Some o => exists k c, Mcp.c_request <$> Mcp.calls (ru_session ru) !! k = Some (Mcp.c_request c) /\ failure o = failure (dispatch (result k) (Mcp.c_request c))
  | None => False
  end.
Proof.
  remember (due ru) as n eqn:Hn. revert ru Hn. induction n as [n IH] using lt_wf_ind. intros ru -> Hl.
  destruct (forallb callEnded (Mcp.calls (ru_session ru))) eqn:Hf.
  { exists []. split; [done|]. cbn. unfold returned. rewrite Hl. cbn. by rewrite Hf. }
  destruct (first_due _ Hf) as (k&c&Hk&Hc).
  assert (exists ev o, callEvent result ev /\ runStep ru ev = Some o /\
    match o with
    | Ok ru1 => due ru1 < due ru /\ ru_loop ru1 = Some r /\ forall j, Mcp.c_request <$> Mcp.calls (ru_session ru1) !! j = Mcp.c_request <$> Mcp.calls (ru_session ru) !! j
    | failed => failure failed = failure (dispatch (result k) (Mcp.c_request c))
    end) as (ev&o&Hev&Hs&Ho).
  { unfold callEnded in Hc. destruct (Mcp.c_state c) as [|resp|] eqn:Hst; [| |done].
    - exists (CallEnds (result k) k). cbn. rewrite Hk. cbn. rewrite Hst. unfold Mcp.finishCall. rewrite Hk, Hst.
      eexists. split_and!; [exists k; by left|done|]. destruct (dispatch (result k) (Mcp.c_request c)) as [resp| | |]; [|done..]. cbn.
      split_and!; [|done|intros j; apply updateCall_request; done]. apply (due_alter _ _ _ c Hk). unfold callDue. rewrite Hst. cbn.
      destruct resp; [destruct (Mcp.c_canceled c)|]; cbn; lia.
    - exists (CallWrites k). cbn. rewrite Hk. cbn. rewrite Hst. unfold Mcp.writeCall. rewrite Hk, Hst.
      eexists. split_and!; [exists k; by right|done|]. cbn.
      split_and!; [|done|intros j; apply updateCall_request; done]. apply (due_alter _ _ _ c Hk). unfold callDue. rewrite Hst. cbn. lia. }
  destruct o as [ru1| | |].
  2-4: exists [ev]; split; [by repeat constructor|]; cbn [Serve.runExec]; rewrite Hs; exists k, c; split; [by rewrite Hk|done].
  destruct Ho as (Hd&Hl1&Hreq). destruct (IH (due ru1) Hd ru1 eq_refl Hl1) as (more&Hm&He). exists (ev :: more). split; [by constructor|].
  cbn [Serve.runExec]. rewrite Hs. destruct (Serve.runExec _ _ ru1 more) as [[]|]; [done|..|done]; destruct He as (j&c'&Hj&He); exists j, c'; by rewrite <- Hreq.
Qed.
End Sessions.

Section Served.
Context `{CodeNames} `{MetadataLib} (badRequest : string -> string -> option (string * string)) (decodeDetail : string * string -> Errors.Detail).
Context {Message : Type} (newRequest : Server.Tool -> Message + GoError) (unmarshalJSON : string -> Message -> Message + string).
Context (marshalIndent : Message -> string + string).
Context {UI SI HP MM : Type} (s : @Server.Server UI SI HP MM) (paramsError : string -> string) (syntaxError : string -> option string).
Notation dispatch := (Mcp.dispatch s paramsError badRequest decodeDetail newRequest unmarshalJSON marshalIndent).
Notation runExec := (Serve.runExec syntaxError dispatch).
Notation panics := (McpSpec.panics badRequest decodeDetail newRequest unmarshalJSON marshalIndent s).
Notation dispatch_id := (McpSpec.dispatch_id badRequest decodeDetail newRequest unmarshalJSON marshalIndent s paramsError).
Notation dispatch_failure := (McpSpec.dispatch_failure badRequest decodeDetail newRequest unmarshalJSON marshalIndent s paramsError).

(** What has been written when a session returns. *)
Lemma returned_answers evs ru r : runExec newRunning evs = Some (Ok ru) -> returned ru = Some r ->
  length (Mcp.output (ru_session ru)) + length (List.filter Mcp.c_canceled (Mcp.calls (ru_session ru)))
    = list_sum (map (owed syntaxError) (sessionEvents evs)) /\
  (forall k c, Mcp.calls (ru_session ru) !! k = Some c -> Mcp.c_canceled c = false ->
    exists resp, answers k (ru_session ru) = [resp] /\ Mcp.rs_id resp = Mcp.rq_id (Mcp.c_request c)).
Proof.
  intros He Hr. pose proof (runExec_run _ _ _ _ He) as Hs. cbn in Hs. symmetry in Hs.
  destruct (run_answers syntaxError dispatch dispatch_id _ _ Hs) as [Hcount Hsettled]. unfold returned in Hr.
  destruct (ru_loop ru) as [r'|]; [|done]. cbn in Hr. destruct (forallb callEnded _) eqn:Hf; [|done].
  assert (forall k c, Mcp.calls (ru_session ru) !! k = Some c -> unanswered c = Mcp.c_canceled c) as Hidle.
  { intros k c Hk. rewrite forallb_forall in Hf. specialize (Hf c). unfold unanswered, callEnded in *.
    destruct (Mcp.c_state c); [..|done]; by discriminate (Hf (proj1 (list_elem_of_In _ _) (list_elem_of_lookup_2 _ _ _ Hk))). }
  split.
  - rewrite <- Hcount. f_equal. unfold pending. f_equal. apply List.filter_ext_in. intros c (k&Hk)%list_elem_of_In%list_elem_of_lookup.
    symmetry. by apply (Hidle k).
  - intros k c Hk Hc. specialize (Hsettled k c Hk). unfold settled in Hsettled. by rewrite (Hidle k c Hk), Hc in Hsettled.
Qed.

(** C40: a session returns only when nothing of it is left to do, and it does return.  When
    it has returned, every line that must be answered is answered, but for the calls the
    client cancelled; every other call is answered exactly once, with its identifier, even
    when the context ended first; and the result is the context's error or the scanner's.
    Once the loop has ended, the steps of the calls are enough for it to return, whatever
    they give.  The one exception is a request it has read whose tool fails with an error
    that has a detail whose JSON is null, which panics. *)
Theorem session_drains evs :
  match runExec newRunning evs with
  | None => True
  | Some (Ok ru) =>
      (forall r, returned ru = Some r ->
        length (Mcp.output (ru_session ru)) + length (List.filter Mcp.c_canceled (Mcp.calls (ru_session ru)))
          = list_sum (map (owed syntaxError) (sessionEvents evs)) /\
        (forall k c, Mcp.calls (ru_session ru) !! k = Some c -> Mcp.c_canceled c = false ->
          exists resp, answers k (ru_session ru) = [resp] /\ Mcp.rs_id resp = Mcp.rq_id (Mcp.c_request c)) /\
        reason evs ru r) /\
      (forall r result, ru_loop ru = Some r -> exists more, Forall (callEvent result) more /\
        match runExec ru more with
        | Some (Ok ru') => returned ru' = Some r
        | Some (Panic _) => exists k req, reads syntaxError (sessionEvents evs) req /\ panics (result k) req
        | _ => False
        end)
  | Some (Panic _) => exists h req, reads syntaxError (sessionEvents evs) req /\ panics h req
  | Some _ => False
  end.
Proof.
  destruct (runExec newRunning evs) as [o|] eqn:He; [|done]. pose proof (runExec_run _ _ _ _ He) as Hs.
  pose proof (run_failure syntaxError dispatch dispatch_id (sessionEvents evs)) as Hfail. rewrite <- Hs in Hfail.
  destruct o as [ru|e|e|]; cbn in Hs, Hfail; [split| | |].
  - intros r Hr. destruct (returned_answers _ _ _ He Hr) as [H1 H2]. split_and!; [done|done|]. apply (runExec_reason _ _ _ _ He).
    unfold returned in Hr. by destruct (ru_loop ru), (forallb _ _).
  - intros r result Hl. destruct (session_returns syntaxError dispatch result ru r Hl) as (more&Hm&Hx). exists more. split; [done|].
    assert (forall k c x, Mcp.c_request <$> Mcp.calls (ru_session ru) !! k = Some (Mcp.c_request c) -> failure (dispatch (result k) (Mcp.c_request c)) = Some x ->
      (exists text, x = (None, Some text)) /\ exists k req, reads syntaxError (sessionEvents evs) req /\ panics (result k) req) as Hp.
    { intros k c x (c'&Hc'&Hreq)%fmap_Some [Ht Hd]%dispatch_failure. split; [done|]. exists k, (Mcp.c_request c). split; [|done]. rewrite Hreq.
      symmetry in Hs. apply run_requests in Hs; [|exact dispatch_id]. by eapply Forall_lookup_1 in Hs. }
    destruct (runExec ru more) as [[ru'|e|e|]|]; [done|..|done]; destruct Hx as (k&c&Hc&Hx); destruct (Hp k c _ Hc (eq_sym Hx)) as [[? ?] ?]; done.
  - destruct (Hfail _ eq_refl) as (ev&h&req&_&_&_&[[? ?] _]%dispatch_failure). done.
  - destruct (Hfail _ eq_refl) as (ev&h&req&_&_&Hr&[_ Hp]%dispatch_failure). by exists h, req.
  - destruct (Hfail _ eq_refl) as (ev&h&req&_&_&_&[[? ?] _]%dispatch_failure). done.
Qed.
End Served.

(** The scanner gives back the lines a client writes. *)
Definition lineText (line : string) : Prop := noByte LF line = true /\ HasSuffix line (str1 CR) = false /\ String.length line < maxLine.
Lemma Split_line line rest : noByte LF line = true -> Split (line +:+ String LF rest) LF = line :: Split rest LF.
Proof. intros Hn. by rewrite Split_append, Split_noByte. Qed.
Lemma dropCR_plain line : HasSuffix line (str1 CR) = false -> dropCR line = line.
Proof. unfold dropCR, TrimSuffix, TrimPrefix, HasSuffix. intros ->. by rewrite revString_involutive. Qed.
Lemma scanLines_exact lines err : Forall lineText lines ->
  scanLines (String.concat "" (map (fun line => line +:+ str1 LF) lines)) err = (lines, err).
Proof.
  intros Hl. unfold scanLines. induction Hl as [|line lines (Hn&Hc&Hs) _ IH]; [done|].
  assert (forall rest, String.concat "" (map (fun line => line +:+ str1 LF) (line :: rest)) = line +:+ String LF (String.concat "" (map (fun line => line +:+ str1 LF) rest))) as ->.
  { intros [|x rest]; cbn; [by rewrite ?append_nil_r|]. by rewrite append_assoc. }
  rewrite Split_line by done. destruct (Split _ LF) as [|p pieces] eqn:E; [by apply Split_nonnil in E|].
  change (scanned (line :: p :: pieces) err) with (if maxLine <=? String.length line then ([], Some tooLong)
    else let '(ls, e) := scanned (p :: pieces) err in (dropCR line :: ls, e)).
  rewrite IH, (proj2 (Nat.leb_gt _ _) Hs). by rewrite dropCR_plain.
Qed.

(** *** Instances *)

Lemma serve_first_result_witness :
  exists s, exec (start 2) [Finished 1 None; Received; Finished 0 (Some (plainError "closed")); Received; Returns] = Some s /\
    head (results [Finished 1 None; Received; Finished 0 (Some (plainError "closed")); Received; Returns]) = Some None /\ stopped s.
Proof.
  eexists. split; [reflexivity|]. eapply (serve_first_result 2); [lia|reflexivity|reflexivity].
Defined.
(** A call that runs when the context ends, and one whose failure cannot be rendered. *)
Definition stopping (h : Mcp.Handling string) : list RunEvent := [LineScanned placed (callLine "1"); ParentEnded CanceledError; LoopStops; CallEnds h 0].
Example session_stops :
  (ru ← default NoFuel (Serve.runExec (fun _ => None) (shopDispatch plainDetail) newRunning (stopping (gives (inr missing)) ++ [CallWrites 0]));
   Ok (returned ru, length (answers 0 (ru_session ru)))) = Ok (Some (Some (contextError CanceledError)), 1).
Proof. vm_compute. reflexivity. Qed.
Example session_panics :
  Serve.runExec (fun _ => None) (shopDispatch nullValue) newRunning (stopping (gives (inr missing))) = Some (Panic "assignment to entry in nil map").
Proof. vm_compute. reflexivity. Qed.
